(* ===== verification/_CoqProject ===== *)
-Q . S2P
Prelude.v
Bytes.v
Text.v
Hex.v
Crates.v
Ordering.v
Domain.v
Samples.v
Columns.v
Json.v
SealedPlan.v
PlatformErrors.v
JournalChain.v
Journal.v
Proposal.v
Organization.v
Simulation.v
UnixPath.v
HostFs.v
PathSafety.v
Trace.v
Apply.v
Safety.v
Planning.v
PlanDigest.v
Prepare.v
Prepared.v
Inspection.v
Observe.v
Transfer.v
ExecManifest.v
ExecEnvelope.v
ExecAuth.v
ExecClient.v
Tables.v
Store.v
ConsentStore.v
EventStore.v
StoreSteps.v
StoreJournal.v
StoreRequests.v
StoreConsents.v
StoreReads.v
StoreFacts.v
Coordinator.v
Consent.v
Forward.v
Rollback.v
Recovery.v
CoSteps.v
CoTrace.v
Asked.v
RequestStates.v
WriteAhead.v
Coordinated.v
ConsentFacts.v
RecoveryFacts.v
StoredWorld.v
StoredMoves.v
StoredRecovery.v
StoredService.v
StoredFacts.v
Framing.v
ExecHandler.v
ExecSession.v
ExecWorker.v
