(* ===== verification/Prelude.v ===== *)
(** * ZEMO: a verification library for the planning and execution of file operations

    ZEMO organises files: it catalogues them, proposes new places and names,
    simulates or prepares the proposal, freezes the steps into a plan, asks the
    user for a consent that it authenticates, and lets an isolated executor
    process carry out the plan, one request after the other, with a database
    journal and an encrypted external journal kept in step; after a crash it
    finds out what was done.  This library models that path from the approved
    proposal to the rename on disk: the part of the program in which a mistake
    loses files.

    ** The parts and the files that model them

    Foundations

    - Prelude.v: the error monad [res] of Rust's [Result], the state-and-error
      monad [SE] with its Hoare triples, machine integers, automation.
    - Bytes.v, Text.v, Hex.v, Ordering.v, Json.v: byte arrays and their big- and
      little-endian conversions; Rust's [str] as a list of Unicode scalar values
      with the standard-library functions the program uses; the hexadecimal text
      of digests; orders and sorting; [serde_json::Value].
    - Crates.v: interfaces of third-party code: blake3, serde_json, uuid.
      Samples.v: executable instances for the witnesses.
    - Domain.v and Columns.v: files, volumes, executions and their states
      (crates/domain/src/file.rs, execution.rs) and the names the database
      columns hold (crates/persistence/src/execution.rs).
    - UnixPath.v, HostFs.v and Trace.v: std::path on Unix as far as it is used;
      the queries of std::fs and of the read-only platform; the log of effects
      that safety statements are about.  PlatformErrors.v: error classes and the
      interface of safe file operations (crates/platform/src/lib.rs).

    Proposals, journals and the in-process executor

    - SealedPlan.v: drafts, sealing, integrity, approval and journal events
      (crates/domain/src/operation.rs).  Proposal.v and Organization.v: sealed
      and organisation proposals (crates/domain/src/proposal.rs).
    - JournalChain.v and Journal.v: hash chains, the in-memory, encrypted and
      locked journals (crates/operations/src/lib.rs).  Journal.v declares the
      class [DurableJournal] with its laws; Apply.v and the coordinator are
      written against it.
    - Simulation.v: the virtual file system (crates/simulation/src/lib.rs).
      PathSafety.v: virtual paths (crates/organizer/src/path_safety.rs).
    - Apply.v: plan compilation, the executor that applies a plan and the
      reconciliation after a crash (crates/operations/src/lib.rs).  Safety.v: the
      execution safety policy (operations/src/safety.rs).  Transfer.v: journalled
      cross-volume transfers (operations/src/transfer.rs).

    The execution service (crates/application/src/execution.rs)

    - Planning.v, PlanDigest.v, Prepare.v: [prepare_execution]: preflight of the
      candidates, collisions, destinations, dependencies and their order, staging
      of cycles, directories, cleanup of emptied ones, numbering, and the digest
      of the plan.  Prepared.v and Inspection.v: what the plan guarantees.
    - Observe.v: the checks before and after a mutation and the observation of
      recovery.  Coordinator.v: the journals, requests and consents the service
      keeps, written against the classes [ExecutionDatabase] and
      [ExecutorClient].  Consent.v: challenge, attestation and revalidation.
      Forward.v, Rollback.v, Recovery.v: [start_execution_at],
      [rollback_execution], [recover_execution] and the start of the service.
    - CoSteps.v: a preorder on worlds that each method respects is respected by
      every computation of the service; its instances say what a run leaves
      alone or only adds to.
    - CoTrace.v logs what the coordinator asks of its journals and the executor;
      RequestStates.v, WriteAhead.v, Coordinated.v and RecoveryFacts.v prove what
      these logs look like.  Asked.v logs what a run was answered, and the three
      calls a consent allows; ConsentFacts.v proves what was answered before them.

    The database (crates/persistence/src/execution.rs and migrations/)

    - Tables.v: rows, constraints, references, the trigger, statements and
      transactions.  Store.v: storing and reading an execution.  ConsentStore.v:
      its consent and control.  EventStore.v: its journal, the sessions and
      requests of the executor, and the records derived from them.
    - StoreSteps.v: the calls that change the database and what each leaves
      alone.  StoreJournal.v, StoreRequests.v, StoreConsents.v, StoreReads.v and
      StoreFacts.v: what holds after any sequence of calls.
    - StoredWorld.v puts this database under the coordinator, StoredMoves.v,
      StoredService.v and StoredRecovery.v compose the two, and StoredFacts.v runs
      them: an execution from its preparation to its rollback, and a recovery
      that is stuck.

    The executor protocol (crates/ipc-contracts/src/executor_v2/) and its worker

    - ExecManifest.v and ExecEnvelope.v: the frozen envelope an executor
      session is bound to, its validation and its construction from the stored
      execution (model.rs).  ExecAuth.v: keyed MACs over every message, session
      keys, consent attestations and the anti-replay verifier (auth.rs).
      Framing.v: length-prefixed frames over a stream that the operating system
      may cut and interrupt anywhere (framing.rs).  ExecClient.v: the identity of
      sessions and requests as the coordinator records them.
    - ExecHandler.v, ExecSession.v, ExecWorker.v: the executor process
      (workers/operation-executor/src/lib.rs): the handler that carries out one
      operation with its retries and postconditions, the handshake and the
      session loop, and their composition.  The loop is written against the
      class [ExecutorHandler], as the source is against the trait; ExecWorker.v
      plugs in the native handler.

    State is explicit.  A method on [&mut self] or on shared interior state is
    a function of the state monad [SE]; a loop with early returns is a
    [fold_res], a [fold_se] or a Fixpoint over the list it visits.  Where a loop
    does not follow a list it has fuel that is shown or computed to suffice: the
    session loop of the worker runs [S (input_size reader)] turns, each of which
    consumes input ([ExecSession.serve_returns]); blocks are propagated for
    [S (length candidates)] turns, each but the last blocking one candidate more;
    the order of dependencies takes one turn per candidate.  Recursion over
    directories has a depth of 4096, more than the levels a path of PATH_MAX
    bytes can name; running out is the exhausted stack, a panic.  Integers are Z
    with the saturating and checked operations of the source written out.
    Text is compared by characters and measured in UTF-8 bytes, as [str::len]
    does, or in characters, as SQL's [length] does.

    ** What is shown

    - Planning (Planning.v, Prepared.v, Inspection.v, PlanDigest.v): whatever the
      file system answers, a prepared plan is executable as it stands; on a file
      system that is only inspected its destinations are free or vacated by the
      plan, and only folders the plan empties are removed; its digest binds all
      that will be executed.
    - Coordination (WriteAhead.v, Coordinated.v, ConsentFacts.v): whatever the
      database, the journals, the executor and the file system answer, the
      service follows the write-ahead protocol: nothing is dispatched that was
      not recorded in both journals, in another order, after a failure, or
      without a genuine consent for exactly that plan, whose context this very
      run was shown to be the approved one.
    - Recovery (Recovery.v, RecoveryFacts.v, Observe.v): it only observes,
      recognises the requests that were recorded, agrees with the checks of the
      coordinator, and with one exception concludes what a request may become;
      in that case it fails and changes nothing (StoredRecovery.v).
    - The database (StoreJournal.v to StoreFacts.v): after any sequence of calls,
      failed ones included, the journal of every execution is a valid chain of
      exactly the events that were stored; an operation was asked for forward at
      most once and a rollback again only when the one before is proven to have
      changed nothing; requests only advance; a consent was consumed at most
      once, attested and in time; a prepared execution is read back as it was,
      and it is the only active one.
    - Service and database together (StoredService.v): the service changes the
      database of executions only by calls of the store, and its log of stored
      events is theirs; so over any number of starts, rollbacks, recoveries and
      restarts a mutation is dispatched forward at most once, and the journal
      that is read back is valid, complete, and names every mutation that was
      ever dispatched.
    - Applying in process (Apply.v): every file operation is preceded by the
      durable intent of its step; the report lists the steps whose operations the
      file system was asked for and did; nothing happens without gate, integrity
      and approval; resolved paths stay inside their root.
    - Simulation (Simulation.v): every item accounted for, every planned move
      leads where its item asks, none to an occupied place or to that of another.
      Safety policy (Safety.v): the exact conditions under which a root, a source
      or a destination is admitted.  Transfers (Transfer.v): one script whatever
      fails, and the original file is never lost.  Virtual paths (PathSafety.v):
      exact validation, machine paths within every limit.
    - Journals and plans (JournalChain.v, Journal.v, SealedPlan.v): the one-pass
      chain check is exact on interleaved executions (numbers, links and digests
      are spelled out), the head of a chain determines its history, what is appended is read back after reopening;
      digests bind contents.  Digest statements name the two strings that would
      collide.
    - Protocol and worker (ExecEnvelope.v to ExecWorker.v): validation is
      equivalent to a declarative predicate, envelopes contain only approved
      work; what is accepted is authentic, bound to its session, in order and
      fresh; reading does not depend on how the stream is cut; an outcome tells
      the truth; the worker always ends, and what it executes is a run of an
      abstract machine in which nothing runs twice, before its dependencies or
      after a recovery; every mutation belongs to an operation of a valid
      envelope of an authenticated session.
    - Encodings (Hex.v, Columns.v, PlatformErrors.v): canonical forms, round
      trips, classification tables.

    ** What is assumed, and what is not modelled

    Third-party functions are class parameters.  Laws of theirs are explicit
    hypotheses: serde_json reads back what it wrote ([SerdeRoundtrip],
    [JsonLaws], [PlanSerde], [PolicySerde]), uuid text is canonical ([UuidLaws]),
    the AEAD decrypts what it encrypted and base64 decodes what it encoded
    (Journal.v), lowercasing neither makes nor removes a separator
    ([LowercaseKeepsSeparators]).  No injectivity of a hash is assumed.
    Statements on what planning sees assume that inspecting the file system does
    not change it; those on the coordinator, the worker and the database quantify
    over every world, and name what they assume of a client in a hypothesis.
    SQLite is its documented behaviour: a statement that breaks a constraint
    fails and changes nothing, a transaction that is not committed leaves
    nothing, a statement reads its row as it was; it may fail at any time
    ([SqlEngine]).  The roots of a workspace are read from tables that are not
    modelled ([RootRegistry]).

    File systems, clocks and random numbers are the world of the state monad.
    Threads and locks are left out: a method of the database holds its writer
    lock from the first statement to the last, and a run of the service is one
    sequence of calls.  The Windows branches of conditional
    compilation, native system calls, the tables of the catalog, of monitoring
    and of identities, user interface, document extraction, search, remote calls
    and the proposal heuristics are not modelled: they are I/O or third-party
    code, or produce proposals whose safety does not rest on them. *)

From Stdlib Require Export ZArith Lia.
From stdpp Require Export base tactics gmap strings countable.
From stdpp Require Export list.

#[global] Set Default Goal Selector "!".
#[global] Open Scope Z_scope.

(** ** Fallible computations: Rust's [Result] *)

(** [res E A] is [Result<A, E>]: the error type comes first so that
    [res E] is a monad. *)
Inductive res (E A : Type) : Type :=
  | Ok (a : A)
  | Err (e : E).
Arguments Ok {E A} _.
Arguments Err {E A} _.

#[export] Instance res_ret {E} : MRet (res E) := fun A a => Ok a.
#[export] Instance res_bind {E} : MBind (res E) := fun A B k m =>
  match m with Ok a => k a | Err e => Err e end.
#[export] Instance res_fmap {E} : FMap (res E) := fun A B f m =>
  match m with Ok a => Ok (f a) | Err e => Err e end.
#[export] Instance res_eq_dec {E A} `{EqDecision E, EqDecision A} :
  EqDecision (res E A).
Proof. solve_decision. Defined.

(** [Result::map_err]. *)
Definition map_err {E F A} (f : E -> F) (m : res E A) : res F A :=
  match m with Ok a => Ok a | Err e => Err (f e) end.

(** [Option::ok_or]. *)
Definition ok_or {E A} (o : option A) (e : E) : res E A :=
  match o with Some a => Ok a | None => Err e end.

Definition is_ok {E A} (m : res E A) : bool :=
  match m with Ok _ => true | Err _ => false end.

Definition is_err {E A} (m : res E A) : bool := negb (is_ok m).

(** [if bad { return Err(e) }]. *)
Definition reject_if {E} (bad : bool) (e : E) : res E unit :=
  if bad then Err e else Ok tt.

(** [iter().map(f).collect::<Result<Vec<_>, _>>()]: the first error wins. *)
Fixpoint collect {E A B} (f : A -> res E B) (l : list A) : res E (list B) :=
  match l with
  | [] => Ok []
  | a :: l => b ← f a; bs ← collect f l; Ok (b :: bs)
  end.

(** A [for] loop whose body may [return Err] and threads a state. *)
Fixpoint fold_res {E A S} (f : S -> A -> res E S) (s : S) (l : list A) : res E S :=
  match l with
  | [] => Ok s
  | a :: l => s' ← f s a; fold_res f s' l
  end.

Lemma bind_Ok {E A B} (m : res E A) (k : A -> res E B) b :
  m ≫= k = Ok b <-> exists a, m = Ok a /\ k a = Ok b.
Proof. destruct m; cbn; naive_solver. Qed.

Lemma bind_Err {E A B} (m : res E A) (k : A -> res E B) e :
  m ≫= k = Err e <-> m = Err e \/ exists a, m = Ok a /\ k a = Err e.
Proof. destruct m; cbn; naive_solver. Qed.

Lemma reject_if_Ok {E} bad (e : E) u : reject_if bad e = Ok u <-> bad = false.
Proof. destruct bad, u; cbn; split; congruence. Qed.

Lemma reject_if_Err {E} bad (e e' : E) :
  reject_if bad e = Err e' <-> bad = true /\ e = e'.
Proof. destruct bad; cbn; naive_solver. Qed.

Lemma reject_if_false {E} bad (e : E) : bad = false -> reject_if bad e = Ok tt.
Proof. by intros ->. Qed.

Lemma reject_if_bind {E B} bad (e : E) (k : unit -> res E B) :
  bad = false -> reject_if bad e ≫= k = k tt.
Proof. by intros ->. Qed.

Lemma ok_or_Ok {E A} (o : option A) (e : E) a : ok_or o e = Ok a <-> o = Some a.
Proof. destruct o; cbn; split; congruence. Qed.

Lemma map_err_Ok {E F A} (f : E -> F) (m : res E A) a :
  map_err f m = Ok a <-> m = Ok a.
Proof. destruct m; cbn; split; congruence. Qed.

Lemma is_ok_true {E A} (m : res E A) : is_ok m = true <-> exists a, m = Ok a.
Proof. destruct m; cbn; naive_solver. Qed.

Lemma collect_Forall2 {E A B} (f : A -> res E B) l bs :
  collect f l = Ok bs <-> Forall2 (fun a b => f a = Ok b) l bs.
Proof.
  revert bs. induction l as [|a l IH]; intros bs; cbn.
  - split; [intros [= <-]; constructor | by intros ->%Forall2_nil_inv_l].
  - rewrite bind_Ok. split.
    + intros (b & Hb & (bs' & Hbs & [= <-])%bind_Ok). constructor; [done|].
      by apply IH.
    + intros (b & bs' & Hb & Hbs & ->)%Forall2_cons_inv_l.
      exists b. split; [done|]. apply bind_Ok. exists bs'. by rewrite IH.
Qed.

Lemma collect_app {E A B} (f : A -> res E B) l k :
  collect f (l ++ k) = (xs ← collect f l; ys ← collect f k; Ok (xs ++ ys)).
Proof.
  induction l as [|a l IH]; cbn [app collect]; [by destruct (collect f k)|].
  destruct (f a); [|done]. cbn. rewrite IH. destruct (collect f l); [|done]. cbn.
  by destruct (collect f k).
Qed.

Lemma fold_res_app {E A S} (f : S -> A -> res E S) s l k :
  fold_res f s (l ++ k) = (s' ← fold_res f s l; fold_res f s' k).
Proof.
  revert s. induction l as [|a l IH]; intros s; [done|]. cbn [app fold_res].
  destruct (f s a); [|done]. cbn. apply IH.
Qed.

(** Rule induction over a successful [fold_res]: an invariant indexed by the
    elements already consumed. *)
Lemma fold_res_ind {E A S} (f : S -> A -> res E S) (P : list A -> S -> Prop) s0 :
  P [] s0 ->
  (forall done a s s', P done s -> f s a = Ok s' -> P (done ++ [a]) s') ->
  forall l s, fold_res f s0 l = Ok s -> P l s.
Proof.
  intros H0 Hstep l s.
  enough (forall done s1, P done s1 -> fold_res f s1 l = Ok s -> P (done ++ l) s) as Hgen
    by (intros H; by apply (Hgen [] s0)).
  induction l as [|a l IH]; intros done s1 HP; cbn.
  - intros [= <-]. by rewrite app_nil_r.
  - intros (s2 & Hf & Hr)%bind_Ok. rewrite cons_middle, (assoc_L (++)).
    eapply IH; [by eapply Hstep | done].
Qed.

(** A loop whose state is a function [abs] of the elements consumed, and whose
    body accepts an element exactly when [ok] holds of it and its
    predecessors. *)
Lemma fold_res_abs {E A S} (f : S -> A -> res E S) (abs : list A -> S)
    (ok : list A -> A -> Prop) :
  (forall done a s, f (abs done) a = Ok s <-> ok done a /\ s = abs (done ++ [a])) ->
  forall l done s, fold_res f (abs done) l = Ok s <->
    (forall pre a post, l = pre ++ a :: post -> ok (done ++ pre) a) /\ s = abs (done ++ l).
Proof.
  intros Hf l. induction l as [|a l IH]; intros done s; cbn [fold_res].
  - rewrite app_nil_r. split; [intros [= <-] | intros [_ ->]; done].
    split; [by intros [] | done].
  - rewrite bind_Ok. setoid_rewrite Hf. split.
    + intros (s1 & [Hok ->] & Hr). apply IH in Hr as [Hall ->]. rewrite <- (assoc_L (++)).
      split; [|done]. intros [|b pre] c post [= -> ->]; [by rewrite app_nil_r|].
      specialize (Hall pre c post eq_refl). by rewrite <- (assoc_L (++)) in Hall.
    + intros [Hall ->]. exists (abs (done ++ [a])). split.
      * split; [|done]. specialize (Hall [] a l eq_refl). by rewrite app_nil_r in Hall.
      * apply IH. rewrite <- (assoc_L (++)). split; [|done]. intros pre c post ->.
        rewrite <- (assoc_L (++)). apply (Hall (a :: pre) c post eq_refl).
Qed.

(** The last element of a list, or an earlier one. *)
Lemma snoc_split {A} (l pre post : list A) x y :
  l ++ [x] = pre ++ y :: post ->
  (post = [] /\ pre = l /\ y = x) \/ exists post', post = post' ++ [x] /\ l = pre ++ y :: post'.
Proof.
  destruct post as [|z post _] using rev_ind; intros H.
  - left. apply app_inj_2 in H as [-> [= ->]]; done.
  - right. rewrite app_comm_cons, (assoc_L (++)) in H.
    apply app_inj_2 in H as [-> [= ->]]; [|done]. by exists post.
Qed.

(** ** Stateful fallible computations

    [SE W E A] threads a world [W] through code that may fail: the world of a
    failed run is the one the failing call left. *)
Definition SE (W E A : Type) : Type := W -> res E A * W.

#[export] Instance se_ret {W E} : MRet (SE W E) := fun A a w => (Ok a, w).
#[export] Instance se_bind {W E} : MBind (SE W E) := fun A B k m w =>
  match m w with (Ok a, w') => k a w' | (Err e, w') => (Err e, w') end.

Definition se_lift {W E A} (m : res E A) : SE W E A := fun w => (m, w).
Definition se_fail {W E A} (e : E) : SE W E A := fun w => (Err e, w).
(** [match m { Ok(..) => .., Err(..) => .. }]: the error becomes a value. *)
Definition se_try {W E F A} (m : SE W E A) : SE W F (res E A) :=
  fun w => let '(r, w') := m w in (Ok r, w').
Definition se_map_err {W E F A} (f : E -> F) (m : SE W E A) : SE W F A :=
  fun w => let '(r, w') := m w in (map_err f r, w').

(** A [for] loop with an early return, in a world. *)
Fixpoint fold_se {W E A S} (f : S -> A -> SE W E S) (s : S) (l : list A) : SE W E S :=
  match l with
  | [] => mret s
  | a :: l => s' ← f s a; fold_se f s' l
  end.

Lemma se_bind_Ok {W E A B} (m : SE W E A) (k : A -> SE W E B) w b w' :
  (m ≫= k) w = (Ok b, w') <-> exists a w1, m w = (Ok a, w1) /\ k a w1 = (Ok b, w').
Proof. cbv [mbind se_bind]. destruct (m w) as [[] ]; naive_solver. Qed.

Lemma se_bind_Err {W E A B} (m : SE W E A) (k : A -> SE W E B) w e w' :
  (m ≫= k) w = (Err e, w') <->
    m w = (Err e, w') \/ exists a w1, m w = (Ok a, w1) /\ k a w1 = (Err e, w').
Proof. cbv [mbind se_bind]. destruct (m w) as [[] ]; naive_solver. Qed.

(** What every successful run returns, whatever the world. *)
Definition returns {W E A} (m : SE W E A) (Q : A -> Prop) : Prop :=
  forall w a w', m w = (Ok a, w') -> Q a.

Lemma returns_bind {W E A B} (m : SE W E A) (k : A -> SE W E B) P Q :
  returns m P -> (forall a, P a -> returns (k a) Q) -> returns (m ≫= k) Q.
Proof. intros Hm Hk w b w' (a & w1 & Ha & Hb)%se_bind_Ok. eapply Hk; [by eapply Hm|done]. Qed.

Lemma returns_any {W E A} (m : SE W E A) : returns m (fun _ => True).
Proof. done. Qed.

Lemma returns_weaken {W E A} (m : SE W E A) (P Q : A -> Prop) :
  returns m P -> (forall a, P a -> Q a) -> returns m Q.
Proof. intros Hm HPQ w a w' H. by eapply HPQ, Hm. Qed.

Lemma returns_ret {W E A} (a : A) (Q : A -> Prop) : Q a -> returns (W := W) (E := E) (mret a) Q.
Proof. intros H w b w' [= <- _]. done. Qed.

Lemma returns_fail {W E A} (e : E) (Q : A -> Prop) : returns (W := W) (se_fail e) Q.
Proof. by intros w a w' H. Qed.

Lemma returns_lift {W E A} (m : res E A) (Q : A -> Prop) :
  (forall a, m = Ok a -> Q a) -> returns (W := W) (se_lift m) Q.
Proof. intros H w a w' [= Hm _]. by apply H. Qed.

Lemma returns_map_err {W E F A} (f : E -> F) (m : SE W E A) (Q : A -> Prop) :
  returns m Q -> returns (se_map_err f m) Q.
Proof.
  intros H w a w'. unfold se_map_err. destruct (m w) as [r w1] eqn:Hm. intros [= Hr _].
  apply map_err_Ok in Hr as ->. by eapply H.
Qed.

Lemma returns_try {W E F A} (m : SE W E A) (Q : A -> Prop) :
  returns m Q -> returns (se_try (F := F) m) (fun r => forall a, r = Ok a -> Q a).
Proof.
  intros H w r w'. unfold se_try. destruct (m w) as [r1 w1] eqn:Hm. intros [= <- _] a ->. by eapply H.
Qed.

(** A loop, with an invariant of the elements done so far. *)
Lemma returns_fold {W E A S} (f : S -> A -> SE W E S) (I : list A -> S -> Prop) l s :
  I [] s ->
  (forall done a todo s, l = done ++ a :: todo -> I done s ->
     returns (f s a) (fun s' => I (done ++ [a]) s')) ->
  returns (fold_se f s l) (I l).
Proof.
  intros H0 Hstep.
  enough (forall todo done s, l = done ++ todo -> I done s -> returns (fold_se f s todo) (I l)) as Hgen
    by (by apply (Hgen l [])).
  intros todo. induction todo as [|a todo IH]; intros done s' Hl HI; cbn [fold_se].
  - apply returns_ret. rewrite Hl, app_nil_r. done.
  - eapply returns_bind; [by apply (Hstep done a todo)|]. intros s1 H1.
    apply (IH (done ++ [a])); [by rewrite <- app_assoc|done].
Qed.

(** Hoare triples: from a world satisfying [P], the result and the world left
    satisfy [Q], errors included. *)
Definition triple {W E A} (P : W -> Prop) (m : SE W E A) (Q : res E A -> W -> Prop) : Prop :=
  forall w, P w -> Q (fst (m w)) (snd (m w)).

Lemma triple_bind {W E A B} (P : W -> Prop) (m : SE W E A) (k : A -> SE W E B) R Q :
  triple P m R ->
  (forall e w, R (Err e) w -> Q (Err e) w) ->
  (forall a, triple (R (Ok a)) (k a) Q) ->
  triple P (m ≫= k) Q.
Proof.
  intros Hm He Hk w Hw. specialize (Hm w Hw). cbv [mbind se_bind].
  destruct (m w) as [[a|e] w']; cbn in *; [by apply Hk | by apply He].
Qed.

Lemma triple_weaken {W E A} (P P' : W -> Prop) (m : SE W E A) (Q Q' : res E A -> W -> Prop) :
  triple P m Q -> (forall w, P' w -> P w) -> (forall r w, Q r w -> Q' r w) -> triple P' m Q'.
Proof. intros H HP HQ w Hw. by apply HQ, H, HP. Qed.

Lemma triple_lift {W E A} (P : W -> Prop) (m : res E A) :
  triple P (se_lift m) (fun r w => r = m /\ P w).
Proof. by intros w Hw. Qed.

Lemma triple_ret {W E A} (P : W -> Prop) (a : A) :
  triple (E := E) P (mret a) (fun r w => r = Ok a /\ P w).
Proof. by intros w Hw. Qed.

(** Lifting a pure computation in front of a continuation. *)
Lemma triple_lift_bind {W E A B} (P : W -> Prop) (m : res E A) (k : A -> SE W E B) Q :
  (forall e w, m = Err e -> P w -> Q (Err e) w) ->
  (forall a, m = Ok a -> triple P (k a) Q) ->
  triple P (se_lift m ≫= k) Q.
Proof.
  intros He Hk. apply (triple_bind _ _ _ _ _ (triple_lift P m)).
  - intros e w [? ?]. by apply He.
  - intros a w [? ?]. by apply Hk.
Qed.

(** ** Machine integers

    Integers of the program are [Z]; the operations that leave the range of
    their width are written with their saturating or checked semantics. *)
Definition u8_max : Z := 2 ^ 8 - 1.
Definition u32_max : Z := 2 ^ 32 - 1.
Definition u64_max : Z := 2 ^ 64 - 1.
Definition i64_min : Z := - 2 ^ 63.
Definition i64_max : Z := 2 ^ 63 - 1.
Definition usize_max : Z := u64_max.

Definition is_u32 (x : Z) : Prop := 0 <= x <= u32_max.
Definition is_u64 (x : Z) : Prop := 0 <= x <= u64_max.
Definition is_i64 (x : Z) : Prop := i64_min <= x <= i64_max.

Definition u64_saturating_add (x y : Z) : Z := Z.min (x + y) u64_max.
Definition u64_checked_add (x y : Z) : option Z :=
  if x + y <=? u64_max then Some (x + y) else None.
Definition usize_saturating_add : Z -> Z -> Z := u64_saturating_add.
Definition usize_saturating_sub (x y : Z) : Z := Z.max (x - y) 0.
Definition i64_saturating_add (x y : Z) : Z := Z.max i64_min (Z.min (x + y) i64_max).
Definition i64_saturating_sub (x y : Z) : Z := Z.max i64_min (Z.min (x - y) i64_max).
Definition u32_try_from (x : Z) : option Z :=
  if (0 <=? x) && (x <=? u32_max) then Some x else None.
Definition u64_try_from (x : Z) : option Z :=
  if (0 <=? x) && (x <=? u64_max) then Some x else None.
Definition i64_try_from (x : Z) : option Z :=
  if (i64_min <=? x) && (x <=? i64_max) then Some x else None.

(** [Vec::len] as a machine word. *)
Definition zlen {A} (l : list A) : Z := Z.of_nat (length l).

Lemma zlen_nonneg {A} (l : list A) : 0 <= zlen l.
Proof. unfold zlen. lia. Qed.

(** ** Automation *)

Create HintDb zemo discriminated.
Create Rewrite HintDb res_ok.
Create Rewrite HintDb bools.
#[export] Hint Resolve zlen_nonneg : zemo.
#[export] Hint Rewrite @bind_Ok @reject_if_Ok @ok_or_Ok @map_err_Ok : res_ok.

#[export] Hint Rewrite orb_false_iff orb_true_iff andb_true_iff andb_false_iff
  negb_true_iff negb_false_iff bool_decide_eq_true bool_decide_eq_false
  N.ltb_lt N.ltb_ge N.leb_le N.leb_gt N.eqb_eq N.eqb_neq
  Z.ltb_lt Z.ltb_ge Z.leb_le Z.leb_gt Z.eqb_eq Z.eqb_neq Z.gtb_ltb : bools.

(** Turns boolean tests in the hypotheses into propositions. *)
Ltac bools :=
  autorewrite with bools in *;
  repeat match goal with H : _ /\ _ |- _ => destruct H end.

(** Opens one step of a successful fallible computation in the hypotheses. *)
Ltac inv_ok_step :=
  match goal with
  | H : Ok _ = Ok _ |- _ => injection H as H; subst
  | H : Err _ = Ok _ |- _ => discriminate H
  | H : mret _ = Ok _ |- _ => injection H as H; subst
  | H : _ ≫= _ = Ok _ |- _ => apply bind_Ok in H as (? & ? & ?)
  | H : reject_if _ _ = Ok ?u |- _ => apply reject_if_Ok in H; try (is_var u; destruct u)
  | H : ok_or _ _ = Ok _ |- _ => apply ok_or_Ok in H
  | H : map_err _ _ = Ok _ |- _ => apply map_err_Ok in H
  | H : (if ?b then Err _ else _) = Ok _ |- _ => destruct b eqn:?; [discriminate H|]
  | H : (if ?b then _ else Err _) = Ok _ |- _ => destruct b eqn:?; [|discriminate H]
  end.
Ltac inv_ok := repeat inv_ok_step.

(** Steps over the guards of a computation whose conditions are known to fail. *)
Ltac pass_guards :=
  repeat (rewrite reject_if_bind by (autorewrite with bools; naive_solver)).

(** The same for stateful computations. *)
Ltac inv_se_step :=
  match goal with
  | H : (Ok _, _) = (Ok _, _) |- _ => injection H as ? ?; subst
  | H : (Err _, _) = (Ok _, _) |- _ => discriminate H
  | H : (Ok _, _) = (Err _, _) |- _ => discriminate H
  | H : mret _ _ = (Ok _, _) |- _ => injection H as ? ?; subst
  | H : (_ ≫= _) _ = (Ok _, _) |- _ => apply se_bind_Ok in H as (? & ? & ? & ?)
  end.
Ltac inv_se := repeat inv_se_step.

(** Closes a goal from [is_Some o <-> is_Some o'] when the two differ. *)
Ltac opt_absurd H :=
  exfalso; first [by destruct (proj1 H); eauto | by destruct (proj2 H); eauto].
