(* ===== verification/Bytes.v ===== *)
(** * Bytes, fixed-width digests and hexadecimal text

    The byte-level layer the other files share: [u8] is the Standard Library's
    [byte], [Vec<u8>] a list of them, and [[u8; 32]] the type [bytes32] whose
    values carry their length.  The little-endian and big-endian encodings of
    machine integers that the hashing and framing code uses are here too. *)

From S2P Require Export Prelude.
From Corelib Require Export Init.Byte.
From Stdlib Require Strings.Byte.
From Stdlib Require Strings.String.

Notation bytes := (list byte).

#[export] Instance byte_eq_dec : EqDecision byte := Byte.byte_eq_dec.

Definition byte_to_Z (b : byte) : Z := Z.of_N (Byte.to_N b).
Definition byte_of_Z (z : Z) : byte :=
  default x00 (Byte.of_N (Z.to_N (z mod 256))).

Lemma byte_of_to_Z b : byte_of_Z (byte_to_Z b) = b.
Proof. by destruct b. Qed.

Lemma byte_to_Z_inj x y : byte_to_Z x = byte_to_Z y -> x = y.
Proof. intros H. by rewrite <- (byte_of_to_Z x), <- (byte_of_to_Z y), H. Qed.

#[export] Instance to_N_inj : Inj (=) (=) Byte.to_N.
Proof. intros a b H. apply byte_to_Z_inj. unfold byte_to_Z. by rewrite H. Qed.

Lemma byte_to_Z_range b : 0 <= byte_to_Z b < 256.
Proof. by destruct b. Qed.

Lemma byte_to_of_Z z : byte_to_Z (byte_of_Z z) = z mod 256.
Proof.
  unfold byte_to_Z, byte_of_Z.
  assert (0 <= z mod 256 < 256) as Hr by (apply Z.mod_pos_bound; lia).
  destruct (Byte.of_N (Z.to_N (z mod 256))) eqn:Hb; simpl.
  - apply Byte.to_of_N in Hb. rewrite Hb. lia.
  - apply Byte.of_N_None_iff in Hb. lia.
Qed.

#[export] Instance byte_countable : Countable byte :=
  inj_countable' byte_to_Z byte_of_Z byte_of_to_Z.

(** ** [[u8; N]] *)

Record barray (n : nat) : Type := BArray {
  barr : bytes;
  barr_length : bool_decide (length barr = n) = true
}.
Arguments BArray {n} _ _.
Arguments barr {n} _.
Notation bytes32 := (barray 32).

(** [Vec<u8>::try_into]: only a vector of the right length. *)
Definition barray_of (n : nat) (l : bytes) : option (barray n) :=
  match decide (bool_decide (length l = n) = true) with
  | left H => Some (BArray l H)
  | right _ => None
  end.

Lemma barray_eq {n} (x y : barray n) : barr x = barr y -> x = y.
Proof.
  destruct x as [l Hl], y as [l' Hl']; cbn. intros <-. f_equal. apply proof_irrel.
Qed.

Lemma barray_of_barr {n} (x : barray n) : barray_of n (barr x) = Some x.
Proof.
  unfold barray_of. destruct (decide _) as [H|H]; [|by destruct H, x].
  f_equal. by apply barray_eq.
Qed.

Lemma barray_of_Some n l x : barray_of n l = Some x <-> barr x = l.
Proof.
  split; [|intros <-; apply barray_of_barr].
  unfold barray_of. destruct (decide _); [|done]. by intros [= <-].
Qed.

Lemma barray_of_length n l : length l = n -> exists x, barray_of n l = Some x.
Proof.
  intros Hl. unfold barray_of. destruct (decide _) as [H|H]; [eauto|].
  destruct H. by apply bool_decide_eq_true.
Qed.

Lemma barr_len {n} (x : barray n) : length (barr x) = n.
Proof. destruct x as [l H]; cbn. by apply bool_decide_eq_true in H. Qed.

#[export] Instance barray_eq_dec {n} : EqDecision (barray n).
Proof.
  refine (fun x y => cast_if (decide (barr x = barr y))).
  - by apply barray_eq.
  - by intros ->.
Defined.

#[export] Instance barray_countable {n} : Countable (barray n) :=
  inj_countable barr (barray_of n) barray_of_barr.

(** [[b; N]]. *)
Definition fill (n : nat) (b : byte) : barray n.
Proof.
  refine (BArray (replicate n b) _). apply bool_decide_eq_true, length_replicate.
Defined.

(** ** Integer encodings *)

(** [to_le_bytes] of an [n]-byte word; negative numbers wrap (two's
    complement). *)
Fixpoint le_bytes (n : nat) (z : Z) : bytes :=
  match n with
  | O => []
  | S n => byte_of_Z z :: le_bytes n (z / 256)
  end.

Fixpoint from_le_bytes (l : bytes) : Z :=
  match l with
  | [] => 0
  | b :: l => byte_to_Z b + 256 * from_le_bytes l
  end.

Definition be_bytes (n : nat) (z : Z) : bytes := reverse (le_bytes n z).
Definition from_be_bytes (l : bytes) : Z := from_le_bytes (reverse l).

Lemma le_bytes_length n z : length (le_bytes n z) = n.
Proof. revert z. induction n as [|n IH]; intros z; cbn; [done|]. by rewrite IH. Qed.

Lemma be_bytes_length n z : length (be_bytes n z) = n.
Proof. unfold be_bytes. by rewrite length_reverse, le_bytes_length. Qed.

Lemma from_le_bytes_of n z : from_le_bytes (le_bytes n z) = z mod 256 ^ Z.of_nat n.
Proof.
  revert z. induction n as [|n IH]; intros z; cbn [le_bytes from_le_bytes].
  - by rewrite Z.mod_1_r.
  - rewrite IH, byte_to_of_Z, Nat2Z.inj_succ, Z.pow_succ_r by lia.
    rewrite Z.rem_mul_r by lia. done.
Qed.

Lemma from_be_bytes_of n z :
  0 <= z < 256 ^ Z.of_nat n -> from_be_bytes (be_bytes n z) = z.
Proof.
  intros Hz. unfold from_be_bytes, be_bytes.
  rewrite reverse_involutive, from_le_bytes_of. by apply Z.mod_small.
Qed.

Lemma from_le_bytes_range l : 0 <= from_le_bytes l < 256 ^ Z.of_nat (length l).
Proof.
  induction l as [|b l IH]; cbn [from_le_bytes length]; [lia|].
  rewrite Nat2Z.inj_succ, Z.pow_succ_r by lia.
  pose proof (byte_to_Z_range b). nia.
Qed.

Lemma from_be_bytes_range l : 0 <= from_be_bytes l < 256 ^ Z.of_nat (length l).
Proof.
  unfold from_be_bytes. pose proof (from_le_bytes_range (reverse l)) as H.
  by rewrite length_reverse in H.
Qed.

(** Eight bytes determine a [u64], and an [i64]. *)
Lemma le_bytes_8_inj_u64 x y : is_u64 x -> is_u64 y -> le_bytes 8 x = le_bytes 8 y -> x = y.
Proof.
  unfold is_u64, u64_max. intros Hx Hy H%(f_equal from_le_bytes).
  rewrite !from_le_bytes_of, !Z.mod_small in H by (cbn; lia). done.
Qed.

Lemma le_bytes_8_inj_i64 x y : is_i64 x -> is_i64 y -> le_bytes 8 x = le_bytes 8 y -> x = y.
Proof.
  unfold is_i64, i64_min, i64_max. intros Hx Hy H%(f_equal from_le_bytes).
  rewrite !from_le_bytes_of in H. change (256 ^ Z.of_nat 8) with (2 ^ 64) in H.
  assert (forall z, - 2 ^ 63 <= z <= 2 ^ 63 - 1 ->
    z mod 2 ^ 64 = z \/ z < 0 /\ z mod 2 ^ 64 = z + 2 ^ 64) as Hmod.
  { intros z Hz. destruct (decide (0 <= z)); [left; apply Z.mod_small; lia|].
    right. split; [lia|]. rewrite <- (Z.mod_small (z + 2 ^ 64) (2 ^ 64)) by lia.
    rewrite <- (Z_mod_plus_full z 1 (2 ^ 64)). f_equal; lia. }
  destruct (Hmod x Hx), (Hmod y Hy); lia.
Qed.

(** ASCII byte strings: Rust's [b"..."]. *)
Definition bstr (s : string) : bytes := String.list_byte_of_string s.
