(* ===== verification/Text.v ===== *)
(** * Text: Rust's [String] and [char]

    A [str] is the list of Unicode scalar values of a Rust string, a [char] its
    code point.  The functions of the standard library that the program calls
    on text are defined here: UTF-8 and UTF-16 lengths, splitting, trimming,
    ASCII case mapping.  The only piece left abstract is the Unicode lower-case
    table ([UnicodeCase]), of which the code relies on the ASCII part. *)

From S2P Require Export Prelude Bytes.

Notation char := N.
Notation str := (list char).

Declare Scope text_scope.
Delimit Scope text_scope with text.

(** ** UTF-8 *)

Definition byte_of_N (n : N) : byte := byte_of_Z (Z.of_N n).

Definition utf8_char (c : char) : bytes :=
  if (c <? 0x80)%N then [byte_of_N c]
  else if (c <? 0x800)%N then
    [byte_of_N (0xC0 + c / 64); byte_of_N (0x80 + c mod 64)]%N
  else if (c <? 0x10000)%N then
    [byte_of_N (0xE0 + c / 4096); byte_of_N (0x80 + c / 64 mod 64);
     byte_of_N (0x80 + c mod 64)]%N
  else
    [byte_of_N (0xF0 + c / 262144); byte_of_N (0x80 + c / 4096 mod 64);
     byte_of_N (0x80 + c / 64 mod 64); byte_of_N (0x80 + c mod 64)]%N.

(** [str::as_bytes]. *)
Definition utf8 (s : str) : bytes := concat (utf8_char <$> s).

(** [str::len]: bytes, not characters. *)
Definition len (s : str) : Z := zlen (utf8 s).

(** Decoding, used for the literals of the source. *)
Fixpoint utf8_decode (l : list N) : str :=
  match l with
  | [] => []
  | a :: l1 =>
      if (a <? 0x80)%N then a :: utf8_decode l1
      else match l1 with
      | [] => [a]
      | b :: l2 =>
          if (a <? 0xE0)%N then ((a - 0xC0) * 64 + (b - 0x80))%N :: utf8_decode l2
          else match l2 with
          | [] => [a; b]
          | c :: l3 =>
              if (a <? 0xF0)%N then
                ((a - 0xE0) * 4096 + (b - 0x80) * 64 + (c - 0x80))%N :: utf8_decode l3
              else match l3 with
              | [] => [a; b; c]
              | d :: l4 =>
                  ((a - 0xF0) * 262144 + (b - 0x80) * 4096 + (c - 0x80) * 64
                   + (d - 0x80))%N :: utf8_decode l4
              end
          end
      end
  end.

(** Unicode scalar values: what a [char] may be. *)
Definition is_scalar (c : char) : bool :=
  (c <? 0xD800)%N || ((0xE000 <=? c) && (c <? 0x110000))%N.

(** [String::from_utf8]: a byte string is accepted when it is the encoding of
    the scalar values it decodes to. *)
Definition from_utf8 (l : bytes) : option str :=
  let s := utf8_decode (Byte.to_N <$> l) in
  if forallb is_scalar s && bool_decide (utf8 s = l) then Some s else None.

(** [String::from_utf8_lossy]: every longest beginning of a character that
    does not go on is replaced by U+FFFD. *)
Definition REPLACEMENT_CHARACTER : char := 0xFFFD%N.

Definition utf8_second_ok (a b : N) : bool :=
  (if a =? 0xE0 then (0xA0 <=? b) && (b <? 0xC0)
   else if a =? 0xED then (0x80 <=? b) && (b <? 0xA0)
   else if a =? 0xF0 then (0x90 <=? b) && (b <? 0xC0)
   else if a =? 0xF4 then (0x80 <=? b) && (b <? 0x90)
   else (0x80 <=? b) && (b <? 0xC0))%N.
Definition utf8_next_ok (b : N) : bool := ((0x80 <=? b) && (b <? 0xC0))%N.

(** The number of bytes a first byte announces; 0 when it is none. *)
Definition utf8_width (a : N) : nat :=
  if (a <? 0x80)%N then 1 else if (a <? 0xC2)%N then 0 else if (a <? 0xE0)%N then 2
  else if (a <? 0xF0)%N then 3 else if (a <? 0xF5)%N then 4 else 0.

Fixpoint utf8_lossy (l : list N) : str :=
  match l with
  | [] => []
  | a :: l1 =>
      match utf8_width a, l1 with
      | 1%nat, _ => a :: utf8_lossy l1
      | 0%nat, _ | _, [] => REPLACEMENT_CHARACTER :: utf8_lossy l1
      | width, b :: l2 =>
          if negb (utf8_second_ok a b) then REPLACEMENT_CHARACTER :: utf8_lossy l1
          else match width, l2 with
          | 2%nat, _ => ((a - 0xC0) * 64 + (b - 0x80))%N :: utf8_lossy l2
          | _, [] => REPLACEMENT_CHARACTER :: utf8_lossy l2
          | _, c :: l3 =>
              if negb (utf8_next_ok c) then REPLACEMENT_CHARACTER :: utf8_lossy l2
              else match width, l3 with
              | 3%nat, _ =>
                  ((a - 0xE0) * 4096 + (b - 0x80) * 64 + (c - 0x80))%N :: utf8_lossy l3
              | _, [] => REPLACEMENT_CHARACTER :: utf8_lossy l3
              | _, d :: l4 =>
                  if negb (utf8_next_ok d) then REPLACEMENT_CHARACTER :: utf8_lossy l3
                  else ((a - 0xF0) * 262144 + (b - 0x80) * 4096 + (c - 0x80) * 64
                        + (d - 0x80))%N :: utf8_lossy l4
              end
          end
      end
  end.
Definition to_string_lossy (l : bytes) : str := utf8_lossy (Byte.to_N <$> l).

(** String literals of the source. *)
Definition lit (s : String.string) : str :=
  utf8_decode (Byte.to_N <$> bstr s).
Arguments lit : simpl never.

(** ** UTF-16 *)

(** [char::len_utf16]. *)
Definition len_utf16_char (c : char) : Z := if (c <? 0x10000)%N then 1 else 2.

(** [str::encode_utf16]. *)
Definition utf16_char (c : char) : list Z :=
  if (c <? 0x10000)%N then [Z.of_N c]
  else let d := (c - 0x10000)%N in
    [Z.of_N (0xD800 + d / 1024); Z.of_N (0xDC00 + d mod 1024)]%N.
Definition utf16 (s : str) : list Z := concat (utf16_char <$> s).

(** [encode_utf16().count()]. *)
Fixpoint len_utf16 (s : str) : Z :=
  match s with [] => 0 | c :: s => len_utf16_char c + len_utf16 s end.

Lemma len_utf16_utf16 s : len_utf16 s = zlen (utf16 s).
Proof.
  induction s as [|c s IH]; [done|]. unfold utf16, zlen in *.
  cbn [fmap list_fmap concat len_utf16]. rewrite length_app, Nat2Z.inj_add, IH.
  f_equal. unfold len_utf16_char, utf16_char. by case_match.
Qed.

Lemma len_utf16_nonneg s : 0 <= len_utf16 s.
Proof. rewrite len_utf16_utf16. apply zlen_nonneg. Qed.

Lemma len_utf16_app s t : len_utf16 (s ++ t) = len_utf16 s + len_utf16 t.
Proof. induction s as [|c s IH]; cbn [app len_utf16]; lia. Qed.

Lemma len_utf16_char_pos c : 1 <= len_utf16_char c <= 2.
Proof. unfold len_utf16_char. case_match; lia. Qed.

#[export] Hint Resolve len_utf16_nonneg : zemo.

(** ** Characters *)

(** [char::is_whitespace]: the Unicode [White_Space] property. *)
Definition is_whitespace (c : char) : bool :=
  (((9 <=? c) && (c <=? 13)) || (c =? 32) || (c =? 0x85) || (c =? 0xA0)
   || (c =? 0x1680) || ((0x2000 <=? c) && (c <=? 0x200A)) || (c =? 0x2028)
   || (c =? 0x2029) || (c =? 0x202F) || (c =? 0x205F) || (c =? 0x3000))%N.

(** [char::is_control]: the Unicode category [Cc]. *)
Definition is_control (c : char) : bool :=
  ((c <=? 0x1F) || ((0x7F <=? c) && (c <=? 0x9F)))%N.

Definition is_ascii_digit (c : char) : bool := ((48 <=? c) && (c <=? 57))%N.
Definition is_ascii_lowercase (c : char) : bool := ((97 <=? c) && (c <=? 122))%N.
Definition is_ascii_uppercase (c : char) : bool := ((65 <=? c) && (c <=? 90))%N.
Definition is_ascii_alphabetic (c : char) : bool :=
  is_ascii_lowercase c || is_ascii_uppercase c.
Definition is_ascii (c : char) : bool := (c <? 128)%N.

Definition ascii_upper_char (c : char) : char :=
  if is_ascii_lowercase c then (c - 32)%N else c.
Definition ascii_lower_char (c : char) : char :=
  if is_ascii_uppercase c then (c + 32)%N else c.

(** [str::to_ascii_uppercase], [str::eq_ignore_ascii_case]. *)
Definition to_ascii_uppercase (s : str) : str := ascii_upper_char <$> s.
Definition to_ascii_lowercase (s : str) : str := ascii_lower_char <$> s.
Definition eq_ignore_ascii_case (s t : str) : bool :=
  bool_decide (to_ascii_lowercase s = to_ascii_lowercase t).

(** [str::to_lowercase] follows the Unicode tables; on ASCII text it is the
    ASCII mapping. *)
Class UnicodeCase : Type := to_lowercase : str -> str.
Class UnicodeCaseLaws `{UnicodeCase} : Prop :=
  to_lowercase_ascii s : Forall (fun c => is_ascii c = true) s ->
    to_lowercase s = to_ascii_lowercase s.

(** The Unicode lower-casing restricted to ASCII letters, for concrete inputs. *)
Definition ascii_unicode_case : UnicodeCase := to_ascii_lowercase.

(** ** Searching, splitting and trimming *)

(** [str::contains(char)]. *)
Definition contains (c : char) (s : str) : bool := bool_decide (c ∈ s).

(** [starts_with([..])] and [ends_with([..])] with an array of characters. *)
Definition starts_with_any (cs : list char) (s : str) : bool :=
  match s with [] => false | c :: _ => bool_decide (c ∈ cs) end.
Definition ends_with_any (cs : list char) (s : str) : bool :=
  match last s with None => false | Some c => bool_decide (c ∈ cs) end.

(** [str::strip_prefix], [str::starts_with(&str)]. *)
Fixpoint strip_prefix (p s : str) : option str :=
  match p, s with
  | [], _ => Some s
  | a :: p, b :: s => if bool_decide (a = b) then strip_prefix p s else None
  | _ :: _, [] => None
  end.
Definition starts_with (p s : str) : bool := bool_decide (is_Some (strip_prefix p s)).

(** [str::split] by a character predicate: always at least one piece. *)
Fixpoint split (p : char -> bool) (s : str) : list str :=
  match s with
  | [] => [[]]
  | c :: s =>
      if p c then [] :: split p s
      else match split p s with
           | [] => [[c]]
           | piece :: pieces => (c :: piece) :: pieces
           end
  end.

(** [str::split_once(c)]: around the first occurrence. *)
Fixpoint split_once (c : char) (s : str) : option (str * str) :=
  match s with
  | [] => None
  | a :: s =>
      if bool_decide (a = c) then Some ([], s)
      else match split_once c s with
           | Some (l, r) => Some (a :: l, r)
           | None => None
           end
  end.

(** [str::rsplit_once(c)]: around the last occurrence. *)
Fixpoint rsplit_once (c : char) (s : str) : option (str * str) :=
  match s with
  | [] => None
  | a :: s =>
      match rsplit_once c s with
      | Some (l, r) => Some (a :: l, r)
      | None => if bool_decide (a = c) then Some ([], s) else None
      end
  end.

Fixpoint trim_start_matches (p : char -> bool) (s : str) : str :=
  match s with
  | [] => []
  | c :: s' => if p c then trim_start_matches p s' else s
  end.
Definition trim_end_matches (p : char -> bool) (s : str) : str :=
  reverse (trim_start_matches p (reverse s)).
Definition trim (s : str) : str :=
  trim_end_matches is_whitespace (trim_start_matches is_whitespace s).

(** [Vec<String>::join]. *)
Fixpoint join (sep : str) (l : list str) : str :=
  match l with
  | [] => []
  | [s] => s
  | s :: l => s ++ sep ++ join sep l
  end.



(** [str::contains] of a string pattern. *)
Fixpoint contains_str (p s : str) : bool :=
  starts_with p s || match s with [] => false | _ :: s => contains_str p s end.

(** ** Lemmas *)

Lemma starts_with_iff p s : starts_with p s = true <-> exists t, s = p ++ t.
Proof.
  unfold starts_with. rewrite bool_decide_eq_true. unfold is_Some.
  revert s. induction p as [|a p IH]; intros s; cbn [strip_prefix app].
  { split; eauto. }
  destruct s as [|b s]; [split; [by intros [] | by intros [? [=]]]|].
  case_bool_decide as Hab; subst.
  - rewrite IH. split; intros [t Ht]; exists t; congruence.
  - split; [by intros [] | intros [t [=]]; congruence].
Qed.

Lemma strip_prefix_Some p s t : strip_prefix p s = Some t <-> s = p ++ t.
Proof.
  revert s. induction p as [|a p IH]; intros s; cbn [strip_prefix app].
  { split; congruence. }
  destruct s as [|b s]; [done|]. case_bool_decide; subst; rewrite ?IH; split; congruence.
Qed.

Lemma contains_false c s : contains c s = false <-> c ∉ s.
Proof. unfold contains. by rewrite bool_decide_eq_false. Qed.

Lemma split_not_nil p s : split p s <> [].
Proof. destruct s as [|c s]; cbn; [done|]. destruct (p c); [done|]. by destruct (split p s). Qed.

(** No piece of a split holds a separator. *)
Lemma split_no_sep p s : Forall (Forall (fun c => p c = false)) (split p s).
Proof.
  induction s as [|c s IH]; cbn [split]; [by repeat constructor|].
  destruct (p c) eqn:Hc; [by constructor|].
  destruct (split p s) as [|x l]; [by repeat constructor|].
  inversion IH; subst. by repeat constructor.
Qed.

Lemma split_app_sep p a b c :
  p c = true -> split p (a ++ c :: b) = split p a ++ split p b.
Proof.
  intros Hc. induction a as [|x a IH]; cbn [app split]; [by rewrite Hc|].
  rewrite IH. destruct (p x); [done|]. pose proof (split_not_nil p a).
  by destruct (split p a).
Qed.

Lemma split_scalar p s :
  Forall (fun c => is_scalar c = true) s ->
  Forall (Forall (fun c => is_scalar c = true)) (split p s).
Proof.
  induction 1 as [|c s Hc _ IH]; cbn [split]; [by repeat constructor|].
  destruct (p c); [by repeat constructor|].
  destruct (split p s) as [|piece pieces]; [by repeat constructor|].
  apply Forall_cons_iff in IH as [? ?]. by repeat constructor.
Qed.

(** Text without separators is its own single piece. *)
Lemma split_single p s : Forall (fun c => p c = false) s -> split p s = [s].
Proof. induction 1 as [|c s Hc _ IH]; cbn [split]; [done|]. by rewrite Hc, IH. Qed.

Lemma split_once_None c s : split_once c s = None <-> c ∉ s.
Proof.
  induction s as [|a s IH]; cbn [split_once]; [split; [intros _; apply not_elem_of_nil | done]|].
  rewrite not_elem_of_cons. case_bool_decide; [naive_solver|].
  destruct (split_once c s) as [[]|]; naive_solver.
Qed.

Lemma split_once_Some c s l r : split_once c s = Some (l, r) -> s = l ++ c :: r /\ c ∉ l.
Proof.
  revert l. induction s as [|a s IH]; intros l; cbn [split_once]; [done|].
  case_bool_decide as Ha; [intros [= <- <-]; subst; split; [done | apply not_elem_of_nil]|].
  destruct (split_once c s) as [[l' r']|]; [|done]. intros [= <- <-].
  destruct (IH _ eq_refl) as [-> ?]. by rewrite not_elem_of_cons.
Qed.

Lemma rsplit_once_Some c s l r :
  rsplit_once c s = Some (l, r) -> s = l ++ c :: r /\ c ∉ r.
Proof.
  assert (forall s, rsplit_once c s = None -> c ∉ s) as Hnone.
  { clear. induction s as [|a s IH]; cbn [rsplit_once]; [intros _; apply not_elem_of_nil|].
    destruct (rsplit_once c s) as [[]|]; [done|]. case_bool_decide; [done|].
    intros _. rewrite not_elem_of_cons. naive_solver. }
  revert l. induction s as [|a s IH]; intros l; cbn [rsplit_once]; [done|].
  destruct (rsplit_once c s) as [[l' r']|] eqn:Hs.
  - intros [= <- <-]. by destruct (IH _ eq_refl) as [-> ?].
  - case_bool_decide; [|done]. intros [= <- <-]; subst. split; [done|]. by apply Hnone.
Qed.

Lemma ends_with_any_app cs s c : ends_with_any cs (s ++ [c]) = bool_decide (c ∈ cs).
Proof. unfold ends_with_any. by rewrite last_snoc. Qed.

Lemma utf8_char_not_nil c : utf8_char c <> [].
Proof. unfold utf8_char. by repeat case_match. Qed.

Lemma utf8_app s t : utf8 (s ++ t) = utf8 s ++ utf8 t.
Proof. unfold utf8. by rewrite fmap_app, concat_app. Qed.

Lemma utf8_nil_inv s : utf8 s = [] -> s = [].
Proof.
  destruct s as [|c s]; [done|]. unfold utf8. cbn [fmap list_fmap concat].
  intros [H _]%app_nil. by apply utf8_char_not_nil in H.
Qed.

Lemma utf8_cons c s : utf8 (c :: s) = utf8_char c ++ utf8 s.
Proof. done. Qed.

Lemma to_N_byte_of_N n : (n < 256)%N -> Byte.to_N (byte_of_N n) = n.
Proof.
  intros Hn. pose proof (byte_to_of_Z (Z.of_N n)) as H. rewrite Z.mod_small in H by lia.
  unfold byte_of_N, byte_to_Z in *. lia.
Qed.

Lemma utf8_decode_char c l :
  (c < 0x110000)%N ->
  utf8_decode ((Byte.to_N <$> utf8_char c) ++ l) = c :: utf8_decode l.
Proof.
  intros Hc. pose proof (N.div_mod c 64 ltac:(done)) as H1.
  pose proof (N.mod_lt c 64 ltac:(done)) as M1.
  pose proof (N.div_mod (c / 64) 64 ltac:(done)) as H2.
  pose proof (N.mod_lt (c / 64) 64 ltac:(done)) as M2.
  pose proof (N.div_mod (c / 4096) 64 ltac:(done)) as H3.
  pose proof (N.mod_lt (c / 4096) 64 ltac:(done)) as M3.
  assert (c / 64 / 64 = c / 4096)%N as E2 by (by rewrite N.Div0.div_div).
  assert (c / 4096 / 64 = c / 262144)%N as E3 by (by rewrite N.Div0.div_div).
  rewrite E2 in H2. rewrite E3 in H3.
  clear E2 E3. unfold utf8_char.
  generalize dependent (c / 4096 mod 64)%N; intros r3 H3 M3.
  generalize dependent (c / 64 mod 64)%N; intros r2 H2 M2.
  generalize dependent (c mod 64)%N; intros r1 H1 M1.
  generalize dependent (c / 262144)%N; generalize dependent (c / 4096)%N;
    generalize dependent (c / 64)%N; intros.
  destruct (N.ltb_spec c 0x80); [|destruct (N.ltb_spec c 0x800); [|destruct (N.ltb_spec c 0x10000)]];
    cbn [fmap list_fmap app]; rewrite !to_N_byte_of_N by lia; cbn [utf8_decode];
    repeat match goal with |- context [N.ltb ?a ?b] =>
      first [rewrite (proj2 (N.ltb_lt a b)) by lia | rewrite (proj2 (N.ltb_ge a b)) by lia] end;
    f_equal; lia.
Qed.

Lemma utf8_decode_utf8 s :
  Forall (fun c => is_scalar c = true) s -> utf8_decode (Byte.to_N <$> utf8 s) = s.
Proof.
  induction 1 as [|c s Hc _ IH]; [done|]. rewrite utf8_cons, fmap_app, utf8_decode_char, IH; [done|].
  unfold is_scalar in Hc. bools. lia.
Qed.

(** A Rust string survives the round trip through its bytes. *)
Lemma from_utf8_utf8 s : Forall (fun c => is_scalar c = true) s -> from_utf8 (utf8 s) = Some s.
Proof.
  intros Hs. unfold from_utf8. rewrite utf8_decode_utf8 by done.
  rewrite bool_decide_true by done. rewrite andb_true_r.
  replace (forallb is_scalar s) with true; [done|]. symmetry. apply forallb_forall.
  intros c Hc. rewrite Forall_forall in Hs. by apply Hs, list_elem_of_In.
Qed.

Lemma from_utf8_Some l s : from_utf8 l = Some s -> utf8 s = l.
Proof. unfold from_utf8. case_match eqn:H; intros [= <-]. bools. done. Qed.

(** ASCII characters are one byte each. *)
Lemma utf8_ascii s :
  Forall (fun c => is_ascii c = true) s -> utf8 s = byte_of_N <$> s.
Proof.
  induction 1 as [|c s Hc _ IH]; [done|]. unfold utf8 in *. cbn [fmap list_fmap concat].
  rewrite IH. unfold utf8_char. unfold is_ascii in Hc.
  change (c <? 0x80)%N with (c <? 128)%N. by rewrite Hc.
Qed.

Lemma len_ascii s : Forall (fun c => is_ascii c = true) s -> len s = zlen s.
Proof. intros H. unfold len, zlen. by rewrite utf8_ascii, length_fmap. Qed.

Lemma byte_of_N_inj_ascii c d :
  is_ascii c = true -> is_ascii d = true -> byte_of_N c = byte_of_N d -> c = d.
Proof.
  unfold is_ascii, byte_of_N. intros Hc%N.ltb_lt Hd%N.ltb_lt H%(f_equal byte_to_Z).
  rewrite !byte_to_of_Z, !Z.mod_small in H by lia. lia.
Qed.

(** Two ASCII texts with the same bytes are the same text. *)
Lemma utf8_inj_ascii s t :
  Forall (fun c => is_ascii c = true) s -> Forall (fun c => is_ascii c = true) t ->
  utf8 s = utf8 t -> s = t.
Proof.
  intros Hs Ht. rewrite !utf8_ascii by done. revert t Ht.
  induction Hs as [|c s Hc _ IH]; intros [|d t] Ht; cbn; try done.
  apply Forall_cons_iff in Ht as [Hd Ht]. intros [=]. f_equal; [|by apply IH].
  by apply byte_of_N_inj_ascii.
Qed.

(** A byte below 128 in the encoding of a scalar value is the value itself. *)
Lemma utf8_char_low_byte c b :
  is_scalar c = true -> b ∈ utf8_char c -> byte_to_Z b < 128 -> byte_to_Z b = Z.of_N c.
Proof.
  unfold is_scalar. intros Hc Hb Hlow.
  assert (forall n, (128 <= n < 256)%N -> b <> byte_of_N n) as Hno.
  { intros n Hn ->. unfold byte_of_N in Hlow. rewrite byte_to_of_Z, Z.mod_small in Hlow; lia. }
  assert (c < 0x110000)%N as Hmax by (bools; lia). clear Hc.
  pose proof (N.mod_lt c 64 ltac:(done)). pose proof (N.mod_lt (c / 64) 64 ltac:(done)).
  pose proof (N.mod_lt (c / 4096) 64 ltac:(done)).
  unfold utf8_char in Hb. destruct (N.ltb_spec c 0x80) as [Hs|Hs].
  { apply list_elem_of_singleton in Hb as ->. unfold byte_of_N.
    rewrite byte_to_of_Z, Z.mod_small; lia. }
  assert (forall m k, (c < m * k)%N -> (c / m < k)%N) as Hdiv
    by (intros m k Hk; by apply N.Div0.div_lt_upper_bound).
  pose proof (Hdiv 262144 8)%N. pose proof (Hdiv 4096 16)%N. pose proof (Hdiv 64 32)%N.
  generalize dependent (c mod 64)%N. generalize dependent (c / 64 mod 64)%N.
  generalize dependent (c / 4096 mod 64)%N. generalize dependent (c / 262144)%N.
  generalize dependent (c / 4096)%N. generalize dependent (c / 64)%N. intros.
  destruct (N.ltb_spec c 0x800); [|destruct (N.ltb_spec c 0x10000)];
    repeat (apply elem_of_cons in Hb as [Hb|Hb]; [exfalso; revert Hb; apply Hno; lia|]);
    by apply elem_of_nil in Hb.
Qed.

Lemma utf8_low_byte s b :
  Forall (fun c => is_scalar c = true) s -> b ∈ utf8 s -> byte_to_Z b < 128 ->
  Z.to_N (byte_to_Z b) ∈ s.
Proof.
  induction 1 as [|c s Hc _ IH]; [by intros []%elem_of_nil|].
  rewrite utf8_cons, elem_of_app. intros [Hb|Hb] Hlow.
  - rewrite (utf8_char_low_byte c b) by done. rewrite N2Z.id. by left.
  - right. by apply IH.
Qed.

(** UTF-8 is injective on text. *)
Lemma utf8_inj s t :
  Forall (fun c => is_scalar c = true) s -> Forall (fun c => is_scalar c = true) t ->
  utf8 s = utf8 t -> s = t.
Proof. intros Hs Ht H. by rewrite <- (utf8_decode_utf8 s), <- (utf8_decode_utf8 t), H. Qed.

(** Decoding with replacement characters: ASCII bytes stay as they are, other
    bytes give characters that are no ASCII. *)
Inductive lossy : list N -> str -> Prop :=
  | lossy_nil : lossy [] []
  | lossy_ascii a l s : (a < 0x80)%N -> lossy l s -> lossy (a :: l) (a :: s)
  | lossy_other bad l c s :
      bad <> [] -> Forall (fun b => 0x80 <= b)%N bad -> (0x80 <= c)%N -> is_scalar c = true ->
      lossy l s -> lossy (bad ++ l) (c :: s).

(** The bounds of the bytes of a character. *)
Lemma utf8_second_bounds a b w :
  utf8_width a = w -> (2 <= w)%nat -> utf8_second_ok a b = true ->
  (0x80 <= b < 0xC0 /\ 0xC2 <= a < 0xF5)%N
  /\ (w = 2%nat <-> a < 0xE0)%N /\ (w = 3%nat <-> 0xE0 <= a < 0xF0)%N
  /\ (a = 0xE0 -> 0xA0 <= b)%N /\ (a = 0xED -> b < 0xA0)%N
  /\ (a = 0xF0 -> 0x90 <= b)%N /\ (a = 0xF4 -> b < 0x90)%N.
Proof.
  unfold utf8_width, utf8_second_ok.
  destruct (N.ltb_spec a 0x80), (N.ltb_spec a 0xC2), (N.ltb_spec a 0xE0), (N.ltb_spec a 0xF0),
    (N.ltb_spec a 0xF5); intros <-; try lia; intros _;
    destruct (N.eqb_spec a 0xE0), (N.eqb_spec a 0xED), (N.eqb_spec a 0xF0), (N.eqb_spec a 0xF4);
    intros; bools; repeat split; lia.
Qed.

Lemma lossy_one a l c s :
  (0x80 <= a)%N -> (0x80 <= c)%N -> is_scalar c = true -> lossy l s -> lossy (a :: l) (c :: s).
Proof. intros. by apply (lossy_other [a]); [|repeat constructor| | |]. Qed.

Lemma utf8_lossy_spec l : lossy l (utf8_lossy l).
Proof.
  remember (length l) as n eqn:Hn. revert l Hn.
  induction n as [n IH] using (well_founded_induction lt_wf). intros [|a l1] ->; [constructor|].
  assert (forall l', (length l' <= length l1)%nat -> lossy l' (utf8_lossy l')) as Hrest
    by (intros l' Hl'; eapply IH; [|done]; cbn; lia).
  assert (utf8_width a <> 1%nat -> (0x80 <= a)%N) as Ha.
  { unfold utf8_width. destruct (N.ltb_spec a 0x80); [done|lia]. }
  assert (utf8_width a = 1%nat -> (a < 0x80)%N) as Ha1.
  { unfold utf8_width. destruct (N.ltb_spec a 0x80); [done|]. by repeat case_match. }
  cbn [utf8_lossy]. destruct (utf8_width a) as [|[|w]] eqn:Hw.
  - apply lossy_one; auto; done.
  - apply lossy_ascii; auto.
  - specialize (Ha ltac:(done)). destruct l1 as [|b l2]; [by apply lossy_one; auto|].
    destruct (utf8_second_ok a b) eqn:Hb; cbn [negb]; [|by apply lossy_one; auto].
    pose proof (utf8_second_bounds a b _ Hw ltac:(lia) Hb) as (Hbounds & H2 & H3 & Hrange).
    assert (forall l c, (0x80 <= c)%N -> is_scalar c = true -> lossy l (utf8_lossy l) ->
      lossy (a :: b :: l) (c :: utf8_lossy l)) as Hgo.
    { intros. by apply (lossy_other [a; b]); [|repeat constructor; lia| | |]. }
    destruct w as [|w].
    { apply Hgo; [lia| |apply Hrest; cbn; lia]. unfold is_scalar. bools. left. lia. }
    destruct l2 as [|c l3]; [apply Hgo; [done|done|apply Hrest; cbn; lia]|].
    destruct (utf8_next_ok c) eqn:Hc; cbn [negb];
      [|destruct w; (apply Hgo; [done|done|apply Hrest; cbn; lia])].
    unfold utf8_next_ok in Hc. bools.
    destruct w as [|w].
    { apply (lossy_other [a; b; c]); [done|repeat constructor; lia|lia| |apply Hrest; cbn; lia].
      unfold is_scalar. bools. lia. }
    destruct l3 as [|d l4].
    { by apply (lossy_other [a; b; c]); [|repeat constructor; lia| | |apply Hrest; cbn; lia]. }
    destruct (utf8_next_ok d) eqn:Hd; cbn [negb].
    2: { by apply (lossy_other [a; b; c]); [|repeat constructor; lia| | |apply Hrest; cbn; lia]. }
    unfold utf8_next_ok in Hd. bools.
    apply (lossy_other [a; b; c; d]); [done|repeat constructor; lia|lia| |apply Hrest; cbn; lia].
    unfold is_scalar. bools. lia.
Qed.

Lemma lossy_scalar l s : lossy l s -> Forall (fun c => is_scalar c = true) s.
Proof. induction 1; constructor; try done. unfold is_scalar. bools. lia. Qed.

Lemma lossy_keeps b l s :
  (b < 0x80)%N -> lossy l s ->
  length (filter (fun c => c = b) s) = length (filter (fun c => c = b) l).
Proof.
  intros Hb. induction 1 as [|a l s Ha _ IH|bad l c s _ Hbad Hc _ _ IH]; [done| |].
  - rewrite !filter_cons. case_decide; cbn; by rewrite ?IH.
  - rewrite filter_cons, decide_False by lia. rewrite filter_app, length_app, IH.
    replace (filter _ bad) with (@nil N); [done|]. symmetry.
    induction Hbad as [|x bad Hx _ IH']; [done|]. rewrite filter_cons, decide_False by lia. done.
Qed.
