(* ===== verification/Hex.v ===== *)
(** * Hexadecimal text of the executor protocol

    crates/ipc-contracts/src/executor_v2/model.rs: [encode_hex], [decode_hex],
    [decode_fixed_hex] and the fixed-width values written with them. *)

From S2P Require Export Text.

(** The protocol's validation errors; a label is the field's description. *)
Inductive ValidationError :=
  | UnsupportedSchema
  | BoundExceeded (label : str)
  | InvalidField (label : str)
  | DuplicateOrUnordered (label : str)
  | InvalidHex.

Definition HEX : str := lit "0123456789abcdef".

Definition encode_hex (l : bytes) : str :=
  l ≫= fun byte =>
    [nth (Z.to_nat (Z.shiftr (byte_to_Z byte) 4)) HEX 0%N;
     nth (Z.to_nat (Z.land (byte_to_Z byte) 0x0f)) HEX 0%N].

(** [!byte.is_ascii_digit() && !(b'a'..=b'f').contains(&byte)], negated. *)
Definition is_hex_byte (b : byte) : bool :=
  let z := byte_to_Z b in ((48 <=? z) && (z <=? 57)) || ((97 <=? z) && (z <=? 102)).

(** One digit of [u8::from_str_radix(_, 16)]. *)
Definition hex_value (b : byte) : option Z :=
  let z := byte_to_Z b in
  if (48 <=? z) && (z <=? 57) then Some (z - 48)
  else if (97 <=? z) && (z <=? 102) then Some (z - 87)
  else if (65 <=? z) && (z <=? 70) then Some (z - 55)
  else None.

Fixpoint decode_pairs (l : bytes) : res ValidationError bytes :=
  match l with
  | a :: b :: l =>
      hi ← ok_or (hex_value a) InvalidHex;
      lo ← ok_or (hex_value b) InvalidHex;
      rest ← decode_pairs l;
      Ok (byte_of_Z (hi * 16 + lo) :: rest)
  | _ => Ok []
  end.

Definition decode_hex (value : str) : res ValidationError bytes :=
  reject_if (negb (len value mod 2 =? 0)
             || existsb (fun byte => negb (is_hex_byte byte)) (utf8 value)) InvalidHex;;
  decode_pairs (utf8 value).

Definition decode_fixed_hex (value : str) : res ValidationError bytes32 :=
  reject_if (negb (len value =? 64)) InvalidHex;;
  decoded ← decode_hex value;
  (** [copy_from_slice] panics on another length; there is none. *)
  ok_or (barray_of 32 decoded) InvalidHex.

(** [FixedBytes32::from_hex] and [to_hex]; [HexBytes] and [FixedBytes32] are
    also what serde reads and writes. *)
Definition from_hex : str -> res ValidationError bytes32 := decode_fixed_hex.
Definition to_hex (self : bytes32) : str := encode_hex (barr self).

(** [FixedBytes32::is_zero]. *)
Definition is_zero (self : bytes32) : bool :=
  forallb (fun byte => bool_decide (byte = x00)) (barr self).

(** ** Lemmas *)

Lemma encode_hex_cons b l : encode_hex (b :: l) = encode_hex [b] ++ encode_hex l.
Proof. done. Qed.

Lemma encode_hex_byte_ascii b : Forall (fun c => is_ascii c = true) (encode_hex [b]).
Proof. destruct b; vm_compute; repeat constructor. Qed.

Lemma encode_hex_ascii l : Forall (fun c => is_ascii c = true) (encode_hex l).
Proof.
  induction l as [|b l IH]; [constructor|]. rewrite encode_hex_cons.
  apply Forall_app_2; [apply encode_hex_byte_ascii | done].
Qed.

Lemma encode_hex_length l : zlen (encode_hex l) = 2 * zlen l.
Proof.
  unfold zlen. induction l as [|b l IH]; [done|].
  rewrite encode_hex_cons, length_app. change (length (encode_hex [b])) with 2%nat.
  cbn [length]. lia.
Qed.

Lemma encode_hex_len l : len (encode_hex l) = 2 * zlen l.
Proof. rewrite len_ascii by apply encode_hex_ascii. apply encode_hex_length. Qed.

Lemma utf8_encode_hex_cons b l :
  utf8 (encode_hex (b :: l)) = utf8 (encode_hex [b]) ++ utf8 (encode_hex l).
Proof. by rewrite encode_hex_cons, utf8_app. Qed.

Lemma encode_hex_is_hex l : existsb (fun byte => negb (is_hex_byte byte)) (utf8 (encode_hex l)) = false.
Proof.
  induction l as [|b l IH]; [done|]. rewrite utf8_encode_hex_cons, existsb_app, IH.
  by destruct b; vm_compute.
Qed.

Lemma decode_pairs_encode l : decode_pairs (utf8 (encode_hex l)) = Ok l.
Proof.
  induction l as [|b l IH]; [done|]. rewrite utf8_encode_hex_cons.
  assert (exists c d hi lo, utf8 (encode_hex [b]) = [c; d] /\ hex_value c = Some hi
    /\ hex_value d = Some lo /\ byte_of_Z (hi * 16 + lo) = b) as (c & d & hi & lo & -> & Hc & Hd & Hb)
    by (destruct b; do 4 eexists; repeat split; vm_compute; reflexivity).
  cbn [app decode_pairs]. rewrite Hc, Hd, IH. cbn. by rewrite Hb.
Qed.

Lemma decode_hex_encode l : decode_hex (encode_hex l) = Ok l.
Proof.
  unfold decode_hex. rewrite encode_hex_len, encode_hex_is_hex, orb_false_r.
  rewrite Z.mul_comm, Z_mod_mult. apply decode_pairs_encode.
Qed.

Lemma from_hex_to_hex x : from_hex (to_hex x) = Ok x.
Proof.
  unfold from_hex, decode_fixed_hex, to_hex. rewrite encode_hex_len, decode_hex_encode.
  unfold zlen. rewrite barr_len. cbn. by rewrite barray_of_barr.
Qed.

Lemma hex_digit_value a : is_hex_byte a = true ->
  exists k, hex_value a = Some k /\ 0 <= k < 16 /\ utf8_char (nth (Z.to_nat k) HEX 0%N) = [a].
Proof.
  assert (if is_hex_byte a then exists k, hex_value a = Some k /\ 0 <= k < 16 /\
    utf8_char (nth (Z.to_nat k) HEX 0%N) = [a] else True) as H.
  { destruct a; lazymatch goal with |- if ?c then _ else _ =>
      let v := eval vm_compute in c in change c with v end;
      first [exact I | eexists; split; [vm_compute; reflexivity | split; [lia | vm_compute; reflexivity]]]. }
  intros Ha. by rewrite Ha in H.
Qed.

(** A pair of lower-case digits is the text of the byte it denotes. *)
Lemma hex_pair_canonical a b hi lo :
  is_hex_byte a = true -> is_hex_byte b = true ->
  hex_value a = Some hi -> hex_value b = Some lo ->
  utf8 (encode_hex [byte_of_Z (hi * 16 + lo)]) = [a; b].
Proof.
  intros (k & -> & Hk & Hka)%hex_digit_value (m & -> & Hm & Hmb)%hex_digit_value [= <-] [= <-].
  unfold encode_hex. cbn [mbind list_bind app]. rewrite byte_to_of_Z, Z.mod_small by lia.
  rewrite Z.shiftr_div_pow2, (Z.land_ones _ 4) by lia.
  rewrite Z.div_add_l, (Z.div_small m), Z.add_0_r by (cbn; lia).
  change (2 ^ 4) with 16. rewrite Z.add_comm, Z_mod_plus_full, Z.mod_small by lia.
  unfold utf8. cbn [fmap list_fmap concat]. by rewrite Hka, Hmb.
Qed.

Lemma decode_pairs_canonical n : forall l d,
  length l = (2 * n)%nat ->
  existsb (fun byte => negb (is_hex_byte byte)) l = false ->
  decode_pairs l = Ok d -> utf8 (encode_hex d) = l.
Proof.
  induction n as [|n IH]; intros [|a [|b l]] d Hl Hx Hd; cbn in Hl; try lia.
  { cbn in Hd. by simplify_eq. }
  cbn [existsb] in Hx. bools. cbn [decode_pairs] in Hd. inv_ok.
  rewrite utf8_encode_hex_cons, (hex_pair_canonical a b) by done.
  cbn [app]. do 2 f_equal. apply IH; [lia | done | done].
Qed.

(** Accepted hexadecimal text is the canonical text of what it decodes to. *)
Lemma decode_hex_canonical s d : decode_hex s = Ok d -> utf8 (encode_hex d) = utf8 s.
Proof.
  unfold decode_hex. intros H. inv_ok. bools. unfold len, zlen in *.
  apply (decode_pairs_canonical (length (utf8 s) / 2)); [|done|done].
  assert (Z.of_nat (length (utf8 s)) mod 2 = 0) as Hm by done.
  rewrite <- (Nat2Z.inj_mod _ 2) in Hm. apply (Nat2Z.inj _ 0) in Hm.
  pose proof (Nat.div_mod_eq (length (utf8 s)) 2). lia.
Qed.

Lemma decode_pairs_Err n : forall l e,
  (length l <= n)%nat -> decode_pairs l = Err e -> e = InvalidHex.
Proof.
  induction n as [|n IH]; intros [|a [|b l]] e Hn; cbn in *; try done; [lia|].
  destruct (hex_value a); cbn; [|by intros [= <-]]. destruct (hex_value b); cbn; [|by intros [= <-]].
  destruct (decode_pairs l) eqn:H; cbn; [done|]. intros Heq.
  apply (IH l); [lia|]. congruence.
Qed.

Lemma decode_hex_Err s e : decode_hex s = Err e -> e = InvalidHex.
Proof.
  unfold decode_hex. intros [[_ H]%reject_if_Err|(? & _ & H)]%bind_Err; [done|].
  by eapply decode_pairs_Err.
Qed.

(** ** Properties *)

(** Hexadecimal digests are canonical on the wire: what [to_hex] writes is 64
    ASCII characters that read back as the same 32 bytes, and a text is read
    as a digest only if it is, byte for byte, what [to_hex] writes for it; so
    upper-case digits, signs and wrong lengths are refused. *)
Theorem fixed_hex_canonical (x : bytes32) (s : str) :
  from_hex (to_hex x) = Ok x /\ len (to_hex x) = 64
  /\ match from_hex s with Ok y => utf8 s = utf8 (to_hex y) | Err e => e = InvalidHex end.
Proof.
  split_and!; [apply from_hex_to_hex | by unfold to_hex; rewrite encode_hex_len; unfold zlen;
    rewrite barr_len |].
  destruct (from_hex s) as [y|e] eqn:H.
  - unfold from_hex, decode_fixed_hex in H. inv_ok. apply barray_of_Some in H1.
    unfold to_hex. rewrite H1. symmetry. by apply decode_hex_canonical.
  - unfold from_hex, decode_fixed_hex in H.
    apply bind_Err in H as [[_ H]%reject_if_Err|(? & _ & H)]; [done|].
    apply bind_Err in H as [H|(d & _ & H)].
    + by apply decode_hex_Err in H.
    + destruct (barray_of 32 d); [done|]. by injection H.
Qed.
