(* ===== verification/Crates.v ===== *)
(** * Interfaces of the code outside the repository

    blake3, serde_json and uuid are third-party crates: each is a type class
    whose fields are the functions the program calls.  What a theorem relies
    on is a hypothesis of that theorem, or one of the law classes here. *)

From S2P Require Export Prelude Bytes Text.

(** ** blake3

    A [Hasher] fed with several [update]s hashes the concatenation of what it
    was fed, so both modes are functions of one byte string. *)
Class Blake3 : Type := {
  blake3_hash : bytes -> bytes32;
  blake3_keyed : bytes32 -> bytes -> bytes32
}.

(** Two given inputs with one image.  Integrity statements name the two inputs
    that would collide: no impossible injectivity is assumed of a 32-byte hash,
    and the statement is about these inputs, since some collision always
    exists. *)
Definition collides {A} (h : A -> bytes32) (x y : A) : Prop := x <> y /\ h x = h y.

Lemma equal_or_collides {A} `{EqDecision A} (h : A -> bytes32) x y :
  h x = h y -> x = y \/ collides h x y.
Proof. intros H. destruct (decide (x = y)); [by left | by right]. Qed.

(** A small concrete hash, to run the definitions on examples: sum and length
    of the input, repeated to 32 bytes. *)
Definition toy_hash (l : bytes) : bytes32 :=
  let s := foldr (fun b acc => byte_to_Z b + 3 * acc) 0 l in
  match barray_of 32 (take 32 (le_bytes 8 (s + zlen l) ++ replicate 32 x01)) with
  | Some d => d
  | None => fill 32 x00
  end.
Definition toy_blake3 : Blake3 := {|
  blake3_hash := toy_hash;
  blake3_keyed k l := toy_hash (barr k ++ l)
|}.

(** ** serde_json *)

(** [serde_json::to_vec] of a serialisable type; an error is its display text. *)
Class ToVec (A : Type) : Type := to_vec : A -> res str bytes.

(** [serde_json::from_slice]. *)
Class FromSlice (A : Type) : Type := from_slice : bytes -> res str A.

(** Reading back what was written. *)
Class SerdeRoundtrip (A : Type) `{ToVec A, FromSlice A} : Prop :=
  from_slice_to_vec (a : A) l : to_vec a = Ok l -> from_slice l = Ok a.

(** ** uuid

    A [Uuid] is its 16 bytes, ordered lexicographically. *)
Notation uuid := (barray 16).

Definition uuid_lt (u v : uuid) : bool := from_be_bytes (barr u) <? from_be_bytes (barr v).

Class UuidCrate : Type := {
  uuid_parse : str -> option uuid;
  uuid_to_string : uuid -> str
}.

Class UuidLaws `{UuidCrate} : Prop := {
  (** [Uuid::parse_str] reads the hyphenated form back. *)
  uuid_parse_to_string u : uuid_parse (uuid_to_string u) = Some u;
  (** The hyphenated form: 36 lower-case hexadecimal digits and hyphens. *)
  uuid_to_string_length u : length (uuid_to_string u) = 36%nat;
  uuid_to_string_chars u :
    Forall (fun c => is_ascii_digit c || ((97 <=? c) && (c <=? 102))%N || (c =? 45)%N = true)
      (uuid_to_string u)
}.

Lemma uuid_to_string_inj `{UuidLaws} u v : uuid_to_string u = uuid_to_string v -> u = v.
Proof.
  intros Huv. enough (Some u = Some v) by congruence.
  by rewrite <- (uuid_parse_to_string u), <- (uuid_parse_to_string v), Huv.
Qed.

Lemma uuid_text_ascii `{UuidLaws} u :
  Forall (fun c => is_ascii c = true) (uuid_to_string u).
Proof.
  eapply Forall_impl; [apply uuid_to_string_chars|]. intros c Hc.
  unfold is_ascii, is_ascii_digit in *. bools. lia.
Qed.

(** ** [std::io::Error] *)
Inductive io_error_kind := NotFound | PermissionDeniedKind | Interrupted | UnexpectedEof | OtherKind.
Record io_error := IoError { io_kind : io_error_kind; io_text : str }.
#[export] Instance io_error_kind_eq_dec : EqDecision io_error_kind.
Proof. solve_decision. Defined.
#[export] Instance io_error_eq_dec : EqDecision io_error.
Proof. solve_decision. Defined.
