(* ===== verification/Ordering.v ===== *)
(** * Orders and sorting

    The orders of [Vec<u8>], [str], tuples and uuids, and what the program uses
    of [sort_by], [sort_unstable] and [min_by_key]. *)

From stdpp Require Export sorting.
From S2P Require Export Text Crates.
#[local] Open Scope Z_scope.

(** The order of [Vec<u8>]. *)
Fixpoint bytes_leb (a b : bytes) : bool :=
  match a, b with
  | [], _ => true
  | _ :: _, [] => false
  | x :: a, y :: b =>
      if decide (x = y) then bytes_leb a b else byte_to_Z x <? byte_to_Z y
  end.

(** The order of [str] is that of its bytes. *)
Definition str_leb (a b : str) : bool := bytes_leb (utf8 a) (utf8 b).

Definition uuid_leb (u v : uuid) : bool := negb (uuid_lt v u).

(** The order of pairs. *)
Definition pair_leb {A B} `{EqDecision A} (la : A -> A -> bool) (lb : B -> B -> bool)
    (x y : A * B) : bool :=
  if decide (fst x = fst y) then lb (snd x) (snd y) else la (fst x) (fst y).

(** [sort_by] with the order [le]: a stable sort. *)
Fixpoint insert_by {A} (le : A -> A -> bool) (a : A) (l : list A) : list A :=
  match l with
  | [] => [a]
  | b :: l' => if le a b then a :: l else b :: insert_by le a l'
  end.
Definition sort_by {A} (le : A -> A -> bool) (l : list A) : list A :=
  foldr (insert_by le) [] l.

(** [min_by_key]: the first of the least elements. *)
Definition min_by {A} (le : A -> A -> bool) (l : list A) : option A :=
  match l with
  | [] => None
  | a :: l => Some (foldl (fun least b => if le least b then least else b) a l)
  end.

(** ** Total preorders *)

Class TotalPreorder {A} (le : A -> A -> bool) : Prop := {
  tp_total a b : le a b = true \/ le b a = true;
  tp_trans a b c : le a b = true -> le b c = true -> le a c = true
}.

Lemma tp_refl {A} (le : A -> A -> bool) `{TotalPreorder A le} a : le a a = true.
Proof. by destruct (tp_total a a). Qed.

Lemma tp_flip {A} (le : A -> A -> bool) `{TotalPreorder A le} a b : le a b = false -> le b a = true.
Proof. destruct (tp_total a b) as [->|]; done. Qed.

Lemma bytes_leb_refl a : bytes_leb a a = true.
Proof. induction a as [|x a IH]; [done|]. cbn. by rewrite decide_True. Qed.

Lemma bytes_leb_total a b : bytes_leb a b = true \/ bytes_leb b a = true.
Proof.
  revert b. induction a as [|x a IH]; intros [|y b]; cbn; try by eauto.
  destruct (decide (x = y)) as [->|Hne]; [rewrite decide_True by done; apply IH|].
  rewrite (decide_False (P := y = x)) by congruence. rewrite !Z.ltb_lt.
  assert (byte_to_Z x <> byte_to_Z y) by (by intros ?%byte_to_Z_inj). lia.
Qed.

Lemma bytes_leb_antisym a b : bytes_leb a b = true -> bytes_leb b a = true -> a = b.
Proof.
  revert b. induction a as [|x a IH]; intros [|y b]; cbn; try done.
  destruct (decide (x = y)) as [->|Hne].
  - rewrite decide_True by done. intros H1 H2. f_equal. by apply IH.
  - rewrite decide_False by congruence. rewrite !Z.ltb_lt. lia.
Qed.

Lemma bytes_leb_trans a b c : bytes_leb a b = true -> bytes_leb b c = true -> bytes_leb a c = true.
Proof.
  revert b c. induction a as [|x a IH]; intros [|y b] [|z c]; cbn; try done.
  repeat case_decide; subst; try done; try apply IH; rewrite ?Z.ltb_lt;
    intros; first [assumption | lia].
Qed.

#[export] Instance bytes_leb_order : TotalPreorder bytes_leb.
Proof. split; [apply bytes_leb_total|apply bytes_leb_trans]. Qed.

#[export] Instance Z_leb_order : TotalPreorder Z.leb.
Proof. split; intros *; rewrite ?Z.leb_le; lia. Qed.

(** Comparing by a key. *)
#[export] Instance key_order {A B} (le : B -> B -> bool) (key : A -> B) :
  TotalPreorder le -> TotalPreorder (fun a b => le (key a) (key b)).
Proof. intros H. split; intros *; [apply tp_total|apply tp_trans]. Qed.

#[export] Instance str_leb_order : TotalPreorder str_leb.
Proof. exact (key_order bytes_leb utf8 _). Qed.

#[export] Instance uuid_leb_order : TotalPreorder uuid_leb.
Proof.
  split; unfold uuid_leb, uuid_lt; intros *; rewrite !negb_true_iff, !Z.ltb_ge; lia.
Qed.

(** The first order must tell different values apart. *)
#[export] Instance pair_leb_order {A B} `{EqDecision A} (la : A -> A -> bool) (lb : B -> B -> bool) :
  TotalPreorder la -> (forall a a', la a a' = true -> la a' a = true -> a = a') ->
  TotalPreorder lb -> TotalPreorder (pair_leb la lb).
Proof.
  intros Ha Hanti Hb. split.
  - intros [a b] [a' b']. unfold pair_leb. cbn. repeat case_decide; try congruence;
      [apply tp_total|apply (tp_total a a')].
  - intros [a b] [a' b'] [a'' b'']. unfold pair_leb. cbn.
    repeat case_decide; subst; try congruence; eauto using tp_trans.
Qed.

(** ** Sorting *)

Section sorting.
Context {A : Type} (le : A -> A -> bool).

Lemma insert_by_perm a l : insert_by le a l ≡ₚ a :: l.
Proof.
  induction l as [|b l IH]; cbn; [done|]. destruct (le a b); [done|].
  rewrite IH. constructor.
Qed.

Lemma sort_by_perm l : sort_by le l ≡ₚ l.
Proof.
  induction l as [|a l IH]; [done|]. cbn [sort_by foldr].
  change (foldr (insert_by le) [] l) with (sort_by le l). by rewrite insert_by_perm, IH.
Qed.

Lemma sort_by_length l : length (sort_by le l) = length l.
Proof. by rewrite sort_by_perm. Qed.

Context `{TP : !TotalPreorder le}.

Lemma insert_by_sorted a l :
  StronglySorted (fun x y => le x y = true) l ->
  StronglySorted (fun x y => le x y = true) (insert_by le a l).
Proof.
  induction 1 as [|b l Hl IH Hb]; cbn; [by repeat constructor|].
  destruct (le a b) eqn:Hab; constructor.
  - by constructor.
  - constructor; [done|]. eapply Forall_impl; [exact Hb|]. intros x. by apply tp_trans.
  - done.
  - rewrite insert_by_perm. constructor; [by apply tp_flip|done].
Qed.

Lemma sort_by_sorted l : StronglySorted (fun x y => le x y = true) (sort_by le l).
Proof. induction l; cbn; [constructor|by apply insert_by_sorted]. Qed.

Lemma foldl_min a l :
  let m := foldl (fun least b => if le least b then least else b) a l in
  m ∈ a :: l /\ Forall (fun b => le m b = true) (a :: l).
Proof.
  revert a. induction l as [|b l IH]; intros a; cbn.
  { split; [by left|]. constructor; [by apply tp_refl|done]. }
  destruct (le a b) eqn:Hab.
  - destruct (IH a) as [Hin Hle]. apply Forall_cons in Hle as [Ha Hle]. split.
    + apply elem_of_cons in Hin as [->|?]; [by left|by do 2 right].
    + repeat constructor; [done| |done]. eapply tp_trans; [exact Ha|done].
  - destruct (IH b) as [Hin Hle]. apply Forall_cons in Hle as [Hb Hle]. split; [by right|].
    repeat constructor; [|done|done]. eapply tp_trans; [exact Hb|]. by apply tp_flip.
Qed.

Lemma min_by_Some l m : min_by le l = Some m -> m ∈ l /\ Forall (fun b => le m b = true) l.
Proof. destruct l as [|a l]; [done|]. intros [= <-]. apply foldl_min. Qed.
End sorting.

Lemma min_by_None {A} (le : A -> A -> bool) l : min_by le l = None <-> l = [].
Proof. by destruct l. Qed.

Lemma sorted_lookup {A} (R : A -> A -> Prop) l i j a b :
  StronglySorted R l -> (i < j)%nat -> l !! i = Some a -> l !! j = Some b -> R a b.
Proof.
  intros Hs. revert i j. induction Hs as [|x l _ IH Hx]; intros [|i] [|j] Hij Ha Hb; try done; try lia.
  - injection Ha as ->. rewrite Forall_lookup in Hx. eauto.
  - apply (IH i j); [lia|done..].
Qed.
