(* ===== verification/Domain.v ===== *)
(** * The domain crate: files, volumes, executions

    crates/domain/src: the records and enumerations that every other crate
    exchanges (file.rs, execution.rs), the states of executor requests and
    their transitions.  Identifiers (ids.rs) are newtypes over [Uuid] and are
    modelled by their value. *)

From S2P Require Export Crates.

(** ** ids.rs *)
Notation ActorId := uuid.
Notation ExecutionId := uuid.
Notation OperationStepId := uuid.
Notation OrganizationRevisionId := uuid.
Notation PlanId := uuid.
Notation ProposalId := uuid.
Notation ProposalItemId := uuid.
Notation FileId := uuid.
Notation FileVersionId := uuid.
Notation RootId := uuid.
Notation ScanId := uuid.
Notation WorkspaceId := uuid.

(** ** file.rs *)

Inductive PlatformKind := Windows | MacOs | Linux | Other.
Inductive PathEncoding := WindowsUtf16Le | UnixBytes.

Record NativePath := { np_encoding : PathEncoding; np_bytes : bytes }.

Record VolumeIdentity := {
  vi_platform : PlatformKind;
  vi_stable_identifier : str;
  vi_filesystem_type : option str;
  vi_case_sensitive : bool;
  vi_removable : bool;
  vi_local : bool
}.

Record NativeFileIdentity := {
  ni_volume : VolumeIdentity;
  ni_object_key : bytes;
  ni_parent_key : bytes;
  ni_leaf_name : NativePath;
  ni_link_count : Z;
  ni_reparse_tag : option Z
}.

Record FileFingerprint := {
  fp_native_identity : NativeFileIdentity;
  fp_byte_size : Z;
  fp_modified_at_ns : option Z;
  fp_created_at_ns : option Z;
  fp_attributes : Z;
  fp_quick_digest : option bytes32;
  fp_content_digest : option bytes32
}.

#[export] Instance PlatformKind_eq_dec : EqDecision PlatformKind.
Proof. solve_decision. Defined.
#[export] Instance PathEncoding_eq_dec : EqDecision PathEncoding.
Proof. solve_decision. Defined.
#[export] Instance NativePath_eq_dec : EqDecision NativePath.
Proof. solve_decision. Defined.
#[export] Instance VolumeIdentity_eq_dec : EqDecision VolumeIdentity.
Proof. solve_decision. Defined.
#[export] Instance NativeFileIdentity_eq_dec : EqDecision NativeFileIdentity.
Proof. solve_decision. Defined.
#[export] Instance FileFingerprint_eq_dec : EqDecision FileFingerprint.
Proof. solve_decision. Defined.

Definition stable_for_apply (fp : FileFingerprint) : bool :=
  (ni_link_count (fp_native_identity fp) =? 1)
  && bool_decide (ni_reparse_tag (fp_native_identity fp) = None)
  && bool_decide (is_Some (fp_content_digest fp)).

Inductive ReviewReason :=
  | LowConfidence | Uncalibrated | OutOfDistribution | UnsupportedFormat
  | ExtractionFailed | EncryptedContent | ReparsePoint | HardLink
  | CloudPlaceholder | NonLocalVolume | NonNtfsVolume | RemovableVolume
  | SourceChanged | DestinationConflict | InvalidPath | FileLocked
  | PermissionDenied | CrossVolume | AmbiguousRecovery.
#[export] Instance ReviewReason_eq_dec : EqDecision ReviewReason.
Proof. solve_decision. Defined.

(** ** execution.rs *)

Definition EXECUTION_PLAN_MATERIAL_VERSION : Z := 2.
Definition MAX_EXECUTION_VERIFICATION_BYTES : Z := 64 * 1024 * 1024 * 1024.
Definition EXECUTION_SAFETY_POLICY_VERSION : str := lit "execution-safety-v2".

Inductive OrganizationExecutionStatus :=
  | OesPrepared | OesAwaitingConfirmation | OesApproved | OesRunning | OesPaused
  | OesCancelled | OesCompleted | OesPartial | OesFailed | OesRecoveryRequired
  | OesRecoveryAvailable | OesRecoveryAmbiguous | OesRollingBack | OesRolledBack
  | OesRollbackPartial.

Inductive ExecutionOperationKind :=
  | EokCreateDirectory | EokRemoveDirectoryIfEmpty | EokMove | EokRename
  | EokMoveAndRename | EokInternalStage.

Inductive ExecutionOperationStatus :=
  | EosPlanned | EosPreflightOk | EosBlocked | EosRunning | EosApplied | EosFailed
  | EosSkipped | EosStale | EosRecovered | EosRollingBack | EosRolledBack
  | EosRollbackBlocked | EosRollbackFailed.

Inductive ExecutionRecoveryState :=
  | ErsRecoveryNotRequired | ErsRecoveryAvailable | ErsRecoveryRequired
  | ErsRecoveryAmbiguous.

Inductive ExecutionConsentState :=
  | EcsPending | EcsAttested | EcsConsumed | EcsExpired | EcsInvalidated.

Inductive ExecutorSessionPurpose := EspForward | EspRollback.
Inductive ExecutorRequestDirection := ErdForward | ErdRollback.

Inductive ExecutorRequestState :=
  | IntentDurable | AcknowledgedSuccess | ProvenNotApplied | RecoveryRequired
  | ProvenNotStarted | ProvenApplied | Ambiguous.

#[export] Instance OrganizationExecutionStatus_eq_dec : EqDecision OrganizationExecutionStatus.
Proof. solve_decision. Defined.
#[export] Instance ExecutionOperationKind_eq_dec : EqDecision ExecutionOperationKind.
Proof. solve_decision. Defined.
#[export] Instance ExecutionOperationStatus_eq_dec : EqDecision ExecutionOperationStatus.
Proof. solve_decision. Defined.
#[export] Instance ExecutionRecoveryState_eq_dec : EqDecision ExecutionRecoveryState.
Proof. solve_decision. Defined.
#[export] Instance ExecutionConsentState_eq_dec : EqDecision ExecutionConsentState.
Proof. solve_decision. Defined.
#[export] Instance ExecutorRequestState_eq_dec : EqDecision ExecutorRequestState.
Proof. solve_decision. Defined.

Definition blocks_new_execution (s : OrganizationExecutionStatus) : bool :=
  match s with
  | OesPrepared | OesAwaitingConfirmation | OesApproved | OesRunning | OesPaused
  | OesRecoveryRequired | OesRecoveryAvailable | OesRecoveryAmbiguous
  | OesRollingBack => true
  | _ => false
  end.

(** [ExecutorRequestState::may_transition_to]. *)
Definition may_transition_to (self next : ExecutorRequestState) : bool :=
  bool_decide (self = next)
  || match self, next with
     | IntentDurable,
       (AcknowledgedSuccess | ProvenNotApplied | RecoveryRequired
        | ProvenNotStarted | ProvenApplied | Ambiguous) => true
     | AcknowledgedSuccess, (ProvenApplied | RecoveryRequired | Ambiguous) => true
     | RecoveryRequired, (ProvenNotStarted | ProvenApplied | Ambiguous) => true
     | ProvenNotApplied, (RecoveryRequired | ProvenNotStarted) => true
     | (ProvenNotApplied | ProvenNotStarted | ProvenApplied), Ambiguous => true
     | _, _ => false
     end.

Record ExecutionRootBinding := {
  erb_canonical_path : NativePath;
  erb_display_path : str;
  erb_volume : VolumeIdentity
}.

Record ExecutionSafetyPolicyBinding := {
  espb_version : str;
  espb_maximum_rehash_bytes : Z;
  espb_allow_qualified_case_only_rename : bool;
  espb_digest_hex : str
}.

#[export] Instance ExecutionRootBinding_eq_dec : EqDecision ExecutionRootBinding.
Proof. solve_decision. Defined.
#[export] Instance ExecutionSafetyPolicyBinding_eq_dec : EqDecision ExecutionSafetyPolicyBinding.
Proof. solve_decision. Defined.

Record ExecutionConsent := {
  ec_state : ExecutionConsentState;
  ec_issued_at_unix_ms : option Z;
  ec_expires_at_unix_ms : option Z;
  ec_attested_at_unix_ms : option Z;
  ec_consumed_at_unix_ms : option Z;
  ec_invalidated_at_unix_ms : option Z;
  ec_invalidation_reason : option str;
  ec_nonce : option bytes32;
  ec_attestation_mac : option bytes32
}.

Definition ExecutionConsent_pending : ExecutionConsent := {|
  ec_state := EcsPending;
  ec_issued_at_unix_ms := None;
  ec_expires_at_unix_ms := None;
  ec_attested_at_unix_ms := None;
  ec_consumed_at_unix_ms := None;
  ec_invalidated_at_unix_ms := None;
  ec_invalidation_reason := None;
  ec_nonce := None;
  ec_attestation_mac := None
|}.

Record ApprovedExecutionPlan := {
  aep_material_version : Z;
  aep_execution_id : ExecutionId;
  aep_plan_id : PlanId;
  aep_proposal_id : ProposalId;
  aep_proposal_revision_id : OrganizationRevisionId;
  aep_proposal_revision : Z;
  aep_source_snapshot_version : ScanId;
  aep_approved_operation_ids : list ProposalItemId;
  aep_operation_count : Z;
  aep_destination_root : ExecutionRootBinding;
  aep_safety_policy : ExecutionSafetyPolicyBinding;
  aep_approval_timestamp : option str;
  aep_user_confirmed : bool;
  aep_digest_hex : str
}.

Record ExecutionOperation := {
  eo_id : OperationStepId;
  eo_execution_id : ExecutionId;
  eo_proposal_operation_id : option ProposalItemId;
  eo_kind : ExecutionOperationKind;
  eo_source_relative_path : option str;
  eo_destination_relative_path : str;
  eo_original_source_relative_path : option str;
  eo_expected_source_hash : option str;
  eo_expected_source_size : option Z;
  eo_expected_source_modified_at : option str;
  eo_live_fingerprint : option FileFingerprint;
  eo_post_fingerprint : option FileFingerprint;
  eo_preconditions : list str;
  eo_dependencies : list OperationStepId;
  eo_sequence : Z;
  eo_status : ExecutionOperationStatus;
  eo_directory_existed_before : option bool;
  eo_reason : option str;
  eo_error_code : option str;
  eo_error_message : option str;
  eo_started_at : option str;
  eo_completed_at : option str;
  eo_rolled_back_at : option str
}.

Record ExecutionSummary := {
  es_affected_files : Z; es_folders_to_create : Z; es_files_to_move : Z;
  es_files_to_rename : Z; es_files_unchanged : Z; es_conflicts : Z;
  es_needs_review : Z; es_preflight_ok : Z; es_applied : Z; es_blocked : Z;
  es_skipped : Z; es_failed : Z; es_rolled_back : Z; es_rollback_blocked : Z;
  es_rollback_failed : Z
}.

Record ExecutionSession := {
  ses_id : ExecutionId;
  ses_plan_id : PlanId;
  ses_proposal_id : ProposalId;
  ses_proposal_revision_id : OrganizationRevisionId;
  ses_proposal_revision : Z;
  ses_workspace_id : WorkspaceId;
  ses_root_id : RootId;
  ses_source_scan_id : ScanId;
  ses_status : OrganizationExecutionStatus;
  ses_recovery_state : ExecutionRecoveryState;
  ses_plan_digest_hex : str;
  ses_approval : ApprovedExecutionPlan;
  ses_consent : ExecutionConsent;
  ses_summary : ExecutionSummary;
  ses_current_operation : option str;
  ses_rollback_available : bool;
  ses_confirmation_phrase_required : bool;
  ses_created_at : str;
  ses_approved_at : option str;
  ses_started_at : option str;
  ses_completed_at : option str;
  ses_rolled_back_at : option str;
  ses_error : option str
}.

Record ExecutionDetail := {
  ed_session : ExecutionSession;
  ed_operations : list ExecutionOperation
}.
