(* ===== verification/Samples.v ===== *)
(** * Concrete instances and sample values

    Executable stand-ins for the third-party crates (a hyphenated-hex uuid
    format with its laws, a toy hash, one-value serialisers) and the sample
    records on which the witnesses of the other files run the definitions. *)

From S2P Require Export Domain Hex.

Definition hyphen : char := 45%N.

(** The hyphenated form of 16 bytes: 8-4-4-4-12 lower-case digits. *)
Definition sample_uuid_to_string (u : uuid) : str :=
  let l := barr u in
  encode_hex (take 4 l) ++ [hyphen] ++ encode_hex (take 2 (drop 4 l)) ++ [hyphen]
  ++ encode_hex (take 2 (drop 6 l)) ++ [hyphen] ++ encode_hex (take 2 (drop 8 l)) ++ [hyphen]
  ++ encode_hex (drop 10 l).

Definition sample_uuid_parse (s : str) : option uuid :=
  match decode_hex (filter (fun c => c <> hyphen) s) with
  | Ok l => barray_of 16 l
  | Err _ => None
  end.

#[local] Instance sample_uuid : UuidCrate :=
  {| uuid_parse := sample_uuid_parse; uuid_to_string := sample_uuid_to_string |}.

Lemma encode_hex_app l k : encode_hex (l ++ k) = encode_hex l ++ encode_hex k.
Proof. unfold encode_hex. apply bind_app. Qed.

Lemma encode_hex_chars l :
  Forall (fun c => is_ascii_digit c || ((97 <=? c) && (c <=? 102))%N = true) (encode_hex l).
Proof.
  induction l as [|b l IH]; [constructor|]. rewrite encode_hex_cons.
  apply Forall_app_2; [|done]. by destruct b; repeat constructor.
Qed.

Lemma filter_hyphen_hex l : filter (fun c => c <> hyphen) (encode_hex l) = encode_hex l.
Proof.
  induction (encode_hex_chars l) as [|c s Hc _ IH]; [done|].
  rewrite filter_cons_True, IH; [done|]. by intros ->.
Qed.

#[local] Instance sample_uuid_laws : UuidLaws.
Proof.
  split.
  - intros u. cbn. unfold sample_uuid_parse, sample_uuid_to_string.
    rewrite !filter_app, !filter_hyphen_hex.
    rewrite !filter_cons_False by (intros H; by apply H). rewrite !filter_nil.
    rewrite !app_nil_l, <- !encode_hex_app.
    rewrite decode_hex_encode.
    replace (take 4 (barr u) ++ _) with (barr u); [apply barray_of_barr|].
    destruct u as [l Hl]; cbn [barr]. apply bool_decide_eq_true in Hl.
    do 16 (destruct l as [|? l]; [done|]). destruct l; [done|done].
  - intros [l Hl]. cbn. unfold sample_uuid_to_string. cbn [barr].
    apply bool_decide_eq_true in Hl. do 16 (destruct l as [|? l]; [done|]). by destruct l.
  - intros u. cbn. unfold sample_uuid_to_string.
    assert (forall l, Forall (fun c => is_ascii_digit c || ((97 <=? c) && (c <=? 102))%N
      || (c =? 45)%N = true) (encode_hex l)) as H.
    { intros l. eapply List.Forall_impl; [|apply encode_hex_chars]. intros c Hc.
      apply orb_true_iff. by left. }
    repeat (apply Forall_app_2; [first [apply H | by repeat constructor]|]). apply H.
Qed.

#[local] Instance sample_blake3 : Blake3 := toy_blake3.

(** A serialiser that knows one value. *)
Definition single_to_vec {A} `{EqDecision A} (a0 : A) : ToVec A :=
  fun a => if decide (a = a0) then Ok [x7b; x7d] else Err [].
Definition single_from_slice {A} (a0 : A) : FromSlice A :=
  fun l => if decide (l = [x7b; x7d]) then Ok a0 else Err [].
Lemma single_roundtrip {A} `{EqDecision A} (a0 : A) :
  @SerdeRoundtrip A (single_to_vec a0) (single_from_slice a0).
Proof.
  intros a l. unfold to_vec, from_slice, single_to_vec, single_from_slice.
  case_decide; [|done]. intros [= <-]. by subst.
Qed.

(** ** Sample values *)

Definition uid (b : byte) : uuid := fill 16 b.

Definition sample_volume : VolumeIdentity := {|
  vi_platform := Windows;
  vi_stable_identifier := lit "volume-serial:1";
  vi_filesystem_type := Some (lit "NTFS");
  vi_case_sensitive := false;
  vi_removable := false;
  vi_local := true
|}.

Definition native (s : String.string) : NativePath :=
  {| np_encoding := UnixBytes; np_bytes := bstr s |}.

Definition sample_identity : NativeFileIdentity := {|
  ni_volume := sample_volume;
  ni_object_key := [x01];
  ni_parent_key := [x02];
  ni_leaf_name := native "source.txt";
  ni_link_count := 1;
  ni_reparse_tag := None
|}.

Definition sample_fingerprint : FileFingerprint := {|
  fp_native_identity := sample_identity;
  fp_byte_size := 10;
  fp_modified_at_ns := Some 1;
  fp_created_at_ns := Some 1;
  fp_attributes := 0;
  fp_quick_digest := None;
  fp_content_digest := Some (fill 32 x05)
|}.
