(* ===== verification/Columns.v ===== *)
(** * Execution states and the names the database stores for them

    crates/domain/src/execution.rs gives every state its column name
    ([database_name]); crates/persistence/src/execution.rs reads the columns
    back ([parse_*]).  The class [Column] is the contract between the two: what
    is written reads back, and nothing else is accepted.  The file also proves
    that the executor request states only progress towards a verdict. *)

From S2P Require Export Domain.

Inductive PersistenceError :=
  | PrSql (text : str)
  | PrWriterPoisoned
  | PrUnsupportedSchema (version : Z)
  | PrInvalidCipher
  | PrNotFound
  | PrInvalidIdentifier (text : str)
  | PrInvalidNativePath
  | PrNumericOverflow
  | PrInvalidSemanticOutput
  | PrInvalidIdentityInput
  | PrIdentityConflict
  | PrInvalidProposal
  | InvalidExecution
  | PrInvalidRule
  | PrRuleConflict
  | PrInvalidMonitoringInput.

(** A [match value { "a" => Ok(A), .., _ => Err(InvalidExecution) }]. *)
Fixpoint match_str {A} (arms : list (str * A)) (value : str) : res PersistenceError A :=
  match arms with
  | [] => Err InvalidExecution
  | (name, a) :: arms => if bool_decide (value = name) then Ok a else match_str arms value
  end.

Class Column (A : Type) : Type := {
  database_name : A -> str;
  parse_column : str -> res PersistenceError A
}.
Class ColumnLaws (A : Type) `{Column A} : Prop := {
  parse_database_name a : parse_column (database_name a) = Ok a;
  parse_column_sound value a : parse_column value = Ok a -> value = database_name a
}.

Lemma match_str_sound {A} (f : A -> str) arms value a :
  Forall (fun '(name, a) => name = f a) arms ->
  match_str arms value = Ok a -> value = f a.
Proof.
  induction 1 as [|[name b] arms Hb _ IH]; cbn [match_str]; [done|].
  case_bool_decide; [|done]. by intros [= <-]; subst.
Qed.

Ltac column_laws :=
  split;
  [ intros []; vm_compute; reflexivity
  | intros value a; apply match_str_sound;
    repeat (apply Forall_cons_2; [vm_compute; reflexivity|]); apply Forall_nil_2 ].

Definition session_status_name (s : OrganizationExecutionStatus) : str :=
  match s with
  | OesPrepared => lit "prepared"
  | OesAwaitingConfirmation => lit "awaiting_confirmation"
  | OesApproved => lit "approved"
  | OesRunning => lit "running"
  | OesPaused => lit "paused"
  | OesCancelled => lit "cancelled"
  | OesCompleted => lit "completed"
  | OesPartial => lit "partial"
  | OesFailed => lit "failed"
  | OesRecoveryRequired => lit "recovery_required"
  | OesRecoveryAvailable => lit "recovery_available"
  | OesRecoveryAmbiguous => lit "recovery_ambiguous"
  | OesRollingBack => lit "rolling_back"
  | OesRolledBack => lit "rolled_back"
  | OesRollbackPartial => lit "rollback_partial"
  end.

Definition parse_session_status : str -> res PersistenceError OrganizationExecutionStatus :=
  match_str [
    (lit "prepared", OesPrepared);
    (lit "awaiting_confirmation", OesAwaitingConfirmation);
    (lit "approved", OesApproved);
    (lit "running", OesRunning);
    (lit "paused", OesPaused);
    (lit "cancelled", OesCancelled);
    (lit "completed", OesCompleted);
    (lit "partial", OesPartial);
    (lit "failed", OesFailed);
    (lit "recovery_required", OesRecoveryRequired);
    (lit "recovery_available", OesRecoveryAvailable);
    (lit "recovery_ambiguous", OesRecoveryAmbiguous);
    (lit "rolling_back", OesRollingBack);
    (lit "rolled_back", OesRolledBack);
    (lit "rollback_partial", OesRollbackPartial) ].

Definition operation_kind_name (k : ExecutionOperationKind) : str :=
  match k with
  | EokCreateDirectory => lit "create_directory"
  | EokRemoveDirectoryIfEmpty => lit "remove_directory_if_empty"
  | EokMove => lit "move"
  | EokRename => lit "rename"
  | EokMoveAndRename => lit "move_and_rename"
  | EokInternalStage => lit "internal_stage"
  end.

Definition parse_operation_kind : str -> res PersistenceError ExecutionOperationKind :=
  match_str [
    (lit "create_directory", EokCreateDirectory);
    (lit "remove_directory_if_empty", EokRemoveDirectoryIfEmpty);
    (lit "move", EokMove);
    (lit "rename", EokRename);
    (lit "move_and_rename", EokMoveAndRename);
    (lit "internal_stage", EokInternalStage) ].

Definition operation_status_name (s : ExecutionOperationStatus) : str :=
  match s with
  | EosPlanned => lit "planned"
  | EosPreflightOk => lit "preflight_ok"
  | EosBlocked => lit "blocked"
  | EosRunning => lit "running"
  | EosApplied => lit "applied"
  | EosFailed => lit "failed"
  | EosSkipped => lit "skipped"
  | EosStale => lit "stale"
  | EosRecovered => lit "recovered"
  | EosRollingBack => lit "rolling_back"
  | EosRolledBack => lit "rolled_back"
  | EosRollbackBlocked => lit "rollback_blocked"
  | EosRollbackFailed => lit "rollback_failed"
  end.

Definition parse_operation_status : str -> res PersistenceError ExecutionOperationStatus :=
  match_str [
    (lit "planned", EosPlanned);
    (lit "preflight_ok", EosPreflightOk);
    (lit "blocked", EosBlocked);
    (lit "running", EosRunning);
    (lit "applied", EosApplied);
    (lit "failed", EosFailed);
    (lit "skipped", EosSkipped);
    (lit "stale", EosStale);
    (lit "recovered", EosRecovered);
    (lit "rolling_back", EosRollingBack);
    (lit "rolled_back", EosRolledBack);
    (lit "rollback_blocked", EosRollbackBlocked);
    (lit "rollback_failed", EosRollbackFailed) ].

Definition recovery_state_name (s : ExecutionRecoveryState) : str :=
  match s with
  | ErsRecoveryNotRequired => lit "recovery_not_required"
  | ErsRecoveryAvailable => lit "recovery_available"
  | ErsRecoveryRequired => lit "recovery_required"
  | ErsRecoveryAmbiguous => lit "recovery_ambiguous"
  end.

Definition parse_recovery_state : str -> res PersistenceError ExecutionRecoveryState :=
  match_str [
    (lit "recovery_not_required", ErsRecoveryNotRequired);
    (lit "recovery_available", ErsRecoveryAvailable);
    (lit "recovery_required", ErsRecoveryRequired);
    (lit "recovery_ambiguous", ErsRecoveryAmbiguous) ].

Definition consent_state_name (s : ExecutionConsentState) : str :=
  match s with
  | EcsPending => lit "pending"
  | EcsAttested => lit "attested"
  | EcsConsumed => lit "consumed"
  | EcsExpired => lit "expired"
  | EcsInvalidated => lit "invalidated"
  end.

Definition parse_consent_state : str -> res PersistenceError ExecutionConsentState :=
  match_str [
    (lit "pending", EcsPending);
    (lit "attested", EcsAttested);
    (lit "consumed", EcsConsumed);
    (lit "expired", EcsExpired);
    (lit "invalidated", EcsInvalidated) ].

Definition session_purpose_name (p : ExecutorSessionPurpose) : str :=
  match p with EspForward => lit "forward" | EspRollback => lit "rollback" end.

Definition parse_executor_session_purpose : str -> res PersistenceError ExecutorSessionPurpose :=
  match_str [ (lit "forward", EspForward); (lit "rollback", EspRollback) ].

Definition request_direction_name (d : ExecutorRequestDirection) : str :=
  match d with ErdForward => lit "forward" | ErdRollback => lit "rollback" end.

Definition parse_executor_request_direction :
    str -> res PersistenceError ExecutorRequestDirection :=
  match_str [ (lit "forward", ErdForward); (lit "rollback", ErdRollback) ].

Definition request_state_name (s : ExecutorRequestState) : str :=
  match s with
  | IntentDurable => lit "intent_durable"
  | AcknowledgedSuccess => lit "acknowledged_success"
  | ProvenNotApplied => lit "proven_not_applied"
  | RecoveryRequired => lit "recovery_required"
  | ProvenNotStarted => lit "proven_not_started"
  | ProvenApplied => lit "proven_applied"
  | Ambiguous => lit "ambiguous"
  end.

Definition parse_executor_request_state : str -> res PersistenceError ExecutorRequestState :=
  match_str [
    (lit "intent_durable", IntentDurable);
    (lit "acknowledged_success", AcknowledgedSuccess);
    (lit "proven_not_applied", ProvenNotApplied);
    (lit "recovery_required", RecoveryRequired);
    (lit "proven_not_started", ProvenNotStarted);
    (lit "proven_applied", ProvenApplied);
    (lit "ambiguous", Ambiguous) ].

#[export] Instance session_status_column : Column OrganizationExecutionStatus :=
  {| database_name := session_status_name; parse_column := parse_session_status |}.
#[export] Instance operation_kind_column : Column ExecutionOperationKind :=
  {| database_name := operation_kind_name; parse_column := parse_operation_kind |}.
#[export] Instance operation_status_column : Column ExecutionOperationStatus :=
  {| database_name := operation_status_name; parse_column := parse_operation_status |}.
#[export] Instance recovery_state_column : Column ExecutionRecoveryState :=
  {| database_name := recovery_state_name; parse_column := parse_recovery_state |}.
#[export] Instance consent_state_column : Column ExecutionConsentState :=
  {| database_name := consent_state_name; parse_column := parse_consent_state |}.
#[export] Instance session_purpose_column : Column ExecutorSessionPurpose :=
  {| database_name := session_purpose_name; parse_column := parse_executor_session_purpose |}.
#[export] Instance request_direction_column : Column ExecutorRequestDirection :=
  {| database_name := request_direction_name; parse_column := parse_executor_request_direction |}.
#[export] Instance request_state_column : Column ExecutorRequestState :=
  {| database_name := request_state_name; parse_column := parse_executor_request_state |}.

#[export] Instance session_status_laws : ColumnLaws OrganizationExecutionStatus.
Proof. column_laws. Qed.
#[export] Instance operation_kind_laws : ColumnLaws ExecutionOperationKind.
Proof. column_laws. Qed.
#[export] Instance operation_status_laws : ColumnLaws ExecutionOperationStatus.
Proof. column_laws. Qed.
#[export] Instance recovery_state_laws : ColumnLaws ExecutionRecoveryState.
Proof. column_laws. Qed.
#[export] Instance consent_state_laws : ColumnLaws ExecutionConsentState.
Proof. column_laws. Qed.
#[export] Instance session_purpose_laws : ColumnLaws ExecutorSessionPurpose.
Proof. column_laws. Qed.
#[export] Instance request_direction_laws : ColumnLaws ExecutorRequestDirection.
Proof. column_laws. Qed.
#[export] Instance request_state_laws : ColumnLaws ExecutorRequestState.
Proof. column_laws. Qed.

(** ** Executor request states *)

(** One recorded change of an executor request, and any number of them. *)
Definition request_step (s t : ExecutorRequestState) : Prop := may_transition_to s t = true.

(** The distance of a state to the final [Ambiguous]. *)
Definition request_rank (s : ExecutorRequestState) : nat :=
  match s with
  | IntentDurable => 4
  | AcknowledgedSuccess | ProvenNotApplied => 3
  | RecoveryRequired => 2
  | ProvenNotStarted | ProvenApplied => 1
  | Ambiguous => 0
  end.

Lemma request_step_rank s t :
  request_step s t -> s = t \/ (request_rank t < request_rank s)%nat.
Proof. destruct s, t; vm_compute; first [by left | done | right; lia]. Qed.

Lemma request_steps_rank s t :
  rtc request_step s t -> s = t \/ (request_rank t < request_rank s)%nat.
Proof.
  induction 1 as [|s t u H _ IH]; [by left|].
  destruct (request_step_rank s t H) as [->|?], IH as [->|?]; auto; right; lia.
Qed.

Lemma ambiguous_final t : rtc request_step Ambiguous t -> t = Ambiguous.
Proof. intros [->|H]%request_steps_rank; [done|]. cbn in H. lia. Qed.

(** ** Properties *)

(** The recorded state of an executor request only progresses: no state is
    ever returned to, a proven verdict is only ever given up for [Ambiguous],
    and [Ambiguous] is final; in particular a proof that a mutation was
    applied never becomes a proof that it was not. *)
Theorem request_state_lifecycle :
  (forall s t, rtc request_step s t -> rtc request_step t s -> s = t)
  /\ (forall s t, s = ProvenApplied \/ s = ProvenNotStarted -> rtc request_step s t ->
        t = s \/ t = Ambiguous)
  /\ (forall t, rtc request_step Ambiguous t -> t = Ambiguous).
Proof.
  split_and!; [| |exact ambiguous_final].
  - intros s t Hst Hts.
    destruct (request_steps_rank _ _ Hst) as [|?]; [done|].
    destruct (request_steps_rank _ _ Hts) as [|?]; [done|lia].
  - intros s t Hs Ht. induction Ht as [s|s u t Hsu Hut IH]; [by left|].
    destruct (decide (u = s)) as [->|Hne]; [by apply IH|].
    assert (u = Ambiguous) as ->
      by (destruct Hs as [-> | ->], u; first [discriminate Hsu | done]).
    right. by apply ambiguous_final.
Qed.

Lemma column_iff {A} `{ColumnLaws A} value (a : A) :
  parse_column value = Ok a <-> value = database_name a.
Proof. split; [apply parse_column_sound | intros ->; apply parse_database_name]. Qed.

(** The columns of an execution survive the database: for every state, kind
    and direction, the text read back parses to the value written, and no
    other text parses to it. *)
Theorem execution_columns_roundtrip value :
  (forall s, parse_session_status value = Ok s <-> value = session_status_name s)
  /\ (forall k, parse_operation_kind value = Ok k <-> value = operation_kind_name k)
  /\ (forall s, parse_operation_status value = Ok s <-> value = operation_status_name s)
  /\ (forall s, parse_recovery_state value = Ok s <-> value = recovery_state_name s)
  /\ (forall s, parse_consent_state value = Ok s <-> value = consent_state_name s)
  /\ (forall p, parse_executor_session_purpose value = Ok p <-> value = session_purpose_name p)
  /\ (forall d, parse_executor_request_direction value = Ok d <-> value = request_direction_name d)
  /\ (forall s, parse_executor_request_state value = Ok s <-> value = request_state_name s).
Proof.
  split_and!.
  - exact (column_iff (A := OrganizationExecutionStatus) value).
  - exact (column_iff (A := ExecutionOperationKind) value).
  - exact (column_iff (A := ExecutionOperationStatus) value).
  - exact (column_iff (A := ExecutionRecoveryState) value).
  - exact (column_iff (A := ExecutionConsentState) value).
  - exact (column_iff (A := ExecutorSessionPurpose) value).
  - exact (column_iff (A := ExecutorRequestDirection) value).
  - exact (column_iff (A := ExecutorRequestState) value).
Qed.
