(* ===== verification/Json.v ===== *)
(** * JSON values

    [serde_json::Value] as the coordinator builds and reads it: objects are
    [BTreeMap]s, and the values of the domain are what their derived
    serialisers make of them. *)

From S2P Require Export Ordering Columns.
#[local] Open Scope Z_scope.

Inductive Value :=
  | JNull
  | JBool (b : bool)
  | JNumber (n : Z)
  | JString (s : str)
  | JArray (values : list Value)
  | JObject (fields : list (str * Value)).

(** [BTreeMap::insert]: the fields stay sorted by their key. *)
Fixpoint insert_field (key : str) (value : Value) (fields : list (str * Value)) :
    list (str * Value) :=
  match fields with
  | [] => [(key, value)]
  | (k, v) :: fields' =>
      if decide (k = key) then (key, value) :: fields'
      else if str_leb key k then (key, value) :: fields
      else (k, v) :: insert_field key value fields'
  end.

(** [json!({ .. })]. *)
Definition json_object (fields : list (str * Value)) : Value :=
  JObject (foldl (fun acc field => insert_field field.1 field.2 acc) [] fields).

Fixpoint find_field (key : str) (fields : list (str * Value)) : option Value :=
  match fields with
  | [] => None
  | (k, v) :: fields => if decide (k = key) then Some v else find_field key fields
  end.

(** [Value::get] of a key. *)
Definition get (key : String.string) (value : Value) : option Value :=
  match value with JObject fields => find_field (lit key) fields | _ => None end.
Definition as_str (value : Value) : option str :=
  match value with JString s => Some s | _ => None end.
Definition as_u64 (value : Value) : option Z :=
  match value with JNumber n => u64_try_from n | _ => None end.

(** [as_object_mut] and [insert]. *)
Definition insert_object (key : String.string) (inserted : Value) (value : Value) : option Value :=
  match value with
  | JObject fields => Some (JObject (insert_field (lit key) inserted fields))
  | _ => None
  end.

(** [serde_json::to_string] and [from_slice] of a [Value]. *)
Class JsonCrate : Type := {
  value_to_string : Value -> option str;
  value_from_slice : bytes -> option Value
}.
Class JsonLaws `{JsonCrate} : Prop :=
  value_roundtrip v s : value_to_string v = Some s -> value_from_slice (utf8 s) = Some v.

(** ** Serialisation of the values of the domain *)

Class ToJson (A : Type) : Type := to_json : A -> Value.

#[export] Instance str_to_json : ToJson str := JString.
#[export] Instance Z_to_json : ToJson Z := JNumber.
#[export] Instance bool_to_json : ToJson bool := JBool.
#[export] Instance value_to_json : ToJson Value := id.
#[export] Instance option_to_json {A} `{ToJson A} : ToJson (option A) := fun o =>
  match o with Some a => to_json a | None => JNull end.
#[export] Instance list_to_json {A} `{ToJson A} : ToJson (list A) | 10 := fun l => JArray (to_json <$> l).
#[export] Instance uuid_to_json `{UuidCrate} : ToJson uuid := fun u => JString (uuid_to_string u).
#[export] Instance purpose_to_json : ToJson ExecutorSessionPurpose :=
  fun purpose => JString (session_purpose_name purpose).
#[export] Instance direction_to_json : ToJson ExecutorRequestDirection :=
  fun direction => JString (request_direction_name direction).
#[export] Instance kind_to_json : ToJson ExecutionOperationKind :=
  fun kind => JString (operation_kind_name kind).
#[export] Instance session_status_to_json : ToJson OrganizationExecutionStatus :=
  fun status => JString (session_status_name status).

Notation "key ↦ value" := (lit key, to_json value) (at level 70).

(** ** Lemmas *)

Lemma find_insert key key' value fields :
  find_field key (insert_field key' value fields)
  = if decide (key' = key) then Some value else find_field key fields.
Proof.
  induction fields as [|[k v] fields IH]; cbn [insert_field find_field]; [done|].
  destruct (decide (k = key')) as [->|Hne].
  - cbn [find_field]. by case_decide.
  - destruct (str_leb key' k); cbn [find_field]; [done|]. rewrite IH.
    repeat case_decide; congruence.
Qed.

Lemma get_insert_object key key' inserted value value' :
  insert_object key' inserted value = Some value' ->
  get key value' = if decide (lit key' = lit key) then Some inserted else get key value.
Proof. destruct value; try done. intros [= <-]. apply find_insert. Qed.

Lemma find_foldl key fields acc :
  find_field key (foldl (fun acc field => insert_field field.1 field.2 acc) acc fields)
  = match find_field key (reverse fields) with Some v => Some v | None => find_field key acc end.
Proof.
  revert acc. induction fields as [|[k v] fields IH]; intros acc; [done|].
  cbn [foldl fst snd]. rewrite IH, find_insert, reverse_cons.
  assert (forall l1 l2, find_field key (l1 ++ l2)
    = match find_field key l1 with Some x => Some x | None => find_field key l2 end) as Happ.
  { induction l1 as [|[k1 v1] l1 IH1]; intros l2; cbn; [done|]. by case_decide. }
  rewrite Happ. cbn. destruct (find_field key (reverse fields)); [done|]. by case_decide.
Qed.

Lemma as_u64_small n : is_u64 n -> as_u64 (to_json n) = Some n.
Proof.
  intros [? ?]. unfold as_u64, to_json, Z_to_json, u64_try_from, u64_max in *.
  by rewrite (proj2 (Z.leb_le _ _)), (proj2 (Z.leb_le _ _)).
Qed.
