(* ===== verification/SealedPlan.v ===== *)
(** * Sealed operation plans and journal events

    crates/domain/src/operation.rs: a plan draft is sealed under the digest of
    its canonical serialisation, an approval is bound to that digest, and every
    journal event is hashed together with the digest of its predecessor. *)

From S2P Require Export Domain Samples.

(** ** Operation steps *)

Inductive OperationKind :=
  | CreateDirectory | RemoveDirectoryIfEmpty | RenameEntrySameVolume | NoOp.

Inductive StepPrecondition :=
  | SourceMatches (fingerprint : FileFingerprint)
  | DestinationAbsent (root_id : RootId) (path : NativePath)
  | ParentMatches (native_key : bytes)
  | SameVolume (stable_volume_id : str)
  | SingleLink
  | NotReparsePoint
  | LocalNtfsVolume.

Inductive OperationStep : Type := MkOperationStep {
  step_id : OperationStepId;
  step_proposal_item_id : option ProposalItemId;
  step_sequence : Z;
  step_kind : OperationKind;
  step_source_root_id : option RootId;
  step_source_path : option NativePath;
  step_destination_root_id : option RootId;
  step_destination_path : option NativePath;
  step_preconditions : list StepPrecondition;
  step_inverse : option OperationStep
}.

#[export] Instance OperationKind_eq_dec : EqDecision OperationKind.
Proof. solve_decision. Defined.

#[export] Instance StepPrecondition_eq_dec : EqDecision StepPrecondition.
Proof. solve_decision. Defined.

(** Equality of steps, through the nested inverse. *)
Fixpoint step_eq_dec (s t : OperationStep) : {s = t} + {s <> t}.
Proof.
  destruct s as [a1 a2 a3 a4 a5 a6 a7 a8 a9 i], t as [b1 b2 b3 b4 b5 b6 b7 b8 b9 j].
  destruct (decide ((a1, a2, a3, a4, a5, a6, a7, a8, a9) = (b1, b2, b3, b4, b5, b6, b7, b8, b9)))
    as [H|H]; [|right; congruence].
  destruct i as [x|], j as [y|]; [destruct (step_eq_dec x y) as [Hxy|Hxy]| | |];
    first [left; congruence | right; congruence].
Defined.
#[export] Instance OperationStep_eq_dec : EqDecision OperationStep := step_eq_dec.

Definition is_destination_absent (c : StepPrecondition) : bool :=
  match c with DestinationAbsent _ _ => true | _ => false end.

Definition step_is_safe_and_reversible (step : OperationStep) : bool :=
  match step_kind step with
  | NoOp => true
  | CreateDirectory =>
      bool_decide (step_source_path step = None)
      && bool_decide (is_Some (step_destination_path step))
      && match step_inverse step with
         | Some inverse =>
             bool_decide (step_kind inverse = RemoveDirectoryIfEmpty)
             && bool_decide (step_destination_path inverse = step_destination_path step)
         | None => false
         end
  | RemoveDirectoryIfEmpty =>
      bool_decide (step_source_path step = None)
      && bool_decide (is_Some (step_destination_path step))
      && match step_inverse step with
         | Some inverse =>
             bool_decide (step_kind inverse = CreateDirectory)
             && bool_decide (step_destination_path inverse = step_destination_path step)
         | None => false
         end
  | RenameEntrySameVolume =>
      bool_decide (is_Some (step_source_path step))
      && bool_decide (is_Some (step_destination_path step))
      && match step_inverse step with
         | Some inverse =>
             bool_decide (step_kind inverse = RenameEntrySameVolume)
             && bool_decide (step_source_path inverse = step_destination_path step)
             && bool_decide (step_destination_path inverse = step_source_path step)
         | None => false
         end
      && existsb is_destination_absent (step_preconditions step)
  end.

(** ** Plans *)

Record PlanDraft := {
  pd_id : PlanId;
  pd_workspace_id : WorkspaceId;
  pd_proposal_id : ProposalId;
  pd_proposal_digest : bytes32;
  pd_steps : list OperationStep;
  pd_created_at_unix_ms : Z
}.

Record SealedPlan := {
  sp_id : PlanId;
  sp_workspace_id : WorkspaceId;
  sp_proposal_id : ProposalId;
  sp_proposal_digest : bytes32;
  sp_digest : bytes32;
  sp_steps : list OperationStep;
  sp_sealed_at_unix_ms : Z
}.

Record ApprovalReceipt := {
  ar_plan_id : PlanId;
  ar_plan_digest : bytes32;
  ar_actor_id : ActorId;
  ar_scope_digest : bytes32;
  ar_approved_at_unix_ms : Z
}.

#[export] Instance PlanDraft_eq_dec : EqDecision PlanDraft.
Proof. solve_decision. Defined.

Inductive PlanSealError := SealEmpty | SealStaleSimulation | SealUnsafeStep
  | SealSerialization (error : str).
Inductive PlanIntegrityError :=
  | IntegrityDigestMismatch | IntegrityUnsafeStructure
  | IntegritySerialization (error : str).
Inductive ApprovalError := ApprovalDigestMismatch | ApprovalInvalidPlan.

Section plans.
Context `{B3 : Blake3} `{TV : ToVec PlanDraft}.

Definition unsafe_steps (steps : list OperationStep) : bool :=
  existsb (fun step => negb (step_is_safe_and_reversible step)) steps.

(** [PlanDraft::seal]. *)
Definition seal (self : PlanDraft) (simulated_proposal_digest : bytes32) :
    res PlanSealError SealedPlan :=
  reject_if (negb (bool_decide (pd_proposal_digest self = simulated_proposal_digest)))
    SealStaleSimulation;;
  reject_if (bool_decide (pd_steps self = [])) SealEmpty;;
  reject_if (unsafe_steps (pd_steps self)) SealUnsafeStep;;
  encoded ← map_err SealSerialization (to_vec self);
  Ok {| sp_id := pd_id self;
        sp_workspace_id := pd_workspace_id self;
        sp_proposal_id := pd_proposal_id self;
        sp_proposal_digest := pd_proposal_digest self;
        sp_digest := blake3_hash encoded;
        sp_steps := pd_steps self;
        sp_sealed_at_unix_ms := pd_created_at_unix_ms self |}.

(** The draft [verify_integrity] rebuilds. *)
Definition draft_of (self : SealedPlan) : PlanDraft := {|
  pd_id := sp_id self;
  pd_workspace_id := sp_workspace_id self;
  pd_proposal_id := sp_proposal_id self;
  pd_proposal_digest := sp_proposal_digest self;
  pd_steps := sp_steps self;
  pd_created_at_unix_ms := sp_sealed_at_unix_ms self
|}.

(** [SealedPlan::verify_integrity]. *)
Definition verify_integrity (self : SealedPlan) : res PlanIntegrityError unit :=
  encoded ← map_err IntegritySerialization (to_vec (draft_of self));
  reject_if (negb (bool_decide (blake3_hash encoded = sp_digest self)))
    IntegrityDigestMismatch;;
  reject_if (bool_decide (sp_steps self = []) || unsafe_steps (sp_steps self))
    IntegrityUnsafeStructure.

(** [SealedPlan::approve]. *)
Definition approve (self : SealedPlan) (actor_id : ActorId) (presented_digest : bytes32)
    (approved_at_unix_ms : Z) : res ApprovalError ApprovalReceipt :=
  map_err (fun _ => ApprovalInvalidPlan) (verify_integrity self);;
  reject_if (negb (bool_decide (sp_digest self = presented_digest))) ApprovalDigestMismatch;;
  Ok {| ar_plan_id := sp_id self;
        ar_plan_digest := sp_digest self;
        ar_actor_id := actor_id;
        ar_scope_digest := sp_digest self;
        ar_approved_at_unix_ms := approved_at_unix_ms |}.

Lemma draft_of_seal d digest p : seal d digest = Ok p -> draft_of p = d.
Proof. unfold seal. intros H. inv_ok. by destruct d. Qed.

Lemma verify_integrity_Ok p :
  verify_integrity p = Ok tt <->
  exists l, to_vec (draft_of p) = Ok l /\ blake3_hash l = sp_digest p
    /\ sp_steps p <> [] /\ unsafe_steps (sp_steps p) = false.
Proof.
  unfold verify_integrity. rewrite bind_Ok. setoid_rewrite map_err_Ok.
  setoid_rewrite bind_Ok. setoid_rewrite reject_if_Ok.
  setoid_rewrite orb_false_iff. setoid_rewrite negb_false_iff.
  setoid_rewrite bool_decide_eq_true. setoid_rewrite bool_decide_eq_false.
  split.
  - intros (l & ? & [] & ? & ? & ?). eauto.
  - intros (l & ? & ? & ? & ?). exists l. split; [done|]. by exists tt.
Qed.

Lemma unsafe_steps_false steps :
  unsafe_steps steps = false <->
  Forall (fun s => step_is_safe_and_reversible s = true) steps.
Proof.
  unfold unsafe_steps. induction steps as [|s l IH]; cbn [existsb]; [by split; constructor|].
  by rewrite orb_false_iff, negb_false_iff, IH, Forall_cons_iff.
Qed.
End plans.

(** ** Journal events *)

Inductive JournalEventKind :=
  | ApprovedDurable | IntentDurableEvent | PreconditionsValidated | AppliedObserved
  | StepFailed | ExecutionFinished | RollbackIntent | RolledBackObserved | Conflict.
#[export] Instance JournalEventKind_eq_dec : EqDecision JournalEventKind.
Proof. solve_decision. Defined.

(** [kind as u8]: the discriminant. *)
Definition kind_as_u8 (k : JournalEventKind) : Z :=
  match k with
  | ApprovedDurable => 0 | IntentDurableEvent => 1 | PreconditionsValidated => 2
  | AppliedObserved => 3 | StepFailed => 4 | ExecutionFinished => 5
  | RollbackIntent => 6 | RolledBackObserved => 7 | Conflict => 8
  end.

Record OperationJournalEvent := {
  ev_execution_id : ExecutionId;
  ev_sequence : Z;
  ev_step_id : option OperationStepId;
  ev_kind : JournalEventKind;
  ev_payload : bytes;
  ev_payload_digest : bytes32;
  ev_previous_event_digest : option bytes32;
  ev_event_digest : bytes32;
  ev_occurred_at_unix_ms : Z
}.

Section events.
Context `{B3 : Blake3} `{UU : UuidCrate}.

(** What [OperationJournalEvent::new] feeds to the hasher. *)
Definition event_digest_input (execution_id : ExecutionId) (sequence : Z)
    (step_id : option OperationStepId) (kind : JournalEventKind)
    (payload_digest : bytes32) (previous : option bytes32) (occurred_at : Z) : bytes :=
  utf8 (uuid_to_string execution_id) ++ le_bytes 8 sequence
  ++ match step_id with Some step_id => utf8 (uuid_to_string step_id) | None => [] end
  ++ [byte_of_Z (kind_as_u8 kind)] ++ barr payload_digest
  ++ match previous with Some previous => barr previous | None => [] end
  ++ le_bytes 8 occurred_at.

(** [OperationJournalEvent::new]. *)
Definition new_event (execution_id : ExecutionId) (sequence : Z)
    (step_id : option OperationStepId) (kind : JournalEventKind) (payload : bytes)
    (previous_event_digest : option bytes32) (occurred_at_unix_ms : Z) :
    OperationJournalEvent :=
  let payload_digest := blake3_hash payload in
  let event_digest := blake3_hash (event_digest_input execution_id sequence step_id kind
    payload_digest previous_event_digest occurred_at_unix_ms) in
  {| ev_execution_id := execution_id;
     ev_sequence := sequence;
     ev_step_id := step_id;
     ev_kind := kind;
     ev_payload := payload;
     ev_payload_digest := payload_digest;
     ev_previous_event_digest := previous_event_digest;
     ev_event_digest := event_digest;
     ev_occurred_at_unix_ms := occurred_at_unix_ms |}.

(** [OperationJournalEvent::verify]. *)
Definition verify_event (self : OperationJournalEvent) (expected_previous : option bytes32) :
    bool :=
  if negb (bool_decide (ev_previous_event_digest self = expected_previous)) then false
  else
    let rebuilt := new_event (ev_execution_id self) (ev_sequence self) (ev_step_id self)
      (ev_kind self) (ev_payload self) (ev_previous_event_digest self)
      (ev_occurred_at_unix_ms self) in
    bool_decide (ev_payload_digest rebuilt = ev_payload_digest self)
    && bool_decide (ev_event_digest rebuilt = ev_event_digest self).

Lemma verify_event_iff e prev :
  verify_event e prev = true <->
  ev_previous_event_digest e = prev /\
  e = new_event (ev_execution_id e) (ev_sequence e) (ev_step_id e) (ev_kind e)
        (ev_payload e) prev (ev_occurred_at_unix_ms e).
Proof.
  unfold verify_event. case_bool_decide as Hp; cbn [negb].
  - subst. rewrite andb_true_iff, !bool_decide_eq_true. split.
    + intros [H1 H2]. split; [done|]. destruct e; unfold new_event in *; cbn in *. congruence.
    + intros [_ He]. split; symmetry.
      * exact (f_equal ev_payload_digest He).
      * exact (f_equal ev_event_digest He).
  - split; [done|]. by intros [? _].
Qed.

Lemma verify_new_event x seq step k payload prev t :
  verify_event (new_event x seq step k payload prev t) prev = true.
Proof. by apply verify_event_iff. Qed.

(** The Rust field types of an event. *)
Definition event_in_range (e : OperationJournalEvent) : Prop :=
  is_u64 (ev_sequence e) /\ is_i64 (ev_occurred_at_unix_ms e).

Context `{UL : !UuidLaws}.

Lemma uuid_text_length u : length (utf8 (uuid_to_string u)) = 36%nat.
Proof. by rewrite utf8_ascii, length_fmap, uuid_to_string_length by apply uuid_text_ascii. Qed.

Lemma uuid_text_inj u v : utf8 (uuid_to_string u) = utf8 (uuid_to_string v) -> u = v.
Proof. intros H. by apply uuid_to_string_inj, utf8_inj_ascii; [apply uuid_text_ascii..|]. Qed.

(** Equal hash inputs come from equal events: the variable parts are told
    apart by the total length. *)
Lemma event_digest_input_inj x s st k pd prev t x' s' st' k' pd' prev' t' :
  is_u64 s -> is_u64 s' -> is_i64 t -> is_i64 t' ->
  event_digest_input x s st k pd prev t = event_digest_input x' s' st' k' pd' prev' t' ->
  x = x' /\ s = s' /\ st = st' /\ k = k' /\ pd = pd' /\ prev = prev' /\ t = t'.
Proof.
  intros Hs Hs' Ht Ht' H. unfold event_digest_input in H.
  assert ((is_Some st <-> is_Some st') /\ (is_Some prev <-> is_Some prev')) as [Hst Hprev].
  { apply (f_equal length) in H. rewrite !length_app, !le_bytes_length, !uuid_text_length,
      !barr_len in H. cbn [length] in H.
    destruct st, st', prev, prev'; rewrite ?uuid_text_length, ?barr_len in H; cbn in H;
      try lia; split; split; eauto; by intros []. }
  apply app_inj_1 in H as [Hx H]; [|by rewrite !uuid_text_length].
  apply app_inj_1 in H as [Hq H]; [|by rewrite !le_bytes_length].
  apply app_inj_1 in H as [Hu H];
    [|destruct st, st'; rewrite ?uuid_text_length; first [done | opt_absurd Hst]].
  apply app_inj_1 in H as [Hk H]; [|done].
  apply app_inj_1 in H as [Hp H]; [|by rewrite !barr_len].
  apply app_inj_1 in H as [Hv H]; [|destruct prev, prev'; rewrite ?barr_len; naive_solver].
  split_and!.
  - by apply uuid_text_inj.
  - by apply (le_bytes_8_inj_u64 s s').
  - destruct st, st'; [f_equal; by apply uuid_text_inj | opt_absurd Hst | opt_absurd Hst | done].
  - destruct k, k'; done.
  - by apply barray_eq.
  - destruct prev, prev'; [f_equal; by apply barray_eq | opt_absurd Hprev | opt_absurd Hprev | done].
  - by apply (le_bytes_8_inj_i64 t t').
Qed.
End events.

(** ** Properties of plans *)

Section plan_properties.
Context `{B3 : Blake3} `{TV : ToVec PlanDraft}.

(** A draft is sealed exactly when it carries the digest that was
    simulated, has at least one step, every step is safe and reversible, and
    it serialises; the sealed plan keeps the draft under the digest of that
    serialisation. *)
Theorem seal_Ok_iff d simulated p :
  seal d simulated = Ok p <->
  exists l, pd_proposal_digest d = simulated /\ pd_steps d <> []
    /\ Forall (fun s => step_is_safe_and_reversible s = true) (pd_steps d)
    /\ to_vec d = Ok l /\ draft_of p = d /\ sp_digest p = blake3_hash l.
Proof.
  split.
  - intros H. pose proof (draft_of_seal _ _ _ H) as Hd. unfold seal in H. inv_ok. bools.
    rewrite unsafe_steps_false in *. eauto 10.
  - intros (l & <- & Hne & Hsafe%unsafe_steps_false & Hl & <- & Hdg). unfold seal.
    pass_guards. rewrite Hl. destruct p; cbn in *. by subst.
Qed.

Lemma seal_verifies d simulated p : seal d simulated = Ok p -> verify_integrity p = Ok tt.
Proof.
  intros H. pose proof (draft_of_seal _ _ _ H) as Hd. unfold seal in H. inv_ok. bools.
  apply verify_integrity_Ok. eexists. split_and!; try done. by rewrite Hd.
Qed.

(** Sealing, verifying and approving fit together: a freshly sealed plan
    passes its integrity check, is approved under its own digest with a
    receipt bound to that digest and plan, and under no other digest. *)
Theorem sealed_plan_is_approvable d simulated p actor t :
  seal d simulated = Ok p ->
  verify_integrity p = Ok tt
  /\ approve p actor (sp_digest p) t =
       Ok {| ar_plan_id := pd_id d; ar_plan_digest := sp_digest p; ar_actor_id := actor;
             ar_scope_digest := sp_digest p; ar_approved_at_unix_ms := t |}
  /\ forall digest, digest <> sp_digest p ->
       approve p actor digest t = Err ApprovalDigestMismatch.
Proof.
  intros H. pose proof (seal_verifies _ _ _ H) as Hv.
  pose proof (draft_of_seal _ _ _ H) as Hd. split; [done|]. unfold approve. rewrite Hv. cbn. split.
  - pass_guards. by rewrite <- Hd.
  - intros digest Hne'. unfold reject_if. by rewrite bool_decide_false.
Qed.

(** Tamper evidence: two plans that pass their integrity check under one
    digest are the same plan, unless their two serialisations collide under
    blake3. *)
Theorem plan_digest_binds_content `{FS : FromSlice PlanDraft} `{RT : !SerdeRoundtrip PlanDraft}
    p q :
  verify_integrity p = Ok tt -> verify_integrity q = Ok tt ->
  sp_digest p = sp_digest q ->
  p = q
  \/ exists l k, to_vec (draft_of p) = Ok l /\ to_vec (draft_of q) = Ok k
       /\ collides blake3_hash l k.
Proof.
  intros (l & Hl & Hpl & _)%verify_integrity_Ok (k & Hk & Hqk & _)%verify_integrity_Ok Hpq.
  destruct (equal_or_collides blake3_hash l k) as [<-|Hcol]; [congruence|..].
  - left. apply from_slice_to_vec in Hl, Hk. assert (draft_of p = draft_of q) by congruence.
    destruct p, q; cbn in *. unfold draft_of in *; cbn in *. congruence.
  - right. by exists l, k.
Qed.
End plan_properties.

Section event_properties.
Context `{B3 : Blake3} `{UU : UuidCrate} `{UL : !UuidLaws}.

(** What the digest of an event was computed from. *)
Definition event_preimage (e : OperationJournalEvent) : bytes :=
  event_digest_input (ev_execution_id e) (ev_sequence e) (ev_step_id e) (ev_kind e)
    (ev_payload_digest e) (ev_previous_event_digest e) (ev_occurred_at_unix_ms e).

(** Two events whose digest inputs or payloads collide. *)
Definition events_collide (e e' : OperationJournalEvent) : Prop :=
  collides blake3_hash (event_preimage e) (event_preimage e')
  \/ collides blake3_hash (ev_payload e) (ev_payload e').

Lemma verified_event_digests e prev :
  verify_event e prev = true ->
  ev_event_digest e = blake3_hash (event_preimage e)
  /\ ev_payload_digest e = blake3_hash (ev_payload e)
  /\ ev_previous_event_digest e = prev.
Proof.
  intros [Hprev He]%verify_event_iff. split_and!; [| exact (f_equal ev_payload_digest He) | done].
  pose proof (f_equal ev_event_digest He) as H1. pose proof (f_equal ev_payload_digest He) as H2.
  cbn in H1, H2. unfold event_preimage. by rewrite H2, Hprev.
Qed.

(** Tamper evidence of the journal: two well-typed events that verify and
    have one digest are the same event, payload, link and time included,
    unless their digest inputs or their payloads collide under blake3. *)
Theorem event_digest_binds_event e e' prev prev' :
  event_in_range e -> event_in_range e' ->
  verify_event e prev = true -> verify_event e' prev' = true ->
  ev_event_digest e = ev_event_digest e' -> e = e' \/ events_collide e e'.
Proof.
  intros [Hs Ht] [Hs' Ht'] (Hd1 & Hp1 & _)%verified_event_digests
    (Hd2 & Hp2 & _)%verified_event_digests Hd.
  destruct (equal_or_collides blake3_hash (event_preimage e) (event_preimage e')) as [Hin|Hc];
    [congruence| |by right; left].
  apply event_digest_input_inj in Hin as (Hx & Hq & Hst & Hk & Hp & Hprev & Hocc); try done.
  destruct (equal_or_collides blake3_hash (ev_payload e) (ev_payload e')) as [Hpl|Hc];
    [congruence| |by right; right].
  left. destruct e, e'; cbn in *. congruence.
Qed.
End event_properties.

(** ** Witnesses *)

#[local] Existing Instances sample_uuid sample_uuid_laws sample_blake3.

Definition sample_rename (item : option ProposalItemId) (source destination : NativePath)
    (inverse : option OperationStep) : OperationStep := {|
  step_id := uid x11;
  step_proposal_item_id := item;
  step_sequence := 1;
  step_kind := RenameEntrySameVolume;
  step_source_root_id := Some (uid x0a);
  step_source_path := Some source;
  step_destination_root_id := Some (uid x0a);
  step_destination_path := Some destination;
  step_preconditions := [SourceMatches sample_fingerprint; DestinationAbsent (uid x0a) destination];
  step_inverse := inverse
|}.

Definition sample_step : OperationStep :=
  sample_rename None (native "source.txt") (native "organized/source.txt")
    (Some (sample_rename None (native "organized/source.txt") (native "source.txt") None)).

Definition sample_draft : PlanDraft := {|
  pd_id := uid x01;
  pd_workspace_id := uid x02;
  pd_proposal_id := uid x03;
  pd_proposal_digest := fill 32 x01;
  pd_steps := [sample_step];
  pd_created_at_unix_ms := 1
|}.

#[local] Instance sample_draft_to_vec : ToVec PlanDraft := single_to_vec sample_draft.
#[local] Instance sample_draft_from_slice : FromSlice PlanDraft := single_from_slice sample_draft.

Definition sample_plan : SealedPlan := {|
  sp_id := uid x01;
  sp_workspace_id := uid x02;
  sp_proposal_id := uid x03;
  sp_proposal_digest := fill 32 x01;
  sp_digest := blake3_hash [x7b; x7d];
  sp_steps := [sample_step];
  sp_sealed_at_unix_ms := 1
|}.

Lemma sealed_plan_is_approvable_witness :
  seal sample_draft (fill 32 x01) = Ok sample_plan /\ verify_integrity sample_plan = Ok tt.
Proof.
  assert (seal sample_draft (fill 32 x01) = Ok sample_plan) as H by (vm_compute; reflexivity).
  split; [exact H|].
  exact (proj1 (sealed_plan_is_approvable sample_draft (fill 32 x01) sample_plan (uid x09) 2 H)).
Defined.

Lemma plan_digest_binds_content_witness :
  verify_integrity sample_plan = Ok tt
  /\ (sample_plan = sample_plan
      \/ exists l k, to_vec (draft_of sample_plan) = Ok l /\ to_vec (draft_of sample_plan) = Ok k
           /\ collides blake3_hash l k).
Proof.
  assert (verify_integrity sample_plan = Ok tt) as H by (vm_compute; reflexivity).
  split; [exact H|].
  exact (plan_digest_binds_content (RT := single_roundtrip sample_draft)
    sample_plan sample_plan H H eq_refl).
Defined.

Definition sample_event : OperationJournalEvent :=
  new_event (uid x07) 0 None ApprovedDurable [x01] None 1.

Lemma event_digest_binds_event_witness :
  verify_event sample_event None = true
  /\ (sample_event = sample_event \/ events_collide sample_event sample_event).
Proof.
  assert (verify_event sample_event None = true) as H by (vm_compute; reflexivity).
  assert (event_in_range sample_event) as Hr by (vm_compute; split; split; discriminate).
  split; [exact H|].
  exact (event_digest_binds_event sample_event sample_event None None Hr Hr H H eq_refl).
Defined.
