(* ===== verification/PlatformErrors.v ===== *)
(** * Platform errors and file requests

    crates/platform/src/lib.rs: the taxonomy of native failures, the Win32
    classification, which errors may be retried, and the request and outcome of
    the no-replace rename. *)

From S2P Require Export Domain.
From stdpp Require Import pretty.
#[local] Open Scope Z_scope.

(** Decimal display of an integer: [format!("{n}")]. *)
Definition dec (n : Z) : str := lit (pretty n).

Definition MAX_EXECUTION_FINGERPRINT_BYTES : Z := MAX_EXECUTION_VERIFICATION_BYTES.

Inductive PlatformErrorClass :=
  | PecSharingViolation | PecLockViolation | PecPermissionDenied | PecDiskFull
  | PecDestinationCollision | PecSourceMissing | PecPathPolicyRefusal
  | PecAmbiguousMutationOutcome | PecCancelled | PecVerificationLimit
  | PecPrecondition | PecUnsupported | PecIo | PecSecretStore.
#[export] Instance PlatformErrorClass_eq_dec : EqDecision PlatformErrorClass.
Proof. solve_decision. Defined.

(** [PlatformErrorClass::code]. *)
Definition class_code (c : PlatformErrorClass) : str :=
  match c with
  | PecSharingViolation => lit "sharing_violation"
  | PecLockViolation => lit "lock_violation"
  | PecPermissionDenied => lit "permission_denied"
  | PecDiskFull => lit "disk_full"
  | PecDestinationCollision => lit "destination_collision"
  | PecSourceMissing => lit "source_missing"
  | PecPathPolicyRefusal => lit "path_policy_refusal"
  | PecAmbiguousMutationOutcome => lit "ambiguous_mutation_outcome"
  | PecCancelled => lit "cancelled"
  | PecVerificationLimit => lit "verification_limit"
  | PecPrecondition => lit "precondition"
  | PecUnsupported => lit "unsupported"
  | PecIo => lit "io"
  | PecSecretStore => lit "secret_store"
  end.

Definition classify_windows_error_code (code : Z) : PlatformErrorClass :=
  if (code =? 2) || (code =? 3) then PecSourceMissing
  else if code =? 5 then PecPermissionDenied
  else if code =? 32 then PecSharingViolation
  else if code =? 33 then PecLockViolation
  else if (code =? 39) || (code =? 112) then PecDiskFull
  else if (code =? 80) || (code =? 183) then PecDestinationCollision
  else if (code =? 4390) || (code =? 4394) || (code =? 1920) then PecPathPolicyRefusal
  else PecIo.

Inductive PlatformError :=
  | PeOutsideRoot | PeReparsePoint | PeCloudPlaceholder | PePathPolicyRefusal
  | PeUnsupported (detail : str) | PePrecondition (detail : str)
  | PeSharingViolation | PeLockViolation | PePermissionDenied | PeDiskFull
  | PeDestinationExists | PeSourceMissing | PeAmbiguousMutationOutcome | PeCancelled
  | PeVerificationLimitExceeded (limit_bytes : Z)
  | PeIo (error : io_error) | PeSecretStore (detail : str).
#[export] Instance PlatformError_eq_dec : EqDecision PlatformError.
Proof. solve_decision. Defined.

(** [PlatformError::class]. *)
Definition error_class (e : PlatformError) : PlatformErrorClass :=
  match e with
  | PeOutsideRoot | PeReparsePoint | PeCloudPlaceholder | PePathPolicyRefusal =>
      PecPathPolicyRefusal
  | PeUnsupported _ => PecUnsupported
  | PePrecondition _ => PecPrecondition
  | PeSharingViolation => PecSharingViolation
  | PeLockViolation => PecLockViolation
  | PePermissionDenied => PecPermissionDenied
  | PeDiskFull => PecDiskFull
  | PeDestinationExists => PecDestinationCollision
  | PeSourceMissing => PecSourceMissing
  | PeAmbiguousMutationOutcome => PecAmbiguousMutationOutcome
  | PeCancelled => PecCancelled
  | PeVerificationLimitExceeded _ => PecVerificationLimit
  | PeIo _ => PecIo
  | PeSecretStore _ => PecSecretStore
  end.

Definition retryable_before_mutation (e : PlatformError) : bool :=
  match e with PeSharingViolation | PeLockViolation => true | _ => false end.

(** [io::Error::from_raw_os_error]: the text is the operating system's. *)
Class OsErrors : Type := os_error : Z -> io_error.

(** [PlatformError::from_windows_code]. *)
Definition from_windows_code `{OsErrors} (code : Z) (mutation_outcome_uncertain : bool) :
    PlatformError :=
  let class := classify_windows_error_code code in
  if mutation_outcome_uncertain then PeAmbiguousMutationOutcome
  else match class with
  | PecSharingViolation => PeSharingViolation
  | PecLockViolation => PeLockViolation
  | PecPermissionDenied => PePermissionDenied
  | PecDiskFull => PeDiskFull
  | PecDestinationCollision => PeDestinationExists
  | PecSourceMissing => PeSourceMissing
  | PecPathPolicyRefusal => PePathPolicyRefusal
  | _ => PeIo (os_error (if code <=? 2 ^ 31 - 1 then code else 2 ^ 31 - 1))
  end.

(** The display texts of the [#[error(..)]] attributes. *)
Definition platform_error_text (e : PlatformError) : str :=
  match e with
  | PeOutsideRoot => lit "path is outside the registered root"
  | PeReparsePoint => lit "path contains a reparse point or symbolic link"
  | PeCloudPlaceholder => lit "cloud placeholder access would hydrate remote content"
  | PePathPolicyRefusal => lit "path policy refused the filesystem entry"
  | PeUnsupported detail => lit "filesystem operation is unsupported: " ++ detail
  | PePrecondition detail => lit "filesystem precondition failed: " ++ detail
  | PeSharingViolation => lit "file is in use because its sharing mode blocks the operation"
  | PeLockViolation =>
      lit "file is in use because a byte-range or filesystem lock blocks the operation"
  | PePermissionDenied => lit "permission denied"
  | PeDiskFull => lit "the destination volume has insufficient free space"
  | PeDestinationExists => lit "destination already exists"
  | PeSourceMissing => lit "source no longer exists"
  | PeAmbiguousMutationOutcome => lit "filesystem mutation outcome is ambiguous"
  | PeCancelled => lit "streaming verification was cancelled"
  | PeVerificationLimitExceeded limit_bytes =>
      lit "file exceeds the " ++ dec limit_bytes ++ lit "-byte execution verification bound"
  | PeIo error => lit "I/O failure: " ++ io_text error
  | PeSecretStore detail => lit "secret store failure: " ++ detail
  end.

(** [PathBuf] on a Unix target: its raw bytes. *)
Notation PathBuf := bytes.

Record RenameRequest := {
  rr_source : PathBuf;
  rr_destination : PathBuf;
  rr_expected_identity : NativeFileIdentity;
  rr_expected_byte_size : Z;
  rr_expected_modified_at_ns : option Z;
  rr_expected_attributes : Z;
  rr_expected_content_digest : bytes32;
  rr_maximum_hash_bytes : Z
}.

Record RenameOutcome := { ro_observed_identity : NativeFileIdentity }.

(** ** Properties *)

(** A Win32 code that is not marked uncertain becomes an error of exactly
    the class of the code; an uncertain outcome is always ambiguous and, like
    every error but the two sharing and lock violations (codes 32 and 33), is
    never retried. *)
Theorem windows_code_classified `{OsErrors} code uncertain :
  error_class (from_windows_code code uncertain) =
    (if uncertain then PecAmbiguousMutationOutcome else classify_windows_error_code code)
  /\ retryable_before_mutation (from_windows_code code uncertain) =
       negb uncertain && ((code =? 32) || (code =? 33)).
Proof.
  unfold from_windows_code, classify_windows_error_code.
  destruct uncertain; [done|].
  repeat match goal with |- context [code =? ?k] =>
    destruct (Z.eqb_spec code k); [subst; split; reflexivity|] end.
  split; reflexivity.
Qed.
