(* ===== verification/JournalChain.v ===== *)
(** * Hash chains of journal events

    crates/operations/src/lib.rs, [validate_event_chains]: a journal holds the
    interleaved events of several executions; each execution's events must
    form one chain, numbered from zero and linked by digest. *)

From S2P Require Export SealedPlan PlatformErrors.

(** [OperationsError]; its display text is [operations_error_text]. *)
Inductive OperationsError :=
  | OeGateDisabled (reason : str)
  | OeApprovalMismatch
  | OePlanIntegrity
  | OeStaleSimulation
  | OeRootMissing
  | OeInvalidNativePath
  | OeOutsideRoot
  | OeMissingPrecondition
  | OePlatform (error : PlatformError)
  | OeJournal (message : str)
  | OeSeal (error : PlanSealError).

Definition plan_seal_error_text (e : PlanSealError) : str :=
  match e with
  | SealEmpty => lit "operation plan cannot be empty"
  | SealStaleSimulation => lit "simulation does not match the proposal revision"
  | SealUnsafeStep => lit "operation plan contains a step that is not safely reversible"
  | SealSerialization error => lit "operation plan could not be serialized: " ++ error
  end.

Definition operations_error_text (e : OperationsError) : str :=
  match e with
  | OeGateDisabled reason => lit "Apply is disabled: " ++ reason
  | OeApprovalMismatch => lit "approval does not match the sealed plan"
  | OePlanIntegrity => lit "sealed plan failed canonical integrity validation"
  | OeStaleSimulation => lit "proposal and simulation revisions do not match"
  | OeRootMissing => lit "root is not registered"
  | OeInvalidNativePath => lit "native path is invalid"
  | OeOutsideRoot => lit "resolved path escapes its registered root"
  | OeMissingPrecondition => lit "operation precondition is incomplete"
  | OePlatform error => lit "filesystem operation failed: " ++ platform_error_text error
  | OeJournal message => lit "journal failure: " ++ message
  | OeSeal error => lit "plan cannot be sealed: " ++ plan_seal_error_text error
  end.

Notation JournalChainHead := (Z * bytes32)%type.
Notation JournalChainHeads := (gmap ExecutionId (Z * bytes32)).

Section chains.
Context `{B3 : Blake3} `{UU : UuidCrate}.

(** The test both [validate_event_chains] and [FileJournal::append] make of
    an event against the head of its execution's chain. *)
Definition extends (previous : option JournalChainHead) (event : OperationJournalEvent) : bool :=
  match previous with
  | Some (sequence, digest) =>
      (ev_sequence event =? u64_saturating_add sequence 1) && verify_event event (Some digest)
  | None => (ev_sequence event =? 0) && verify_event event None
  end.

Definition head_of (event : OperationJournalEvent) : JournalChainHead :=
  (ev_sequence event, ev_event_digest event).

Definition validate_one (last : JournalChainHeads) (event : OperationJournalEvent) :
    res OperationsError JournalChainHeads :=
  let previous := last !! ev_execution_id event in
  let valid := extends previous event in
  reject_if (negb valid) (OeJournal (lit "journal chain verification failed"));;
  Ok (<[ev_execution_id event := head_of event]> last).

(** [validate_event_chains]: the final value of [last] is the result. *)
Definition validate_event_chains (events : list OperationJournalEvent)
    (last : JournalChainHeads) : res OperationsError JournalChainHeads :=
  fold_res validate_one last events.

(** The events of one execution, in order. *)
Definition events_of (x : ExecutionId) (events : list OperationJournalEvent) :
    list OperationJournalEvent :=
  filter (fun e => ev_execution_id e = x) events.

(** Specification: a list of events is a chain after a given head. *)
Fixpoint chain (previous : option JournalChainHead) (events : list OperationJournalEvent) :
    Prop :=
  match events with
  | [] => True
  | event :: events =>
      extends previous event = true /\ chain (Some (head_of event)) events
  end.

Definition chain_head (previous : option JournalChainHead)
    (events : list OperationJournalEvent) : option JournalChainHead :=
  match last events with Some event => Some (head_of event) | None => previous end.

Lemma chain_app previous l k :
  chain previous (l ++ k) <-> chain previous l /\ chain (chain_head previous l) k.
Proof.
  revert previous. induction l as [|e l IH]; intros previous; cbn [app chain]; [naive_solver|].
  rewrite IH. unfold chain_head. rewrite last_cons. destruct (last l); naive_solver.
Qed.

Lemma validate_one_Ok last e last' :
  validate_one last e = Ok last' <->
  extends (last !! ev_execution_id e) e = true
  /\ last' = <[ev_execution_id e := head_of e]> last.
Proof.
  unfold validate_one. rewrite bind_Ok. setoid_rewrite reject_if_Ok.
  setoid_rewrite negb_false_iff. split.
  - intros ([] & ? & [= <-]). done.
  - intros [? ->]. by exists tt.
Qed.

Lemma events_of_cons x e l :
  events_of x (e :: l) =
    if decide (ev_execution_id e = x) then e :: events_of x l else events_of x l.
Proof. reflexivity. Qed.

Lemma validate_spec events : forall last last',
  validate_event_chains events last = Ok last' <->
  (forall x, chain (last !! x) (events_of x events))
  /\ forall x, last' !! x = chain_head (last !! x) (events_of x events).
Proof.
  induction events as [|e l IH]; intros m m'; cbn [validate_event_chains fold_res].
  { split; [intros [= <-]; split; [done | by intros x] |].
    intros [_ H]. f_equal. apply map_eq. intros x. by rewrite H. }
  rewrite bind_Ok. setoid_rewrite validate_one_Ok.
  setoid_rewrite (events_of_cons _ e l).
  transitivity (extends (m !! ev_execution_id e) e = true
    /\ validate_event_chains l (<[ev_execution_id e := head_of e]> m) = Ok m').
  { split; [intros (? & [? ->] & ?); done | intros [? ?]; eauto]. }
  rewrite IH. split.
  - intros (He & Hc & Hh). split; intros x; specialize (Hc x); specialize (Hh x).
    + destruct (decide (ev_execution_id e = x)) as [<-|Hne].
      * rewrite lookup_insert_eq in Hc. done.
      * by rewrite lookup_insert_ne in Hc.
    + destruct (decide (ev_execution_id e = x)) as [<-|Hne].
      * rewrite lookup_insert_eq in Hh. rewrite Hh. unfold chain_head. rewrite last_cons.
        by destruct (last _).
      * by rewrite lookup_insert_ne in Hh.
  - intros (Hc & Hh). split_and!.
    + specialize (Hc (ev_execution_id e)). rewrite decide_True in Hc by done. apply Hc.
    + intros x. specialize (Hc x). destruct (decide (ev_execution_id e = x)) as [<-|Hne].
      * rewrite lookup_insert_eq. apply Hc.
      * by rewrite lookup_insert_ne.
    + intros x. rewrite Hh. destruct (decide (ev_execution_id e = x)) as [<-|Hne].
      * rewrite lookup_insert_eq. unfold chain_head. rewrite last_cons. by destruct (last _).
      * by rewrite lookup_insert_ne.
Qed.

(** The journal format, independently of the code that checks it: the events of
    one execution are numbered 0, 1, 2, ... (the 64-bit counter stays at its
    maximum), each names the digest of the event before it (the first names
    none), carries the blake3 digest of its payload, and its own digest is that
    of its execution, number, step, kind, payload digest, predecessor's digest
    and time, in this order. *)
Definition hash_chained (events : list OperationJournalEvent) : Prop :=
  forall i e, events !! i = Some e ->
    ev_sequence e = Z.min (Z.of_nat i) u64_max
    /\ ev_previous_event_digest e =
        match i with O => None | S j => ev_event_digest <$> events !! j end
    /\ ev_payload_digest e = blake3_hash (ev_payload e)
    /\ ev_event_digest e = blake3_hash
        (utf8 (uuid_to_string (ev_execution_id e)) ++ le_bytes 8 (ev_sequence e)
         ++ match ev_step_id e with Some step => utf8 (uuid_to_string step) | None => [] end
         ++ [byte_of_Z (kind_as_u8 (ev_kind e))] ++ barr (ev_payload_digest e)
         ++ match ev_previous_event_digest e with Some d => barr d | None => [] end
         ++ le_bytes 8 (ev_occurred_at_unix_ms e)).

(** Where the next event of a list stands. *)
Definition extends_at (events : list OperationJournalEvent) (e : OperationJournalEvent) : Prop :=
  ev_sequence e = Z.min (zlen events) u64_max
  /\ ev_previous_event_digest e = ev_event_digest <$> last events
  /\ ev_payload_digest e = blake3_hash (ev_payload e)
  /\ ev_event_digest e = blake3_hash (event_digest_input (ev_execution_id e) (ev_sequence e)
       (ev_step_id e) (ev_kind e) (ev_payload_digest e) (ev_previous_event_digest e)
       (ev_occurred_at_unix_ms e)).

Lemma hash_chained_snoc l e :
  hash_chained (l ++ [e]) <-> hash_chained l /\ extends_at l e.
Proof.
  assert (forall i, (i < length l)%nat -> (l ++ [e]) !! i = l !! i) as Hl
    by (intros; by apply lookup_app_l).
  split.
  - intros H. split.
    + intros i d Hi. pose proof (lookup_lt_Some _ _ _ Hi) as Hlt.
      specialize (H i d). rewrite Hl in H by done. specialize (H Hi).
      destruct i as [|i]; [done|]. rewrite Hl in H by lia. done.
    + specialize (H (length l) e). rewrite list_lookup_middle in H by done. specialize (H eq_refl).
      unfold extends_at, zlen. destruct l as [|d l _] using rev_ind; [done|].
      rewrite last_snoc. rewrite length_app in *. cbn [length] in *.
      rewrite Nat.add_1_r in *. rewrite Hl in H by lia.
      rewrite list_lookup_middle in H by done. done.
  - intros [H He] i d Hi. destruct (decide (i < length l)%nat) as [Hlt|Hge].
    + rewrite Hl in Hi by done. specialize (H i d Hi).
      destruct i as [|i]; [done|]. rewrite Hl by lia. done.
    + pose proof (lookup_lt_Some _ _ _ Hi) as Hlt. rewrite length_app in Hlt. cbn in Hlt.
      assert (i = length l) as -> by lia. rewrite list_lookup_middle in Hi by done.
      injection Hi as <-. unfold extends_at, zlen in He.
      destruct l as [|d l _] using rev_ind; [done|].
      rewrite last_snoc in He. rewrite length_app in *. cbn [length] in *.
      rewrite Nat.add_1_r in *. rewrite Hl by lia. rewrite list_lookup_middle by done. done.
Qed.

(** An event is rebuilt to itself exactly when it carries the digests of its
    own fields. *)
Lemma rebuilt_event (e : OperationJournalEvent) prev :
  ev_previous_event_digest e = prev ->
  e = new_event (ev_execution_id e) (ev_sequence e) (ev_step_id e) (ev_kind e) (ev_payload e)
        prev (ev_occurred_at_unix_ms e) <->
  ev_payload_digest e = blake3_hash (ev_payload e)
  /\ ev_event_digest e = blake3_hash (event_digest_input (ev_execution_id e) (ev_sequence e)
       (ev_step_id e) (ev_kind e) (ev_payload_digest e) (ev_previous_event_digest e)
       (ev_occurred_at_unix_ms e)).
Proof.
  destruct e as [x seq step k payload pd p d t]. cbn. intros ->. unfold new_event. cbv zeta. split.
  - by intros [= -> ->].
  - by intros [-> ->].
Qed.

(** The check of the code, against a history that is well chained. *)
Lemma extends_iff l e :
  hash_chained l -> extends (chain_head None l) e = true <-> extends_at l e.
Proof.
  intros Hl. unfold extends, chain_head, extends_at, u64_saturating_add, zlen.
  destruct l as [|d l _] using rev_ind; cbn [last].
  - rewrite andb_true_iff, Z.eqb_eq, verify_event_iff.
    change (Z.min (Z.of_nat (length (@nil OperationJournalEvent))) u64_max) with 0.
    pose proof (rebuilt_event e None). naive_solver.
  - apply hash_chained_snoc in Hl as [_ (Hs & _)]. rewrite last_snoc, length_app.
    cbn [length head_of]. rewrite andb_true_iff, Z.eqb_eq, verify_event_iff, Hs. unfold zlen.
    replace (Z.min (Z.min (Z.of_nat (length l)) u64_max + 1) u64_max)
      with (Z.min (Z.of_nat (length l + 1)) u64_max) by (unfold u64_max; lia).
    pose proof (rebuilt_event e (Some (ev_event_digest d))). cbn [fmap option_fmap option_map].
    naive_solver.
Qed.

Lemma chain_hash_chained l : chain None l <-> hash_chained l.
Proof.
  induction l as [|e l IH] using rev_ind; [by split|].
  rewrite chain_app, IH, hash_chained_snoc. cbn [chain]. split.
  - intros (H & He & _). split; [done|]. by apply extends_iff.
  - intros (H & He). split_and!; [done| |done]. by apply extends_iff.
Qed.

(** C24: [validate_event_chains] accepts a journal exactly when, for every
    execution, the events of that execution follow the journal format from the
    first event on (numbered from zero, linked by digest, each digest the
    blake3 hash of the event's own fields): interleaving executions changes
    nothing, and the heads it returns are the numbers and digests of the last
    events. *)
Theorem validate_event_chains_iff events heads :
  validate_event_chains events ∅ = Ok heads <->
  (forall x, hash_chained (filter (fun e => ev_execution_id e = x) events))
  /\ forall x, heads !! x = (fun e => (ev_sequence e, ev_event_digest e)) <$>
       last (filter (fun e => ev_execution_id e = x) events).
Proof.
  rewrite validate_spec. setoid_rewrite lookup_empty. setoid_rewrite chain_hash_chained.
  unfold chain_head, events_of. split; intros [H Hh]; (split; [done|]); intros x;
    rewrite Hh; by destruct (last _).
Qed.

Lemma extends_verify previous e :
  extends previous e = true -> verify_event e (snd <$> previous) = true.
Proof. unfold extends. destruct previous as [[]|]; intros [_ H]%andb_true_iff; done. Qed.

Context `{UL : !UuidLaws}.

(** The head of a chain determines its whole history: two well-typed
    chains of one execution that end in the same event digest are the same
    list of events, unless an event of one and an event of the other collide
    under blake3.  Removing, reordering or editing any earlier event changes
    the head. *)
Theorem chain_history_determined_by_head l l' e e' :
  Forall event_in_range (l ++ [e]) -> Forall event_in_range (l' ++ [e']) ->
  chain None (l ++ [e]) -> chain None (l' ++ [e']) ->
  ev_event_digest e = ev_event_digest e' ->
  l ++ [e] = l' ++ [e']
  \/ exists a a', a ∈ l ++ [e] /\ a' ∈ l' ++ [e'] /\ events_collide a a'.
Proof.
  revert l' e e'. induction l as [|p l IH] using rev_ind; intros l' e e' Hr Hr' Hc Hc' Hd.
  all: apply chain_app in Hc as [Hl [He _]], Hc' as [Hl' [He' _]].
  all: apply Forall_app in Hr as [Hrl [Hre _]%Forall_cons_iff],
    Hr' as [Hrl' [Hre' _]%Forall_cons_iff].
  all: pose proof (extends_verify _ _ He) as Hve; pose proof (extends_verify _ _ He') as Hve'.
  all: destruct (event_digest_binds_event e e' _ _ Hre Hre' Hve Hve' Hd) as [<-|Hcol];
    [|right; exists e, e'; set_solver].
  all: apply verify_event_iff in Hve as [Hp _], Hve' as [Hp' _].
  all: destruct l' as [|p' l' _] using rev_ind; unfold chain_head in *;
    rewrite ?last_snoc in *; cbn in Hp, Hp'; try congruence.
  - by left.
  - destruct (IH l' p p') as [->|(a & a' & ? & ? & ?)]; [done..| congruence | by left |].
    right. exists a, a'. set_solver.
Qed.
End chains.

(** ** Witnesses *)

#[local] Existing Instances sample_uuid sample_uuid_laws sample_blake3.

(** The second event of the sample execution. *)
Definition sample_event2 : OperationJournalEvent :=
  new_event (uid x07) 1 (Some (uid x11)) IntentDurableEvent [x02]
    (Some (ev_event_digest sample_event)) 2.

Lemma chain_history_determined_by_head_witness :
  chain None ([sample_event] ++ [sample_event2])
  /\ ([sample_event] ++ [sample_event2] = [sample_event] ++ [sample_event2]
      \/ exists a a', a ∈ [sample_event] ++ [sample_event2]
           /\ a' ∈ [sample_event] ++ [sample_event2] /\ events_collide a a').
Proof.
  assert (Forall event_in_range ([sample_event] ++ [sample_event2])) as Hr.
  { repeat constructor; vm_compute; discriminate. }
  assert (chain None ([sample_event] ++ [sample_event2])) as Hc.
  { vm_compute. repeat split. }
  split; [exact Hc|].
  exact (chain_history_determined_by_head [sample_event] [sample_event] sample_event2
    sample_event2 Hr Hr Hc Hc eq_refl).
Defined.
