(* ===== verification/Journal.v ===== *)
(** * Recovery journals

    crates/operations/src/lib.rs: the [DurableJournal] trait and its three
    implementations, in memory, in an encrypted append-only file, and locked
    after a failed open.  Cipher, base64, entropy and the faults of the disk
    are parameters; reading back what was appended is proved through all of
    them. *)

From S2P Require Export JournalChain.
From stdpp Require Import sorting.
#[local] Open Scope Z_scope.

(** ** domain/src/execution.rs: diagnostics *)

Inductive JournalDiagnosticScope := JdsDatabase | JdsExternal.

Record JournalDiagnostic := {
  jd_scope : JournalDiagnosticScope;
  jd_execution_id : option ExecutionId;
  jd_code : str;
  jd_message : str;
  jd_detected_at_unix_ms : Z;
  jd_recovery_available : bool;
  jd_rollback_available : bool
}.

(** ** The trait *)

(** [trait DurableJournal], over the world [W] its methods change. *)
Class DurableJournal (W : Type) : Type := {
  journal_append : OperationJournalEvent -> SE W OperationsError unit;
  journal_flush : SE W OperationsError unit;
  journal_events : ExecutionId -> SE W OperationsError (list OperationJournalEvent);
  journal_diagnostics : W -> list JournalDiagnostic
}.

(** What a client may rely on: the journal holds a list of events, a
    successful append adds one at its end, flushing and reading change
    nothing, and reading returns the events of the execution asked for. *)
Class JournalLaws (W : Type) `{DurableJournal W} : Type := {
  holds : W -> list OperationJournalEvent -> Prop;
  holds_append w es e w' :
    holds w es -> journal_append e w = (Ok tt, w') -> holds w' (es ++ [e]);
  holds_flush w es r w' : holds w es -> journal_flush w = (r, w') -> holds w' es;
  holds_events w es x l w' :
    holds w es -> journal_events x w = (Ok l, w') -> l = events_of x es /\ holds w' es
}.

(** ** In memory *)

Module MemoryJournal.
(** The mutex is never poisoned in a single thread of control. *)
Notation t := (list OperationJournalEvent).

#[global] Instance memory_journal : DurableJournal t := {
  journal_append event w := (Ok tt, w ++ [event]);
  journal_flush w := (Ok tt, w);
  journal_events x w := (Ok (events_of x w), w);
  journal_diagnostics _ := []
}.

#[global, refine] Instance memory_journal_laws : JournalLaws t := {
  holds w es := w = es
}.
Proof.
  - intros w es e w' <- [= <-]. done.
  - intros w es r w' <- [= _ <-]. done.
  - intros w es x l w' <- [= <- <-]. done.
Defined.
End MemoryJournal.

(** ** Interfaces of the ciphers *)

Notation nonce24 := (barray 24).

(** XChaCha20-Poly1305: key, nonce, associated data, message. *)
Class Aead : Type := {
  aead_encrypt : bytes32 -> nonce24 -> bytes -> bytes -> option bytes;
  aead_decrypt : bytes32 -> nonce24 -> bytes -> bytes -> option bytes
}.
Class AeadLaws `{Aead} : Prop :=
  aead_decrypt_encrypt k n aad m c :
    aead_encrypt k n aad m = Some c -> aead_decrypt k n aad c = Some m.

(** The standard base64 engine. *)
Class Base64 : Type := {
  base64_encode : bytes -> str;
  base64_decode : str -> res str bytes
}.
Class Base64Laws `{Base64} : Prop :=
  base64_decode_encode l : base64_decode (base64_encode l) = Ok l.

(** serde_json's compact form of a struct: a text between braces in which line
    feeds are escaped. *)
Class CompactJson (A : Type) `{ToVec A} : Prop :=
  compact_json (a : A) l : to_vec a = Ok l -> exists s,
    Forall (fun c => is_scalar c = true) s /\ l = utf8 (lit "{" ++ s ++ lit "}")
    /\ x0a ∉ l.

(** The host of a journal file, observed at each tick: [getrandom::fill], the
    bytes a failing [write_all] still wrote with its error, and the result of
    [flush] and [sync_all]. *)
Class JournalHost : Type := {
  entropy : nat -> res str nonce24;
  write_fault : nat -> option (nat * str);
  sync_fault : nat -> option str
}.

Record EncryptedJournalRecord := {
  ejr_version : Z;
  ejr_nonce : str;
  ejr_ciphertext : str
}.

(** ** [BufRead::lines] *)

Definition LF : byte := x0a.
Definition CR : byte := x0d.

(** The pieces between line feeds; the flag tells whether the feed was there. *)
Fixpoint split_lines (l : bytes) : list (bytes * bool) :=
  match l with
  | [] => []
  | b :: l =>
      if decide (b = LF) then ([], true) :: split_lines l
      else match split_lines l with
      | [] => [([b], false)]
      | (p, fed) :: ps => (b :: p, fed) :: ps
      end
  end.

Definition strip_cr (p : bytes * bool) : bytes :=
  let '(l, fed) := p in
  if fed then
    match reverse l with
    | c :: r => if decide (c = CR) then reverse r else l
    | [] => l
    end
  else l.

Lemma split_lines_cons b l :
  split_lines (b :: l) =
    if decide (b = LF) then ([], true) :: split_lines l
    else match split_lines l with
    | [] => [([b], false)]
    | (p, fed) :: ps => (b :: p, fed) :: ps
    end.
Proof. done. Qed.

Lemma split_lines_nil l : split_lines l = [] -> l = [].
Proof.
  destruct l as [|b l]; [done|]. rewrite split_lines_cons.
  case_decide; [done|]. by destruct (split_lines l) as [|[]].
Qed.

Lemma split_lines_line l k :
  LF ∉ l -> split_lines (l ++ LF :: k) = (l, true) :: split_lines k.
Proof.
  induction l as [|b l IH]; intros Hl; cbn; [done|].
  rewrite decide_False by set_solver. rewrite IH by set_solver. done.
Qed.

(** A text that is empty or ends with a line feed. *)
Definition terminated (l : bytes) : Prop := l = [] \/ last l = Some LF.

Lemma split_lines_app l k :
  terminated l -> split_lines (l ++ k) = split_lines l ++ split_lines k.
Proof.
  induction l as [|b l IH]; [done|]. intros [H|H]; [done|].
  destruct l as [|c l].
  - cbn in H. injection H as ->. done.
  - rewrite last_cons_cons in H. change ((b :: c :: l) ++ k) with (b :: ((c :: l) ++ k)).
    rewrite (split_lines_cons b (c :: l)), split_lines_cons, IH by (by right).
    case_decide; [done|]. destruct (split_lines (c :: l)) as [|[p fed] ps] eqn:Hs; [|done].
    by apply split_lines_nil in Hs.
Qed.

(** ** Reading an encrypted journal *)

(** [iter().flatten()] of options. *)
Definition somes {A} (l : list (option A)) : list A := omap (fun x => x) l.

(** The associated data of every record. *)
Definition JOURNAL_AAD : bytes := bstr "working-name-operation-journal-v1".

Section encrypted.
Context `{B3 : Blake3} `{UU : UuidCrate} `{AE : Aead} `{B64 : Base64}.
Context `{RecTo : ToVec EncryptedJournalRecord} `{RecFrom : FromSlice EncryptedJournalRecord}.
Context `{EvTo : ToVec OperationJournalEvent} `{EvFrom : FromSlice OperationJournalEvent}.

(** The body of the loop of [read_encrypted_events]: [None] for a blank line. *)
Definition read_line (cipher : bytes32) (piece : bytes * bool) :
    res OperationsError (option OperationJournalEvent) :=
  line ← ok_or (from_utf8 (strip_cr piece))
    (OeJournal (lit "stream did not contain valid UTF-8"));
  if bool_decide (trim line = []) then Ok None else
  record ← map_err (fun error => OeJournal (lit "invalid journal record: " ++ error))
    (from_slice (A:=EncryptedJournalRecord) (utf8 line));
  reject_if (negb (ejr_version record =? 1)) (OeJournal (lit "unsupported journal version"));;
  nonce ← map_err OeJournal (base64_decode (ejr_nonce record));
  nonce ← ok_or (barray_of 24 nonce) (OeJournal (lit "invalid journal nonce"));
  ciphertext ← map_err OeJournal (base64_decode (ejr_ciphertext record));
  plaintext ← ok_or (aead_decrypt cipher nonce JOURNAL_AAD ciphertext)
    (OeJournal (lit "journal authentication failed"));
  event ← map_err OeJournal (from_slice (A:=OperationJournalEvent) plaintext);
  Ok (Some event).

Definition read_lines (cipher : bytes32) (contents : bytes) :
    res OperationsError (list OperationJournalEvent) :=
  events ← collect (read_line cipher) (split_lines contents);
  Ok (somes events).

(** [read_encrypted_events] of an open file. *)
Definition read_encrypted_events (cipher : bytes32) (contents : bytes) :
    res OperationsError (list OperationJournalEvent) :=
  events ← read_lines cipher contents;
  validate_event_chains events ∅;;
  Ok events.

(** The encoding half of [FileJournal::append]. *)
Definition encode_record (cipher : bytes32) (nonce : nonce24) (plaintext : bytes) :
    res OperationsError bytes :=
  ciphertext ← ok_or (aead_encrypt cipher nonce JOURNAL_AAD plaintext)
    (OeJournal (lit "journal encryption failed"));
  encoded ← map_err OeJournal (to_vec {| ejr_version := 1;
    ejr_nonce := base64_encode (barr nonce); ejr_ciphertext := base64_encode ciphertext |});
  Ok (encoded ++ [LF]).

Context `{AL : !AeadLaws} `{BL : !Base64Laws}.
Context `{RecRT : !SerdeRoundtrip EncryptedJournalRecord}
        `{EvRT : !SerdeRoundtrip OperationJournalEvent}.
Context `{CJ : !CompactJson EncryptedJournalRecord}.

Lemma reverse_snoc_last (s : str) c : trim (lit "{" ++ s ++ [c]) <> [] \/ is_whitespace c = true.
Proof.
  destruct (is_whitespace c) eqn:Hc; [by right|]. left. unfold trim.
  cbn [app lit]. change (lit "{") with [123%N]. cbn [app trim_start_matches].
  change (is_whitespace 123%N) with false. cbn iota.
  unfold trim_end_matches. rewrite app_comm_cons, reverse_app, reverse_singleton.
  cbn [app trim_start_matches]. rewrite Hc. intros H%(f_equal length).
  by rewrite length_reverse in H.
Qed.

(** What [append] writes, reading takes back. *)
Lemma read_line_encode cipher nonce event plaintext encoded :
  to_vec event = Ok plaintext ->
  encode_record cipher nonce plaintext = Ok encoded ->
  exists l, encoded = l ++ [LF] /\ LF ∉ l /\ read_line cipher (l, true) = Ok (Some event).
Proof.
  intros Hev Henc. unfold encode_record in Henc. inv_ok.
  rename H into Hct, H0 into Hrec. exists x0. split; [done|].
  destruct (compact_json _ _ Hrec) as (s & Hs & Hl & Hlf). split; [done|].
  unfold read_line. set (t := lit "{" ++ s ++ lit "}") in *.
  assert (strip_cr (x0, true) = x0) as ->.
  { unfold strip_cr. rewrite Hl. unfold t. rewrite !utf8_app, !reverse_app.
    change (reverse (utf8 (lit "}"))) with [x7d]. cbn [app]. done. }
  assert (Forall (fun c => is_scalar c = true) t) as Ht.
  { unfold t. rewrite !Forall_app. split_and!; [by repeat constructor | done | by repeat constructor]. }
  rewrite Hl, from_utf8_utf8 by done. cbn [ok_or mbind res_bind].
  destruct (reverse_snoc_last s 125%N) as [Hne|]; [|done].
  rewrite bool_decide_false by done. rewrite <- Hl, (from_slice_to_vec _ _ Hrec).
  cbn [map_err mbind res_bind ejr_version ejr_nonce ejr_ciphertext negb Z.eqb Pos.eqb reject_if].
  rewrite !base64_decode_encode. cbn [map_err mbind res_bind].
  rewrite barray_of_barr. cbn [ok_or mbind res_bind].
  rewrite (aead_decrypt_encrypt _ _ _ _ _ Hct). cbn [ok_or mbind res_bind].
  by rewrite (from_slice_to_vec _ _ Hev).
Qed.
End encrypted.
#[global] Arguments read_encrypted_events : simpl never.

(** ** [FileJournal] *)

(** What [open] finds at the path. *)
Record JournalFile := {
  jf_is_symlink : bool;
  jf_contents : option bytes;
  jf_read_fault : option str;
  jf_open_fault : option str
}.

(** The journal and the bytes of its file, which only it writes; [fj_tick]
    counts the calls to the host. *)
Record FileJournal := {
  fj_contents : bytes;
  fj_cipher : bytes32;
  fj_last_events : JournalChainHeads;
  fj_tick : nat
}.

Definition uuid_le (u v : uuid) : Prop := from_be_bytes (barr u) <= from_be_bytes (barr v).
#[export] Instance uuid_le_dec : RelDecision uuid_le.
Proof. intros u v. unfold uuid_le. apply _. Defined.
#[export] Instance uuid_le_total : Total uuid_le.
Proof. intros u v. unfold uuid_le. lia. Qed.
#[export] Instance uuid_le_trans : Transitive uuid_le.
Proof. intros u v w. unfold uuid_le. lia. Qed.

(** The map [terminal] of [pending_execution_ids]. *)
Definition terminal_map (events : list OperationJournalEvent) : gmap ExecutionId bool :=
  foldl (fun terminal event =>
    <[ev_execution_id event := bool_decide (ev_kind event = ExecutionFinished)]> terminal)
    ∅ events.

Module FileJournal.
Section file_journal.
Context `{B3 : Blake3} `{UU : UuidCrate} `{AE : Aead} `{B64 : Base64} `{JH : JournalHost}.
Context `{RecTo : ToVec EncryptedJournalRecord} `{RecFrom : FromSlice EncryptedJournalRecord}.
Context `{EvTo : ToVec OperationJournalEvent} `{EvFrom : FromSlice OperationJournalEvent}.

(** [FileJournal::open]. *)
Definition open (path : JournalFile) (key : bytes32) : res OperationsError FileJournal :=
  reject_if (jf_is_symlink path) (OeJournal (lit "journal path cannot be a symbolic link"));;
  existing ← match jf_contents path with
    | Some contents =>
        match jf_read_fault path with
        | Some error => Err (OeJournal error)
        | None => read_encrypted_events key contents
        end
    | None => Ok []
    end;
  last_events ← validate_event_chains existing ∅;
  match jf_open_fault path with
  | Some error => Err (OeJournal error)
  | None => Ok {| fj_contents := default [] (jf_contents path); fj_cipher := key;
                  fj_last_events := last_events; fj_tick := 0 |}
  end.

Definition tick (self : FileJournal) : FileJournal :=
  {| fj_contents := fj_contents self; fj_cipher := fj_cipher self;
     fj_last_events := fj_last_events self; fj_tick := S (fj_tick self) |}.

Definition with_contents (self : FileJournal) (contents : bytes) : FileJournal :=
  {| fj_contents := contents; fj_cipher := fj_cipher self;
     fj_last_events := fj_last_events self; fj_tick := fj_tick self |}.

(** [write_all] on the file, opened for appending. *)
Definition write_all (encoded : bytes) : SE FileJournal OperationsError unit := fun self =>
  match write_fault (fj_tick self) with
  | Some (written, error) =>
      (Err (OeJournal error), with_contents self (fj_contents self ++ take written encoded))
  | None => (Ok tt, with_contents self (fj_contents self ++ encoded))
  end.

(** [getrandom::fill]. *)
Definition fill_nonce : SE FileJournal OperationsError nonce24 := fun self =>
  (map_err OeJournal (entropy (fj_tick self)), tick self).

Definition note_head (event : OperationJournalEvent) : SE FileJournal OperationsError unit :=
  fun self =>
    (Ok tt, {| fj_contents := fj_contents self; fj_cipher := fj_cipher self;
               fj_last_events :=
                 <[ev_execution_id event := head_of event]> (fj_last_events self);
               fj_tick := fj_tick self |}).

(** [FileJournal::append]. *)
Definition append (event : OperationJournalEvent) : SE FileJournal OperationsError unit :=
  fun self =>
    let expected := fj_last_events self !! ev_execution_id event in
    (se_lift (reject_if (negb (extends expected event))
       (OeJournal (lit "journal event sequence or hash chain is invalid")));;
     plaintext ← se_lift (map_err OeJournal (to_vec event));
     nonce ← fill_nonce;
     encoded ← se_lift (encode_record (fj_cipher self) nonce plaintext);
     write_all encoded;;
     note_head event) self.

(** [flush] and [sync_all]. *)
Definition flush : SE FileJournal OperationsError unit := fun self =>
  match sync_fault (fj_tick self) with
  | Some error => (Err (OeJournal error), tick self)
  | None => (Ok tt, tick self)
  end.

(** [events]: reads the file again. *)
Definition events (execution_id : ExecutionId) :
    SE FileJournal OperationsError (list OperationJournalEvent) := fun self =>
  (events ← read_encrypted_events (fj_cipher self) (fj_contents self);
   Ok (events_of execution_id events), self).

(** [pending_execution_ids]. *)
Definition pending_execution_ids (self : FileJournal) : res OperationsError (list ExecutionId) :=
  events ← read_encrypted_events (fj_cipher self) (fj_contents self);
  let terminal := terminal_map events in
  let pending := fst <$> filter (fun entry => entry.2 = false) (map_to_list terminal) in
  Ok (merge_sort uuid_le pending).

(** [contains_plan_id]. *)
Definition contains_plan_id
    `{FS : FromSlice (SealedPlan * ApprovalReceipt * gmap RootId PathBuf)}
    (self : FileJournal) (plan_id : PlanId) : res OperationsError bool :=
  events ← read_encrypted_events (fj_cipher self) (fj_contents self);
  Ok (existsb (fun event =>
        match from_slice (ev_payload event) with
        | Ok (plan, _, _) => bool_decide (sp_id plan = plan_id)
        | Err _ => false
        end) (filter (fun event => ev_kind event = ApprovedDurable) events)).

#[global] Instance file_journal : DurableJournal FileJournal := {
  journal_append := append;
  journal_flush := flush;
  journal_events := events;
  journal_diagnostics _ := []
}.

(** The file reads back as [es] and the heads in memory are theirs. *)
Definition well_formed (self : FileJournal) (es : list OperationJournalEvent) : Prop :=
  terminated (fj_contents self)
  /\ read_lines (fj_cipher self) (fj_contents self) = Ok es
  /\ validate_event_chains es ∅ = Ok (fj_last_events self).

Lemma read_encrypted_well_formed self es :
  well_formed self es ->
  read_encrypted_events (fj_cipher self) (fj_contents self) = Ok es.
Proof.
  intros (_ & Hr & Hv). unfold read_encrypted_events. rewrite Hr. cbn. by rewrite Hv.
Qed.

Lemma open_well_formed path key self :
  open path key = Ok self -> terminated (default [] (jf_contents path)) ->
  exists es, well_formed self es /\ fj_cipher self = key.
Proof.
  unfold open. intros H Ht. inv_ok. destruct (jf_open_fault path); [done|]. inv_ok.
  exists x0. split; [|done]. split; [done|]. cbn. split; [|done].
  destruct (jf_contents path) as [contents|]; [|inv_ok; done].
  destruct (jf_read_fault path); [done|]. unfold read_encrypted_events in *. inv_ok. done.
Qed.

Lemma append_refused event self :
  extends (fj_last_events self !! ev_execution_id event) event = false ->
  append event self =
    (Err (OeJournal (lit "journal event sequence or hash chain is invalid")), self).
Proof. intros H. unfold append. by rewrite H. Qed.

(** The only ways out of [append] that do not write the whole record leave
    the file and the heads as they were, except for a torn write. *)
Lemma append_Err event self error self' :
  append event self = (Err error, self') ->
  write_fault (S (fj_tick self)) = None ->
  fj_contents self' = fj_contents self /\ fj_last_events self' = fj_last_events self
  /\ fj_cipher self' = fj_cipher self.
Proof.
  intros H Hw. unfold append in H. cbv [mbind se_bind se_lift] in H.
  destruct (reject_if _ _); [|by injection H as _ <-].
  destruct (map_err OeJournal (to_vec event)); [|by injection H as _ <-].
  unfold fill_nonce in H. destruct (map_err OeJournal (entropy _)); [|by injection H as _ <-].
  destruct (encode_record _ _ _); [|by injection H as _ <-].
  unfold write_all in H. cbn in H. by rewrite Hw in H.
Qed.

Lemma append_Ok event self self' :
  append event self = (Ok tt, self') ->
  exists plaintext nonce encoded,
    extends (fj_last_events self !! ev_execution_id event) event = true
    /\ to_vec event = Ok plaintext
    /\ encode_record (fj_cipher self) nonce plaintext = Ok encoded
    /\ self' = {| fj_contents := fj_contents self ++ encoded; fj_cipher := fj_cipher self;
         fj_last_events := <[ev_execution_id event := head_of event]> (fj_last_events self);
         fj_tick := S (fj_tick self) |}.
Proof.
  intros H. unfold append in H. cbv [mbind se_bind se_lift] in H.
  destruct (extends _ _); [cbn in H|done].
  destruct (to_vec event) as [plaintext|]; [cbn in H|done].
  destruct (entropy _) as [nonce|]; [cbn in H|done].
  destruct (encode_record _ _ _) as [encoded|] eqn:He; [|done].
  unfold write_all in H. cbn in H. destruct (write_fault _) as [[]|]; [done|].
  injection H as <-. by exists plaintext, nonce, encoded.
Qed.

Context `{AL : !AeadLaws} `{BL : !Base64Laws}.
Context `{RecRT : !SerdeRoundtrip EncryptedJournalRecord}
        `{EvRT : !SerdeRoundtrip OperationJournalEvent}.
Context `{CJ : !CompactJson EncryptedJournalRecord}.

Lemma well_formed_append self es event self' :
  well_formed self es -> append event self = (Ok tt, self') ->
  well_formed self' (es ++ [event]).
Proof.
  intros (Ht & Hr & Hv) (plaintext & nonce & encoded & Hx & Hp & He & ->)%append_Ok.
  destruct (read_line_encode _ _ _ _ _ Hp He) as (l & -> & Hl & Hline).
  split_and!; cbn [fj_contents fj_cipher fj_last_events].
  - right. by rewrite app_assoc, last_snoc.
  - unfold read_lines in *. inv_ok. rewrite split_lines_app, split_lines_line, collect_app by done.
    rewrite H. cbn. rewrite Hline. cbn. unfold somes. by rewrite omap_app.
  - unfold validate_event_chains in *. rewrite fold_res_app, Hv. cbn.
    by rewrite (proj2 (validate_one_Ok _ _ _) (conj Hx eq_refl)).
Qed.

#[global, refine] Instance file_journal_laws : JournalLaws FileJournal := {
  holds := well_formed
}.
Proof.
  - intros w es e w' H Ha. by eapply well_formed_append.
  - intros w es r w' H. cbn. unfold flush. destruct (sync_fault _); by intros [= _ <-].
  - intros w es x l w' H. cbn. unfold events.
    rewrite (read_encrypted_well_formed _ _ H). by intros [= <- <-].
Defined.
End file_journal.
End FileJournal.

(** ** [LockedJournal] *)

Module LockedJournal.
(** The field [diagnostic]. *)
Notation t := JournalDiagnostic.

Definition mentions (technical : str) (words : list str) : bool :=
  existsb (fun word => contains_str word technical) words.

(** The code and message of [from_open_error]. *)
Definition classify_error (technical : str) : str * str :=
  if mentions technical [lit "decrypt"; lit "authentication"; lit "cipher"] then
    (lit "external_journal_authentication_failed",
     lit "The encrypted recovery journal could not be authenticated.")
  else if mentions technical [lit "sequence"; lit "hash chain"; lit "event chain";
      lit "journal chain"; lit "chain verification"] then
    (lit "external_journal_chain_invalid",
     lit "The encrypted recovery journal chain is invalid.")
  else if mentions technical [lit "invalid journal record"; lit "unsupported journal version";
      lit "nonce"] then
    (lit "external_journal_record_invalid",
     lit "The encrypted recovery journal contains an invalid record.")
  else
    (lit "external_journal_unavailable",
     lit "The encrypted recovery journal is unavailable.").

Definition from_open_error (error : OperationsError) (detected_at_unix_ms : Z) : t :=
  let '(code, message) := classify_error (operations_error_text error) in
  {| jd_scope := JdsExternal;
     jd_execution_id := None;
     jd_code := code;
     jd_message := message;
     jd_detected_at_unix_ms := detected_at_unix_ms;
     jd_recovery_available := false;
     jd_rollback_available := false |}.

Definition locked_error (self : t) : OperationsError :=
  OeJournal (jd_code self ++ lit ": " ++ jd_message self).

#[global] Instance locked_journal : DurableJournal t := {
  journal_append _ self := (Err (locked_error self), self);
  journal_flush self := (Err (locked_error self), self);
  journal_events _ self := (Err (locked_error self), self);
  journal_diagnostics self := [self]
}.

(** The fixed errors with which [open] refuses a journal keep their
    meaning in the diagnosis of the locked journal: a failed decryption is
    an authentication failure, a broken chain a chain failure, a bad
    version, nonce or record a record failure unless the parser's own words
    name the cipher, and a locked journal refuses every operation. *)
Theorem from_open_error_diagnosis at_ms :
  let code e := jd_code (from_open_error (OeJournal e) at_ms) in
  code (lit "journal authentication failed") = lit "external_journal_authentication_failed"
  /\ code (lit "journal chain verification failed") = lit "external_journal_chain_invalid"
  /\ code (lit "unsupported journal version") = lit "external_journal_record_invalid"
  /\ code (lit "invalid journal nonce") = lit "external_journal_record_invalid"
  /\ code (lit "journal path cannot be a symbolic link") = lit "external_journal_unavailable"
  /\ forall self, is_err (fst (journal_flush self)) = true
       /\ (forall e, is_err (fst (journal_append e self)) = true)
       /\ (forall x, is_err (fst (journal_events x self)) = true).
Proof. split_and!; [vm_compute; reflexivity ..|done]. Qed.

(** A record without its ciphertext field is reported as a failure of
    authentication: the parser's message names the field. *)
Lemma missing_field_diagnosed_as_authentication at_ms :
  jd_code (from_open_error
    (OeJournal (lit "invalid journal record: missing field `ciphertext` at line 1 column 25"))
    at_ms) = lit "external_journal_authentication_failed".
Proof. vm_compute. reflexivity. Qed.
End LockedJournal.

(** ** Properties of the file journal *)

Lemma terminal_map_lookup events x :
  terminal_map events !! x =
    (fun event => bool_decide (ev_kind event = ExecutionFinished)) <$> last (events_of x events).
Proof.
  induction events as [|e l IH] using rev_ind; [done|]. unfold terminal_map in *.
  rewrite foldl_app. cbn [foldl]. unfold events_of in *. rewrite filter_app.
  destruct (decide (ev_execution_id e = x)) as [<-|Hne].
  - rewrite lookup_insert_eq, filter_cons_True, filter_nil by done. by rewrite last_snoc.
  - rewrite lookup_insert_ne, IH, filter_cons_False, filter_nil, app_nil_r by done. done.
Qed.

Section properties.
Context `{B3 : Blake3} `{UU : UuidCrate} `{AE : Aead} `{B64 : Base64} `{JH : JournalHost}.
Context `{RecTo : ToVec EncryptedJournalRecord} `{RecFrom : FromSlice EncryptedJournalRecord}.
Context `{EvTo : ToVec OperationJournalEvent} `{EvFrom : FromSlice OperationJournalEvent}.

Fixpoint append_all (es : list OperationJournalEvent) : SE FileJournal OperationsError unit :=
  match es with
  | [] => mret tt
  | e :: es => FileJournal.append e;; append_all es
  end.

(** [pending_execution_ids] of a journal lists, in increasing order and
    once each, exactly the executions whose last event is not
    [ExecutionFinished]; in particular an execution that stopped at a failed
    step stays pending. *)
Theorem pending_execution_ids_spec self es :
  FileJournal.well_formed self es ->
  exists ids, FileJournal.pending_execution_ids self = Ok ids
    /\ NoDup ids /\ StronglySorted uuid_le ids
    /\ forall x, x ∈ ids <->
         exists e, last (events_of x es) = Some e /\ ev_kind e <> ExecutionFinished.
Proof.
  intros Hw. unfold FileJournal.pending_execution_ids.
  rewrite (FileJournal.read_encrypted_well_formed _ _ Hw). cbn.
  eexists. split; [reflexivity|].
  set (pending := fst <$> _).
  assert (NoDup pending) as Hnd.
  { apply NoDup_fmap_fst; [|apply NoDup_filter, NoDup_map_to_list].
    intros x b b'. rewrite !list_elem_of_filter. cbn. intros [-> _] [-> _]. done. }
  split_and!.
  - by rewrite merge_sort_Permutation.
  - apply StronglySorted_merge_sort; apply _.
  - intros x. rewrite merge_sort_Permutation. unfold pending. rewrite list_elem_of_fmap. split.
    + intros ([y b] & -> & [Hb Hm]%list_elem_of_filter). cbn in *. subst.
      apply elem_of_map_to_list in Hm. rewrite terminal_map_lookup in Hm.
      apply fmap_Some in Hm as (e & He & Hk). exists e. split; [done|].
      symmetry in Hk. by apply bool_decide_eq_false in Hk.
    + intros (e & He & Hk). exists (x, false). split; [done|].
      apply list_elem_of_filter. split; [done|]. apply elem_of_map_to_list.
      rewrite terminal_map_lookup, He. cbn. by rewrite bool_decide_false.
Qed.

Context `{AL : !AeadLaws} `{BL : !Base64Laws}.
Context `{RecRT : !SerdeRoundtrip EncryptedJournalRecord}
        `{EvRT : !SerdeRoundtrip OperationJournalEvent}.
Context `{CJ : !CompactJson EncryptedJournalRecord}.

Lemma append_all_well_formed es self fs self' :
  FileJournal.well_formed self fs -> append_all es self = (Ok tt, self') ->
  FileJournal.well_formed self' (fs ++ es) /\ fj_cipher self' = fj_cipher self.
Proof.
  revert self fs. induction es as [|e es IH]; intros self fs Hw.
  - intros [= <-]. by rewrite app_nil_r.
  - cbn [append_all]. intros ([] & self1 & Ha & Hr)%se_bind_Ok.
    pose proof (FileJournal.well_formed_append _ _ _ _ Hw Ha) as Hw1.
    apply FileJournal.append_Ok in Ha as (? & ? & ? & _ & _ & _ & ->).
    destruct (IH _ _ Hw1 Hr) as [Hw' ->]. by rewrite <- app_assoc in Hw'.
Qed.

(** C23: Crash recovery of the journal: whatever was successfully appended to
    a new journal file is read back after reopening it with the same key,
    event for event, with the same chain heads, so that appending resumes
    where it stopped. *)
Theorem append_then_reopen path key es self self' :
  jf_contents path = None -> FileJournal.open path key = Ok self ->
  append_all es self = (Ok tt, self') ->
  (forall x, journal_events x self' = (Ok (events_of x es), self'))
  /\ exists reopened,
    FileJournal.open {| jf_is_symlink := false; jf_contents := Some (fj_contents self');
      jf_read_fault := None; jf_open_fault := None |} key = Ok reopened
    /\ fj_last_events reopened = fj_last_events self'
    /\ forall x, journal_events x reopened = (Ok (events_of x es), reopened).
Proof.
  intros Hn Ho Ha.
  destruct (FileJournal.open_well_formed _ _ _ Ho) as (fs & Hw & Hk);
    [rewrite Hn; by left|].
  assert (fs = []) as ->.
  { unfold FileJournal.open in Ho. rewrite Hn in Ho. inv_ok. destruct (jf_open_fault path); [done|].
    inv_ok. destruct Hw as (_ & Hf & _). rewrite <- H1 in Hf. by injection Hf. }
  destruct (append_all_well_formed _ _ _ _ Hw Ha) as [Hw' Hk']. cbn [app] in Hw'.
  pose proof (FileJournal.read_encrypted_well_formed _ _ Hw') as Hr.
  rewrite Hk', Hk in Hr. split.
  - intros x. cbn. unfold FileJournal.events. by rewrite Hk', Hk, Hr.
  - destruct Hw' as (_ & _ & Hv). eexists. split_and!.
    + unfold FileJournal.open. cbn. rewrite Hr. cbn. rewrite Hv. cbn. reflexivity.
    + done.
    + intros x. cbn. unfold FileJournal.events. cbn. by rewrite Hr.
Qed.
End properties.

(** ** Witnesses *)

#[local] Existing Instances sample_uuid sample_uuid_laws sample_blake3.

#[local] Instance sample_aead : Aead :=
  {| aead_encrypt _ _ _ m := Some m; aead_decrypt _ _ _ c := Some c |}.
#[local] Instance sample_aead_laws : AeadLaws.
Proof. by intros ????? [= ->]. Qed.
#[local] Instance sample_base64 : Base64 :=
  {| base64_encode := encode_hex; base64_decode s := map_err (fun _ => []) (decode_hex s) |}.
#[local] Instance sample_base64_laws : Base64Laws.
Proof. intros l. cbn. by rewrite decode_hex_encode. Qed.
#[local] Instance sample_host : JournalHost :=
  {| entropy _ := Ok (fill 24 x00); write_fault _ := None; sync_fault _ := None |}.
(** The first write tears after one byte. *)
Definition torn_host : JournalHost :=
  {| entropy _ := Ok (fill 24 x00);
     write_fault n := if decide (n = 1%nat) then Some (1%nat, lit "disk full") else None;
     sync_fault _ := None |}.

#[export] Instance EncryptedJournalRecord_eq_dec : EqDecision EncryptedJournalRecord.
Proof. solve_decision. Defined.
#[export] Instance OperationJournalEvent_eq_dec : EqDecision OperationJournalEvent.
Proof. solve_decision. Defined.

Definition sample_record : EncryptedJournalRecord := {|
  ejr_version := 1;
  ejr_nonce := base64_encode (barr (fill 24 x00));
  ejr_ciphertext := base64_encode [x7b; x7d]
|}.
#[local] Instance sample_record_to_vec : ToVec EncryptedJournalRecord := single_to_vec sample_record.
#[local] Instance sample_record_from_slice : FromSlice EncryptedJournalRecord :=
  single_from_slice sample_record.
#[local] Instance sample_event_to_vec : ToVec OperationJournalEvent := single_to_vec sample_event.
#[local] Instance sample_event_from_slice : FromSlice OperationJournalEvent :=
  single_from_slice sample_event.
#[local] Instance sample_record_roundtrip : SerdeRoundtrip EncryptedJournalRecord :=
  single_roundtrip sample_record.
#[local] Instance sample_event_roundtrip : SerdeRoundtrip OperationJournalEvent :=
  single_roundtrip sample_event.
#[local] Instance sample_record_compact : CompactJson EncryptedJournalRecord.
Proof.
  intros r l. unfold to_vec, sample_record_to_vec, single_to_vec. case_decide; [|done].
  intros [= <-]. exists []. split_and!; [constructor | done |].
  rewrite !not_elem_of_cons. split_and!; [done..|apply not_elem_of_nil].
Qed.

Definition absent_file : JournalFile :=
  {| jf_is_symlink := false; jf_contents := None; jf_read_fault := None; jf_open_fault := None |}.
Definition new_journal : FileJournal :=
  {| fj_contents := []; fj_cipher := fill 32 x00; fj_last_events := ∅; fj_tick := 0 |}.
Definition one_event_journal : FileJournal :=
  snd (append_all [sample_event] new_journal).

(** By components: the maps inside are never compared by evaluation. *)
Lemma one_event_appended : append_all [sample_event] new_journal = (Ok tt, one_event_journal).
Proof.
  assert (fst (append_all [sample_event] new_journal) = Ok tt) as Ha by (vm_compute; reflexivity).
  unfold one_event_journal. destruct (append_all [sample_event] new_journal). cbn in Ha. by subst.
Qed.

Lemma one_event_well_formed : FileJournal.well_formed one_event_journal [sample_event].
Proof.
  apply (append_all_well_formed [sample_event] new_journal [] one_event_journal);
    [|exact one_event_appended].
  split; [by left|]. split; reflexivity.
Qed.

Lemma append_then_reopen_witness :
  append_all [sample_event] new_journal = (Ok tt, one_event_journal)
  /\ forall x, journal_events x one_event_journal
               = (Ok (events_of x [sample_event]), one_event_journal).
Proof.
  pose proof one_event_appended as Ha. split; [exact Ha|].
  exact (proj1 (append_then_reopen absent_file (fill 32 x00) [sample_event] new_journal
    one_event_journal eq_refl eq_refl Ha)).
Defined.

Lemma pending_execution_ids_spec_witness :
  FileJournal.well_formed one_event_journal [sample_event]
  /\ exists ids, FileJournal.pending_execution_ids one_event_journal = Ok ids
       /\ (uid x07 ∈ ids <->
            exists e, last (events_of (uid x07) [sample_event]) = Some e
              /\ ev_kind e <> ExecutionFinished).
Proof.
  pose proof one_event_well_formed as Hw. split; [exact Hw|].
  destruct (pending_execution_ids_spec one_event_journal [sample_event] Hw)
    as (ids & H & _ & _ & Hx).
  exists ids. split; [exact H | exact (Hx (uid x07))].
Defined.

(** After a torn write the journal goes on to report successful appends, and
    cannot be read back. *)
Lemma append_after_torn_write_unreadable :
  let torn := snd (FileJournal.append (JH := torn_host) sample_event new_journal) in
  let after := FileJournal.append (JH := torn_host) sample_event torn in
  fst (FileJournal.append (JH := torn_host) sample_event new_journal)
    = Err (OeJournal (lit "disk full"))
  /\ fst after = Ok tt
  /\ is_err (fst (journal_events (uid x07) (snd after))) = true.
Proof. vm_compute. split_and!; reflexivity. Qed.
