(* ===== verification/Proposal.v ===== *)
(** * Proposals

    crates/domain/src/proposal.rs and search.rs: the revision of a proposal,
    its items, the evidence they carry and the review decisions on them. *)

From S2P Require Export Domain.
From Stdlib Require Import SpecFloat.
#[local] Open Scope Z_scope.

(** An [f32] is an IEEE 754 binary32 datum. *)
Notation f32 := spec_float.
Definition f32_zero : f32 := S754_zero false.
Definition f32_one : f32 := S754_finite false 8388608 (-23).

Definition f32_is_finite (x : f32) : bool :=
  match x with S754_zero _ | S754_finite _ _ _ => true | _ => false end.

(** ** search.rs *)

Notation DisplayLabel := str.
Notation ArtifactId := uuid.

Inductive EvidenceLocator :=
  | LocText (start end_ : Z) (line_start line_end : option Z)
  | LocPage (page : Z) (normalized_box : option (f32 * f32 * f32 * f32))
  | LocMedia (start_ms end_ms : Z) (frame : option Z).

Record EvidenceRef := {
  er_artifact_id : ArtifactId;
  er_file_version_id : FileVersionId;
  er_display_label : DisplayLabel;
  er_locator : EvidenceLocator;
  er_excerpt : str;
  er_excerpt_digest : bytes32;
  er_explanation : option str
}.

(** [DisplayLabel::new]. *)
Inductive DisplayLabelError := LabelEmpty | LabelContainsPathSeparator.

Definition display_label_new (value : str) : res DisplayLabelError DisplayLabel :=
  let trimmed := trim value in
  reject_if (bool_decide (trimmed = [])) LabelEmpty;;
  reject_if (contains 47%N trimmed || contains 92%N trimmed) LabelContainsPathSeparator;;
  Ok (take 120 trimmed).

(** ** Confidence *)

Inductive CalibrationState := Calibrated | Uncalibrated_ | OutOfDistribution_.
#[export] Instance CalibrationState_eq_dec : EqDecision CalibrationState.
Proof. solve_decision. Defined.

Record Confidence := {
  cf_raw_score : f32;
  cf_probability : option f32;
  cf_calibration : CalibrationState
}.

Inductive ConfidenceError := NotFinite | ProbabilityOutOfRange.

(** [(0.0..=1.0).contains(&value)]. *)
Definition in_unit_interval (value : f32) : bool :=
  SFleb f32_zero value && SFleb value f32_one.

(** [Confidence::new]. *)
Definition confidence_new (raw_score : f32) (probability : option f32)
    (calibration : CalibrationState) : res ConfidenceError Confidence :=
  reject_if (negb (f32_is_finite raw_score)) NotFinite;;
  reject_if (match probability with Some value => negb (in_unit_interval value) | None => false end)
    ProbabilityOutOfRange;;
  Ok {| cf_raw_score := raw_score; cf_probability := probability; cf_calibration := calibration |}.

(** [Confidence::is_eligible]. *)
Definition is_eligible (self : Confidence) (threshold : f32) : bool :=
  bool_decide (cf_calibration self = Calibrated)
  && match cf_probability self with Some value => SFleb threshold value | None => false end.

(** ** Items *)

Inductive ReviewState := Ready | ToReview | Accepted | Rejected | Blocked | Stale.
#[export] Instance ReviewState_eq_dec : EqDecision ReviewState.
Proof. solve_decision. Defined.

Record DestinationIntent := {
  di_root_id : RootId;
  di_folder_components : list str;
  di_file_name : str
}.

Inductive ProposalAction :=
  | Keep
  | Move (destination : DestinationIntent)
  | PlaceInReview (destination : DestinationIntent).

Definition mutates_filesystem (self : ProposalAction) : bool :=
  match self with Keep => false | _ => true end.

Record ProposalItem := {
  pi_id : ProposalItemId;
  pi_file_id : FileId;
  pi_expected_file_version_id : FileVersionId;
  pi_action : ProposalAction;
  pi_review_state : ReviewState;
  pi_confidence : Confidence;
  pi_rationale : str;
  pi_evidence : list EvidenceRef;
  pi_counter_evidence : list EvidenceRef;
  pi_uncertainty_reasons : list ReviewReason;
  pi_alternatives : list ProposalAction
}.

Inductive ProposalDecisionError := NotReviewable.

(** [ProposalItem::decide], on [&mut self]. *)
Definition decide_item (self : ProposalItem) (accept : bool) :
    res ProposalDecisionError ProposalItem :=
  match pi_review_state self with
  | Blocked | Stale => Err NotReviewable
  | _ => Ok {|
      pi_id := pi_id self; pi_file_id := pi_file_id self;
      pi_expected_file_version_id := pi_expected_file_version_id self;
      pi_action := pi_action self;
      pi_review_state := if accept then Accepted else Rejected;
      pi_confidence := pi_confidence self; pi_rationale := pi_rationale self;
      pi_evidence := pi_evidence self; pi_counter_evidence := pi_counter_evidence self;
      pi_uncertainty_reasons := pi_uncertainty_reasons self;
      pi_alternatives := pi_alternatives self |}
  end.

Definition requires_decision (self : ProposalItem) : bool :=
  mutates_filesystem (pi_action self)
  && negb (match pi_review_state self with Accepted | Rejected | Blocked => true | _ => false end).

(** ** Revisions *)

Record ProposalRevision := {
  pr_id : ProposalId;
  pr_workspace_id : WorkspaceId;
  pr_base_scan_id : ScanId;
  pr_revision : Z;
  pr_policy_digest : bytes32;
  pr_items : list ProposalItem;
  pr_created_at_unix_ms : Z
}.

Record ProposalCounts := { pc_ready : Z; pc_to_review : Z; pc_blocked : Z }.

Definition count_item (total : ProposalCounts) (item : ProposalItem) : ProposalCounts :=
  let 'Build_ProposalCounts ready to_review blocked := total in
  match pi_review_state item with
  | Ready | Accepted => Build_ProposalCounts (ready + 1) to_review blocked
  | ToReview => Build_ProposalCounts ready (to_review + 1) blocked
  | Blocked | Stale => Build_ProposalCounts ready to_review (blocked + 1)
  | Rejected => total
  end.

(** [ProposalRevision::counts]. *)
Definition counts (self : ProposalRevision) : ProposalCounts :=
  foldl count_item (Build_ProposalCounts 0 0 0) (pr_items self).

Definition can_be_sealed (self : ProposalRevision) : bool :=
  negb (bool_decide (pr_items self = []))
  && forallb (fun item =>
       match pi_review_state item with Accepted | Rejected => true | _ => false end
       || negb (mutates_filesystem (pi_action item))) (pr_items self)
  && existsb (fun item => bool_decide (pi_review_state item = Accepted)) (pr_items self).

(** ** Outcomes of a simulation *)

Inductive ConflictSeverity := Warning | Blocker.
#[export] Instance ConflictSeverity_eq_dec : EqDecision ConflictSeverity.
Proof. solve_decision. Defined.

Record SimulationConflict := {
  sc_item_id : ProposalItemId;
  sc_reason : ReviewReason;
  sc_severity : ConflictSeverity;
  sc_message : str
}.

Record SimulationDiff := {
  sd_item_id : ProposalItemId;
  sd_display_label : str;
  sd_before_label : option str;
  sd_after_label : option str;
  sd_summary : str
}.

Record ProposalSimulation := {
  ps_proposal_id : ProposalId;
  ps_proposal_digest : bytes32;
  ps_diffs : list SimulationDiff;
  ps_conflicts : list SimulationConflict;
  ps_simulated_at_unix_ms : Z
}.

Definition has_blockers (self : ProposalSimulation) : bool :=
  existsb (fun conflict => bool_decide (sc_severity conflict = Blocker)) (ps_conflicts self).

#[export] Instance spec_float_eq_dec : EqDecision f32.
Proof. solve_decision. Defined.
#[export] Instance EvidenceLocator_eq_dec : EqDecision EvidenceLocator.
Proof. solve_decision. Defined.
#[export] Instance EvidenceRef_eq_dec : EqDecision EvidenceRef.
Proof. solve_decision. Defined.
#[export] Instance Confidence_eq_dec : EqDecision Confidence.
Proof. solve_decision. Defined.
#[export] Instance DestinationIntent_eq_dec : EqDecision DestinationIntent.
Proof. solve_decision. Defined.
#[export] Instance ProposalAction_eq_dec : EqDecision ProposalAction.
Proof. solve_decision. Defined.
#[export] Instance ProposalItem_eq_dec : EqDecision ProposalItem.
Proof. solve_decision. Defined.
#[export] Instance ProposalRevision_eq_dec : EqDecision ProposalRevision.
Proof. solve_decision. Defined.

(** ** Properties *)

(** Every accepted confidence has a probability between zero and one, and an
    eligible one is calibrated and reaches the threshold. *)
Lemma confidence_new_Ok raw probability calibration c threshold :
  confidence_new raw probability calibration = Ok c -> is_eligible c threshold = true ->
  calibration = Calibrated /\ exists p, probability = Some p
    /\ SFleb f32_zero p = true /\ SFleb p f32_one = true /\ SFleb threshold p = true.
Proof.
  unfold confidence_new, is_eligible, in_unit_interval. intros H He. inv_ok. cbn in *.
  destruct probability as [p|]; bools; [|done]. subst. split; [done|]. by exists p.
Qed.

(** A sealable revision leaves no item waiting for a decision. *)
Lemma can_be_sealed_decided self :
  can_be_sealed self = true ->
  Forall (fun item => requires_decision item = false) (pr_items self).
Proof.
  unfold can_be_sealed, requires_decision. intros [[_ H]%andb_true_iff _]%andb_true_iff.
  apply Forall_forall. intros item Hi. rewrite forallb_forall in H.
  specialize (H item (proj1 (list_elem_of_In _ _) Hi)).
  destruct (pi_review_state item), (mutates_filesystem (pi_action item)); done.
Qed.
