(* ===== verification/Organization.v ===== *)
(** * Organization proposals

    crates/domain/src/proposal.rs, second part: the proposal a user reviews and
    approves, and from which an execution is prepared. *)

From S2P Require Export Proposal.
#[local] Open Scope Z_scope.

Inductive OrganizationProposalStatus :=
  | PsDraft | PsReadyForReview | PsReviewed | PsApprovedForFutureApply | PsSuperseded
  | PsCancelled.
#[export] Instance OrganizationProposalStatus_eq_dec : EqDecision OrganizationProposalStatus.
Proof. solve_decision. Defined.

Definition proposal_status_name (self : OrganizationProposalStatus) : str :=
  match self with
  | PsDraft => lit "draft"
  | PsReadyForReview => lit "ready_for_review"
  | PsReviewed => lit "reviewed"
  | PsApprovedForFutureApply => lit "approved_for_future_apply"
  | PsSuperseded => lit "superseded"
  | PsCancelled => lit "cancelled"
  end.

Inductive ProposalOperationKind :=
  | MoveProposal | RenameProposal | CreateFolderProposal | KeepInPlace | ToReview | NoAction.
#[export] Instance ProposalOperationKind_eq_dec : EqDecision ProposalOperationKind.
Proof. solve_decision. Defined.

Definition proposal_operation_kind_name (self : ProposalOperationKind) : str :=
  match self with
  | MoveProposal => lit "move_proposal"
  | RenameProposal => lit "rename_proposal"
  | CreateFolderProposal => lit "create_folder_proposal"
  | KeepInPlace => lit "keep_in_place"
  | ToReview => lit "to_review"
  | NoAction => lit "no_action"
  end.

Inductive ProposalConfidenceLevel := ClVeryHigh | ClHigh | ClMedium | ClLow.

Definition confidence_level_name (self : ProposalConfidenceLevel) : str :=
  match self with
  | ClVeryHigh => lit "very_high"
  | ClHigh => lit "high"
  | ClMedium => lit "medium"
  | ClLow => lit "low"
  end.

Inductive ProposalConflictState :=
  | CsNone | CsAutoResolved | CsDestinationCollision | CsInvalidPath | CsPathTooLong
  | CsStaleSource.
#[export] Instance ProposalConflictState_eq_dec : EqDecision ProposalConflictState.
Proof. solve_decision. Defined.

Definition conflict_state_name (self : ProposalConflictState) : str :=
  match self with
  | CsNone => lit "none"
  | CsAutoResolved => lit "auto_resolved"
  | CsDestinationCollision => lit "destination_collision"
  | CsInvalidPath => lit "invalid_path"
  | CsPathTooLong => lit "path_too_long"
  | CsStaleSource => lit "stale_source"
  end.

(** [ProposalConflictState::requires_review]. *)
Definition requires_review (self : ProposalConflictState) : bool :=
  match self with
  | CsDestinationCollision | CsInvalidPath | CsPathTooLong | CsStaleSource => true
  | _ => false
  end.

Record OrganizationReason := {
  or_code : str;
  or_explanation : str;
  or_evidence_references : list str
}.

Record ProposalSourceSnapshot := {
  pss_relative_path : str;
  pss_content_hash : option str;
  pss_byte_size : Z;
  pss_modified_at : option str
}.

Record OrganizationProposalOperation := {
  opo_id : ProposalItemId;
  opo_file_id : FileId;
  opo_file_version_id : FileVersionId;
  opo_source : ProposalSourceSnapshot;
  opo_source_name : str;
  opo_machine_destination : list str;
  opo_machine_name : str;
  opo_proposed_destination : list str;
  opo_proposed_name : str;
  opo_operation_kind : ProposalOperationKind;
  opo_confidence_score : f32;
  opo_confidence_level : ProposalConfidenceLevel;
  opo_reasons : list OrganizationReason;
  opo_conflict_state : ProposalConflictState;
  opo_needs_review : bool;
  opo_stale : bool;
  opo_user_override : bool;
  opo_disruption_score : f32;
  opo_proposed_path_length : Z;
  opo_proposed_depth : Z;
  opo_semantic_context : str;
  opo_document_type : str;
  opo_customer_name : option str;
  opo_supplier_name : option str;
  opo_project_name : option str;
  opo_duplicate_group_id : option str;
  opo_duplicate_canonical : bool
}.

Definition proposed_relative_path (self : OrganizationProposalOperation) : str :=
  join [92%N] (opo_proposed_destination self ++ [opo_proposed_name self]).

Definition is_rename (self : OrganizationProposalOperation) : bool :=
  negb (eq_ignore_ascii_case (opo_source_name self) (opo_proposed_name self)).

Inductive VirtualNodeKind := NodeRoot | NodeFolder | NodeFile.

Record VirtualProposalNode := {
  vpn_id : uuid;
  vpn_parent_id : option uuid;
  vpn_kind : VirtualNodeKind;
  vpn_name : str;
  vpn_virtual_path : str;
  vpn_operation_id : option ProposalItemId;
  vpn_child_count : Z;
  vpn_needs_review_count : Z;
  vpn_conflict_count : Z
}.

Record OrganizationProposalSummary := {
  ops_files_analyzed : Z;
  ops_proposed_moves : Z;
  ops_proposed_renames : Z;
  ops_unchanged : Z;
  ops_needs_review : Z;
  ops_unresolved : Z;
  ops_conflicts : Z;
  ops_high_confidence : Z;
  ops_medium_confidence : Z;
  ops_low_confidence : Z;
  ops_duplicate_no_action : Z;
  ops_average_depth : f32;
  ops_maximum_depth : Z
}.

Record OrganizationProposalDiff := {
  opd_destinations_changed : Z;
  opd_files_added : Z;
  opd_conflicts_resolved : Z;
  opd_moved_to_review : Z
}.

Record OrganizationProposal := {
  op_id : ProposalId;
  op_revision_id : OrganizationRevisionId;
  op_workspace_id : WorkspaceId;
  op_root_id : RootId;
  op_source_scan_id : ScanId;
  op_revision : Z;
  op_status : OrganizationProposalStatus;
  op_engine_version : str;
  op_policy_version : str;
  op_source_semantic_version : option str;
  op_source_relationship_version : option str;
  op_created_at : str;
  op_updated_at : str;
  op_summary : OrganizationProposalSummary;
  op_diff : OrganizationProposalDiff;
  op_nodes : list VirtualProposalNode;
  op_operations : list OrganizationProposalOperation
}.
