(* ===== verification/Simulation.v ===== *)
(** * Simulation of a proposal

    crates/simulation/src/lib.rs: a proposal is replayed on a virtual file
    system before anything is sealed.  Every item becomes a planned move or a
    conflict; the destinations of the planned moves never meet an existing
    entry or each other. *)

From S2P Require Export Proposal.
From S2P Require Import Samples.

Record SimulationFile := {
  sf_item_id : ProposalItemId;
  sf_root_id : RootId;
  sf_source_path : NativePath;
  sf_source_display : str;
  sf_fingerprint : FileFingerprint
}.

Record PlannedMove := {
  pm_item_id : ProposalItemId;
  pm_source_root_id : RootId;
  pm_source_path : NativePath;
  pm_destination_root_id : RootId;
  pm_destination_path : NativePath;
  pm_fingerprint : FileFingerprint
}.

Record PlannedDirectory := {
  pdir_root_id : RootId;
  pdir_path : NativePath;
  pdir_display_path : str
}.

Record SimulationOutcome := {
  so_simulation : ProposalSimulation;
  so_directories : list PlannedDirectory;
  so_moves : list PlannedMove
}.

Inductive SimulationError := SimSerialization (error : str) | MissingSnapshot.

(** [HashMap<RootId, HashSet<String>>]. *)
Notation PathSets := (gmap RootId (gset str)).

Definition paths_of (m : PathSets) (root : RootId) : gset str := default ∅ (m !! root).
(** [entry(root).or_default().insert(key)]: the new map and whether the key is new. *)
Definition insert_path (m : PathSets) (root : RootId) (key : str) : PathSets * bool :=
  (<[root := {[key]} ∪ paths_of m root]> m, negb (bool_decide (key ∈ paths_of m root))).

Record VirtualFileSystem := {
  occupied_paths : PathSets;
  existing_directories : PathSets
}.

(** ** Names *)

Definition RESERVED_STEMS : list str :=
  lit <$> ["CON"; "PRN"; "AUX"; "NUL"; "COM1"; "COM2"; "COM3"; "COM4"; "COM5"; "COM6"; "COM7";
    "COM8"; "COM9"; "LPT1"; "LPT2"; "LPT3"; "LPT4"; "LPT5"; "LPT6"; "LPT7"; "LPT8"; "LPT9"]%string.

(** The characters < > : double-quote slash backslash | ? and star. *)
Definition FORBIDDEN : list char := [60; 62; 58; 34; 47; 92; 124; 63; 42]%N.

(** [validate_component]. *)
Definition validate_component (component : str) : option ReviewReason :=
  if bool_decide (component = []) || bool_decide (component = lit ".")
     || bool_decide (component = lit "..") || ends_with_any [32; 46]%N component
     || existsb (fun c => (c <? 32)%N || bool_decide (c ∈ FORBIDDEN)) component
     || (255 <? len_utf16 component)
  then Some InvalidPath
  else
    let stem := to_ascii_uppercase (default [] (head (split (fun c => (c =? 46)%N) component))) in
    if bool_decide (stem ∈ RESERVED_STEMS) then Some InvalidPath else None.

(** [encode_native_path]. *)
Definition encode_native_path (value : str) (encoding : PathEncoding) : NativePath := {|
  np_encoding := encoding;
  np_bytes :=
    match encoding with
    | UnixBytes => utf8 ((fun c => if (c =? 92)%N then 47%N else c) <$> value)
    | WindowsUtf16Le => concat (le_bytes 2 <$> utf16 value)
    end
|}.

Section simulation.
Context `{B3 : Blake3} `{UC : UnicodeCase} `{TV : ToVec ProposalRevision}.

Definition case_key (value : str) : str := to_lowercase value.

Definition insert_key (m : PathSets) (entry : RootId * str) : PathSets :=
  fst (insert_path m entry.1 (case_key entry.2)).

Definition with_occupied_paths (paths : list (RootId * str)) : VirtualFileSystem :=
  {| occupied_paths := foldl insert_key ∅ paths; existing_directories := ∅ |}.

Definition with_snapshot (files directories : list (RootId * str)) : VirtualFileSystem :=
  {| occupied_paths := occupied_paths (with_occupied_paths files);
     existing_directories := foldl insert_key ∅ directories |}.

(** The local variables of [simulate]. *)
Record SimState := {
  st_occupied : PathSets;
  st_conflicts : list SimulationConflict;
  st_diffs : list SimulationDiff;
  st_directories : list PlannedDirectory;
  st_planned_directories : PathSets;
  st_moves : list PlannedMove
}.

Definition push_conflict (st : SimState) (item : ProposalItem) (reason : ReviewReason)
    (severity : ConflictSeverity) (message : str) : SimState := {|
  st_occupied := st_occupied st;
  st_conflicts := st_conflicts st ++ [{| sc_item_id := pi_id item; sc_reason := reason;
    sc_severity := severity; sc_message := message |}];
  st_diffs := st_diffs st;
  st_directories := st_directories st;
  st_planned_directories := st_planned_directories st;
  st_moves := st_moves st
|}.

Definition set_occupied (st : SimState) (occupied : PathSets) : SimState := {|
  st_occupied := occupied;
  st_conflicts := st_conflicts st;
  st_diffs := st_diffs st;
  st_directories := st_directories st;
  st_planned_directories := st_planned_directories st;
  st_moves := st_moves st
|}.

(** [components.join("\\")]. *)
Definition display_of (components : list str) : str := join (lit "\") components.

(** The body of the loop over the ancestors of a destination. *)
Definition plan_directory (self : VirtualFileSystem) (source : SimulationFile)
    (destination : DestinationIntent) (st : SimState) (index : nat) : SimState :=
  let display_path := display_of (take index (di_folder_components destination)) in
  let key := case_key display_path in
  let exists_ :=
    bool_decide (key ∈ paths_of (existing_directories self) (di_root_id destination)) in
  let '(planned, is_new) :=
    insert_path (st_planned_directories st) (di_root_id destination) key in
  let already_planned := negb is_new in
  {| st_occupied := st_occupied st;
     st_conflicts := st_conflicts st;
     st_diffs := st_diffs st;
     st_directories :=
       if negb exists_ && negb already_planned then
         st_directories st ++ [{| pdir_root_id := di_root_id destination;
           pdir_path := encode_native_path display_path (np_encoding (sf_source_path source));
           pdir_display_path := display_path |}]
       else st_directories st;
     st_planned_directories := planned;
     st_moves := st_moves st |}.

Definition plan_directories (self : VirtualFileSystem) (source : SimulationFile)
    (destination : DestinationIntent) (st : SimState) : SimState :=
  foldl (plan_directory self source destination) st
    (seq 1 (length (di_folder_components destination))).

Definition push_move (st : SimState) (item : ProposalItem) (source : SimulationFile)
    (destination : DestinationIntent) (destination_display : str) : SimState := {|
  st_occupied := st_occupied st;
  st_conflicts := st_conflicts st;
  st_diffs := st_diffs st ++ [{|
    sd_item_id := pi_id item;
    sd_display_label := sf_source_display source;
    sd_before_label := Some (sf_source_display source);
    sd_after_label := Some destination_display;
    sd_summary := lit "Déplacement intra-racine proposé, sans écrasement." |}];
  st_directories := st_directories st;
  st_planned_directories := st_planned_directories st;
  st_moves := st_moves st ++ [{|
    pm_item_id := pi_id item;
    pm_source_root_id := sf_root_id source;
    pm_source_path := sf_source_path source;
    pm_destination_root_id := di_root_id destination;
    pm_destination_path :=
      encode_native_path destination_display (np_encoding (sf_source_path source));
    pm_fingerprint := sf_fingerprint source |}]
|}.

(** [filesystem_type] is NTFS, in any case. *)
Definition is_ntfs (volume : VolumeIdentity) : bool :=
  match vi_filesystem_type volume with
  | Some value => eq_ignore_ascii_case value (lit "NTFS")
  | None => false
  end.

(** The tests on the source of a move: the reason it is refused, with the
    message shown. *)
Definition source_refusal (source : SimulationFile) : option (ReviewReason * str) :=
  let fingerprint := sf_fingerprint source in
  let volume := ni_volume (fp_native_identity fingerprint) in
  if negb (vi_local volume) || vi_removable volume then
    Some (if vi_removable volume then RemovableVolume else NonLocalVolume,
          lit "Apply est limité aux volumes locaux fixes.")
  else if bool_decide (vi_platform volume = Windows) && negb (is_ntfs volume) then
    Some (NonNtfsVolume, lit "Apply Windows est limité aux volumes NTFS.")
  else if negb (stable_for_apply fingerprint) then
    Some (if negb (ni_link_count (fp_native_identity fingerprint) =? 1) then HardLink
          else if bool_decide (is_Some (ni_reparse_tag (fp_native_identity fingerprint)))
          then ReparsePoint else SourceChanged,
          lit "La source ne possède pas une identité stable pour Apply.")
  else None.

(** [find_map(validate_component)]. *)
Definition invalid_component (components : list str) : option ReviewReason :=
  head (omap validate_component components).

(** From the destination of an item to its conflict or planned move. *)
Definition place_item (self : VirtualFileSystem) (st : SimState) (item : ProposalItem)
    (source : SimulationFile) (destination : DestinationIntent) : SimState :=
  let components := di_folder_components destination ++ [di_file_name destination] in
  match invalid_component components with
  | Some reason => push_conflict st item reason Blocker
      (lit "La destination contient un composant Windows non sûr.")
  | None =>
  let destination_display := display_of components in
  if 240 <? len_utf16 destination_display then
    push_conflict st item InvalidPath Blocker
      (lit "La destination dépasse la limite produit de 240 unités UTF-16.")
  else
  let '(occupied, is_new) :=
    insert_path (st_occupied st) (di_root_id destination) (case_key destination_display) in
  let st := set_occupied st occupied in
  if negb is_new then
    push_conflict st item DestinationConflict Blocker
      (lit "Une entrée existe déjà à cette destination.")
  else if negb (bool_decide (sf_root_id source = di_root_id destination)) then
    push_conflict st item CrossVolume Blocker
      (lit "Le MVP n’autorise pas les transferts entre racines ou volumes.")
  else
  match source_refusal source with
  | Some (reason, message) => push_conflict st item reason Blocker message
  | None =>
  let st :=
    if bool_decide (pi_review_state item = ToReview) then
      push_conflict st item LowConfidence Warning
        (lit "Une décision explicite est requise avant le scellement.")
    else st in
  push_move (plan_directories self source destination st) item source destination
    destination_display
  end
  end.

(** The body of the loop over the items. *)
Definition simulate_item (self : VirtualFileSystem) (files : gmap ProposalItemId SimulationFile)
    (st : SimState) (item : ProposalItem) : res SimulationError SimState :=
  if bool_decide (pi_review_state item = Rejected) then Ok st else
  source ← ok_or (files !! pi_id item) MissingSnapshot;
  if bool_decide (pi_review_state item = Blocked) || bool_decide (pi_review_state item = Stale)
  then Ok (push_conflict st item SourceChanged Blocker (lit "La source est bloquée ou périmée."))
  else match pi_action item with
  | Keep => Ok st
  | Move destination | PlaceInReview destination =>
      Ok (place_item self st item source destination)
  end.

Definition snapshot_index (snapshot_files : list SimulationFile) :
    gmap ProposalItemId SimulationFile :=
  foldl (fun files file => <[sf_item_id file := file]> files) ∅ snapshot_files.

Definition initial_state (self : VirtualFileSystem) : SimState := {|
  st_occupied := occupied_paths self; st_conflicts := []; st_diffs := [];
  st_directories := []; st_planned_directories := ∅; st_moves := [] |}.

(** [VirtualFileSystem::simulate]. *)
Definition simulate (self : VirtualFileSystem) (proposal : ProposalRevision)
    (snapshot_files : list SimulationFile) (now_unix_ms : Z) :
    res SimulationError SimulationOutcome :=
  encoded ← map_err SimSerialization (to_vec proposal);
  let proposal_digest := blake3_hash encoded in
  let files := snapshot_index snapshot_files in
  st ← fold_res (simulate_item self files) (initial_state self) (pr_items proposal);
  Ok {| so_simulation := {|
          ps_proposal_id := pr_id proposal;
          ps_proposal_digest := proposal_digest;
          ps_diffs := st_diffs st;
          ps_conflicts := st_conflicts st;
          ps_simulated_at_unix_ms := now_unix_ms |};
        so_directories := st_directories st;
        so_moves := st_moves st |}.

(** ** Lemmas *)

Lemma paths_of_insert m root root' key k :
  k ∈ paths_of (fst (insert_path m root key)) root' <->
  (root' = root /\ k = key) \/ k ∈ paths_of m root'.
Proof.
  unfold paths_of, insert_path. cbn. destruct (decide (root' = root)) as [->|Hne].
  - rewrite lookup_insert_eq. cbn. set_solver.
  - rewrite lookup_insert_ne by done. naive_solver.
Qed.

Lemma insert_path_is_new m root key :
  snd (insert_path m root key) = true <-> key ∉ paths_of m root.
Proof. unfold insert_path. cbn. by rewrite negb_true_iff, bool_decide_eq_false. Qed.

(** What [simulate] promises of an item it turns into a move. *)
Record move_allowed (item : ProposalItem) (source : SimulationFile)
    (destination : DestinationIntent) : Prop := {
  ma_action : pi_action item = Move destination \/ pi_action item = PlaceInReview destination;
  ma_state : pi_review_state item ∈ [Ready; ToReview; Accepted];
  ma_components : Forall (fun c => validate_component c = None)
    (di_folder_components destination ++ [di_file_name destination]);
  ma_length : len_utf16 (display_of
    (di_folder_components destination ++ [di_file_name destination])) <= 240;
  ma_same_root : sf_root_id source = di_root_id destination;
  ma_stable : stable_for_apply (sf_fingerprint source) = true;
  ma_local : vi_local (ni_volume (fp_native_identity (sf_fingerprint source))) = true;
  ma_fixed : vi_removable (ni_volume (fp_native_identity (sf_fingerprint source))) = false;
  ma_ntfs : vi_platform (ni_volume (fp_native_identity (sf_fingerprint source))) = Windows ->
    is_ntfs (ni_volume (fp_native_identity (sf_fingerprint source))) = true
}.

Lemma source_refusal_None source :
  source_refusal source = None ->
  let volume := ni_volume (fp_native_identity (sf_fingerprint source)) in
  stable_for_apply (sf_fingerprint source) = true /\ vi_local volume = true
  /\ vi_removable volume = false /\ (vi_platform volume = Windows -> is_ntfs volume = true).
Proof.
  unfold source_refusal. cbv zeta.
  destruct (negb _ || _) eqn:H1; [done|]. destruct (bool_decide _ && _) eqn:H2; [done|].
  destruct (stable_for_apply (sf_fingerprint source)); [|done]. intros _. bools.
  split_and!; [done..|]. naive_solver.
Qed.

Lemma invalid_component_None components :
  invalid_component components = None ->
  Forall (fun c => validate_component c = None) components.
Proof.
  unfold invalid_component. induction components as [|c l IH]; [constructor|]. cbn.
  destruct (validate_component c) eqn:Hc; [done|]. constructor; auto.
Qed.

Definition components_of (destination : DestinationIntent) : list str :=
  di_folder_components destination ++ [di_file_name destination].

Definition refused (st : SimState) (item : ProposalItem) (st' : SimState) : Prop :=
  st_moves st' = st_moves st /\ st_diffs st' = st_diffs st
  /\ st_directories st' = st_directories st
  /\ st_planned_directories st' = st_planned_directories st
  /\ (forall root, paths_of (st_occupied st) root ⊆ paths_of (st_occupied st') root)
  /\ exists reason message, st_conflicts st' = st_conflicts st ++
       [{| sc_item_id := pi_id item; sc_reason := reason; sc_severity := Blocker;
           sc_message := message |}].

Definition accepted (self : VirtualFileSystem) (st : SimState) (item : ProposalItem)
    (source : SimulationFile) (destination : DestinationIntent) (st' : SimState) : Prop :=
  let display := display_of (components_of destination) in
  case_key display ∉ paths_of (st_occupied st) (di_root_id destination)
  /\ st_occupied st' = fst (insert_path (st_occupied st) (di_root_id destination) (case_key display))
  /\ exists conflicts,
       let st1 := {| st_occupied := st_occupied st'; st_conflicts := st_conflicts st ++ conflicts;
         st_diffs := st_diffs st; st_directories := st_directories st;
         st_planned_directories := st_planned_directories st; st_moves := st_moves st |} in
       st' = push_move (plan_directories self source destination st1) item source destination
               display.

Lemma refused_intro st item occupied reason message :
  (forall root, paths_of (st_occupied st) root ⊆ paths_of occupied root) ->
  refused st item (push_conflict (set_occupied st occupied) item reason Blocker message).
Proof. intros H. unfold refused. cbn. split_and!; eauto. Qed.

Lemma plan_directories_occupied self source destination st :
  st_occupied (plan_directories self source destination st) = st_occupied st.
Proof.
  unfold plan_directories. generalize (seq 1 (length (di_folder_components destination))).
  intros l. revert st. induction l as [|i l IH]; intros st; [done|]. cbn [foldl]. by rewrite IH.
Qed.

Lemma place_item_cases self st item source destination :
  pi_review_state item ∈ [Ready; ToReview; Accepted] ->
  pi_action item = Move destination \/ pi_action item = PlaceInReview destination ->
  let st' := place_item self st item source destination in
  refused st item st'
  \/ (move_allowed item source destination /\ accepted self st item source destination st').
Proof.
  intros Hstate Hact. cbv zeta. unfold place_item.
  assert (forall reason message, refused st item (push_conflict st item reason Blocker message))
    as Hr by (intros; unfold refused; cbn; split_and!; eauto).
  destruct (invalid_component _) eqn:Hc; [by left|].
  destruct (240 <? _) eqn:Hlen; [by left|].
  set (display := display_of _) in *.
  destruct (insert_path (st_occupied st) (di_root_id destination) (case_key display))
    as [occupied is_new] eqn:Hi.
  assert (forall root, paths_of (st_occupied st) root ⊆ paths_of occupied root) as Hocc.
  { intros root k Hk. replace occupied with (fst (insert_path (st_occupied st)
      (di_root_id destination) (case_key display))) by (by rewrite Hi).
    apply paths_of_insert. by right. }
  destruct is_new; cbn [negb]; [|left; by apply refused_intro].
  case_bool_decide as Hroot; cbn [negb]; [|left; by apply refused_intro].
  destruct (source_refusal source) as [[reason message]|] eqn:Hs; [left; by apply refused_intro|].
  right. apply source_refusal_None in Hs as (? & ? & ? & ?). bools.
  split; [split; try done; by apply invalid_component_None|].
  unfold accepted. fold (components_of destination) in *. fold display. split; [|split].
  - apply insert_path_is_new. by rewrite Hi.
  - rewrite Hi. cbn. rewrite plan_directories_occupied. by case_bool_decide.
  - case_bool_decide; cbn; rewrite plan_directories_occupied; cbn; eexists; [reflexivity|].
    instantiate (1 := []). by rewrite app_nil_r.
Qed.

(** *** Planned directories *)

Definition dir_key (d : PlannedDirectory) : RootId * str :=
  (pdir_root_id d, case_key (pdir_display_path d)).

(** The directories planned so far: no duplicate, none that exists, and
    every key noted as planned is one of them or exists. *)
Record dir_inv (self : VirtualFileSystem) (st : SimState) : Prop := {
  dirs_cover root key : key ∈ paths_of (st_planned_directories st) root ->
    key ∈ paths_of (existing_directories self) root \/ (root, key) ∈ dir_key <$> st_directories st;
  dirs_nodup : NoDup (dir_key <$> st_directories st);
  dirs_new root key : (root, key) ∈ dir_key <$> st_directories st ->
    key ∈ paths_of (st_planned_directories st) root
    /\ key ∉ paths_of (existing_directories self) root
}.

(** The keys of the ancestors of a destination. *)
Definition ancestor_key (destination : DestinationIntent) (index : nat) : str :=
  case_key (display_of (take index (di_folder_components destination))).

Definition same_but_directories (st st' : SimState) : Prop :=
  st_occupied st' = st_occupied st /\ st_conflicts st' = st_conflicts st
  /\ st_diffs st' = st_diffs st /\ st_moves st' = st_moves st
  /\ forall root, paths_of (st_planned_directories st) root
                  ⊆ paths_of (st_planned_directories st') root.

Lemma plan_directory_inv self source destination st index :
  dir_inv self st ->
  let st' := plan_directory self source destination st index in
  dir_inv self st' /\ same_but_directories st st'
  /\ ancestor_key destination index ∈ paths_of (st_planned_directories st') (di_root_id destination).
Proof.
  intros [Hc Hn Hk]. unfold plan_directory. fold (ancestor_key destination index).
  set (key := ancestor_key destination index).
  destruct (insert_path _ _ key) as [planned is_new] eqn:Hi.
  assert (planned = fst (insert_path (st_planned_directories st) (di_root_id destination) key))
    as Hp by (by rewrite Hi).
  assert (is_new = snd (insert_path (st_planned_directories st) (di_root_id destination) key))
    as Hnew by (by rewrite Hi).
  cbv zeta. split; [|split].
  2: { split_and!; try done. cbn. intros root k Hin. rewrite Hp. apply paths_of_insert. by right. }
  2: { cbn. rewrite Hp. apply paths_of_insert. by left. }
  rewrite negb_involutive. split; cbn.
  - intros root k. rewrite Hp, paths_of_insert. intros [[-> ->]|Hin].
    + case_bool_decide as Hex; [by left|]. cbn.
      destruct is_new; cbn.
      * right. rewrite fmap_app. apply elem_of_app. right. by apply list_elem_of_singleton.
      * apply Hc. symmetry in Hnew. unfold insert_path in Hnew. cbn in Hnew.
        by apply negb_false_iff, bool_decide_eq_true in Hnew.
    + destruct (Hc _ _ Hin); [by left|]. right. case_match; [|done].
      rewrite fmap_app. apply elem_of_app. by left.
  - case_match eqn:Hb; [|done]. rewrite fmap_app. apply NoDup_app. split_and!; [done| |].
    + intros [root k] Hin Heq%list_elem_of_singleton. injection Heq as -> ->. apply Hk in Hin as [Hin _].
      apply andb_true_iff in Hb as [_ ->]. symmetry in Hnew.
      by apply insert_path_is_new in Hnew.
    + apply NoDup_singleton.
  - intros root k Hin. rewrite Hp, paths_of_insert. case_match eqn:Hb.
    + rewrite fmap_app in Hin. apply elem_of_app in Hin as [Hin|Heq%list_elem_of_singleton].
      * apply Hk in Hin as [? ?]. split; [by right|done].
      * injection Heq as -> ->. split; [by left|].
        apply andb_true_iff in Hb as [Hb _]. by bools.
    + apply Hk in Hin as [? ?]. split; [by right|done].
Qed.

Lemma plan_directories_inv self source destination st :
  dir_inv self st ->
  let st' := plan_directories self source destination st in
  dir_inv self st' /\ same_but_directories st st'
  /\ forall index, (1 <= index <= length (di_folder_components destination))%nat ->
       ancestor_key destination index
         ∈ paths_of (st_planned_directories st') (di_root_id destination).
Proof.
  unfold plan_directories. intros Hst.
  enough (forall l st, dir_inv self st ->
    let st' := foldl (plan_directory self source destination) st l in
    dir_inv self st' /\ same_but_directories st st' /\ forall index, index ∈ l ->
      ancestor_key destination index
        ∈ paths_of (st_planned_directories st') (di_root_id destination)) as H.
  { destruct (H (seq 1 (length (di_folder_components destination))) st Hst) as (? & ? & Hl).
    split_and!; [done..|]. intros index Hi. apply Hl, elem_of_seq. lia. }
  clear. induction l as [|i l IH]; intros st Hst; cbn [foldl].
  { split_and!; [done| |by intros ? ?%not_elem_of_nil]. by split_and!. }
  destruct (plan_directory_inv self source destination st i Hst)
    as (Hd1 & (Ho1 & Hf1 & Hg1 & Hv1 & Hm1) & Hi).
  destruct (IH _ Hd1) as (Hd2 & (Ho2 & Hf2 & Hg2 & Hv2 & Hm2) & Hl). cbv zeta. split_and!; [done| |].
  - split_and!; try congruence. intros root. etrans; [apply Hm1 | apply Hm2].
  - intros index [->|Hin]%elem_of_cons; [by apply Hm2|by apply Hl].
Qed.

(** *** The invariant of the loop *)

(** A planned move and its diff come from an item of the proposal, its
    snapshot and a destination the simulation allows, all of whose ancestors
    are noted in [planned]. *)
Definition planned_from (planned : PathSets) (files : gmap ProposalItemId SimulationFile)
    (items : list ProposalItem) (m : PlannedMove) (d : SimulationDiff) : Prop :=
  exists item source destination,
    item ∈ items /\ files !! pi_id item = Some source /\ move_allowed item source destination
    /\ m = {| pm_item_id := pi_id item; pm_source_root_id := sf_root_id source;
              pm_source_path := sf_source_path source;
              pm_destination_root_id := di_root_id destination;
              pm_destination_path := encode_native_path (display_of (components_of destination))
                (np_encoding (sf_source_path source));
              pm_fingerprint := sf_fingerprint source |}
    /\ sd_item_id d = pi_id item
    /\ sd_after_label d = Some (display_of (components_of destination))
    /\ forall index, (1 <= index <= length (di_folder_components destination))%nat ->
         ancestor_key destination index ∈ paths_of planned (di_root_id destination).

(** Where the planned moves land: root and case-insensitive key. *)
Definition placed (moves : list PlannedMove) (diffs : list SimulationDiff) : list (RootId * str) :=
  zip_with (fun m d => (pm_destination_root_id m, case_key (default [] (sd_after_label d))))
    moves diffs.

(** Items the outcome must account for. *)
Definition must_account (item : ProposalItem) : Prop :=
  pi_review_state item <> Rejected
  /\ (mutates_filesystem (pi_action item) = true
      \/ pi_review_state item = Blocked \/ pi_review_state item = Stale).

Definition accounted (moves : list PlannedMove) (conflicts : list SimulationConflict)
    (item : ProposalItem) : Prop :=
  pi_id item ∈ pm_item_id <$> moves
  \/ exists c, c ∈ conflicts /\ sc_item_id c = pi_id item /\ sc_severity c = Blocker.

Record sim_inv (self : VirtualFileSystem) (files : gmap ProposalItemId SimulationFile)
    (done : list ProposalItem) (st : SimState) : Prop := {
  inv_moves : Forall2 (planned_from (st_planned_directories st) files done)
    (st_moves st) (st_diffs st);
  inv_placed : NoDup (placed (st_moves st) (st_diffs st));
  inv_free root key : (root, key) ∈ placed (st_moves st) (st_diffs st) ->
    key ∈ paths_of (st_occupied st) root /\ key ∉ paths_of (occupied_paths self) root;
  inv_occupied root : paths_of (occupied_paths self) root ⊆ paths_of (st_occupied st) root;
  inv_dirs : dir_inv self st;
  inv_account item : item ∈ done -> must_account item ->
    accounted (st_moves st) (st_conflicts st) item
}.

Lemma planned_from_mono planned planned' files items item :
  (forall root, paths_of planned root ⊆ paths_of planned' root) ->
  forall m d, planned_from planned files items m d ->
  planned_from planned' files (items ++ [item]) m d.
Proof.
  intros Hp m d (it & source & destination & Hin & ? & ? & ? & ? & ? & Ha).
  exists it, source, destination. split_and!; try done.
  - apply elem_of_app. by left.
  - intros index Hi. by apply Hp, Ha.
Qed.

Lemma accounted_mono moves moves' conflicts conflicts' item :
  accounted moves conflicts item -> accounted (moves ++ moves') (conflicts ++ conflicts') item.
Proof.
  intros [H|(c & Hc & H)]; [left | right; exists c].
  - rewrite fmap_app. apply elem_of_app. by left.
  - split; [apply elem_of_app; by left | done].
Qed.

(** Skipping an item, or refusing it with a blocking conflict. *)
Lemma sim_inv_keep self files done st item :
  sim_inv self files done st -> ~ must_account item -> sim_inv self files (done ++ [item]) st.
Proof.
  intros [Hm Hn Hf Ho Hd Ha] Hno. split; try done.
  - eapply Forall2_impl; [exact Hm|]. by apply planned_from_mono.
  - intros it [Hin| ->%list_elem_of_singleton]%elem_of_app Hacc; [by apply Ha|done].
Qed.

Lemma sim_inv_refused self files done st item st' :
  sim_inv self files done st -> refused st item st' -> sim_inv self files (done ++ [item]) st'.
Proof.
  intros [Hm Hn Hf Ho Hd Ha] (Em & Ed & Edir & Epl & Hocc & reason & message & Ec).
  split; rewrite ?Em, ?Ed, ?Epl.
  - eapply Forall2_impl; [exact Hm|]. by apply planned_from_mono.
  - done.
  - intros root key Hin. apply Hf in Hin as [Hin Hnot]. split; [by apply Hocc|done].
  - intros root. etrans; [apply Ho|apply Hocc].
  - destruct Hd as [Hc Hnd Hk]. split; rewrite ?Edir, ?Epl; done.
  - rewrite Ec. intros it [Hin| ->%list_elem_of_singleton]%elem_of_app Hacc.
    + rewrite <- (app_nil_r (st_moves st)). by apply accounted_mono, Ha.
    + right. eexists. split; [apply elem_of_app; right; by apply list_elem_of_singleton|done].
Qed.

Lemma sim_inv_accepted self files done st item source destination st' :
  sim_inv self files done st -> files !! pi_id item = Some source ->
  move_allowed item source destination -> accepted self st item source destination st' ->
  sim_inv self files (done ++ [item]) st'.
Proof.
  intros [Hm Hn Hf Ho Hd Ha] Hsrc Hallow (Hfree & Hocc & conflicts & ->).
  cbv zeta in *. set (st1 := Build_SimState _ _ _ _ _ _) in *.
  assert (dir_inv self st1) as Hd1 by (by destruct Hd as [Hc Hnd Hk]; split).
  destruct (plan_directories_inv self source destination st1 Hd1)
    as (Hd2 & (Eo & Ec & Ed & Em & Hpl) & Hanc).
  set (st2 := plan_directories self source destination st1) in *.
  assert (st_occupied st2 = fst (insert_path (st_occupied st) (di_root_id destination)
    (case_key (display_of (components_of destination))))) as Eo2 by (rewrite Eo; exact Hocc).
  assert (length (st_moves st) = length (st_diffs st)) as Hlen by (by eapply Forall2_length).
  split; cbn [st_moves st_diffs st_occupied st_conflicts st_planned_directories push_move];
    rewrite ?Em, ?Ed, ?Eo2, ?Ec; cbn [st1 st_moves st_diffs st_conflicts].
  - apply Forall2_app.
    + eapply Forall2_impl; [exact Hm|]. by apply planned_from_mono.
    + constructor; [|constructor]. exists item, source, destination.
      split_and!; try done. apply elem_of_app. right. by apply list_elem_of_singleton.
  - unfold placed. rewrite zip_with_app by done. apply NoDup_app. split_and!; [done| |apply NoDup_singleton].
    intros [root key] Hin Heq%list_elem_of_singleton. cbn in Heq. injection Heq as -> ->.
    by apply Hf in Hin as [Hin _].
  - intros root key. unfold placed. rewrite zip_with_app by done. rewrite elem_of_app.
    intros [Hin|Heq%list_elem_of_singleton].
    + apply Hf in Hin as [Hin Hnot]. split; [|done]. apply paths_of_insert. by right.
    + cbn in Heq. injection Heq as -> ->. split; [apply paths_of_insert; by left|].
      intros Hin. by apply Hfree, Ho.
  - intros root k Hk. apply paths_of_insert. right. by apply Ho.
  - by destruct Hd2 as [Hc2 Hnd2 Hk2]; split.
  - intros it [Hin| ->%list_elem_of_singleton]%elem_of_app Hacc.
    + by apply accounted_mono, Ha.
    + left. rewrite fmap_app. apply elem_of_app. right. by apply list_elem_of_singleton.
Qed.

Lemma simulate_item_inv self files done st item st' :
  sim_inv self files done st -> simulate_item self files st item = Ok st' ->
  sim_inv self files (done ++ [item]) st'.
Proof.
  intros Hinv. unfold simulate_item. case_bool_decide as Hrej.
  { intros [= <-]. apply sim_inv_keep; [done|]. by intros [? _]. }
  intros H. inv_ok. destruct (bool_decide _ || _) eqn:Hblk.
  { inv_ok. eapply sim_inv_refused; [done|].
    unfold refused. cbn. split_and!; eauto. }
  bools. assert (pi_review_state item ∈ [Ready; ToReview; Accepted]) as Hstate
    by (destruct (pi_review_state item); try done; set_solver).
  destruct (pi_action item) as [|destination|destination] eqn:Hact.
  { inv_ok. apply sim_inv_keep; [done|]. intros [_ [Hmut|[?|?]]]; [by rewrite Hact in Hmut|done..]. }
  all: inv_ok; destruct (place_item_cases self st item x destination Hstate) as [Href|[Hal Hac]];
    [rewrite Hact; auto | by eapply sim_inv_refused | by eapply sim_inv_accepted].
Qed.

Lemma simulate_inv self proposal files now o :
  simulate self proposal files now = Ok o ->
  exists st, sim_inv self (snapshot_index files) (pr_items proposal) st
    /\ so_moves o = st_moves st /\ ps_diffs (so_simulation o) = st_diffs st
    /\ ps_conflicts (so_simulation o) = st_conflicts st
    /\ so_directories o = st_directories st.
Proof.
  unfold simulate. intros (encoded & _ & (st & Hst & [= <-])%bind_Ok)%bind_Ok.
  exists st. split_and!; try done. revert Hst. apply (fold_res_ind _ (sim_inv self (snapshot_index files))).
  - split; cbn; [constructor | constructor | by intros root key ?%not_elem_of_nil | done | |
      by intros item ?%not_elem_of_nil].
    split; cbn; [|constructor | by intros root key ?%not_elem_of_nil].
    intros root key. unfold paths_of. rewrite lookup_empty. set_solver.
  - intros done item s s' Hs Hi. by eapply simulate_item_inv.
Qed.

(** ** Properties *)

(** Where a planned move puts the file of its item: its destination path is the
    native encoding (that of the source) of the destination's folders and file
    name, joined by backslashes, which a Unix path writes as slashes. *)
Definition lands_at (proposal : ProposalRevision) (files : list SimulationFile)
    (m : PlannedMove) (label : str) : Prop :=
  exists item source destination,
    item ∈ pr_items proposal /\ pm_item_id m = pi_id item
    /\ (pi_action item = Move destination \/ pi_action item = PlaceInReview destination)
    /\ snapshot_index files !! pi_id item = Some source
    /\ pm_source_root_id m = sf_root_id source /\ pm_source_path m = sf_source_path source
    /\ pm_destination_root_id m = di_root_id destination
    /\ label = join [92%N] (di_folder_components destination ++ [di_file_name destination])
    /\ np_encoding (pm_destination_path m) = np_encoding (sf_source_path source)
    /\ np_bytes (pm_destination_path m) =
        match np_encoding (sf_source_path source) with
        | UnixBytes => utf8 ((fun c => if decide (c = 92%N) then 47%N else c) <$> label)
        | WindowsUtf16Le => concat (le_bytes 2 <$> utf16 label)
        end.

(** The label of a diff. *)
Definition diff_label (d : SimulationDiff) : str := default [] (sd_after_label d).

Lemma planned_from_lands planned proposal files m d :
  planned_from planned (snapshot_index files) (pr_items proposal) m d ->
  lands_at proposal files m (diff_label d).
Proof.
  intros (item & source & destination & Hin & Hs & [Hact _ _ _ _ _ _ _ _] & -> & _ & Hd & _).
  exists item, source, destination. unfold diff_label. rewrite Hd. cbn -[utf8]. split_and!; try done.
  destruct (np_encoding (sf_source_path source)); [done|]. f_equal. apply list_fmap_ext.
  intros _ c _. destruct (decide (c = 92%N)) as [->|Hne]; [done|].
  by rewrite (proj2 (N.eqb_neq _ _) Hne).
Qed.

Lemma placed_labels moves diffs :
  placed moves diffs =
  zip_with (fun m label => (pm_destination_root_id m, to_lowercase label)) moves
    (diff_label <$> diffs).
Proof.
  unfold placed. revert diffs. induction moves as [|m moves IH]; intros [|d diffs]; [done..|].
  cbn. by rewrite IH.
Qed.

(** C22: A simulated proposal never overwrites.  Every planned move puts the
    file of an item of the proposal where that item asks: its destination path
    is the native encoding of the item's folders and file name, in the
    destination's root.  These places, compared without case inside their root,
    are pairwise different and differ from every occupied path of the
    snapshot. *)
Theorem simulate_never_overwrites self proposal files now o :
  simulate self proposal files now = Ok o ->
  exists labels, Forall2 (lands_at proposal files) (so_moves o) labels
  /\ NoDup (zip_with (fun m label => (pm_destination_root_id m, to_lowercase label))
       (so_moves o) labels)
  /\ Forall2 (fun m label =>
       to_lowercase label ∉ paths_of (occupied_paths self) (pm_destination_root_id m))
       (so_moves o) labels.
Proof.
  intros (st & Hinv & -> & _ & _ & _)%simulate_inv. exists (diff_label <$> st_diffs st).
  pose proof (inv_moves _ _ _ _ Hinv) as Hm. split_and!.
  - apply Forall2_fmap_r. eapply Forall2_impl; [exact Hm|]. intros m d. apply planned_from_lands.
  - rewrite <- placed_labels. apply (inv_placed _ _ _ _ Hinv).
  - apply Forall2_same_length_lookup_2; [rewrite length_fmap; by eapply Forall2_length|].
    intros i m label Hi Hl. refine (proj2 (inv_free _ _ _ _ Hinv _ _ _)). rewrite placed_labels.
    apply list_elem_of_lookup. exists i. rewrite lookup_zip_with, Hi, Hl. done.
Qed.

(** Every planned move is one the policy allows: it comes from a live item
    of the proposal, stays in the root of its source, on a local fixed
    volume (NTFS on Windows), with a stable source, a destination of valid
    components within 240 UTF-16 units, and all of whose parent directories
    exist or are planned. *)
Theorem simulate_plans_allowed_moves self proposal files now o m :
  simulate self proposal files now = Ok o -> m ∈ so_moves o ->
  exists item source destination,
    item ∈ pr_items proposal /\ snapshot_index files !! pi_id item = Some source
    /\ move_allowed item source destination
    /\ pm_item_id m = pi_id item
    /\ pm_source_root_id m = sf_root_id source /\ pm_source_path m = sf_source_path source
    /\ pm_fingerprint m = sf_fingerprint source
    /\ pm_destination_root_id m = di_root_id destination
    /\ pm_destination_path m = encode_native_path (display_of (components_of destination))
         (np_encoding (sf_source_path source))
    /\ forall index, (1 <= index <= length (di_folder_components destination))%nat ->
         ancestor_key destination index
           ∈ paths_of (existing_directories self) (di_root_id destination)
         \/ (di_root_id destination, ancestor_key destination index)
              ∈ dir_key <$> so_directories o.
Proof.
  intros (st & Hinv & -> & _ & _ & ->)%simulate_inv Hm.
  apply list_elem_of_lookup in Hm as [i Hi].
  destruct (Forall2_lookup_l _ _ _ i m (inv_moves _ _ _ _ Hinv) Hi)
    as (d & _ & item & source & destination & Hin & Hs & Hal & -> & _ & _ & Hanc).
  exists item, source, destination. split_and!; try done.
  intros index Hix. by apply (dirs_cover _ _ (inv_dirs _ _ _ _ Hinv)), Hanc.
Qed.

(** Nothing is dropped silently: every item that is not rejected and asks
    for a change, or is blocked or stale, ends as a planned move or carries
    a blocking conflict; so a simulation without blockers plans them all. *)
Theorem simulate_accounts_for_items self proposal files now o item :
  simulate self proposal files now = Ok o ->
  item ∈ pr_items proposal -> must_account item ->
  accounted (so_moves o) (ps_conflicts (so_simulation o)) item
  /\ (has_blockers (so_simulation o) = false -> pi_id item ∈ pm_item_id <$> so_moves o).
Proof.
  intros (st & Hinv & -> & _ & Hc & _)%simulate_inv Hin Hacc.
  pose proof (inv_account _ _ _ _ Hinv item Hin Hacc) as Ha.
  unfold has_blockers. rewrite Hc. split; [done|]. intros Hb.
  destruct Ha as [Ha|(c & Hcin & _ & Hsev)]; [done|].
  exfalso. assert (existsb (fun conflict => bool_decide (sc_severity conflict = Blocker))
    (st_conflicts st) = true) as Ht; [|congruence].
  apply existsb_exists. exists c. rewrite bool_decide_true by done.
  split; [by apply list_elem_of_In | done].
Qed.

(** Directories to create are planned once each, and only where none
    exists. *)
Theorem simulate_plans_new_directories self proposal files now o :
  simulate self proposal files now = Ok o ->
  NoDup (dir_key <$> so_directories o)
  /\ forall root key, (root, key) ∈ dir_key <$> so_directories o ->
       key ∉ paths_of (existing_directories self) root.
Proof.
  intros (st & Hinv & _ & _ & _ & ->)%simulate_inv. split; [apply Hinv|].
  intros root key Hin. by apply (dirs_new _ _ (inv_dirs _ _ _ _ Hinv)) in Hin as [_ ?].
Qed.
End simulation.

(** ** Witnesses *)

#[local] Existing Instances sample_blake3.
#[local] Instance sample_unicode : UnicodeCase := ascii_unicode_case.

Definition sample_confidence : Confidence :=
  {| cf_raw_score := f32_one; cf_probability := None; cf_calibration := Uncalibrated_ |}.

Definition sample_item (id : uuid) (state : ReviewState) (folders : list str) (name : str) :
    ProposalItem := {|
  pi_id := id; pi_file_id := uid x21; pi_expected_file_version_id := uid x22;
  pi_action := Move {| di_root_id := uid x0a; di_folder_components := folders; di_file_name := name |};
  pi_review_state := state; pi_confidence := sample_confidence; pi_rationale := [];
  pi_evidence := []; pi_counter_evidence := []; pi_uncertainty_reasons := []; pi_alternatives := []
|}.

Definition sample_local_volume : VolumeIdentity := {|
  vi_platform := Windows; vi_stable_identifier := lit "volume-serial:1";
  vi_filesystem_type := Some (lit "ntfs"); vi_case_sensitive := false;
  vi_removable := false; vi_local := true |}.

Definition sample_snapshot (id : uuid) (name : String.string) : SimulationFile := {|
  sf_item_id := id; sf_root_id := uid x0a; sf_source_path := native name;
  sf_source_display := lit name; sf_fingerprint := sample_fingerprint |}.

Definition sample_revision (items : list ProposalItem) : ProposalRevision := {|
  pr_id := uid x03; pr_workspace_id := uid x02; pr_base_scan_id := uid x04; pr_revision := 1;
  pr_policy_digest := fill 32 x00; pr_items := items; pr_created_at_unix_ms := 1 |}.

(** Two moves into one new folder, and a third onto the first destination. *)
Definition sample_proposal : ProposalRevision := sample_revision
  [sample_item (uid x31) Accepted [lit "Clients"] (lit "a.pdf");
   sample_item (uid x32) ToReview [lit "clients"] (lit "b.pdf");
   sample_item (uid x33) Accepted [lit "CLIENTS"] (lit "A.PDF")].
Definition sample_files : list SimulationFile :=
  [sample_snapshot (uid x31) "a.pdf"; sample_snapshot (uid x32) "b.pdf";
   sample_snapshot (uid x33) "c.pdf"].

#[local] Instance sample_revision_to_vec : ToVec ProposalRevision := single_to_vec sample_proposal.

Definition sample_fs : VirtualFileSystem := with_snapshot [(uid x0a, lit "a.pdf")] [].
Definition sample_outcome : SimulationOutcome :=
  match simulate sample_fs sample_proposal sample_files 5 with
  | Ok o => o
  | Err _ => {| so_simulation := {| ps_proposal_id := uid x00; ps_proposal_digest := fill 32 x00;
      ps_diffs := []; ps_conflicts := []; ps_simulated_at_unix_ms := 0 |};
      so_directories := []; so_moves := [] |}
  end.

Lemma sample_simulation : simulate sample_fs sample_proposal sample_files 5 = Ok sample_outcome.
Proof. vm_compute. reflexivity. Qed.

Lemma simulate_never_overwrites_witness :
  length (so_moves sample_outcome) = 2%nat
  /\ exists labels, Forall2 (lands_at sample_proposal sample_files) (so_moves sample_outcome) labels
     /\ NoDup (zip_with (fun m label => (pm_destination_root_id m, to_lowercase label))
          (so_moves sample_outcome) labels).
Proof.
  split; [vm_compute; reflexivity|].
  destruct (simulate_never_overwrites sample_fs sample_proposal sample_files 5
    sample_outcome sample_simulation) as (labels & Hl & Hnd & _).
  exists labels. split; [exact Hl|exact Hnd].
Defined.

Lemma simulate_plans_allowed_moves_witness :
  exists m, m ∈ so_moves sample_outcome /\
    exists item source destination, item ∈ pr_items sample_proposal
      /\ move_allowed item source destination /\ pm_item_id m = pi_id item.
Proof.
  destruct (so_moves sample_outcome) as [|m l] eqn:E; [vm_compute in E; discriminate E|].
  exists m. split; [left|].
  assert (m ∈ so_moves sample_outcome) as Hm by (rewrite E; left).
  destruct (simulate_plans_allowed_moves sample_fs sample_proposal sample_files 5 sample_outcome m
    sample_simulation Hm) as (item & source & destination & H1 & _ & H2 & H3 & _).
  exists item, source, destination. auto.
Defined.

Lemma simulate_accounts_for_items_witness :
  accounted (so_moves sample_outcome) (ps_conflicts (so_simulation sample_outcome))
    (sample_item (uid x33) Accepted [lit "CLIENTS"] (lit "A.PDF")).
Proof.
  refine (proj1 (simulate_accounts_for_items sample_fs sample_proposal sample_files 5 sample_outcome
    _ sample_simulation _ _)).
  - right; right; left.
  - split; [discriminate | left; reflexivity].
Defined.

Lemma simulate_plans_new_directories_witness :
  length (so_directories sample_outcome) = 1%nat /\ NoDup (dir_key <$> so_directories sample_outcome).
Proof.
  split; [vm_compute; reflexivity|].
  exact (proj1 (simulate_plans_new_directories sample_fs sample_proposal sample_files 5
    sample_outcome sample_simulation)).
Defined.

(** A planned directory is not compared with the files: the outcome below has
    no conflict, yet a directory and a file are both planned at [A]. *)
Definition clashing_proposal : ProposalRevision := sample_revision
  [sample_item (uid x31) Accepted [lit "A"] (lit "x.pdf");
   sample_item (uid x32) Accepted [] (lit "A")].

Lemma directory_and_file_planned_at_one_path :
  match simulate (TV := single_to_vec clashing_proposal) (with_snapshot [] []) clashing_proposal
          sample_files 5 with
  | Ok o => ps_conflicts (so_simulation o) = []
      /\ exists d m, d ∈ so_directories o /\ m ∈ so_moves o
           /\ pdir_root_id d = pm_destination_root_id m /\ pdir_path d = pm_destination_path m
  | Err _ => False
  end.
Proof.
  destruct (simulate _ _ _ _) as [o|e] eqn:E; vm_compute in E; [|discriminate E].
  injection E as <-. split; [reflexivity|].
  eexists _, _. split_and!; [left | right; left | reflexivity | reflexivity].
Qed.
