(* ===== verification/UnixPath.v ===== *)
(** * Paths on a Unix target

    The part of [std::path] the program uses: components of a relative path,
    joining, and the decoding of a [NativePath].  The development takes the
    [cfg(unix)] branches: a path is its raw bytes. *)

From S2P Require Export Domain PlatformErrors.
#[local] Open Scope Z_scope.

Definition SLASH : byte := x2f.

Inductive Component :=
  | RootDir
  | CurDir
  | ParentDir
  | Normal (name : bytes).
#[export] Instance Component_eq_dec : EqDecision Component.
Proof. solve_decision. Defined.

(** The pieces between slashes. *)
Fixpoint pieces (l : bytes) : list bytes :=
  match l with
  | [] => [[]]
  | b :: l =>
      if decide (b = SLASH) then [] :: pieces l
      else match pieces l with
      | [] => [[b]]
      | p :: ps => (b :: p) :: ps
      end
  end.

(** Empty pieces and [.] are not components. *)
Definition component_of (p : bytes) : option Component :=
  if decide (p = []) then None
  else if decide (p = bstr ".") then None
  else if decide (p = bstr "..") then Some ParentDir
  else Some (Normal p).

(** [Path::is_absolute], [has_root]. *)
Definition is_absolute (l : bytes) : bool :=
  match l with b :: _ => bool_decide (b = SLASH) | [] => false end.

(** [Path::components]: a leading [.] is the only one kept. *)
Definition components (l : bytes) : list Component :=
  (if is_absolute l then [RootDir]
   else if decide (head (pieces l) = Some (bstr ".")) then [CurDir] else [])
  ++ omap component_of (pieces l).

(** [Path::join]. *)
Definition path_join (root relative : bytes) : bytes :=
  if is_absolute relative then relative
  else match last root with
  | None => relative
  | Some b => if decide (b = SLASH) then root ++ relative else root ++ [SLASH] ++ relative
  end.

Definition is_normal (c : Component) : bool :=
  match c with Normal _ => true | _ => false end.

(** [Path]'s equality and [Path::starts_with] compare components. *)
Definition path_eq (a b : bytes) : bool := bool_decide (components a = components b).
Definition path_starts_with (path base : bytes) : bool :=
  bool_decide (components base `prefix_of` components path).

(** [Path::parent] works from the back: the trailing pieces that are no
    component, one that is, and again those that are none are cut off. *)
Fixpoint drop_blank (ps : list bytes) : list bytes :=
  match ps with
  | [] => []
  | p :: ps' => if decide (component_of p = None) then drop_blank ps' else ps
  end.

Fixpoint join_pieces (ps : list bytes) : bytes :=
  match ps with
  | [] => []
  | [p] => p
  | p :: ps => p ++ SLASH :: join_pieces ps
  end.

(** The root or the leading [.], and the rest. *)
Definition path_lead (l : bytes) : bytes :=
  if is_absolute l then [SLASH]
  else if decide (head (pieces l) = Some (bstr ".")) then bstr "." else [].
Definition path_body (l : bytes) : bytes := drop (length (path_lead l)) l.

Definition path_parent (l : bytes) : option bytes :=
  match drop_blank (reverse (pieces (path_body l))) with
  | _ :: rest => Some (path_lead l ++ join_pieces (reverse (drop_blank rest)))
  | [] => if decide (path_lead l = bstr ".") then Some [] else None
  end.

(** Equality of [Option<&Path>]. *)
Definition opt_path_eq (a b : option PathBuf) : bool :=
  match a, b with
  | Some a, Some b => path_eq a b
  | None, None => true
  | _, _ => false
  end.

(** [String::from_utf16]. *)
Fixpoint from_utf16 (units : list Z) : option str :=
  match units with
  | [] => Some []
  | u :: units =>
      if (0xD800 <=? u) && (u <=? 0xDBFF) then
        match units with
        | v :: units =>
            if (0xDC00 <=? v) && (v <=? 0xDFFF) then
              s ← from_utf16 units;
              Some (Z.to_N (0x10000 + (u - 0xD800) * 1024 + (v - 0xDC00)) :: s)
            else None
        | [] => None
        end
      else if (0xDC00 <=? u) && (u <=? 0xDFFF) then None
      else s ← from_utf16 units; Some (Z.to_N u :: s)
  end.

(** [chunks_exact(2)] with an empty remainder, each read by [from_le_bytes]. *)
Fixpoint utf16_units (l : bytes) : option (list Z) :=
  match l with
  | [] => Some []
  | [_] => None
  | a :: b :: l => us ← utf16_units l; Some (from_le_bytes [a; b] :: us)
  end.

(** [decode_native_path], on Unix; [None] is [InvalidNativePath]. *)
Definition decode_native_path (native : NativePath) : option PathBuf :=
  match np_encoding native with
  | UnixBytes => Some (np_bytes native)
  | WindowsUtf16Le =>
      units ← utf16_units (np_bytes native);
      s ← from_utf16 units;
      Some (utf8 s)
  end.

(** ** Lemmas *)

Lemma pieces_not_nil l : pieces l <> [].
Proof. destruct l as [|b l]; cbn; [done|]. case_decide; [done|]. by destruct (pieces l). Qed.

Lemma pieces_app a b : pieces (a ++ SLASH :: b) = pieces a ++ pieces b.
Proof.
  induction a as [|c a IH]; [done|]. cbn [app pieces]. rewrite IH.
  case_decide; [done|]. pose proof (pieces_not_nil a). by destruct (pieces a).
Qed.

Lemma pieces_snoc a b : pieces ((a ++ [SLASH]) ++ b) = pieces a ++ pieces b.
Proof. rewrite <- app_assoc. apply pieces_app. Qed.

Lemma head_pieces_l a l : head (pieces a ++ l) = head (pieces a).
Proof. pose proof (pieces_not_nil a). by destruct (pieces a). Qed.

(** What may be joined below a root: only names. *)
Definition only_names (relative : bytes) : Prop :=
  Forall (fun c => is_normal c = true) (components relative).

Lemma only_names_spec relative :
  only_names relative ->
  is_absolute relative = false /\ components relative = omap component_of (pieces relative).
Proof.
  unfold only_names, components. destruct (is_absolute relative).
  { intros H. by apply Forall_app in H as [[? _]%Forall_cons_iff _]. }
  case_decide; [|done]. intros Hf. by apply Forall_app in Hf as [[? _]%Forall_cons_iff _].
Qed.

Lemma is_absolute_app root b : root <> [] -> is_absolute (root ++ b) = is_absolute root.
Proof. by destruct root. Qed.

(** Joining names below a root appends their components to those of the root:
    the result stays below the root, component by component. *)
Lemma components_join root relative :
  only_names relative ->
  components (path_join root relative) = components root ++ components relative.
Proof.
  intros [Ha Hc]%only_names_spec. unfold path_join. rewrite Ha, Hc.
  destruct root as [|b root _] using rev_ind; cbn [last]; [by rewrite <- Hc|].
  rewrite last_snoc. case_decide as Hb.
  - subst b. unfold components. rewrite is_absolute_app by (by destruct root).
    rewrite pieces_snoc, (pieces_app root []), !omap_app, !head_pieces_l. cbn [pieces omap list_omap].
    change (component_of []) with (@None Component). cbn iota.
    by rewrite app_nil_r, <- app_assoc.
  - unfold components. rewrite is_absolute_app by (by destruct root).
    cbn [app]. rewrite pieces_app, head_pieces_l, omap_app. by rewrite <- app_assoc.
Qed.

Lemma from_utf16_utf16 s :
  Forall (fun c => is_scalar c = true) s -> from_utf16 (utf16 s) = Some s.
Proof.
  induction 1 as [|c s Hc _ IH]; [done|]. unfold utf16 in *. cbn [fmap list_fmap concat].
  unfold is_scalar in Hc. unfold utf16_char at 1.
  destruct (N.ltb_spec c 0x10000) as [Hlt|Hge].
  - cbn [app from_utf16]. rewrite IH. bools.
    rewrite (proj2 (andb_false_iff _ _)) by lia.
    rewrite (proj2 (andb_false_iff _ _)) by lia.
    cbn. by rewrite N2Z.id.
  - pose proof (N.div_mod (c - 0x10000) 1024 ltac:(done)) as Hd.
    pose proof (N.mod_lt (c - 0x10000) 1024 ltac:(done)) as Hm.
    assert (c < 0x110000)%N as Hmax by (bools; lia).
    assert ((c - 0x10000) / 1024 < 1024)%N by (apply N.Div0.div_lt_upper_bound; lia).
    generalize dependent ((c - 0x10000) mod 1024)%N. generalize dependent ((c - 0x10000) / 1024)%N.
    intros q Hq r Hd Hr. cbn [app from_utf16]. rewrite IH.
    do 4 (match goal with |- context [Z.leb ?a ?b] => destruct (Z.leb_spec a b); [|lia] end).
    cbn [mbind option_bind]. do 2 f_equal. lia.
Qed.

(** ** Building a path name by name *)

(** A name that is one component: not empty, not a dot entry, no slash. *)
Definition plain (name : bytes) : Prop :=
  name <> [] /\ name <> bstr "." /\ name <> bstr ".." /\ SLASH ∉ name.

Lemma pieces_no_slash l : SLASH ∉ l -> pieces l = [l].
Proof.
  induction l as [|b l IH]; [done|]. rewrite not_elem_of_cons. intros [Hb Hl].
  cbn [pieces]. rewrite decide_False by done. by rewrite IH.
Qed.

Lemma components_plain name : plain name -> components name = [Normal name].
Proof.
  intros (H1 & H2 & H3 & H4). unfold components. rewrite pieces_no_slash by done.
  replace (is_absolute name) with false.
  - cbn [head]. rewrite decide_False by congruence. cbn. unfold component_of.
    by rewrite !decide_False.
  - destruct name as [|b name]; [done|]. symmetry. apply bool_decide_eq_false.
    intros ->. apply H4. by left.
Qed.

Lemma components_pushed names :
  Forall plain names -> components (foldl path_join [] names) = Normal <$> names.
Proof.
  induction names as [|name names IH] using rev_ind; [done|].
  intros [Hn [Hp _]%Forall_cons_iff]%Forall_app. rewrite foldl_app, fmap_app. cbn [foldl fmap list_fmap].
  rewrite components_join, IH, components_plain by (done || unfold only_names;
    rewrite components_plain by done; by repeat constructor).
  done.
Qed.

Lemma only_names_pushed names : Forall plain names -> only_names (foldl path_join [] names).
Proof.
  intros H. unfold only_names. rewrite components_pushed by done. apply Forall_fmap.
  by apply Forall_true.
Qed.

(** ** Parents *)

(** The loop that pushes names one by one and refuses the bad ones. *)
Lemma push_all {E} bad (e : E) path names :
  Forall (fun c => bad c = false) names ->
  fold_res (fun path component =>
      reject_if (bad component) e;; Ok (path_join path (utf8 component))) path names
  = Ok (foldl path_join path (utf8 <$> names)).
Proof.
  intros H. revert path. induction H as [|c names Hc _ IH]; intros path; [done|].
  cbn [fold_res]. rewrite Hc. cbn [reject_if mbind res_bind]. apply IH.
Qed.

Lemma push_bad {E} bad (e : E) path names :
  existsb bad names = true ->
  fold_res (fun path component =>
      reject_if (bad component) e;; Ok (path_join path (utf8 component))) path names = Err e.
Proof.
  revert path. induction names as [|c names IH]; intros path; [done|]. cbn [existsb fold_res].
  destruct (bad c); cbn [orb reject_if mbind res_bind]; [done|]. apply IH.
Qed.

Lemma plain_utf8 c :
  Forall (fun c => is_scalar c = true) c -> c <> [] -> c <> lit "." -> c <> lit ".." ->
  47%N ∉ c -> plain (utf8 c).
Proof.
  intros Hs Hne Hdot Hdots Hslash. split_and!.
  - by intros ?%utf8_nil_inv.
  - intros H. by apply Hdot, utf8_inj; [|by repeat constructor|].
  - intros H. by apply Hdots, utf8_inj; [|by repeat constructor|].
  - by intros ?%utf8_low_byte.
Qed.

Lemma join_pieces_cons p ps : ps <> [] -> join_pieces (p :: ps) = p ++ SLASH :: join_pieces ps.
Proof. by destruct ps. Qed.

Lemma pieces_slash_free l : Forall (fun p => SLASH ∉ p) (pieces l).
Proof.
  induction l as [|b l IH]; cbn [pieces]; [repeat constructor; apply not_elem_of_nil|].
  case_decide as Hb; [by constructor; [apply not_elem_of_nil|]|].
  destruct (pieces l) as [|p ps]; [by repeat constructor; apply not_elem_of_cons; split;
    [congruence|apply not_elem_of_nil]|].
  apply Forall_cons_iff in IH as [? ?]. constructor; [|done]. apply not_elem_of_cons. by split; [congruence|].
Qed.

Lemma pieces_join ps : ps <> [] -> Forall (fun p => SLASH ∉ p) ps -> pieces (join_pieces ps) = ps.
Proof.
  induction ps as [|p ps IH]; [done|]. intros _ [Hp Hps]%Forall_cons_iff.
  destruct ps as [|q ps]; [by apply pieces_no_slash|].
  rewrite join_pieces_cons by done. rewrite pieces_app, IH by done. by rewrite pieces_no_slash.
Qed.

(** Cutting blanks off the back loses no component. *)
Lemma drop_blank_spec ps :
  exists blanks, ps = blanks ++ drop_blank ps /\ omap component_of blanks = []
    /\ (drop_blank ps = [] \/ exists p c ps', drop_blank ps = p :: ps' /\ component_of p = Some c).
Proof.
  induction ps as [|p ps IH]; [exists []; naive_solver|]. cbn [drop_blank].
  destruct (component_of p) as [c|] eqn:Hc.
  - rewrite decide_False by done. exists []. naive_solver.
  - rewrite decide_True by done. destruct IH as (bl & H1 & H2 & H3).
    exists (p :: bl). split_and!; [cbn; congruence| |done]. cbn. by rewrite Hc.
Qed.

Lemma omap_reverse {A B} (g : A -> option B) l : omap g (reverse l) = reverse (omap g l).
Proof.
  induction l as [|x l IH]; [done|]. rewrite reverse_cons, omap_app, IH. cbn [omap list_omap].
  destruct (g x); [by rewrite reverse_cons|by rewrite app_nil_r].
Qed.

(** The components of a path are those of its lead and of its body. *)
Definition lead_components (l : bytes) : list Component :=
  if is_absolute l then [RootDir]
  else if decide (head (pieces l) = Some (bstr ".")) then [CurDir] else [].

Lemma components_body l : components l = lead_components l ++ omap component_of (pieces (path_body l)).
Proof.
  unfold components, lead_components, path_body, path_lead. destruct (is_absolute l) eqn:Ha.
  - destruct l as [|b l]; [done|]. apply bool_decide_eq_true in Ha as ->. done.
  - f_equal. case_decide as Hd; [|done]. destruct l as [|b l]; [done|].
    cbn [pieces] in Hd. case_decide as Hb; [done|]. cbn [pieces]. rewrite decide_False by done.
    destruct (pieces l) as [|p ps] eqn:Hp; [by destruct (pieces_not_nil l)|].
    cbn in Hd. injection Hd as -> ->. change (drop (length (bstr ".")) (x2e :: l)) with l.
    by rewrite Hp.
Qed.

Lemma path_body_lead l : l = path_lead l ++ path_body l.
Proof.
  unfold path_body, path_lead. destruct (is_absolute l) eqn:Ha.
  - destruct l as [|b l]; [done|]. by apply bool_decide_eq_true in Ha as ->.
  - case_decide as Hd; [|done]. destruct l as [|b l]; [done|]. cbn [pieces] in Hd.
    case_decide; [done|]. destruct (pieces l) as [|p ps]; cbn in Hd; by injection Hd as ->.
Qed.

Lemma pieces_relative b l :
  b <> SLASH -> exists p ps, pieces (b :: l) = (b :: p) :: ps.
Proof.
  intros Hb. cbn [pieces]. rewrite decide_False by done. destruct (pieces l); eauto.
Qed.

(** Putting the lead back before some of the first pieces of the body. *)
Lemma components_lead_join l ps ps' :
  pieces (path_body l) = ps ++ ps' -> Forall (fun p => SLASH ∉ p) ps ->
  components (path_lead l ++ join_pieces ps) = lead_components l ++ omap component_of ps.
Proof.
  intros Hp Hs. destruct (decide (ps = [])) as [->|Hne].
  { unfold path_lead, lead_components. destruct (is_absolute l); [done|]. by case_decide. }
  pose proof (pieces_join ps Hne Hs) as Hj. unfold path_body in Hp.
  unfold path_lead, lead_components in *. destruct (is_absolute l) eqn:Ha.
  { unfold components. cbn. by rewrite Hj. }
  case_decide as Hd.
  - destruct l as [|b l]; [done|]. assert (b <> SLASH) as Hb by (by intros ->).
    destruct (pieces_relative b l Hb) as (p & ps0 & Hl). rewrite Hl in Hd. injection Hd as -> ->.
    change (drop (length (bstr ".")) (x2e :: l)) with l in Hp. cbn [pieces] in Hl.
    rewrite decide_False in Hl by done.
    assert (exists ps1, ps = [] :: ps1) as [ps1 ->].
    { destruct ps as [|q ps]; [done|]. rewrite Hp in Hl. cbn in Hl. injection Hl as -> _. eauto. }
    assert (pieces (x2e :: join_pieces ([] :: ps1)) = (x2e :: []) :: ps1) as Hj'
      by (cbn [pieces]; rewrite decide_False by done; by rewrite Hj).
    unfold components. change (bstr "." ++ join_pieces ([] :: ps1)) with (x2e :: join_pieces ([] :: ps1)).
    rewrite Hj'. done.
  - unfold components. cbn [app]. rewrite Hj. change (length (@nil byte)) with 0%nat in Hp. rewrite drop_0 in Hp.
    assert (head ps = head (pieces l)) as -> by (rewrite Hp; by destruct ps).
    rewrite (decide_False _ _ Hd).
    replace (is_absolute (join_pieces ps)) with false; [done|]. symmetry.
    destruct l as [|b l].
    { destruct ps as [|q [|]]; [done| |by destruct ps']. by injection Hp as <-. }
    assert (b <> SLASH) as Hb by (by intros ->).
    destruct (pieces_relative b l Hb) as (p & ps0 & Hl). rewrite Hl in Hp.
    destruct ps as [|q ps]; [done|]. injection Hp as <- _.
    by destruct ps; cbn; apply bool_decide_eq_false.
Qed.

(** The parent has all components but the last. *)
Lemma path_parent_Some l p : path_parent l = Some p -> exists c, components l = components p ++ [c].
Proof.
  unfold path_parent.
  destruct (drop_blank_spec (reverse (pieces (path_body l)))) as (bl & H1 & H2 & H3).
  assert (pieces (path_body l) = reverse (drop_blank (reverse (pieces (path_body l)))) ++ reverse bl)
    as Hp by (by rewrite <- reverse_app, <- H1, reverse_involutive).
  assert (omap component_of (reverse bl) = []) as Hbl by (by rewrite omap_reverse, H2).
  destruct H3 as [He|(q & c & rest & He & Hc)]; rewrite He in Hp |- *.
  { cbn in Hp. case_decide as Hd; [|done]. intros [= <-]. exists CurDir.
    rewrite components_body, Hp, Hbl. unfold lead_components, path_lead in *.
    destruct (is_absolute l); [done|]. by case_decide. }
  intros [= <-]. exists c. rewrite components_body, Hp, omap_app, Hbl, app_nil_r, reverse_cons, omap_app.
  cbn [omap list_omap]. rewrite Hc, app_assoc. f_equal.
  destruct (drop_blank_spec rest) as (bl' & H1' & H2' & H3').
  assert (omap component_of (reverse rest) = omap component_of (reverse (drop_blank rest))) as ->
    by (rewrite H1' at 1; by rewrite reverse_app, omap_app, (omap_reverse _ bl'), H2', app_nil_r).
  assert (Forall (fun p => SLASH ∉ p) (reverse (drop_blank rest))) as Hs.
  { pose proof (pieces_slash_free (path_body l)) as Hf. rewrite Hp, reverse_cons in Hf.
    apply Forall_app in Hf as [[Hf _]%Forall_app _]. rewrite H1', reverse_app in Hf.
    by apply Forall_app in Hf as [? _]. }
  symmetry. apply (components_lead_join l _ (reverse bl' ++ [q] ++ reverse bl)); [|done].
  rewrite Hp, reverse_cons. rewrite H1' at 1. by rewrite reverse_app, <- !(assoc_L (++)).
Qed.
