(* ===== verification/HostFs.v ===== *)
(** * Reading the file system

    What the program asks of [std::fs] without changing anything, and the law
    of a file system that stays as it is while it is inspected. *)

From S2P Require Export UnixPath.
#[local] Open Scope Z_scope.

Record Metadata := { md_is_symlink : bool; md_is_dir : bool; md_is_file : bool }.

(** [fs::symlink_metadata], [fs::canonicalize] and [read_dir] followed by one
    [next]. *)
Class StdFs (W : Type) : Type := {
  symlink_metadata : PathBuf -> SE W io_error Metadata;
  canonicalize : PathBuf -> SE W io_error PathBuf;
  read_dir_first : PathBuf -> SE W io_error (option (res io_error unit))
}.

Definition is_not_found (e : io_error) : bool := bool_decide (io_kind e = NotFound).

(** What the program uses of [trait ReadOnlyPlatform]: [fingerprint_streaming]
    always includes the content digest, and the cancellation callback it is
    given is part of the world. *)
Class ReadOnlyPlatform (W : Type) : Type := {
  inspect_volume : PathBuf -> SE W PlatformError VolumeIdentity;
  fingerprint : PathBuf -> bool -> Z -> SE W PlatformError FileFingerprint;
  fingerprint_streaming : PathBuf -> Z -> SE W PlatformError FileFingerprint
}.

(** Inspecting does not change what is inspected. *)
Class StableFs (W : Type) `{StdFs W} : Type := {
  seen_metadata : W -> PathBuf -> res io_error Metadata;
  seen_canonical : W -> PathBuf -> res io_error PathBuf;
  symlink_metadata_seen path w : symlink_metadata path w = (seen_metadata w path, w);
  canonicalize_seen path w : canonicalize path w = (seen_canonical w path, w)
}.

(** [cfg!(target_os = "macos")]. *)
Class Target : Type := target_macos : bool.

(** [Path::ancestors]: the path, its parent, and so on.  Every parent has one
    component less, which bounds the iteration. *)
Fixpoint ancestors_within (n : nat) (path : PathBuf) : list PathBuf :=
  path :: match n, path_parent path with
          | S n, Some parent => ancestors_within n parent
          | _, _ => []
          end.
Definition ancestors (path : PathBuf) : list PathBuf :=
  ancestors_within (length (components path)) path.

(** The iteration goes on to the last parent. *)
Lemma ancestors_unfold path :
  ancestors path = path :: match path_parent path with Some p => ancestors p | None => [] end.
Proof.
  unfold ancestors. destruct (path_parent path) as [p|] eqn:Hp.
  - destruct (path_parent_Some _ _ Hp) as [c ->]. rewrite length_app. cbn [length].
    replace (length (components p) + 1)%nat with (S (length (components p))) by lia.
    cbn [ancestors_within]. by rewrite Hp.
  - destruct (length (components path)); cbn [ancestors_within]; by rewrite ?Hp.
Qed.

Lemma ancestors_prefix path p :
  p ∈ ancestors path -> components p `prefix_of` components path.
Proof.
  intros H. remember (length (components path)) as n eqn:Hn. revert path Hn H.
  induction n as [|n IH]; intros path Hn; rewrite ancestors_unfold, elem_of_cons;
    intros [->|H]; try done; destruct (path_parent path) as [q|] eqn:Hq; try by apply elem_of_nil in H.
  - destruct (path_parent_Some _ _ Hq) as [c Hc]. rewrite Hc, length_app in Hn. cbn in Hn. lia.
  - destruct (path_parent_Some _ _ Hq) as [c Hc]. rewrite Hc, length_app in Hn. cbn in Hn.
    etrans; [apply (IH q); [lia|done]|]. rewrite Hc. by apply prefix_app_r.
Qed.
