(* ===== verification/PathSafety.v ===== *)
(** * Virtual paths

    crates/organizer/src/path_safety.rs: the names a proposal may use.  Names
    written by a user are validated; names a machine proposes are rewritten
    until they are safe on Windows, and shortened to a conservative budget of
    UTF-16 units. *)

From stdpp Require Import pretty.
From S2P Require Export Text PlatformErrors.
#[local] Open Scope Z_scope.

Definition DEFAULT_MAX_PATH_UTF16 : Z := 240.
Definition DEFAULT_MAX_SEGMENT_UTF16 : Z := 80.
Definition DEFAULT_MAX_FILENAME_UTF16 : Z := 160.

Record VirtualPathPolicy := {
  maximum_depth : Z;
  maximum_path_utf16 : Z;
  maximum_segment_utf16 : Z;
  maximum_filename_utf16 : Z
}.

Definition default_policy : VirtualPathPolicy := {|
  maximum_depth := 6;
  maximum_path_utf16 := DEFAULT_MAX_PATH_UTF16;
  maximum_segment_utf16 := DEFAULT_MAX_SEGMENT_UTF16;
  maximum_filename_utf16 := DEFAULT_MAX_FILENAME_UTF16
|}.

Inductive VirtualPathError :=
  | VpEmpty | VpTraversalOrSeparator | VpAbsoluteOrDrivePrefix | VpInvalidCharacter
  | VpReservedWindowsName | VpTooDeep | VpTooLong.

Record SanitizedValue := { sv_value : str; sv_changed : bool }.

(** ** Characters and names *)

Definition has_drive_prefix (input : str) : bool :=
  match input with
  | first :: second :: _ => bool_decide (second = 58%N) && is_ascii_alphabetic first
  | _ => false
  end.

(** A NUL, a control character, or one of the characters less-than, greater-than,
    colon, double quote, bar, question mark and asterisk. *)
Definition is_windows_invalid (character : char) : bool :=
  (character =? 0)%N || is_control character
  || bool_decide (character ∈ [60; 62; 58; 34; 124; 63; 42]%N).

Definition is_separator (c : char) : bool := bool_decide (c ∈ [47; 92]%N).
Definition is_space_or_dot (c : char) : bool := bool_decide (c ∈ [32; 46]%N).

(** The digits one to nine. *)
Definition port_digits : list str := (fun d => [d]) <$> [49; 50; 51; 52; 53; 54; 55; 56; 57]%N.

Definition is_reserved_windows_name (input : str) : bool :=
  let stem := to_ascii_uppercase (trim_end_matches is_space_or_dot
    (default [] (head (split (fun c => (c =? 46)%N) input)))) in
  bool_decide (stem ∈ [lit "CON"; lit "PRN"; lit "AUX"; lit "NUL"])
  || existsb (fun prefix => match strip_prefix prefix stem with
       | Some suffix => bool_decide (suffix ∈ port_digits)
       | None => false
       end) [lit "COM"; lit "LPT"].

Definition validate_component (input : str) (maximum_utf16 : Z) : res VirtualPathError unit :=
  reject_if (bool_decide (input = []) || bool_decide (trim input = [])) VpEmpty;;
  reject_if (bool_decide (input = lit ".") || bool_decide (input = lit "..")
    || contains 47%N input || contains 92%N input) VpTraversalOrSeparator;;
  reject_if (starts_with_any [47]%N input || starts_with_any [92]%N input
    || has_drive_prefix input) VpAbsoluteOrDrivePrefix;;
  reject_if (existsb is_windows_invalid input || ends_with_any [32; 46]%N input)
    VpInvalidCharacter;;
  reject_if (is_reserved_windows_name input) VpReservedWindowsName;;
  reject_if (maximum_utf16 <? len_utf16 input) VpTooLong.

(** ** Truncation *)

(** The [take_while] of [truncate_utf16], with the units used so far. *)
Fixpoint truncate_from (used maximum : Z) (input : str) : str :=
  match input with
  | [] => []
  | character :: input =>
      let units := len_utf16_char character in
      if maximum <? usize_saturating_add used units then []
      else character :: truncate_from (used + units) maximum input
  end.

Definition truncate_utf16 (input : str) (maximum : Z) : str := truncate_from 0 maximum input.

Definition split_extension (filename : str) : str * option str :=
  match rsplit_once 46%N filename with
  | None => (filename, None)
  | Some (stem, extension) =>
      if bool_decide (stem = []) || bool_decide (extension = []) || (16 <? len_utf16 extension)
      then (filename, None)
      else (stem, Some extension)
  end.

Definition truncate_filename_preserving_extension (input : str) (maximum_utf16 : Z) : str :=
  if len_utf16 input <=? maximum_utf16 then input
  else match split_extension input with
  | (_, None) => truncate_utf16 input maximum_utf16
  | (stem, Some extension) =>
      let extension_length := usize_saturating_add (len_utf16 extension) 1 in
      if maximum_utf16 <=? extension_length then truncate_utf16 input maximum_utf16
      else truncate_utf16 stem (maximum_utf16 - extension_length) ++ [46%N] ++ extension
  end.

(** ** Machine names *)

(** The loop of [sanitize_component]: a run of bad characters becomes one
    underscore. *)
Fixpoint replace_runs (previous_replacement : bool) (s : str) : str :=
  match s with
  | [] => []
  | character :: s =>
      if is_windows_invalid character || is_separator character then
        (if previous_replacement then [] else [95%N]) ++ replace_runs true s
      else character :: replace_runs false s
  end.

(** [str::replacen(c, "_", 1)]. *)
Fixpoint replace_first (c : char) (s : str) : str :=
  match s with
  | [] => []
  | a :: s => if (a =? c)%N then 95%N :: s else a :: replace_first c s
  end.

(** [sanitize_component] before the truncation. *)
Definition sanitize_characters (input : str) : str :=
  let output := trim_end_matches is_space_or_dot (replace_runs false (trim input)) in
  let output := if bool_decide (output = []) || bool_decide (output = lit ".")
      || bool_decide (output = lit "..") then lit "Unclassified" else output in
  let output := if has_drive_prefix output then replace_first 58%N output else output in
  if is_reserved_windows_name output then 95%N :: output else output.

Definition sanitize_component (input : str) (maximum_utf16 : Z) (preserve_extension : bool) :
    SanitizedValue :=
  let before_truncation := sanitize_characters input in
  let output := if preserve_extension
    then truncate_filename_preserving_extension before_truncation maximum_utf16
    else truncate_utf16 before_truncation maximum_utf16 in
  {| sv_value := output;
     sv_changed := negb (bool_decide (output = input))
       || negb (bool_decide (output = before_truncation)) |}.

Definition sanitize_machine_segment (self : VirtualPathPolicy) (input : str) : SanitizedValue :=
  sanitize_component input (maximum_segment_utf16 self) false.
Definition sanitize_machine_filename (self : VirtualPathPolicy) (input : str) : SanitizedValue :=
  sanitize_component input (maximum_filename_utf16 self) true.

(** ** Paths *)

Definition validate_user_destination (self : VirtualPathPolicy) (segments : list str) :
    res VirtualPathError unit :=
  reject_if (maximum_depth self <? zlen segments) VpTooDeep;;
  fold_res (fun _ segment => validate_component segment (maximum_segment_utf16 self)) tt segments.

Definition validate_user_filename (self : VirtualPathPolicy) (filename : str) :
    res VirtualPathError unit :=
  validate_component filename (maximum_filename_utf16 self).

Definition sum_utf16 (destination : list str) : Z :=
  foldr Z.add 0 (len_utf16 <$> destination).

Definition path_length_utf16 (destination : list str) (filename : str) : Z :=
  usize_saturating_add (usize_saturating_add (sum_utf16 destination) (len_utf16 filename))
    (zlen destination).

(** The loop that shortens the segments from the last one to the first. *)
Fixpoint shorten_segments (maximum_path : Z) (filename : str) (indices : list nat)
    (destination : list str) (changed : bool) : list str * bool :=
  match indices with
  | [] => (destination, changed)
  | index :: indices =>
      if path_length_utf16 destination filename <=? maximum_path then (destination, changed)
      else shorten_segments maximum_path filename indices
        (alter (fun segment => truncate_utf16 segment 32) index destination) true
  end.

Definition fit_machine_path (self : VirtualPathPolicy) (destination : list str) (filename : str) :
    list str * str * bool * bool :=
  let sanitized := sanitize_machine_segment self <$> destination in
  let changed := existsb sv_changed sanitized in
  let safe_destination := sv_value <$> sanitized in
  let '(safe_destination, changed) :=
    if maximum_depth self <? zlen safe_destination
    then (take (Z.to_nat (maximum_depth self)) safe_destination, true)
    else (safe_destination, changed) in
  let sanitized_name := sanitize_machine_filename self filename in
  let changed := changed || sv_changed sanitized_name in
  let safe_name := sv_value sanitized_name in
  let '(safe_destination, changed) :=
    if maximum_path_utf16 self <? path_length_utf16 safe_destination safe_name
    then shorten_segments (maximum_path_utf16 self) safe_name
           (reverse (seq 0 (length safe_destination))) safe_destination changed
    else (safe_destination, changed) in
  let '(safe_name, changed) :=
    if maximum_path_utf16 self <? path_length_utf16 safe_destination safe_name
    then
      let destination_length :=
        usize_saturating_add (sum_utf16 safe_destination) (zlen safe_destination) in
      let remaining := Z.max (usize_saturating_sub (maximum_path_utf16 self) destination_length) 16 in
      (truncate_filename_preserving_extension safe_name remaining, true)
    else (safe_name, changed) in
  let valid := path_length_utf16 safe_destination safe_name <=? maximum_path_utf16 self in
  (safe_destination, safe_name, changed, valid).

(** ** Collisions *)

Section collisions.
Context `{UC : UnicodeCase}.

Definition collision_key (destination : list str) (filename : str) : str :=
  join [92%N] (to_lowercase <$> destination ++ [filename]).

Definition collision_name (filename : str) (ordinal maximum_utf16 : Z) : str :=
  let '(stem, extension) := split_extension filename in
  let suffix := lit "_" ++ dec ordinal in
  let extension_length := match extension with
    | Some value => usize_saturating_add (len_utf16 value) 1
    | None => 0
    end in
  let stem_limit := Z.max (usize_saturating_sub
    (usize_saturating_sub maximum_utf16 (len_utf16 suffix)) extension_length) 1 in
  let stem := truncate_utf16 stem stem_limit in
  match extension with
  | Some extension => stem ++ suffix ++ [46%N] ++ extension
  | None => stem ++ suffix
  end.
End collisions.

(** ** Trimming *)

Lemma trim_start_snoc p s c :
  p c = false -> trim_start_matches p (s ++ [c]) = trim_start_matches p s ++ [c].
Proof.
  intros Hc. induction s as [|a s IH]; cbn; [by rewrite Hc|]. by destruct (p a).
Qed.

Lemma trim_end_cons p c s :
  p c = false -> trim_end_matches p (c :: s) = c :: trim_end_matches p s.
Proof.
  intros Hc. unfold trim_end_matches. rewrite reverse_cons, trim_start_snoc by done.
  by rewrite reverse_app.
Qed.

Lemma trim_start_suffix p s : exists t, s = t ++ trim_start_matches p s.
Proof.
  induction s as [|a s [t Ht]]; [by exists []|]. cbn. destruct (p a); [|by exists []].
  exists (a :: t). cbn. by f_equal.
Qed.

Lemma trim_start_head p s :
  match trim_start_matches p s with [] => True | c :: _ => p c = false end.
Proof. induction s as [|a s IH]; [done|]. cbn. by destruct (p a) eqn:Ha. Qed.

Lemma trim_end_prefix p s : exists t, s = trim_end_matches p s ++ t.
Proof.
  unfold trim_end_matches. destruct (trim_start_suffix p (reverse s)) as [t Ht].
  exists (reverse t). rewrite <- reverse_app, <- Ht. by rewrite reverse_involutive.
Qed.

Lemma trim_end_last p s c : last (trim_end_matches p s) = Some c -> p c = false.
Proof.
  unfold trim_end_matches. rewrite last_reverse.
  pose proof (trim_start_head p (reverse s)) as H. destruct (trim_start_matches _ _); [done|].
  by intros [= <-].
Qed.

Lemma trim_end_id p s : (forall c, last s = Some c -> p c = false) -> trim_end_matches p s = s.
Proof.
  destruct s as [|c s _] using rev_ind; [done|]. intros H. specialize (H c (last_snoc _ _)).
  unfold trim_end_matches. rewrite reverse_snoc. cbn [trim_start_matches]. rewrite H.
  by rewrite reverse_cons, reverse_involutive.
Qed.

Lemma trim_head s :
  match trim s with [] => True | c :: _ => is_whitespace c = false end.
Proof.
  unfold trim. pose proof (trim_start_head is_whitespace s) as H.
  destruct (trim_start_matches is_whitespace s) as [|c t]; [done|].
  by rewrite trim_end_cons.
Qed.

(** A text that begins with a visible character does not trim to nothing. *)
Lemma trim_not_empty c s : is_whitespace c = false -> trim (c :: s) <> [].
Proof. intros Hc. unfold trim. cbn [trim_start_matches]. rewrite Hc. by rewrite trim_end_cons. Qed.

(** ** Safe names *)

Definition safe_char (c : char) : bool := negb (is_windows_invalid c) && negb (is_separator c).

(** What is left to check of a name once redundant tests are dropped. *)
Definition safe_name (maximum : Z) (s : str) : Prop :=
  trim s <> []
  /\ Forall (fun c => safe_char c = true) s
  /\ (forall c, last s = Some c -> is_space_or_dot c = false)
  /\ is_reserved_windows_name s = false
  /\ len_utf16 s <= maximum.

Lemma safe_char_not c s d :
  Forall (fun c => safe_char c = true) s -> safe_char d = false -> c = d -> c ∉ s.
Proof. intros Hs Hd -> Hc. rewrite Forall_forall in Hs. by rewrite Hs in Hd. Qed.

Lemma ends_with_space_or_dot s :
  ends_with_any [32; 46]%N s = false <-> (forall c, last s = Some c -> is_space_or_dot c = false).
Proof.
  unfold ends_with_any, is_space_or_dot. destruct (last s) as [c|]; [|done].
  split; [by intros H d [= <-]|]. intros H. by apply H.
Qed.

Lemma no_drive_prefix s : Forall (fun c => safe_char c = true) s -> has_drive_prefix s = false.
Proof.
  destruct s as [|a [|b s]]; [done..|]. intros [_ [Hb _]%Forall_cons_iff]%Forall_cons_iff.
  cbn. case_bool_decide; [by subst b|done].
Qed.

Lemma safe_chars_iff s :
  Forall (fun c => safe_char c = true) s <->
    contains 47%N s = false /\ contains 92%N s = false /\ existsb is_windows_invalid s = false.
Proof.
  rewrite !contains_false, Forall_forall. unfold safe_char. split.
  - intros H. split_and!; [by intros ?%H..|].
    destruct (existsb is_windows_invalid s) eqn:He; [|done].
    apply existsb_exists in He as (c & Hc%list_elem_of_In & Hi). apply H in Hc. by rewrite Hi in Hc.
  - intros (H1 & H2 & H3) c Hc. apply andb_true_iff. rewrite !negb_true_iff. split.
    + destruct (is_windows_invalid c) eqn:Hi; [|done]. rewrite <- H3. symmetry.
      apply existsb_exists. exists c. split; [by apply list_elem_of_In|done].
    + unfold is_separator. apply bool_decide_eq_false. rewrite !not_elem_of_cons.
      split_and!; [by intros ->..|apply not_elem_of_nil].
Qed.

(** A reserved name is not reserved once an underscore stands before it. *)
Lemma underscore_not_reserved s : is_reserved_windows_name (95%N :: s) = false.
Proof.
  unfold is_reserved_windows_name. cbn [split].
  change (95 =? 46)%N with false. cbn iota.
  assert (exists t, default [] (head match split (fun c => (c =? 46)%N) s with
    | [] => [[95%N]] | piece :: pieces => (95%N :: piece) :: pieces end) = 95%N :: t) as [t ->]
    by (destruct (split _ s); cbn; eauto).
  rewrite trim_end_cons by done. cbn [to_ascii_uppercase fmap list_fmap].
  change (ascii_upper_char 95) with 95%N. generalize (ascii_upper_char <$> trim_end_matches is_space_or_dot t).
  intros u. apply orb_false_iff. split; [|done].
  apply bool_decide_eq_false. rewrite !elem_of_cons. vm_compute lit.
  intros [?|[?|[?|[?|?%list_elem_of_In]]]]; by simplify_eq.
Qed.

(** Validation refuses exactly the names that are blank, hold a separator, a
    control or a reserved character, end in a space or a dot, are a device
    name or are too long: the tests for dot names, traversal and drive
    prefixes add nothing to these. *)
Theorem validate_component_iff s maximum :
  validate_component s maximum = Ok tt <-> safe_name maximum s.
Proof.
  unfold validate_component, safe_name. split.
  - intros H. inv_ok. repeat match goal with
      | H : _ || _ = false |- _ => apply orb_false_iff in H as [? ?]
      | H : bool_decide _ = false |- _ => apply bool_decide_eq_false in H
      end.
    split_and!; [done|by apply safe_chars_iff|by apply ends_with_space_or_dot|done|].
    by apply Z.ltb_ge.
  - intros (Ht & Hs & He & Hr & Hl). pose proof (no_drive_prefix s Hs) as Hd.
    apply safe_chars_iff in Hs as (H1 & H2 & H3). apply ends_with_space_or_dot in He.
    rewrite reject_if_bind by (apply orb_false_iff; rewrite !bool_decide_eq_false; split;
      [by intros ->|done]).
    rewrite reject_if_bind by (rewrite H1, H2, !orb_false_r; apply orb_false_iff;
      rewrite !bool_decide_eq_false; split; intros ->; by vm_compute in He).
    rewrite reject_if_bind by (rewrite Hd, orb_false_r; apply orb_false_iff;
      apply contains_false in H1, H2; split; destruct s; [done| |done|];
      apply bool_decide_eq_false; intros ->%list_elem_of_singleton;
      [by destruct H1; left|by destruct H2; left]).
    rewrite reject_if_bind by (by rewrite H3, He). rewrite Hr. cbn [reject_if mbind res_bind].
    apply reject_if_false. by apply Z.ltb_ge.
Qed.

(** ** Truncation *)

Lemma truncate_from_prefix used maximum s : exists t, s = truncate_from used maximum s ++ t.
Proof.
  revert used. induction s as [|c s IH]; intros used; [by exists []|]. cbn.
  destruct (_ <? _); [by exists (c :: s)|]. destruct (IH (used + len_utf16_char c)) as [t Ht].
  exists t. cbn. by f_equal.
Qed.

Lemma truncate_from_bound used maximum s :
  used <= maximum < usize_max -> used + len_utf16 (truncate_from used maximum s) <= maximum.
Proof.
  revert used. induction s as [|c s IH]; intros used H; cbn [truncate_from len_utf16]; [lia|].
  pose proof (len_utf16_char_pos c).
  destruct (Z.ltb_spec maximum (usize_saturating_add used (len_utf16_char c))) as [Hl|Hl];
    cbn [len_utf16]; [lia|].
  unfold usize_saturating_add, u64_saturating_add in Hl. unfold usize_max in *.
  specialize (IH (used + len_utf16_char c)). lia.
Qed.

Lemma truncate_from_id used maximum s :
  used + len_utf16 s <= maximum -> truncate_from used maximum s = s.
Proof.
  revert used. induction s as [|c s IH]; intros used H; cbn [truncate_from len_utf16] in *; [done|].
  pose proof (len_utf16_nonneg s). unfold usize_saturating_add, u64_saturating_add.
  rewrite (proj2 (Z.ltb_ge _ _)) by lia. by rewrite IH by lia.
Qed.

(** At least two units leave the first character. *)
Lemma truncate_utf16_cons c s maximum :
  2 <= maximum -> exists t, truncate_utf16 (c :: s) maximum = c :: t.
Proof.
  intros H. unfold truncate_utf16. cbn [truncate_from]. pose proof (len_utf16_char_pos c).
  unfold usize_saturating_add, u64_saturating_add.
  rewrite (proj2 (Z.ltb_ge _ _)) by lia. eauto.
Qed.

Lemma truncate_utf16_bound s maximum :
  0 <= maximum < usize_max -> len_utf16 (truncate_utf16 s maximum) <= maximum.
Proof. intros H. pose proof (truncate_from_bound 0 maximum s H). unfold truncate_utf16. lia. Qed.

Lemma split_extension_Some s stem extension :
  split_extension s = (stem, Some extension) ->
  s = stem ++ 46%N :: extension /\ stem <> [] /\ extension <> [] /\ len_utf16 extension <= 16.
Proof.
  unfold split_extension. destruct (rsplit_once 46%N s) as [[l r]|] eqn:Hs; [|done].
  apply rsplit_once_Some in Hs as [-> _].
  destruct (_ || _) eqn:Hb; [done|]. intros [= <- <-]. bools. naive_solver.
Qed.


(** What every truncation of a name does: the result fits, keeps the first
    character, uses no new one, and is the name itself when that fits. *)
Definition truncation (maximum : Z) (s out : str) : Prop :=
  len_utf16 out <= maximum
  /\ (forall c, c ∈ out -> c ∈ s)
  /\ (len_utf16 s <= maximum -> out = s)
  /\ (19 <= maximum -> head out = head s).

Lemma truncate_utf16_truncation s maximum :
  0 <= maximum < usize_max -> truncation maximum s (truncate_utf16 s maximum).
Proof.
  intros H. split_and!.
  - by apply truncate_utf16_bound.
  - intros c Hc. destruct (truncate_from_prefix 0 maximum s) as [t Ht]. rewrite Ht.
    by apply elem_of_app; left.
  - intros Hl. apply truncate_from_id. lia.
  - intros Hm. destruct s as [|c s]; [done|].
    by destruct (truncate_utf16_cons c s maximum) as [t ->]; [lia|].
Qed.

Lemma truncate_filename_truncation s maximum :
  0 <= maximum < usize_max ->
  truncation maximum s (truncate_filename_preserving_extension s maximum).
Proof.
  intros H. unfold truncate_filename_preserving_extension.
  destruct (Z.leb_spec (len_utf16 s) maximum) as [Hl|Hl]; [done|].
  destruct (split_extension s) as [stem [extension|]] eqn:He;
    [|by apply truncate_utf16_truncation].
  apply split_extension_Some in He as (-> & Hstem & _ & Hext).
  unfold usize_saturating_add, u64_saturating_add, usize_max in *.
  pose proof (len_utf16_nonneg extension) as Hnn.
  destruct (Z.leb_spec maximum (Z.min (len_utf16 extension + 1) u64_max)) as [Hm|Hm];
    [by apply truncate_utf16_truncation|].
  assert (Z.min (len_utf16 extension + 1) u64_max = len_utf16 extension + 1) as Hmin by lia.
  rewrite Hmin in *. set (limit := maximum - (len_utf16 extension + 1)) in *.
  assert (0 <= limit < usize_max) as Hlimit by (unfold usize_max; lia). split_and!.
  - rewrite !len_utf16_app. cbn [len_utf16]. change (len_utf16_char 46) with 1.
    pose proof (truncate_utf16_bound stem limit Hlimit). lia.
  - intros c. destruct (truncate_from_prefix 0 limit stem) as [t Ht].
    change (truncate_from 0 limit stem) with (truncate_utf16 stem limit) in Ht. rewrite Ht at 2.
    rewrite !elem_of_app, elem_of_cons, elem_of_cons. rewrite elem_of_nil. tauto.
  - intros Hl'. lia.
  - intros Hm'. destruct stem as [|c stem]; [done|].
    by destruct (truncate_utf16_cons c stem limit) as [t ->]; [lia|].
Qed.

(** ** Machine names *)

Lemma replace_runs_safe b s : Forall (fun c => safe_char c = true) (replace_runs b s).
Proof.
  revert b. induction s as [|c s IH]; intros b; cbn [replace_runs]; [constructor|].
  destruct (is_windows_invalid c || is_separator c) eqn:Hc.
  - destruct b; cbn; [done|]. by constructor.
  - constructor; [|done]. apply orb_false_iff in Hc as [H1 H2]. unfold safe_char. by rewrite H1, H2.
Qed.

Lemma replace_runs_id s b : Forall (fun c => safe_char c = true) s -> replace_runs b s = s.
Proof.
  intros H. revert b. induction H as [|c s Hc _ IH]; intros b; [done|]. cbn [replace_runs].
  unfold safe_char in Hc. apply andb_true_iff in Hc as [H1%negb_true_iff H2%negb_true_iff].
  rewrite H1, H2. cbn. by rewrite IH.
Qed.

Lemma replace_runs_head s :
  head (replace_runs false s) = head s \/ head (replace_runs false s) = Some 95%N.
Proof. destruct s as [|c s]; [by left|]. cbn. destruct (_ || _); [by right|by left]. Qed.

(** The name a machine proposes, before it is shortened, is safe at its own
    length, and begins with a visible character. *)
Lemma sanitize_characters_safe input :
  safe_name (len_utf16 (sanitize_characters input)) (sanitize_characters input)
  /\ exists c t, sanitize_characters input = c :: t /\ is_whitespace c = false.
Proof.
  unfold sanitize_characters. set (output := trim_end_matches _ _).
  assert (Forall (fun c => safe_char c = true) output) as Hs.
  { destruct (trim_end_prefix is_space_or_dot (replace_runs false (trim input))) as [t Ht].
    pose proof (replace_runs_safe false (trim input)) as H. rewrite Ht in H.
    by apply Forall_app in H as [? _]. }
  assert (forall c, last output = Some c -> is_space_or_dot c = false) as Hl
    by apply trim_end_last.
  assert (match output with [] => True | c :: _ => is_whitespace c = false end) as Hh.
  { destruct (trim_end_prefix is_space_or_dot (replace_runs false (trim input))) as [t Ht].
    fold output in Ht. pose proof (trim_head input) as Ht'.
    destruct output as [|c output]; [done|].
    destruct (replace_runs_head (trim input)) as [H|H]; rewrite Ht in H; cbn in H.
    - destruct (trim input); [done|]. by injection H as ->.
    - by injection H as ->. }
  set (renamed := if _ : bool then lit "Unclassified" else output).
  assert (Forall (fun c => safe_char c = true) renamed
    /\ (forall c, last renamed = Some c -> is_space_or_dot c = false)
    /\ exists c t, renamed = c :: t /\ is_whitespace c = false) as (Hs' & Hl' & c & t & Hc & Hw).
  { subst renamed. destruct (_ || _) eqn:Hb.
    - split_and!.
      + apply List.Forall_forall, forallb_forall. by vm_compute.
      + vm_compute. by intros c [= <-].
      + vm_compute. eauto.
    - split_and!; [done..|]. bools. destruct output as [|c t]; [naive_solver|eauto]. }
  rewrite no_drive_prefix by done. destruct (is_reserved_windows_name renamed) eqn:Hr.
  - split; [|by exists 95%N, renamed]. split_and!; [by apply trim_not_empty|by constructor| |
      apply underscore_not_reserved|lia].
    intros d. rewrite Hc, last_cons_cons, <- Hc. apply Hl'.
  - split; [|by exists c, t]. split_and!; [|done..|lia]. rewrite Hc. by apply trim_not_empty.
Qed.

Lemma sanitize_component_truncation input maximum preserve :
  0 <= maximum < usize_max ->
  truncation maximum (sanitize_characters input) (sv_value (sanitize_component input maximum preserve)).
Proof.
  intros H. unfold sanitize_component. cbn [sv_value].
  destruct preserve; [by apply truncate_filename_truncation|by apply truncate_utf16_truncation].
Qed.

(** A name proposed by a machine keeps within its limit and holds no
    separator, control or reserved character; if it did not have to be
    shortened it passes the validation of user names; and a valid name that
    is not padded with white space is left as it is. *)
Theorem sanitize_component_spec input maximum preserve :
  0 <= maximum < usize_max ->
  let value := sv_value (sanitize_component input maximum preserve) in
  len_utf16 value <= maximum
  /\ Forall (fun c => safe_char c = true) value
  /\ (len_utf16 (sanitize_characters input) <= maximum -> validate_component value maximum = Ok tt)
  /\ (validate_component input maximum = Ok tt -> trim input = input ->
      sanitize_component input maximum preserve = {| sv_value := input; sv_changed := false |}).
Proof.
  intros Hm value. destruct (sanitize_component_truncation input maximum preserve Hm)
    as (Hlen & Hsub & Hid & _). fold value in Hlen, Hsub, Hid.
  destruct (sanitize_characters_safe input) as ((H1 & H2 & H3 & H4 & _) & _). split_and!.
  - done.
  - apply Forall_forall. intros c Hc. rewrite Forall_forall in H2. by apply H2, Hsub.
  - intros Hl. rewrite Hid by done. by apply validate_component_iff.
  - intros (V1 & V2 & V3 & V4 & V5)%validate_component_iff Ht.
    assert (sanitize_characters input = input) as He.
    { unfold sanitize_characters. rewrite Ht, replace_runs_id, trim_end_id by done.
      assert (bool_decide (input = []) || bool_decide (input = lit ".")
        || bool_decide (input = lit "..") = false) as ->.
      { rewrite !orb_false_iff, !bool_decide_eq_false. split_and!; intros ->.
        - done.
        - by specialize (V3 _ eq_refl).
        - by specialize (V3 _ eq_refl). }
      by rewrite no_drive_prefix, V4 by done. }
    assert (value = input) as Hv by (rewrite Hid; [done|by rewrite He]).
    unfold value, sanitize_component in Hv. cbn [sv_value] in Hv. rewrite He in Hv.
    unfold sanitize_component. rewrite He, Hv. by rewrite bool_decide_true.
Qed.

(** ** Paths *)

(** What every segment and every name of a fitted path satisfies. *)
Definition fitted (maximum : Z) (s : str) : Prop :=
  s <> [] /\ len_utf16 s <= maximum /\ Forall (fun c => safe_char c = true) s.

Lemma truncation_fitted limit maximum s out :
  19 <= limit -> truncation limit s out -> fitted maximum s -> fitted (Z.min limit maximum) out.
Proof.
  intros Hl (H1 & H2 & H3 & H4) (Hne & Hlen & Hs). split_and!.
  - intros ->. specialize (H4 Hl). by destruct s.
  - destruct (Z.leb_spec (len_utf16 s) limit) as [Hle|Hgt]; [rewrite H3 by done|]; lia.
  - apply Forall_forall. intros c Hc. rewrite Forall_forall in Hs. by apply Hs, H2.
Qed.

Lemma fitted_weaken m m' s : m <= m' -> fitted m s -> fitted m' s.
Proof. intros ? (? & ? & ?). split_and!; [done|lia|done]. Qed.

Lemma sanitize_fitted maximum input preserve :
  19 <= maximum < usize_max -> fitted maximum (sv_value (sanitize_component input maximum preserve)).
Proof.
  intros Hm. destruct (sanitize_characters_safe input) as ((_ & Hs & _) & c & t & Hc & _).
  eapply fitted_weaken; [|eapply (truncation_fitted maximum (len_utf16 (sanitize_characters input)));
    [lia|apply sanitize_component_truncation; lia|]]; [lia|].
  split_and!; [by rewrite Hc|lia|done].
Qed.

Definition truncate_segment (s : str) : str := truncate_utf16 s 32.

Lemma truncate_segment_fitted maximum s : fitted maximum s -> fitted (Z.min 32 maximum) (truncate_segment s).
Proof. apply truncation_fitted; [lia|]. by apply truncate_utf16_truncation. Qed.

Lemma shorten_segments_spec maximum segment_maximum name indices destination changed :
  Forall (fitted segment_maximum) destination ->
  let '(d, _) := shorten_segments maximum name indices destination changed in
  length d = length destination
  /\ Forall (fitted segment_maximum) d
  /\ (path_length_utf16 d name <= maximum
      \/ forall i s, d !! i = Some s ->
           i ∈ indices \/ (exists s', destination !! i = Some s' /\ len_utf16 s' <= 32) ->
           len_utf16 s <= 32).
Proof.
  revert destination changed. induction indices as [|i indices IH]; intros destination changed Hf;
    cbn [shorten_segments].
  { split_and!; [done..|]. right. intros i s Hs [Hi|(s' & Hs' & ?)]; [by apply elem_of_nil in Hi|].
    by simplify_eq. }
  destruct (Z.leb_spec (path_length_utf16 destination name) maximum) as [Hl|_]; [by auto|].
  change (alter _ i destination) with (alter truncate_segment i destination).
  assert (Forall (fitted segment_maximum) (alter truncate_segment i destination)) as Hf'.
  { apply Forall_alter; [done|]. intros s _ Hs. eapply fitted_weaken;
      [|by apply truncate_segment_fitted]. lia. }
  specialize (IH (alter truncate_segment i destination) true Hf').
  destruct (shorten_segments _ _ _ _ _) as [d b]. destruct IH as (H1 & H2 & H3).
  rewrite length_alter in H1. split_and!; [done..|]. destruct H3 as [H3|H3]; [by left|right].
  intros j s Hs Hj. apply (H3 j s Hs). destruct (decide (j = i)) as [->|Hne].
  - right. destruct (destination !! i) as [s'|] eqn:Hi.
    + exists (truncate_segment s'). rewrite list_lookup_alter_eq, Hi. split; [done|].
      by apply truncate_utf16_bound.
    + apply lookup_ge_None in Hi. apply lookup_lt_Some in Hs. lia.
  - destruct Hj as [[->|Hj]%elem_of_cons|(s' & Hs' & Hle)]; [done|by left|].
    right. exists s'. by rewrite list_lookup_alter_ne.
Qed.

Lemma sum_utf16_bound n destination :
  Forall (fun s => len_utf16 s <= n) destination -> 0 <= sum_utf16 destination <= n * zlen destination.
Proof.
  unfold sum_utf16, zlen. induction 1 as [|s l Hs _ IH]; cbn [fmap list_fmap foldr length]; [lia|].
  pose proof (len_utf16_nonneg s). lia.
Qed.

(** A policy whose path budget leaves room for shortened segments. *)
Definition policy_ok (p : VirtualPathPolicy) : Prop :=
  0 <= maximum_depth p /\ 19 <= maximum_segment_utf16 p < usize_max
  /\ 19 <= maximum_filename_utf16 p < usize_max
  /\ 33 * maximum_depth p + 19 <= maximum_path_utf16 p < usize_max.

Lemma path_length_le maximum d n :
  maximum < usize_max ->
  path_length_utf16 d n <= maximum <-> sum_utf16 d + len_utf16 n + zlen d <= maximum.
Proof.
  unfold path_length_utf16, usize_saturating_add, u64_saturating_add, usize_max. intros H.
  pose proof (zlen_nonneg d). lia.
Qed.

(** The steps of [fit_machine_path]: the path is cut to the depth, its segments
    are shortened from the last one on, and the name gets what is left. *)
Lemma cut_to_depth p d (changed : bool) :
  0 <= maximum_depth p -> Forall (fitted (maximum_segment_utf16 p)) d ->
  exists d1 b1, (if maximum_depth p <? zlen d then (take (Z.to_nat (maximum_depth p)) d, true)
      else (d, changed)) = (d1, b1)
    /\ zlen d1 <= maximum_depth p /\ Forall (fitted (maximum_segment_utf16 p)) d1.
Proof.
  intros Hdepth Hd. unfold zlen. destruct (Z.ltb_spec (maximum_depth p) (Z.of_nat (length d)));
    eexists _, _; (split; [reflexivity|]); (split; [rewrite ?length_take; lia|by try apply Forall_take]).
Qed.

Lemma shorten_to_limit maximum depth limit n d (changed : bool) :
  zlen d <= depth -> Forall (fitted maximum) d ->
  exists d2 b2, (if limit <? path_length_utf16 d n
      then shorten_segments limit n (reverse (seq 0 (length d))) d changed else (d, changed)) = (d2, b2)
    /\ zlen d2 <= depth /\ Forall (fitted maximum) d2
    /\ (path_length_utf16 d2 n <= limit \/ sum_utf16 d2 <= 32 * zlen d2).
Proof.
  intros Hlen Hd. destruct (Z.ltb_spec limit (path_length_utf16 d n)) as [_|Hle]; [|by eauto 10].
  pose proof (shorten_segments_spec limit maximum n (reverse (seq 0 (length d))) d changed Hd) as H.
  destruct (shorten_segments _ _ _ _ _) as [d2 b2]. destruct H as (H1 & H2 & H3).
  exists d2, b2. split_and!; [done|unfold zlen in *; lia|done|].
  destruct H3 as [H3|H3]; [by left|right]. apply sum_utf16_bound, Forall_lookup.
  intros i s Hs. apply (H3 i s Hs). left. apply elem_of_reverse, elem_of_seq.
  apply lookup_lt_Some in Hs. lia.
Qed.


(** ** Decimal numbers *)

Lemma lit_digits s :
  Forall (fun b => is_ascii_digit (Byte.to_N b) = true) (bstr s) -> lit s = Byte.to_N <$> bstr s.
Proof.
  intros H. unfold lit. induction H as [|b l Hb _ IH]; [done|]. cbn [fmap list_fmap utf8_decode].
  unfold is_ascii_digit in Hb. bools. rewrite (proj2 (N.ltb_lt _ _)) by lia. by f_equal.
Qed.

Lemma bstr_inj s t : bstr s = bstr t -> s = t.
Proof.
  intros H. rewrite <- (String.string_of_list_byte_of_string s),
    <- (String.string_of_list_byte_of_string t). unfold bstr in H. by rewrite H.
Qed.

Lemma pretty_N_go_digits n s :
  Forall (fun b => is_ascii_digit (Byte.to_N b) = true) (bstr s) ->
  Forall (fun b => is_ascii_digit (Byte.to_N b) = true) (bstr (pretty_N_go n s)).
Proof.
  revert s. induction (N.lt_wf_0 n) as [n _ IH]; intros s Hs.
  destruct (N.eq_dec n 0%N) as [->|Hn]; [done|].
  rewrite pretty_N_go_step by lia. apply IH; [apply N.div_lt; lia|].
  constructor; [|done]. assert (n mod 10 < 10)%N as Hlt by (apply N.mod_lt; lia).
  generalize dependent (n mod 10)%N. intros k Hk.
  assert (k = 0 \/ k = 1 \/ k = 2 \/ k = 3 \/ k = 4 \/ k = 5 \/ k = 6 \/ k = 7 \/ k = 8 \/ k = 9)%N
    as Hc by lia. by repeat destruct Hc as [->|Hc]; [..|subst].
Qed.

Lemma dec_digits n :
  0 <= n -> exists l, dec n = Byte.to_N <$> l /\ bstr (pretty n) = l
    /\ Forall (fun b => is_ascii_digit (Byte.to_N b) = true) l.
Proof.
  intros Hn. exists (bstr (pretty n)).
  assert (Forall (fun b => is_ascii_digit (Byte.to_N b) = true) (bstr (pretty n))) as Hd.
  { destruct n as [|p|p]; [by repeat constructor| |lia]. change (pretty (Z.pos p)) with (pretty (N.pos p)). unfold pretty, pretty_N.
    rewrite decide_False by done. by apply pretty_N_go_digits. }
  split_and!; [by apply lit_digits|done|done].
Qed.

Lemma dec_inj n m : 0 <= n -> 0 <= m -> dec n = dec m -> n = m.
Proof.
  intros Hn Hm H. destruct (dec_digits n Hn) as (l & H1 & <- & _).
  destruct (dec_digits m Hm) as (k & H2 & <- & _). rewrite H1, H2 in H.
  apply (inj pretty), bstr_inj, (inj (fmap Byte.to_N)), H.
Qed.

(** ** Collisions *)

Lemma split_join p c l :
  p c = true -> l <> [] -> Forall (Forall (fun x => p x = false)) l -> split p (join [c] l) = l.
Proof.
  intros Hc. induction l as [|s l IH]; [done|]. intros _ [Hs Hl]%Forall_cons_iff.
  destruct l as [|t l]; [by apply split_single|]. change (join [c] (s :: t :: l))
    with (s ++ [c] ++ join [c] (t :: l)). cbn [app]. by rewrite split_app_sep, (split_single p s), IH by done.
Qed.

Lemma after_last_unique {A} (c : A) a a' d d' :
  a ++ c :: d = a' ++ c :: d' -> c ∉ d -> c ∉ d' -> d = d'.
Proof.
  revert a'. induction a as [|x a IH]; intros [|y a'] H Hd Hd'; cbn in H; injection H.
  - done.
  - intros He _. destruct Hd. rewrite He. apply elem_of_app. right. left.
  - intros He _. destruct Hd'. rewrite <- He. apply elem_of_app. right. left.
  - intros He _. by apply (IH a').
Qed.

Section collision_properties.
Context `{UC : UnicodeCase}.

(** Lower-casing produces no backslash. *)
Class LowercaseKeepsSeparators : Prop :=
  to_lowercase_backslash s : 92%N ∉ s -> 92%N ∉ to_lowercase s.
Context `{LK : LowercaseKeepsSeparators}.

Lemma valid_no_backslash s maximum : validate_component s maximum = Ok tt -> 92%N ∉ s.
Proof.
  intros (_ & Hs & _)%validate_component_iff. rewrite Forall_forall in Hs. by intros ?%Hs.
Qed.

(** Two proposed places have one collision key exactly when they are the same
    place up to case: for valid names the joined key forgets nothing but
    case. *)
Theorem collision_key_iff m destination name destination' name' :
  Forall (fun s => validate_component s m = Ok tt) (name :: destination) ->
  Forall (fun s => validate_component s m = Ok tt) (name' :: destination') ->
  collision_key destination name = collision_key destination' name' <->
    to_lowercase <$> destination = to_lowercase <$> destination'
    /\ to_lowercase name = to_lowercase name'.
Proof.
  intros H H'. unfold collision_key. rewrite !fmap_app. cbn [fmap list_fmap].
  assert (forall d n, Forall (fun s => validate_component s m = Ok tt) (n :: d) ->
    split (fun c => bool_decide (c = 92%N)) (join [92%N] ((to_lowercase <$> d) ++ [to_lowercase n]))
      = (to_lowercase <$> d) ++ [to_lowercase n]) as Hsplit.
  { intros d n [Hn Hd]%Forall_cons_iff. apply split_join; [done|by destruct (to_lowercase <$> d)|].
    assert (forall s, validate_component s m = Ok tt ->
      Forall (fun c => bool_decide (c = 92%N) = false) (to_lowercase s)) as Hno.
    { intros s Hs. apply Forall_forall. intros c Hc. apply bool_decide_eq_false. intros ->.
      by apply (to_lowercase_backslash s); [eapply valid_no_backslash|]. }
    apply Forall_app. split; [|by repeat constructor; apply Hno].
    apply Forall_fmap. eapply Forall_impl; [exact Hd|]. exact Hno. }
  split.
  - intros Heq. pose proof (Hsplit _ _ H) as H1. rewrite Heq, (Hsplit _ _ H') in H1.
    by apply app_inj_tail in H1 as [-> ->].
  - by intros [-> ->].
Qed.
End collision_properties.

Lemma dec_no_underscore n : 0 <= n -> 95%N ∉ dec n.
Proof.
  intros (l & -> & _ & Hl)%dec_digits. intros (b & Hb & Hin)%list_elem_of_fmap.
  rewrite Forall_forall in Hl. apply Hl in Hin. by rewrite <- Hb in Hin.
Qed.

Lemma collision_name_parts filename ordinal maximum :
  exists a tail, collision_name filename ordinal maximum = (a ++ 95%N :: dec ordinal) ++ tail
    /\ tail = match snd (split_extension filename) with Some e => 46%N :: e | None => [] end.
Proof.
  unfold collision_name. assert (lit "_" = [95%N]) as -> by (by vm_compute).
  generalize (dec ordinal). intros d. destruct (split_extension filename) as [stem [e|]]; cbn [snd];
    match goal with |- context [truncate_utf16 stem ?limit] => generalize (truncate_utf16 stem limit) end;
    intros a; exists a.
  - exists (46%N :: e). by rewrite <- !(assoc_L (++)).
  - exists []. by rewrite app_nil_r.
Qed.

(** The numbered names tried when a place is taken are pairwise different,
    keep the extension, and keep within the limit whenever number, extension
    and one more unit do: the search for a free name cannot go round in
    circles. *)
Theorem collision_name_fresh filename maximum i j :
  0 <= i -> 0 <= j -> 0 <= maximum < usize_max ->
  (collision_name filename i maximum = collision_name filename j maximum -> i = j)
  /\ (forall stem extension, split_extension filename = (stem, Some extension) ->
       exists s, collision_name filename i maximum = s ++ 46%N :: extension)
  /\ (len_utf16 (lit "_" ++ dec i)
       + match snd (split_extension filename) with Some e => len_utf16 e + 1 | None => 0 end + 1
       <= maximum -> len_utf16 (collision_name filename i maximum) <= maximum).
Proof.
  intros Hi Hj Hm. split_and!.
  - destruct (collision_name_parts filename i maximum) as (a & t & -> & ->).
    destruct (collision_name_parts filename j maximum) as (a' & t & -> & ->).
    intros H%app_inv_tail%after_last_unique; [by apply dec_inj|by apply dec_no_underscore..].
  - intros stem e He. destruct (collision_name_parts filename i maximum) as (a & t & -> & ->).
    rewrite He. cbn. eauto.
  - unfold collision_name. destruct (split_extension filename) as [stem [e|]]; cbn [snd]; intros Hl;
      unfold usize_saturating_sub, usize_saturating_add, u64_saturating_add, usize_max in *;
      rewrite !len_utf16_app in *; set (n := len_utf16 (lit "_") + len_utf16 (dec i)) in *;
      pose proof (len_utf16_nonneg (lit "_")); pose proof (len_utf16_nonneg (dec i)).
    + pose proof (len_utf16_nonneg e). cbn [len_utf16]. change (len_utf16_char 46) with 1.
      match goal with |- context [truncate_utf16 stem ?limit] =>
        pose proof (truncate_utf16_bound stem limit) as Hb end.
      unfold usize_max in Hb. lia.
    + match goal with |- context [truncate_utf16 stem ?limit] =>
        pose proof (truncate_utf16_bound stem limit) as Hb end.
      unfold usize_max in Hb. lia.
Qed.

(** ** Concrete names *)

(** The examples of the source's tests. *)
Example sanitize_reserved :
  sv_value (sanitize_machine_filename default_policy (lit "CON<report>.pdf")) = lit "CON_report_.pdf"
  /\ sv_value (sanitize_machine_filename default_policy (lit "NUL.txt")) = lit "_NUL.txt".
Proof. by vm_compute. Qed.

(** A machine segment cut in the middle of two words keeps the space before the
    cut, and is then refused by the validation of user names. *)
Definition long_segment : str := replicate 79 97%N ++ lit " report".

Lemma shortened_segment_is_invalid :
  let value := sv_value (sanitize_machine_segment default_policy long_segment) in
  last value = Some 32%N
  /\ validate_component value (maximum_segment_utf16 default_policy) = Err VpInvalidCharacter.
Proof. by vm_compute. Qed.


Lemma sanitize_component_spec_witness :
  validate_component (lit "Invoices 2024") 80 = Ok tt
  /\ sanitize_component (lit "Invoices 2024") 80 false
      = {| sv_value := lit "Invoices 2024"; sv_changed := false |}.
Proof.
  assert (validate_component (lit "Invoices 2024") 80 = Ok tt) as Hv by (vm_compute; reflexivity).
  split; [exact Hv|].
  apply (sanitize_component_spec (lit "Invoices 2024") 80 false);
    [split; [|vm_compute]; lia || reflexivity|exact Hv|vm_compute; reflexivity].
Defined.

#[local] Existing Instance ascii_unicode_case.
#[local] Instance ascii_keeps_separators : LowercaseKeepsSeparators.
Proof.
  intros s Hs (c & Hc & Hin)%list_elem_of_fmap. unfold ascii_lower_char, is_ascii_uppercase in Hc.
  destruct (_ && _) eqn:Hb; [bools; lia|by subst c].
Qed.

Lemma collision_key_iff_witness :
  collision_key [lit "Business"] (lit "Invoice.pdf") = collision_key [lit "business"] (lit "invoice.PDF").
Proof.
  apply (collision_key_iff 80); [repeat constructor; vm_compute; reflexivity..|].
  split; vm_compute; reflexivity.
Defined.

Lemma collision_name_fresh_witness :
  collision_name (lit "invoice.pdf") 2 160 = lit "invoice_2.pdf"
  /\ (collision_name (lit "invoice.pdf") 2 160 = collision_name (lit "invoice.pdf") 3 160 -> 2 = 3).
Proof.
  split; [vm_compute; reflexivity|].
  apply (collision_name_fresh (lit "invoice.pdf") 160 2 3); [lia|lia|split; [|vm_compute]; lia || reflexivity].
Defined.
