(* ===== verification/Trace.v ===== *)
(** * What a computation asks of the world

    The interfaces of the file operations and of fresh identifiers, the log of
    the effects a computation asks for, whatever world it runs in, and
    weakest preconditions over that log. *)

From S2P Require Export Journal HostFs.
#[local] Open Scope Z_scope.

(** ** Interfaces *)

(** [trait SafeFileOperations]. *)
Class SafeFileOperations (W : Type) : Type := {
  rename_same_volume_no_replace : RenameRequest -> SE W PlatformError RenameOutcome;
  create_directory_no_replace : PathBuf -> SE W PlatformError unit;
  remove_directory_if_empty : PathBuf -> SE W PlatformError unit
}.

(** [Uuid::new_v4] and the like. *)
Class UuidSource (W : Type) : Type := fresh_uuid : W -> uuid * W.
Definition new_id {W E} `{UuidSource W} : SE W E uuid := fun w =>
  let '(u, w') := fresh_uuid w in (Ok u, w').

(** ** Effects

    The same code run in a world that also logs what it asks of the journal
    and of the file system, whatever these are. *)

Inductive FsOp :=
  | FsCreateDirectory (path : PathBuf)
  | FsRemoveDirectory (path : PathBuf)
  | FsRename (request : RenameRequest)
  | FsCreateFile (path : PathBuf)
  | FsWriteFile (path : PathBuf) (data : bytes).

Inductive Effect :=
  | EffAppend (event : OperationJournalEvent) (durable : bool)
  | EffFlush (durable : bool)
  | EffFs (op : FsOp) (error : option PlatformError).

(** A world with a log of effects of some kind. *)
Definition Logged (F W : Type) : Type := W * list F.
Notation Traced := (Logged Effect).

(** Runs [m] below the log and notes its result. *)
Definition logged {F W E A} (m : SE W E A) (note : res E A -> list F) : SE (Logged F W) E A :=
  fun '(w, log) => let '(r, w') := m w in (r, (w', log ++ note r)).

Definition error_of {E A} (r : res E A) : option E :=
  match r with Ok _ => None | Err e => Some e end.

#[export] Instance traced_journal {W} `{DurableJournal W} : DurableJournal (Traced W) := {
  journal_append event := logged (journal_append event) (fun r => [EffAppend event (is_ok r)]);
  journal_flush := logged journal_flush (fun r => [EffFlush (is_ok r)]);
  journal_events x := logged (journal_events x) (fun _ => []);
  journal_diagnostics w := journal_diagnostics (fst w)
}.
#[export] Instance traced_filesystem {W} `{SafeFileOperations W} :
  SafeFileOperations (Traced W) := {
  rename_same_volume_no_replace request := logged (rename_same_volume_no_replace request)
    (fun r => [EffFs (FsRename request) (error_of r)]);
  create_directory_no_replace path := logged (create_directory_no_replace path)
    (fun r => [EffFs (FsCreateDirectory path) (error_of r)]);
  remove_directory_if_empty path := logged (remove_directory_if_empty path)
    (fun r => [EffFs (FsRemoveDirectory path) (error_of r)])
}.

(** Runs [m] below the log and leaves the log as it is. *)
Definition passing {F W E A} (m : SE W E A) : SE (Logged F W) E A :=
  fun '(w, log) => let '(r, w') := m w in (r, (w', log)).

#[export] Instance traced_reads {W} `{ReadOnlyPlatform W} : ReadOnlyPlatform (Traced W) := {
  inspect_volume root := passing (inspect_volume root);
  fingerprint path content maximum := passing (fingerprint path content maximum);
  fingerprint_streaming path maximum := passing (fingerprint_streaming path maximum)
}.
#[export] Instance traced_fs {W} `{StdFs W} : StdFs (Traced W) := {
  symlink_metadata path := passing (symlink_metadata path);
  canonicalize path := passing (canonicalize path);
  read_dir_first path := passing (read_dir_first path)
}.
#[export] Instance traced_uuids {W} `{UuidSource W} : UuidSource (Traced W) :=
  fun '(w, log) => let '(u, w') := fresh_uuid w in (u, (w', log)).

(** ** Weakest preconditions over the log *)

Section wp.
Context {Eff W : Type}.

Definition wp {E A} (m : SE (Logged Eff W) E A) (log : list Eff)
    (Q : res E A -> list Eff -> Prop) : Prop :=
  forall w, Q (fst (m (w, log))) (snd (snd (m (w, log)))).

Lemma wp_weaken {E A} (m : SE (Logged Eff W) E A) log (Q Q' : res E A -> list Eff -> Prop) :
  wp m log Q -> (forall r log', Q r log' -> Q' r log') -> wp m log Q'.
Proof. intros H HQ w. by apply HQ. Qed.

Lemma wp_bind {E A B} (m : SE (Logged Eff W) E A) (k : A -> SE (Logged Eff W) E B) log
    (Q : res E B -> list Eff -> Prop) :
  wp m log (fun r log' =>
    match r with Ok a => wp (k a) log' Q | Err e => Q (Err e) log' end) ->
  wp (m ≫= k) log Q.
Proof.
  intros H w. specialize (H w). cbv [mbind se_bind].
  destruct (m (w, log)) as [[a|e] [w' log']]; cbn in *; [apply H | done].
Qed.

Lemma wp_ret {E A} (a : A) log (Q : res E A -> list Eff -> Prop) :
  Q (Ok a) log -> wp (mret a) log Q.
Proof. by intros H w. Qed.

Lemma wp_fail {E A} (e : E) log (Q : res E A -> list Eff -> Prop) :
  Q (Err e) log -> wp (se_fail e) log Q.
Proof. by intros H w. Qed.

Lemma wp_lift {E A} (m : res E A) log (Q : res E A -> list Eff -> Prop) :
  Q m log -> wp (se_lift m) log Q.
Proof. by intros H w. Qed.

Lemma wp_reject {E B} bad (e : E) (k : unit -> SE (Logged Eff W) E B) log
    (Q : res E B -> list Eff -> Prop) :
  (bad = true -> Q (Err e) log) -> (bad = false -> wp (k tt) log Q) ->
  wp (se_lift (reject_if bad e) ≫= k) log Q.
Proof. intros H1 H2. destruct bad; intros w; cbn; [by apply H1 | by apply H2]. Qed.

Lemma wp_try {E F A} (m : SE (Logged Eff W) E A) log (Q : res F (res E A) -> list Eff -> Prop) :
  wp m log (fun r log' => Q (Ok r) log') -> wp (se_try m) log Q.
Proof. intros H w. specialize (H w). unfold se_try. by destruct (m (w, log)). Qed.

Lemma wp_map_err {E F A} (f : E -> F) (m : SE (Logged Eff W) E A) log
    (Q : res F A -> list Eff -> Prop) :
  wp m log (fun r log' => Q (map_err f r) log') -> wp (se_map_err f m) log Q.
Proof. intros H w. specialize (H w). unfold se_map_err. by destruct (m (w, log)). Qed.

Lemma wp_passing {E A} (m : SE W E A) log (Q : res E A -> list Eff -> Prop) :
  (forall r, Q r log) -> wp (passing m) log Q.
Proof. intros H w. unfold passing. destruct (m w). apply H. Qed.

Lemma wp_logged {E A} (m : SE W E A) note log (Q : res E A -> list Eff -> Prop) :
  (forall r, Q r (log ++ note r)) -> wp (logged m note) log Q.
Proof. intros H w. unfold logged. destruct (m w). apply H. Qed.

End wp.
