(* ===== verification/Apply.v ===== *)
(** * Applying a sealed plan

    crates/operations/src/lib.rs, [OperationExecutor] and [compile_plan]: an
    approved plan is executed step by step, each mutation preceded by a durable
    intent in the journal and followed by its observation. *)

From S2P Require Export Trace.
From S2P Require Export Simulation.
#[local] Open Scope Z_scope.

(** ** Data *)

Record ApplyGate := { gate_enabled : bool; gate_reason : str }.

Notation Roots := (gmap RootId PathBuf).

Inductive ExecutionState :=
  | EsApproved | EsApplying | EsApplied | EsPartial | EsFailed | EsRecoveryRequired
  | EsRollingBack | EsRolledBack | EsConflict.
#[export] Instance ExecutionState_eq_dec : EqDecision ExecutionState.
Proof. solve_decision. Defined.

Record ExecutionReport := {
  rep_id : ExecutionId;
  rep_state : ExecutionState;
  rep_applied_steps : list OperationStepId;
  rep_error : option str
}.

Definition HARD_MAX_REHASH_BYTES : Z := MAX_EXECUTION_VERIFICATION_BYTES.

(** [resolve_within_root]. *)
Definition resolve_within_root (root : PathBuf) (native : NativePath) :
    res OperationsError PathBuf :=
  relative ← ok_or (decode_native_path native) OeInvalidNativePath;
  reject_if (is_absolute relative || existsb (fun c => negb (is_normal c)) (components relative))
    OeOutsideRoot;;
  Ok (path_join root relative).

(** [iter().find_map(..)] of the [SourceMatches] condition. *)
Definition source_matches (preconditions : list StepPrecondition) : option FileFingerprint :=
  head (omap (fun condition =>
    match condition with SourceMatches fingerprint => Some fingerprint | _ => None end)
    preconditions).

Section executor.
Context {W : Type} `{B3 : Blake3} `{UU : UuidCrate}.
Context `{DJ : DurableJournal W} `{SF : SafeFileOperations W} `{US : UuidSource W}.
Context `{TD : ToVec PlanDraft} `{TS : ToVec OperationStep}.
Context `{TA : ToVec (SealedPlan * ApprovalReceipt * Roots)}.

(** [OperationExecutor::execute_step]. *)
Definition execute_step (step : OperationStep) (roots : Roots) : SE W OperationsError unit :=
  match step_kind step with
  | NoOp => mret tt
  | CreateDirectory =>
      root_id ← se_lift (ok_or (step_destination_root_id step) OeRootMissing);
      root ← se_lift (ok_or (roots !! root_id) OeRootMissing);
      relative ← se_lift (ok_or (step_destination_path step) OeInvalidNativePath);
      destination ← se_lift (resolve_within_root root relative);
      se_map_err OePlatform (create_directory_no_replace destination);;
      mret tt
  | RemoveDirectoryIfEmpty =>
      root_id ← se_lift (ok_or (step_destination_root_id step) OeRootMissing);
      root ← se_lift (ok_or (roots !! root_id) OeRootMissing);
      relative ← se_lift (ok_or (step_destination_path step) OeInvalidNativePath);
      destination ← se_lift (resolve_within_root root relative);
      se_map_err OePlatform (remove_directory_if_empty destination);;
      mret tt
  | RenameEntrySameVolume =>
      source_root_id ← se_lift (ok_or (step_source_root_id step) OeRootMissing);
      source_root ← se_lift (ok_or (roots !! source_root_id) OeRootMissing);
      destination_root_id ← se_lift (ok_or (step_destination_root_id step) OeRootMissing);
      destination_root ← se_lift (ok_or (roots !! destination_root_id) OeRootMissing);
      se_lift (reject_if (negb (path_eq source_root destination_root))
        (OePlatform (PeUnsupported (lit "cross-root move is disabled"))));;
      source_path ← se_lift (ok_or (step_source_path step) OeInvalidNativePath);
      source ← se_lift (resolve_within_root source_root source_path);
      destination_path ← se_lift (ok_or (step_destination_path step) OeInvalidNativePath);
      destination ← se_lift (resolve_within_root destination_root destination_path);
      fingerprint ← se_lift (ok_or (source_matches (step_preconditions step)) OeMissingPrecondition);
      content_digest ← se_lift (ok_or (fp_content_digest fingerprint) OeMissingPrecondition);
      se_map_err OePlatform (rename_same_volume_no_replace {|
        rr_source := source;
        rr_destination := destination;
        rr_expected_identity := fp_native_identity fingerprint;
        rr_expected_byte_size := fp_byte_size fingerprint;
        rr_expected_modified_at_ns := fp_modified_at_ns fingerprint;
        rr_expected_attributes := fp_attributes fingerprint;
        rr_expected_content_digest := content_digest;
        rr_maximum_hash_bytes := HARD_MAX_REHASH_BYTES |});;
      mret tt
  end.

(** [journal.append(..)?; journal.flush()?]. *)
Definition record_event (event : OperationJournalEvent) : SE W OperationsError unit :=
  journal_append event;;
  journal_flush.

(** The mutable locals of [execute]. *)
Record Progress := {
  pg_sequence : Z;
  pg_previous : option bytes32;
  pg_applied_steps : list OperationStepId
}.

(** One iteration of the loop: the next progress, or the report of a failed
    step. *)
Definition run_step (execution_id : ExecutionId) (roots : Roots) (now_unix_ms : Z)
    (pg : Progress) (step : OperationStep) : SE W OperationsError (Progress + ExecutionReport) :=
  let sequence := u64_saturating_add (pg_sequence pg) 1 in
  payload ← se_lift (map_err OeJournal (to_vec step));
  let intent := new_event execution_id sequence (Some (step_id step)) IntentDurableEvent payload
    (pg_previous pg) now_unix_ms in
  let previous := Some (ev_event_digest intent) in
  record_event intent;;
  result ← se_try (execute_step step roots);
  let sequence := u64_saturating_add sequence 1 in
  match result with
  | Ok _ =>
      let applied_steps := pg_applied_steps pg ++ [step_id step] in
      let observed := new_event execution_id sequence (Some (step_id step)) AppliedObserved
        payload previous now_unix_ms in
      record_event observed;;
      mret (inl {| pg_sequence := sequence; pg_previous := Some (ev_event_digest observed);
                   pg_applied_steps := applied_steps |})
  | Err error =>
      let failed := new_event execution_id sequence (Some (step_id step)) StepFailed
        (utf8 (operations_error_text error)) previous now_unix_ms in
      record_event failed;;
      mret (inr {|
        rep_id := execution_id;
        rep_state := if bool_decide (pg_applied_steps pg = []) then EsFailed else EsPartial;
        rep_applied_steps := pg_applied_steps pg;
        rep_error := Some (operations_error_text error) |})
  end.

Fixpoint run_steps (execution_id : ExecutionId) (roots : Roots) (now_unix_ms : Z)
    (pg : Progress) (steps : list OperationStep) :
    SE W OperationsError (Progress + ExecutionReport) :=
  match steps with
  | [] => mret (inl pg)
  | step :: steps =>
      next ← run_step execution_id roots now_unix_ms pg step;
      match next with
      | inl pg => run_steps execution_id roots now_unix_ms pg steps
      | inr report => mret (inr report)
      end
  end.

(** The guards of [execute]. *)
Definition admit_plan (gate : ApplyGate) (plan : SealedPlan) (approval : ApprovalReceipt) :
    res OperationsError unit :=
  reject_if (negb (gate_enabled gate)) (OeGateDisabled (gate_reason gate));;
  reject_if (is_err (verify_integrity plan)) OePlanIntegrity;;
  reject_if (negb (bool_decide (ar_plan_id approval = sp_id plan))
    || negb (bool_decide (ar_plan_digest approval = sp_digest plan))
    || negb (bool_decide (ar_scope_digest approval = sp_digest plan))) OeApprovalMismatch.

(** [OperationExecutor::execute]. *)
Definition execute (gate : ApplyGate) (plan : SealedPlan) (approval : ApprovalReceipt)
    (roots : Roots) (now_unix_ms : Z) : SE W OperationsError ExecutionReport :=
  se_lift (admit_plan gate plan approval);;
  execution_id ← new_id;
  approved_payload ← se_lift (map_err OeJournal (to_vec (plan, approval, roots)));
  let approved := new_event execution_id 0 None ApprovedDurable approved_payload None
    now_unix_ms in
  record_event approved;;
  outcome ← run_steps execution_id roots now_unix_ms
    {| pg_sequence := 0; pg_previous := Some (ev_event_digest approved); pg_applied_steps := [] |}
    (sp_steps plan);
  match outcome with
  | inr report => mret report
  | inl pg =>
      let sequence := u64_saturating_add (pg_sequence pg) 1 in
      record_event (new_event execution_id sequence None ExecutionFinished (barr (sp_digest plan))
        (pg_previous pg) now_unix_ms);;
      mret {| rep_id := execution_id; rep_state := EsApplied;
              rep_applied_steps := pg_applied_steps pg; rep_error := None |}
  end.
End executor.

(** ** What an execution asks for, in the log of Trace.v *)

(** The events that reached the journal. *)
Definition appended (log : list Effect) : list OperationJournalEvent :=
  omap (fun eff => match eff with EffAppend e true => Some e | _ => None end) log.

(** What a step may ask of the file system. *)
Definition below_root (roots : Roots) (root_id : option RootId) (native : option NativePath)
    (path : PathBuf) : Prop :=
  exists id root relative bytes_, root_id = Some id /\ roots !! id = Some root
    /\ native = Some relative /\ decode_native_path relative = Some bytes_
    /\ only_names bytes_ /\ path = path_join root bytes_.

Definition step_operation (roots : Roots) (step : OperationStep) (op : FsOp) : Prop :=
  match op with
  | FsCreateFile _ | FsWriteFile _ _ => False
  | FsCreateDirectory path => step_kind step = CreateDirectory
      /\ below_root roots (step_destination_root_id step) (step_destination_path step) path
  | FsRemoveDirectory path => step_kind step = RemoveDirectoryIfEmpty
      /\ below_root roots (step_destination_root_id step) (step_destination_path step) path
  | FsRename request => step_kind step = RenameEntrySameVolume
      /\ below_root roots (step_source_root_id step) (step_source_path step) (rr_source request)
      /\ below_root roots (step_destination_root_id step) (step_destination_path step)
           (rr_destination request)
      /\ exists fingerprint, SourceMatches fingerprint ∈ step_preconditions step
           /\ rr_expected_identity request = fp_native_identity fingerprint
           /\ rr_expected_byte_size request = fp_byte_size fingerprint
           /\ Some (rr_expected_content_digest request) = fp_content_digest fingerprint
  end.

(** What was asked of the file system, with the error it answered. *)
Definition fs_effects (log : list Effect) : list (FsOp * option PlatformError) :=
  omap (fun eff => match eff with EffFs op error => Some (op, error) | _ => None end) log.

(** The operations that carry steps out: nothing for a step without effect, one
    successful operation of that very step for every other, in their order. *)
Inductive carried_out (roots : Roots) :
    list OperationStep -> list (FsOp * option PlatformError) -> Prop :=
  | carried_none : carried_out roots [] []
  | carried_noop steps ops step :
      carried_out roots steps ops -> step_kind step = NoOp ->
      carried_out roots (steps ++ [step]) ops
  | carried_step steps ops step op :
      carried_out roots steps ops -> step_operation roots step op ->
      carried_out roots (steps ++ [step]) (ops ++ [(op, None)]).

(** The intent that must be durable before the operation. *)
Definition intent_for `{TS : ToVec OperationStep} (x : ExecutionId) (roots : Roots)
    (steps : list OperationStep) (e : OperationJournalEvent) (op : FsOp) : Prop :=
  ev_execution_id e = x /\ ev_kind e = IntentDurableEvent
  /\ exists step, step ∈ steps /\ ev_step_id e = Some (step_id step)
       /\ to_vec step = Ok (ev_payload e) /\ step_operation roots step op.

(** Write-ahead: every mutation is asked for right after its intent was
    appended and flushed. *)
Definition write_ahead `{TS : ToVec OperationStep} (x : ExecutionId) (roots : Roots)
    (steps : list OperationStep) (log : list Effect) : Prop :=
  forall pre op error post, log = pre ++ EffFs op error :: post ->
    exists pre' e, pre = pre' ++ [EffAppend e true; EffFlush true]
      /\ intent_for x roots steps e op.

Section observed.
Context {W : Type} `{B3 : Blake3} `{UU : UuidCrate}.
Context `{DJ : DurableJournal W} `{SF : SafeFileOperations W} `{US : UuidSource W}.
Context `{TD : ToVec PlanDraft} `{TS : ToVec OperationStep}.
Context `{TA : ToVec (SealedPlan * ApprovalReceipt * Roots)}.

Notation T := (Traced W).
Notation log_is l := (fun w : T => snd w = l).

Lemma resolve_within_root_Ok root native path :
  resolve_within_root root native = Ok path ->
  exists bytes_, decode_native_path native = Some bytes_ /\ only_names bytes_
    /\ path = path_join root bytes_.
Proof.
  unfold resolve_within_root. intros (l & Hl%ok_or_Ok & H)%bind_Ok. inv_ok.
  apply orb_false_iff in H as [_ He]. exists l. split_and!; [done| |done].
  apply Forall_forall. intros c Hc. destruct (is_normal c) eqn:Hn; [done|].
  enough (existsb (fun c => negb (is_normal c)) (components l) = true) by congruence.
  apply existsb_exists. exists c. rewrite Hn. split; [by apply list_elem_of_In|done].
Qed.

Lemma source_matches_elem l fp : source_matches l = Some fp -> SourceMatches fp ∈ l.
Proof.
  unfold source_matches. induction l as [|c l IH]; [done|]. cbn.
  destruct c; cbn; intros H; try (right; by apply IH). injection H as ->. left.
Qed.

Lemma logged_triple {E A} (m : SE W E A) note log :
  triple (log_is log) (logged m note) (fun r w => snd w = log ++ note r).
Proof. intros [w l] <-. unfold logged. by destruct (m w). Qed.

(** [execute_step] asks at most one operation of the file system, inside the
    roots, and succeeds only if that operation did. *)
Lemma execute_step_spec step roots log :
  triple (log_is log) (execute_step (W := T) step roots) (fun r w =>
    (snd w = log /\ (is_ok r = true <-> step_kind step = NoOp))
    \/ exists op error, snd w = log ++ [EffFs op error] /\ step_operation roots step op
         /\ r = match error with Some error => Err (OePlatform error) | None => Ok tt end).
Proof.
  unfold execute_step. destruct (step_kind step) eqn:Hk.
  4: { by intros w Hw; left. }
  all: repeat (apply triple_lift_bind; [intros e w _ Hw; by left | intros ? ?]).
  all: repeat match goal with
    | H : ok_or _ _ = Ok _ |- _ => apply ok_or_Ok in H
    | H : resolve_within_root _ _ = Ok _ |- _ => apply resolve_within_root_Ok in H as (? & ? & ? & ->)
    | H : reject_if _ _ = Ok _ |- _ => apply reject_if_Ok, negb_false_iff, bool_decide_eq_true in H
    end; subst.
  all: intros [w l] Hl; cbn in Hl; subst; cbv [mbind se_bind se_map_err]; cbn; unfold logged.
  all: first
    [ destruct (create_directory_no_replace _ _) as [[] ?]
    | destruct (remove_directory_if_empty _ _) as [[] ?]
    | destruct (rename_same_volume_no_replace _ _) as [[] ?] ]; cbn.
  all: right; eexists _, _; split; [reflexivity|]; split; [|done].
  all: cbn; split_and!; [done|..].
  all: try (eexists _, _, _, _; split_and!; [eassumption..|reflexivity]).
  all: eexists; split_and!; [by apply source_matches_elem | done..].
Qed.

(** *** Logs of executions *)

Lemma fs_effects_app l k : fs_effects (l ++ k) = fs_effects l ++ fs_effects k.
Proof. apply omap_app. Qed.

Lemma appended_app l k : appended (l ++ k) = appended l ++ appended k.
Proof. apply omap_app. Qed.

Lemma write_ahead_other x roots steps log eff :
  (forall op error, eff <> EffFs op error) ->
  write_ahead x roots steps log -> write_ahead x roots steps (log ++ [eff]).
Proof.
  intros Hne Hw pre op error post [(_ & _ & <-)|(post' & _ & ->)]%snoc_split.
  - by destruct (Hne op error).
  - by apply (Hw pre op error post').
Qed.

Lemma write_ahead_op x roots steps log e op error :
  write_ahead x roots steps log -> intent_for x roots steps e op ->
  write_ahead x roots steps ((log ++ [EffAppend e true; EffFlush true]) ++ [EffFs op error]).
Proof.
  intros Hw He pre op' error' post [(_ & -> & [= -> ->])|(post' & _ & Hl)]%snoc_split.
  - by exists log, e.
  - assert (write_ahead x roots steps (log ++ [EffAppend e true; EffFlush true])) as Hw'.
    { change [EffAppend e true; EffFlush true] with ([EffAppend e true] ++ [EffFlush true]).
      rewrite (assoc_L (++)). by repeat apply write_ahead_other. }
    by apply (Hw' pre op' error' post').
Qed.

(** Mutations are logged ahead, and the journal got one chain of events of
    one execution. *)
Record good (x : ExecutionId) (roots : Roots) (steps : list OperationStep) (log : list Effect) :
    Prop := {
  good_write_ahead : write_ahead x roots steps log;
  good_chain : chain None (appended log);
  good_execution : Forall (fun e => ev_execution_id e = x) (appended log)
}.

Definition good_at (x : ExecutionId) (roots : Roots) (steps : list OperationStep)
    (sequence : Z) (previous : option bytes32) (log : list Effect) : Prop :=
  good x roots steps log
  /\ exists d, previous = Some d /\ chain_head None (appended log) = Some (sequence, d).

(** The outcomes of [record_event]. *)
Definition recorded (e : OperationJournalEvent) (log : list Effect)
    (r : res OperationsError unit) (w : T) : Prop :=
  match r with
  | Ok _ => snd w = log ++ [EffAppend e true; EffFlush true]
  | Err _ => snd w = log ++ [EffAppend e false] \/ snd w = log ++ [EffAppend e true; EffFlush false]
  end.

Lemma fs_effects_recorded e log r w :
  recorded e log r w -> fs_effects (snd w) = fs_effects log.
Proof.
  destruct r as [u|error]; cbn; [intros ->|intros [->| ->]]; by rewrite fs_effects_app, app_nil_r.
Qed.

Lemma record_event_spec e log :
  triple (log_is log) (record_event (W := T) e) (recorded e log).
Proof.
  intros [w l] Hl. cbn in Hl. subst l. unfold record_event. cbv [mbind se_bind]. cbn. unfold logged.
  destruct (journal_append e w) as [[[]|?] w1]; cbn; [|by left].
  destruct (journal_flush w1) as [[[]|?] w2]; cbn; rewrite <- (assoc_L (++)); [done|by right].
Qed.

Lemma good_other x roots steps log eff :
  (forall op error, eff <> EffFs op error) ->
  match eff with EffAppend e true => extends (chain_head None (appended log)) e = true
    /\ ev_execution_id e = x | _ => True end ->
  good x roots steps log -> good x roots steps (log ++ [eff]).
Proof.
  intros Hne He [Hw Hc Hx]. split; [by apply write_ahead_other|..];
    rewrite appended_app; destruct eff as [e []|b|op error]; cbn; rewrite ?app_nil_r; try done;
    destruct He as [Hext Hid].
  - apply chain_app. split; [done|]. by split.
  - apply Forall_app. by repeat constructor.
Qed.

Lemma good_record x roots steps log e b :
  good x roots steps log -> extends (chain_head None (appended log)) e = true ->
  ev_execution_id e = x -> good x roots steps (log ++ [EffAppend e true; EffFlush b]).
Proof.
  intros Hg Hext Hx. change [EffAppend e true; EffFlush b] with ([EffAppend e true] ++ [EffFlush b]).
  rewrite (assoc_L (++)). by repeat apply good_other.
Qed.

Lemma good_record_ok x roots steps log e :
  good x roots steps log -> extends (chain_head None (appended log)) e = true ->
  ev_execution_id e = x ->
  let log' := log ++ [EffAppend e true; EffFlush true] in
  good x roots steps log' /\ good_at x roots steps (ev_sequence e) (Some (ev_event_digest e)) log'.
Proof.
  intros Hg Hext Hx. cbv zeta. pose proof (good_record x roots steps log e true Hg Hext Hx) as Hg'.
  split; [done|]. split; [done|]. eexists. split; [done|].
  rewrite appended_app. cbn. unfold chain_head. by rewrite last_snoc.
Qed.

Lemma good_recorded x roots steps log e r w :
  good x roots steps log -> extends (chain_head None (appended log)) e = true ->
  ev_execution_id e = x -> recorded e log r w ->
  good x roots steps (snd w)
  /\ (forall u, r = Ok u -> good_at x roots steps (ev_sequence e) (Some (ev_event_digest e)) (snd w)).
Proof.
  intros Hg Hext Hx Hr. destruct r as [u|err]; cbn in Hr.
  - rewrite Hr. destruct (good_record_ok x roots steps log e Hg Hext Hx). done.
  - split; [|done]. destruct Hr as [->| ->]; [by apply good_other|by apply good_record].
Qed.

Lemma extends_new_event x seq d step kind payload t :
  extends (Some (seq, d))
    (new_event x (u64_saturating_add seq 1) step kind payload (Some d) t) = true.
Proof. unfold extends. cbn [ev_sequence new_event]. by rewrite Z.eqb_refl, verify_new_event. Qed.

Lemma good_operation x roots steps log e op error :
  good x roots steps log -> good x roots steps (log ++ [EffAppend e true; EffFlush true]) ->
  intent_for x roots steps e op ->
  good x roots steps ((log ++ [EffAppend e true; EffFlush true]) ++ [EffFs op error]).
Proof.
  intros [Hw _ _] [_ Hc Hx] He. split; [by apply write_ahead_op|..];
    by rewrite appended_app, app_nil_r.
Qed.

(** A report of a run that stopped at [step] after the steps [done]: these were
    carried out, and [step] was not.  Either nothing was asked of the file system
    for it, or its one operation failed with the reported error. *)
Definition stopped_at (x : ExecutionId) (roots : Roots) (done : list OperationStep)
    (step : OperationStep) (log : list Effect) (report : ExecutionReport) : Prop :=
  rep_id report = x /\ rep_applied_steps report = step_id <$> done
  /\ rep_state report = (if bool_decide (done = []) then EsFailed else EsPartial)
  /\ step_kind step <> NoOp
  /\ (exists ops, carried_out roots done ops
      /\ ((fs_effects log = ops /\ is_Some (rep_error report))
          \/ exists op error, fs_effects log = ops ++ [(op, Some error)]
               /\ step_operation roots step op
               /\ rep_error report = Some (operations_error_text (OePlatform error))))
  /\ exists e, last (appended log) = Some e /\ ev_kind e = StepFailed
       /\ ev_step_id e = Some (step_id step)
       /\ utf8 <$> rep_error report = Some (ev_payload e).

Lemma good_at_good x roots steps seq prev log :
  good_at x roots steps seq prev log -> good x roots steps log.
Proof. by intros [? _]. Qed.

(** The state of the loop: the log so far carries out the steps that are listed
    as applied. *)
Definition ran (roots : Roots) (done : list OperationStep) (pg : Progress)
    (log : list Effect) : Prop :=
  pg_applied_steps pg = step_id <$> done /\ carried_out roots done (fs_effects log).

(** After a step was executed, before its outcome is recorded. *)
Definition stepped (roots : Roots) (done : list OperationStep) (step : OperationStep)
    (r : res OperationsError unit) (log : list Effect) : Prop :=
  match r with
  | Ok _ => carried_out roots (done ++ [step]) (fs_effects log)
  | Err error => step_kind step <> NoOp /\ exists ops, carried_out roots done ops
      /\ (fs_effects log = ops \/ exists op e, error = OePlatform e
           /\ fs_effects log = ops ++ [(op, Some e)] /\ step_operation roots step op)
  end.

Lemma execute_step_stepped step roots done log :
  carried_out roots done (fs_effects log) ->
  triple (log_is log) (execute_step (W := T) step roots)
    (fun r w => stepped roots done step r (snd w)).
Proof.
  intros Hd w Hw. pose proof (execute_step_spec step roots log w Hw) as Hs.
  destruct (execute_step step roots w) as [r w']. cbn in *.
  destruct Hs as [[-> Hk]|(op & error & -> & Hop & ->)].
  - destruct r as [[]|error]; cbn in *.
    + by apply carried_noop; [|apply Hk].
    + split; [by intros ?%Hk|]. exists (fs_effects log). split; [done|by left].
  - destruct error as [error|]; cbn [stepped]; rewrite fs_effects_app; cbn.
    + assert (step_kind step <> NoOp) as Hk
        by (intros Hk; destruct op; cbn in Hop; [..|done|done]; destruct Hop as [Hop _]; congruence).
      split; [done|]. eexists. split; [done|]. right. by eexists _, _.
    + by apply carried_step.
Qed.

Lemma run_step_spec x roots steps t pg step done log :
  step ∈ steps -> good_at x roots steps (pg_sequence pg) (pg_previous pg) log ->
  ran roots done pg log ->
  triple (log_is log) (run_step (W := T) x roots t pg step) (fun r w =>
    good x roots steps (snd w)
    /\ match r with
       | Ok (inl pg') => good_at x roots steps (pg_sequence pg') (pg_previous pg') (snd w)
           /\ ran roots (done ++ [step]) pg' (snd w)
       | Ok (inr report) => stopped_at x roots done step (snd w) report
       | Err _ => True
       end).
Proof.
  intros Hin [Hg (d & Hprev & Hhead)] [Happ Hrun]. unfold run_step. rewrite Hprev.
  apply triple_lift_bind; [by intros e w _ ->|]. intros payload Hpl%map_err_Ok.
  set (intent := new_event x _ _ IntentDurableEvent _ _ _).
  assert (extends (chain_head None (appended log)) intent = true) as Hext
    by (rewrite Hhead; apply extends_new_event).
  eapply triple_bind; [apply (record_event_spec intent log)|..].
  { intros e w Hr. destruct (good_recorded x roots steps log intent _ w Hg Hext eq_refl Hr). done. }
  intros u. destruct (good_record_ok x roots steps log intent Hg Hext eq_refl) as [Hg1 Hat1].
  set (log1 := log ++ _) in *.
  eapply (triple_weaken (log_is log1)); [| by intros w Hw; exact Hw | by intros r w Hw; exact Hw].
  assert (carried_out roots done (fs_effects log1)) as Hrun1
    by (unfold log1; rewrite fs_effects_app; by rewrite app_nil_r).
  assert (triple (log_is log1) (se_try (F := OperationsError) (execute_step (W := T) step roots))
    (fun r w => exists r', r = Ok r' /\ stepped roots done step r' (snd w)
      /\ good_at x roots steps (ev_sequence intent) (Some (ev_event_digest intent)) (snd w))) as Hstep.
  { intros w Hw. pose proof (execute_step_spec step roots log1 w Hw) as Hs.
    pose proof (execute_step_stepped step roots done log1 Hrun1 w Hw) as Hd. unfold se_try.
    destruct (execute_step step roots w) as [r w']. cbn in *. exists r. split_and!; [done..|].
    destruct Hs as [[-> _]|(op & error & -> & Hop & _)]; [done|].
    destruct Hat1 as [_ Hhd]. split.
    - apply good_operation; [done..|]. split_and!; try done. exists step. done.
    - by rewrite appended_app, app_nil_r. }
  eapply triple_bind; [exact Hstep | by intros e w (? & ? & _) |]. clear Hstep.
  intros result w (? & [= <-] & Hd & Hat). revert w Hd Hat. destruct result as [[]|error]; cbn [stepped].
  - intros w Hd [Hg2 (d2 & [= <-] & Hh2)]. set (observed := new_event _ _ _ AppliedObserved _ _ _).
    pose proof (record_event_spec observed (snd w) w eq_refl) as Hr. cbv [mbind se_bind].
    destruct (record_event observed w) as [r w'].
    destruct (good_recorded x roots steps (snd w) observed r w' Hg2) as [Hg3 Hat3];
      [by rewrite Hh2; apply extends_new_event | done | done |].
    pose proof (fs_effects_recorded _ _ _ _ Hr) as Hfs. cbn [snd] in Hfs.
    destruct r as [u2|e]; cbn [fst snd mret se_ret]; [|done]. split; [done|].
    split; [by apply (Hat3 u2)|]. split; [cbn; by rewrite fmap_app, Happ|by rewrite Hfs].
  - intros w (Hk & ops & Hops & Hd) [Hg2 (d2 & [= <-] & Hh2)].
    set (failed := new_event _ _ _ StepFailed _ _ _).
    pose proof (record_event_spec failed (snd w) w eq_refl) as Hr. cbv [mbind se_bind].
    destruct (record_event failed w) as [r w'].
    destruct (good_recorded x roots steps (snd w) failed r w' Hg2) as [Hg3 Hat3];
      [by rewrite Hh2; apply extends_new_event | done | done |].
    pose proof (fs_effects_recorded _ _ _ _ Hr) as Hfs. cbn [snd] in Hfs.
    destruct r as [u2|e]; cbn [fst snd mret se_ret]; [|done]. split; [done|].
    unfold stopped_at. cbn [rep_id rep_applied_steps rep_state rep_error].
    assert (bool_decide (pg_applied_steps pg = []) = bool_decide (done = [])) as Hempty
      by (apply bool_decide_ext; rewrite Happ; split; [apply fmap_nil_inv|by intros ->]).
    split_and!; [done|done|by rewrite Hempty|done| |].
    + exists ops. split; [done|]. rewrite Hfs. destruct Hd as [Hd|(op & e & -> & Hd & Hop)].
      * left. eauto.
      * right. by exists op, e.
    + exists failed. cbn in Hr. rewrite Hr, appended_app. cbn. by rewrite last_snoc.
Qed.

Lemma run_steps_spec x roots steps t rest : forall pg done log,
  rest ⊆ steps -> good_at x roots steps (pg_sequence pg) (pg_previous pg) log ->
  ran roots done pg log ->
  triple (log_is log) (run_steps (W := T) x roots t pg rest) (fun r w =>
    good x roots steps (snd w)
    /\ match r with
       | Ok (inl pg') => good_at x roots steps (pg_sequence pg') (pg_previous pg') (snd w)
           /\ ran roots (done ++ rest) pg' (snd w)
       | Ok (inr report) => exists ran step tail, rest = ran ++ step :: tail
           /\ stopped_at x roots (done ++ ran) step (snd w) report
       | Err _ => True
       end).
Proof.
  induction rest as [|step rest IH]; intros pg done log Hin Hat Hrun.
  { intros w Hw. cbn in *. subst. rewrite app_nil_r. split; [by eapply good_at_good|done]. }
  cbn [run_steps]. eapply triple_bind.
  - apply (run_step_spec x roots steps t pg step done log); [set_solver|done..].
  - by intros e w [Hg _].
  - intros [pg1|report] w [Hg Hr].
    + destruct Hr as [Hat1 Hrun1].
      pose proof (IH pg1 (done ++ [step]) (snd w) ltac:(set_solver) Hat1 Hrun1 w eq_refl) as [Hg2 Hr2].
      split; [done|]. rewrite (cons_middle step done rest), (assoc_L (++)).
      destruct (fst _) as [[pg2|report]|]; [done| |done].
      destruct Hr2 as (ran' & step' & tail & -> & Hs). exists (step :: ran'), step', tail.
      split; [done|]. by rewrite (cons_middle step done ran'), (assoc_L (++)).
    + cbn in *. split; [done|]. exists [], step, rest. split; [done|]. by rewrite app_nil_r.
Qed.

(** What a run reports, against its log. *)
Definition outcome_matches (plan : SealedPlan) (roots : Roots) (log : list Effect)
    (report : ExecutionReport) : Prop :=
  (rep_state report = EsApplied /\ rep_error report = None
   /\ rep_applied_steps report = step_id <$> sp_steps plan
   /\ carried_out roots (sp_steps plan) (fs_effects log)
   /\ exists e, last (appended log) = Some e /\ ev_kind e = ExecutionFinished
        /\ ev_payload e = barr (sp_digest plan))
  \/ exists done step tail, sp_steps plan = done ++ step :: tail
       /\ stopped_at (rep_id report) roots done step log report.

Lemma execute_spec gate plan approval roots t :
  triple (log_is []) (execute (W := T) gate plan approval roots t) (fun r w =>
    (exists x, good x roots (sp_steps plan) (snd w))
    /\ match r with Ok report => outcome_matches plan roots (snd w) report | Err _ => True end).
Proof.
  assert (forall x, good x roots (sp_steps plan) []) as H0.
  { intros x. split; [|done|constructor]. by intros [] op error post. }
  unfold execute. apply triple_lift_bind; [intros e w _ ->; by split; [exists (fill 16 x00)|]|].
  intros [] _. eapply (triple_bind _ _ _ (fun r w => snd w = [] /\ is_ok r = true));
    [intros [w l] Hl; unfold new_id; cbn; by destruct (fresh_uuid w) | by intros e w [_ ?] |].
  intros x. eapply (triple_weaken (log_is [])); [| by intros w [? _] | by intros r w Hq; exact Hq].
  apply triple_lift_bind; [intros e w _ ->; by split; [exists x|]|]. intros payload _.
  set (approved := new_event x 0 None ApprovedDurable payload None t).
  assert (extends (chain_head None (appended [])) approved = true) as Hext.
  { cbn. by apply verify_new_event. }
  eapply triple_bind; [apply (record_event_spec approved [])|..].
  { intros e w Hr. split; [|done]. exists x.
    by destruct (good_recorded x roots (sp_steps plan) [] approved _ w (H0 x) Hext eq_refl Hr). }
  intros u. destruct (good_record_ok x roots (sp_steps plan) [] approved (H0 x) Hext eq_refl)
    as [Hg1 Hat1].
  eapply (triple_weaken (log_is ([] ++ [EffAppend approved true; EffFlush true])));
    [| by intros w Hw; exact Hw | by intros r w Hw; exact Hw].
  eapply triple_bind; [apply (run_steps_spec x roots (sp_steps plan) t (sp_steps plan) _ []);
    [done|exact Hat1|by split; [|apply carried_none]]|..].
  { intros e w [Hg _]. split; [by exists x|done]. }
  intros [pg|report] w [Hg Hr].
  - destruct Hr as [[_ (d & Hprev & Hhead)] [Happ Hrun]]. rewrite Hprev.
    set (finished := new_event _ _ _ ExecutionFinished _ _ _).
    pose proof (record_event_spec finished (snd w) w eq_refl) as Hrec. cbv [mbind se_bind].
    destruct (record_event finished w) as [r w'].
    destruct (good_recorded x roots (sp_steps plan) (snd w) finished r w' Hg) as [Hg3 _];
      [by rewrite Hhead; apply extends_new_event | done | done |].
    pose proof (fs_effects_recorded _ _ _ _ Hrec) as Hfs. cbn [snd] in Hfs.
    destruct r as [u2|e]; cbn in *; (split; [by exists x|]); [|done].
    left. split_and!; try done; [by rewrite Hfs|]. exists finished. split; [|done].
    rewrite Hrec, appended_app. cbn. by rewrite last_snoc.
  - cbn. split; [by exists x|]. right. destruct Hr as (done & step & tail & Heq & Hs).
    exists done, step, tail. split; [done|]. pose proof Hs as [Hid _]. by rewrite Hid.
Qed.

(** ** Properties *)

(** C3: Write-ahead journaling, whatever the journal and the file system do:
    every mutation an execution asks for is an operation of a step of the
    approved plan, inside its registered root, asked for right after the
    intent of that very step was appended and flushed; and the events that
    reached the journal form one hash chain of one execution. *)
Theorem execute_write_ahead gate plan approval roots t w :
  let log := snd (snd (execute (W := T) gate plan approval roots t (w, []))) in
  exists x, write_ahead x roots (sp_steps plan) log
    /\ chain None (appended log) /\ Forall (fun e => ev_execution_id e = x) (appended log).
Proof.
  destruct (execute_spec gate plan approval roots t (w, []) eq_refl) as [[x [Hw Hc Hx]] _].
  by exists x.
Qed.

(** C4: The report tells the truth about what was done to the files.  An
    execution that reports [Applied] lists every step of the plan, the file
    system was asked for exactly one operation of each step (none for a step
    without effect), in the order of the plan, all of them succeeded, and the
    journal is closed with [ExecutionFinished].  Any other report stopped at one
    step: exactly the steps before it were carried out, they are the listed
    ones, the state is [Failed] or [Partial] accordingly, nothing or one failed
    operation of that step was asked for, with the reported error, and the last
    journal event is that failure with that error. *)
Theorem execute_report_truthful gate plan approval roots t w report w' log :
  execute (W := T) gate plan approval roots t (w, []) = (Ok report, (w', log)) ->
  outcome_matches plan roots log report.
Proof.
  intros H. pose proof (execute_spec gate plan approval roots t (w, []) eq_refl) as [_ Ho].
  by rewrite H in Ho.
Qed.

(** Nothing happens without authority: if the gate is closed, the plan
    fails its integrity check or the receipt is for another plan, digest or
    scope, [execute] returns the corresponding error and leaves the world
    as it was. *)
Theorem execute_requires_authority gate plan approval roots t (w : W) :
  (gate_enabled gate = true /\ verify_integrity plan = Ok tt
   /\ ar_plan_id approval = sp_id plan /\ ar_plan_digest approval = sp_digest plan
   /\ ar_scope_digest approval = sp_digest plan)
  \/ exists e, execute gate plan approval roots t w = (Err e, w)
       /\ (e = OeGateDisabled (gate_reason gate) \/ e = OePlanIntegrity \/ e = OeApprovalMismatch).
Proof.
  destruct (admit_plan gate plan approval) as [u|e] eqn:Ha.
  - left. unfold admit_plan in Ha. inv_ok. bools.
    split_and!; try done. by destruct (verify_integrity plan) as [[]|].
  - right. exists e. unfold execute, se_lift. cbv [mbind se_bind]. rewrite Ha. split; [done|].
    unfold admit_plan, reject_if in Ha.
    destruct (negb _), (is_err _); cbn in Ha; repeat case_match; naive_solver.
Qed.
End observed.

(** A native path resolved within a registered root stays below it: its
    components are those of the root followed by plain names, so no absolute
    path, parent or current-directory component survives the check; every
    other path is refused. *)
Theorem resolve_within_root_confined root native :
  match resolve_within_root root native with
  | Ok path => exists bytes_, decode_native_path native = Some bytes_ /\ only_names bytes_
      /\ path = path_join root bytes_ /\ components path = components root ++ components bytes_
  | Err e => (e = OeInvalidNativePath /\ decode_native_path native = None)
      \/ (e = OeOutsideRoot /\ exists bytes_, decode_native_path native = Some bytes_
            /\ ~ only_names bytes_)
  end.
Proof.
  destruct (resolve_within_root root native) as [path|e] eqn:H.
  - apply resolve_within_root_Ok in H as (l & Hd & Hn & ->). exists l.
    split_and!; try done. by apply components_join.
  - unfold resolve_within_root in H. destruct (decode_native_path native) as [l|]; cbn in H.
    + right. destruct (_ || _) eqn:Hb; cbn in H; [|done]. injection H as <-. split; [done|].
      exists l. split; [done|]. intros Hn. pose proof (only_names_spec _ Hn) as [Ha _].
      rewrite Ha in Hb. cbn in Hb. apply existsb_exists in Hb as (c & Hc & Hb).
      unfold only_names in Hn. rewrite Forall_forall in Hn.
      by rewrite (Hn c (proj2 (list_elem_of_In _ _) Hc)) in Hb.
    + left. by injection H as <-.
Qed.

(** ** [compile_plan] *)

Section compile.
Context {W : Type} `{B3 : Blake3} `{US : UuidSource W}.
Context `{TD : ToVec PlanDraft} `{TR : ToVec ProposalRevision}.

(** [u32::try_from(..).unwrap_or(u32::MAX)]. *)
Definition sequence_number (n : Z) : Z := default u32_max (u32_try_from n).

(** The body of the loop over the planned directories. *)
Definition directory_step (steps : list OperationStep) (directory : PlannedDirectory) :
    SE W OperationsError (list OperationStep) :=
  inverse_id ← new_id;
  let inverse := {|
    step_id := inverse_id;
    step_proposal_item_id := None;
    step_sequence := sequence_number (zlen steps + 1);
    step_kind := RemoveDirectoryIfEmpty;
    step_source_root_id := None;
    step_source_path := None;
    step_destination_root_id := Some (pdir_root_id directory);
    step_destination_path := Some (pdir_path directory);
    step_preconditions := [];
    step_inverse := None |} in
  id ← new_id;
  mret (steps ++ [{|
    step_id := id;
    step_proposal_item_id := None;
    step_sequence := sequence_number (zlen steps + 1);
    step_kind := CreateDirectory;
    step_source_root_id := None;
    step_source_path := None;
    step_destination_root_id := Some (pdir_root_id directory);
    step_destination_path := Some (pdir_path directory);
    step_preconditions := [DestinationAbsent (pdir_root_id directory) (pdir_path directory)];
    step_inverse := Some inverse |}]).

Definition move_preconditions (planned : PlannedMove) (root_id : RootId) (path : NativePath) :
    list StepPrecondition :=
  [SourceMatches (pm_fingerprint planned);
   DestinationAbsent root_id path;
   SameVolume (vi_stable_identifier (ni_volume (fp_native_identity (pm_fingerprint planned))));
   SingleLink; NotReparsePoint; LocalNtfsVolume].

(** [matches!(item.action, Move { .. } | PlaceInReview { .. })]. *)
Definition is_placement (action : ProposalAction) : bool :=
  match action with Move _ | PlaceInReview _ => true | Keep => false end.

(** The body of the loop over the planned moves. *)
Definition move_step (items : gmap ProposalItemId ProposalItem)
    (steps : list OperationStep) (entry : nat * PlannedMove) :
    SE W OperationsError (list OperationStep) :=
  let '(index, planned) := entry in
  match items !! pm_item_id planned with
  | None => mret steps
  | Some item =>
      if negb (bool_decide (pi_review_state item = Accepted)) then mret steps
      else if negb (is_placement (pi_action item)) then mret steps
      else
        inverse_id ← new_id;
        let inverse := {|
          step_id := inverse_id;
          step_proposal_item_id := Some (pi_id item);
          step_sequence := sequence_number (zlen steps + Z.of_nat index + 1);
          step_kind := RenameEntrySameVolume;
          step_source_root_id := Some (pm_destination_root_id planned);
          step_source_path := Some (pm_destination_path planned);
          step_destination_root_id := Some (pm_source_root_id planned);
          step_destination_path := Some (pm_source_path planned);
          step_preconditions :=
            move_preconditions planned (pm_source_root_id planned) (pm_source_path planned);
          step_inverse := None |} in
        id ← new_id;
        mret (steps ++ [{|
          step_id := id;
          step_proposal_item_id := Some (pi_id item);
          step_sequence := sequence_number (zlen steps + 1);
          step_kind := RenameEntrySameVolume;
          step_source_root_id := Some (pm_source_root_id planned);
          step_source_path := Some (pm_source_path planned);
          step_destination_root_id := Some (pm_destination_root_id planned);
          step_destination_path := Some (pm_destination_path planned);
          step_preconditions :=
            move_preconditions planned (pm_destination_root_id planned)
              (pm_destination_path planned);
          step_inverse := Some inverse |}])
  end.

Definition items_by_id (proposal : ProposalRevision) : gmap ProposalItemId ProposalItem :=
  foldl (fun items item => <[pi_id item := item]> items) ∅ (pr_items proposal).

(** [compile_plan]. *)
Definition compile_plan (proposal : ProposalRevision) (simulation : SimulationOutcome) :
    SE W OperationsError SealedPlan :=
  encoded ← se_lift (map_err OeJournal (to_vec proposal));
  let proposal_digest := blake3_hash encoded in
  se_lift (reject_if
    (negb (bool_decide (ps_proposal_id (so_simulation simulation) = pr_id proposal))
     || negb (bool_decide (ps_proposal_digest (so_simulation simulation) = proposal_digest)))
    OeStaleSimulation);;
  let items := items_by_id proposal in
  steps ← fold_se directory_step [] (so_directories simulation);
  steps ← fold_se (move_step items) steps
    (imap (fun index planned => (index, planned)) (so_moves simulation));
  plan_id ← new_id;
  se_lift (map_err OeSeal (SealedPlan.seal {|
    pd_id := plan_id;
    pd_workspace_id := pr_workspace_id proposal;
    pd_proposal_id := pr_id proposal;
    pd_proposal_digest := proposal_digest;
    pd_steps := steps;
    pd_created_at_unix_ms := ps_simulated_at_unix_ms (so_simulation simulation) |}
    proposal_digest)).

(** *** Lemmas *)

(** Where a compiled step comes from. *)
Definition step_of_directory (directories : list PlannedDirectory) (step : OperationStep) : Prop :=
  exists d, d ∈ directories /\ step_kind step = CreateDirectory
    /\ step_proposal_item_id step = None
    /\ step_destination_root_id step = Some (pdir_root_id d)
    /\ step_destination_path step = Some (pdir_path d).

Definition step_of_move (items : gmap ProposalItemId ProposalItem) (moves : list PlannedMove)
    (step : OperationStep) : Prop :=
  exists m item, m ∈ moves /\ items !! pm_item_id m = Some item
    /\ pi_review_state item = Accepted /\ is_placement (pi_action item) = true
    /\ step_kind step = RenameEntrySameVolume
    /\ step_proposal_item_id step = Some (pi_id item)
    /\ step_source_root_id step = Some (pm_source_root_id m)
    /\ step_source_path step = Some (pm_source_path m)
    /\ step_destination_root_id step = Some (pm_destination_root_id m)
    /\ step_destination_path step = Some (pm_destination_path m)
    /\ SourceMatches (pm_fingerprint m) ∈ step_preconditions step.

(** The accepted placements among the planned moves. *)
Definition selected (items : gmap ProposalItemId ProposalItem) (m : PlannedMove) : bool :=
  match items !! pm_item_id m with
  | Some item => bool_decide (pi_review_state item = Accepted) && is_placement (pi_action item)
  | None => false
  end.

Lemma new_id_Ok {E} (w : W) : exists u w', new_id (E := E) w = (Ok u, w').
Proof. unfold new_id. destruct (fresh_uuid w) as [u w']. by exists u, w'. Qed.

Lemma directory_step_Ok steps d (w : W) :
  exists s w', directory_step steps d w = (Ok (steps ++ [s]), w')
    /\ step_is_safe_and_reversible s = true /\ forall all, d ∈ all -> step_of_directory all s.
Proof.
  unfold directory_step. cbv [mbind se_bind].
  destruct (new_id_Ok (E := OperationsError) w) as (u1 & w1 & ->).
  destruct (new_id_Ok (E := OperationsError) w1) as (u2 & w2 & ->).
  eexists _, w2. split; [reflexivity|]. split; [|intros all Hd; by exists d].
  unfold step_is_safe_and_reversible. cbn. by rewrite !bool_decide_true by (done || eauto).
Qed.

Lemma move_step_skip items steps i m (w : W) :
  selected items m = false -> move_step items steps (i, m) w = (Ok steps, w).
Proof.
  unfold selected, move_step. destruct (items !! pm_item_id m) as [item|]; [|done].
  destruct (bool_decide _); [|done]. cbn. by intros ->.
Qed.

Lemma move_step_Ok items steps i m (w : W) :
  selected items m = true ->
  exists s w', move_step items steps (i, m) w = (Ok (steps ++ [s]), w')
    /\ step_is_safe_and_reversible s = true /\ forall all, m ∈ all -> step_of_move items all s.
Proof.
  unfold selected, move_step. destruct (items !! pm_item_id m) as [item|] eqn:Hitem; [|done].
  intros [Hacc Hpl]%andb_true_iff. rewrite Hacc, Hpl. cbn [negb]. cbv [mbind se_bind].
  destruct (new_id_Ok (E := OperationsError) w) as (u1 & w1 & ->).
  destruct (new_id_Ok (E := OperationsError) w1) as (u2 & w2 & ->).
  eexists _, w2. split; [reflexivity|]. split.
  - unfold step_is_safe_and_reversible. cbn. by rewrite !bool_decide_true by (done || eauto).
  - intros all Hm. apply bool_decide_eq_true in Hacc.
    exists m, item. split_and!; try done. left.
Qed.

Lemma directory_steps_spec directories all : forall steps (w : W),
  directories ⊆ all ->
  Forall (fun s => step_is_safe_and_reversible s = true) steps ->
  Forall (step_of_directory all) steps ->
  exists steps' w', fold_se directory_step steps directories w = (Ok steps', w')
    /\ Forall (fun s => step_is_safe_and_reversible s = true) steps'
    /\ Forall (step_of_directory all) steps'
    /\ length steps' = (length steps + length directories)%nat.
Proof.
  induction directories as [|d l IH]; intros steps w Hin Hs Hd.
  { exists steps, w. split_and!; [done..|cbn; lia]. }
  destruct (directory_step_Ok steps d w) as (s & w1 & Heq & Hsafe & Hof).
  destruct (IH (steps ++ [s]) w1) as (steps' & w' & Hf & Hs' & Hd' & Hl); [set_solver|..].
  - apply Forall_app. by repeat constructor.
  - apply Forall_app. split; [done|]. constructor; [|done]. apply Hof. set_solver.
  - exists steps', w'. cbn [fold_se]. cbv [mbind se_bind]. rewrite Heq. split_and!; try done.
    rewrite Hl, length_app. cbn. lia.
Qed.

Lemma move_steps_spec items moves all (P : OperationStep -> Prop) : forall steps (w : W),
  moves.*2 ⊆ all ->
  Forall (fun s => step_is_safe_and_reversible s = true) steps ->
  Forall (fun s => P s \/ step_of_move items all s) steps ->
  exists steps' w', fold_se (move_step items) steps moves w = (Ok steps', w')
    /\ Forall (fun s => step_is_safe_and_reversible s = true) steps'
    /\ Forall (fun s => P s \/ step_of_move items all s) steps'
    /\ length steps' = (length steps + length (filter (fun m => selected items m = true) moves.*2))%nat.
Proof.
  induction moves as [|[i m] l IH]; intros steps w Hin Hs Hd.
  { exists steps, w. split_and!; [done..|cbn; lia]. }
  cbn [fmap list_fmap snd] in *. assert (l.*2 ⊆ all) as Hl by set_solver.
  cbn [fold_se]. cbv [mbind se_bind]. destruct (selected items m) eqn:Hsel.
  2: { rewrite filter_cons_False by (by rewrite Hsel). rewrite move_step_skip by done. by apply IH. }
  rewrite filter_cons_True by done.
  destruct (move_step_Ok items steps i m w Hsel) as (s & w1 & -> & Hsafe & Hof).
  destruct (IH (steps ++ [s]) w1) as (steps' & w' & Hf & Hs' & Hd' & Hlen); [done|..].
  - apply Forall_app. by repeat constructor.
  - apply Forall_app. split; [done|]. constructor; [|done]. right. apply Hof. set_solver.
  - exists steps', w'. split_and!; try done. rewrite Hlen, length_app. cbn. lia.
Qed.

(** *** Properties *)

(** Compilation never produces an unsafe plan.  For a simulation of this
    very proposal, the steps are one creation per planned directory followed
    by one rename per accepted placement among the planned moves, each safe
    and reversible; the only errors left are an empty plan, when there is
    nothing to do, and a failing serialisation. *)
Theorem compile_plan_safe proposal simulation (w : W) encoded :
  to_vec proposal = Ok encoded ->
  ps_proposal_id (so_simulation simulation) = pr_id proposal ->
  ps_proposal_digest (so_simulation simulation) = blake3_hash encoded ->
  let items := items_by_id proposal in
  let count := (length (so_directories simulation)
    + length (filter (fun m => selected items m = true) (so_moves simulation)))%nat in
  match fst (compile_plan proposal simulation w) with
  | Ok plan => verify_integrity plan = Ok tt /\ length (sp_steps plan) = count
      /\ sp_proposal_digest plan = blake3_hash encoded
      /\ Forall (fun s => step_is_safe_and_reversible s = true
           /\ (step_of_directory (so_directories simulation) s
               \/ step_of_move items (so_moves simulation) s)) (sp_steps plan)
  | Err e => (e = OeSeal SealEmpty /\ count = 0%nat)
      \/ exists error, e = OeSeal (SealSerialization error)
  end.
Proof.
  intros Hv Hid Hdg. cbv zeta. unfold compile_plan, se_lift. rewrite Hv. cbn [map_err].
  cbv [mbind se_bind]. rewrite reject_if_false by (by rewrite !bool_decide_true).
  destruct (directory_steps_spec (so_directories simulation) (so_directories simulation) [] w)
    as (steps1 & w1 & -> & Hs1 & Hd1 & Hl1); [done|by constructor|by constructor|].
  assert ((imap (fun index planned => (index, planned)) (so_moves simulation)).*2
    = so_moves simulation) as Hsnd.
  { apply list_eq. intros i. rewrite list_lookup_fmap, list_lookup_imap.
    by destruct (so_moves simulation !! i). }
  destruct (move_steps_spec (items_by_id proposal)
    (imap (fun index planned => (index, planned)) (so_moves simulation)) (so_moves simulation)
    (step_of_directory (so_directories simulation)) steps1 w1)
    as (steps2 & w2 & -> & Hs2 & Hd2 & Hl2).
  { by rewrite Hsnd. }
  { done. }
  { eapply Forall_impl; [exact Hd1|]. by left. }
  rewrite Hsnd in Hl2. rewrite Hl1 in Hl2. cbn [length] in Hl2.
  destruct (new_id_Ok (E := OperationsError) w2) as (u & w3 & ->). cbn [fst].
  set (draft := Build_PlanDraft _ _ _ _ _ _).
  destruct (SealedPlan.seal draft (blake3_hash encoded)) as [plan|e] eqn:Hseal; cbn [map_err].
  - pose proof (draft_of_seal _ _ _ Hseal) as Hdraft.
    pose proof (seal_verifies _ _ _ Hseal) as Hok.
    assert (sp_steps plan = steps2) as -> by (by change (pd_steps (draft_of plan) = steps2); rewrite Hdraft).
    split_and!; [done | by rewrite Hl2 | | ].
    + by change (pd_proposal_digest (draft_of plan) = blake3_hash encoded); rewrite Hdraft.
    + apply Forall_and. done.
  - unfold SealedPlan.seal in Hseal. rewrite reject_if_bind in Hseal by (by rewrite bool_decide_true).
    apply bind_Err in Hseal as [[Hemp%bool_decide_eq_true <-]%reject_if_Err|([] & _ & Hseal)].
    { left. split; [done|]. cbn in Hemp. subst steps2. cbn in Hl2. lia. }
    rewrite reject_if_bind in Hseal by (by apply unsafe_steps_false).
    apply bind_Err in Hseal as [Hse|(? & _ & ?)]; [|done].
    right. destruct (to_vec draft) as [|error]; [done|]. injection Hse as <-. by exists error.
Qed.
End compile.

(** ** [reconcile_observation] *)

Inductive RecoveryObservation :=
  | NotApplied | Applied | BothEntriesPresent | NeitherEntryPresent | IdentityMismatch.

Definition same_identity (expected observed : NativeFileIdentity) : bool :=
  bool_decide (vi_stable_identifier (ni_volume expected) = vi_stable_identifier (ni_volume observed))
  && bool_decide (ni_object_key expected = ni_object_key observed).

Definition reconcile_observation (expected : NativeFileIdentity)
    (source destination : option NativeFileIdentity) : RecoveryObservation :=
  let matches o := match o with Some value => same_identity expected value | None => false end in
  match source, destination, matches source, matches destination with
  | Some _, None, true, _ => NotApplied
  | None, Some _, _, true => Applied
  | Some _, Some _, _, _ => BothEntriesPresent
  | None, None, _, _ => NeitherEntryPresent
  | _, _, _, _ => IdentityMismatch
  end.

(** After a crash, a rename is declared applied exactly when the source
    entry is gone and the destination is the very object of the intent (same
    volume and object key), and not applied exactly when the destination is
    absent and the source is that object; everything else is reported as
    ambiguous. *)
Theorem reconcile_observation_iff expected source destination :
  (reconcile_observation expected source destination = Applied <->
     source = None /\ exists d, destination = Some d
       /\ vi_stable_identifier (ni_volume d) = vi_stable_identifier (ni_volume expected)
       /\ ni_object_key d = ni_object_key expected)
  /\ (reconcile_observation expected source destination = NotApplied <->
     destination = None /\ exists s, source = Some s
       /\ vi_stable_identifier (ni_volume s) = vi_stable_identifier (ni_volume expected)
       /\ ni_object_key s = ni_object_key expected).
Proof.
  unfold reconcile_observation, same_identity.
  destruct source as [s|], destination as [d|]; cbn;
    repeat case_bool_decide; cbn; naive_solver.
Qed.

(** ** Witnesses *)

#[local] Existing Instances sample_uuid sample_uuid_laws sample_blake3 sample_unicode
  sample_draft_to_vec.

(** A journal in memory and a counter of identifiers. *)
Definition SampleWorld : Type := list OperationJournalEvent * nat.

#[local] Instance sample_world_journal : DurableJournal SampleWorld := {
  journal_append event := fun '(es, n) => (Ok tt, (es ++ [event], n));
  journal_flush := fun w => (Ok tt, w);
  journal_events x := fun '(es, n) => (Ok (events_of x es), (es, n));
  journal_diagnostics _ := []
}.
#[local] Instance sample_world_fs : SafeFileOperations SampleWorld := {
  rename_same_volume_no_replace request :=
    fun w => (Ok {| ro_observed_identity := rr_expected_identity request |}, w);
  create_directory_no_replace path := fun w => (Ok tt, w);
  remove_directory_if_empty path := fun w => (Ok tt, w)
}.
#[local] Instance sample_world_uuids : UuidSource SampleWorld :=
  fun '(es, n) => (fill 16 (byte_of_Z (64 + Z.of_nat n)), (es, S n)).
#[local] Instance sample_step_to_vec : ToVec OperationStep := fun step => Ok (barr (step_id step)).
#[local] Instance sample_bundle_to_vec : ToVec (SealedPlan * ApprovalReceipt * Roots) :=
  fun _ => Ok [].

Definition sample_gate : ApplyGate := {| gate_enabled := true; gate_reason := [] |}.
Definition sample_approval : ApprovalReceipt := {|
  ar_plan_id := sp_id sample_plan; ar_plan_digest := sp_digest sample_plan;
  ar_actor_id := uid x09; ar_scope_digest := sp_digest sample_plan; ar_approved_at_unix_ms := 2 |}.
Definition sample_roots : Roots := {[ uid x0a := bstr "/data" ]}.

Definition sample_run :=
  execute (W := Traced SampleWorld) sample_gate sample_plan sample_approval sample_roots 7
    (([], 0%nat), []).

Lemma execute_report_truthful_witness :
  match sample_run with
  | (Ok report, (_, log)) => length log = 9%nat /\ outcome_matches sample_plan sample_roots log report
  | _ => False
  end.
Proof.
  destruct sample_run as [[report|e] [w' log]] eqn:H.
  - split; [|exact (execute_report_truthful sample_gate sample_plan sample_approval sample_roots 7
      ([], 0%nat) report w' log H)].
    pose proof (f_equal (fun r => length (snd (snd r))) H) as Hl. vm_compute in Hl. symmetry. exact Hl.
  - pose proof (f_equal (fun r => is_ok (fst r)) H) as Hl. vm_compute in Hl. discriminate Hl.
Defined.

#[local] Instance any_draft_to_vec : ToVec PlanDraft := fun _ => Ok [].
#[local] Existing Instance sample_revision_to_vec.

Lemma compile_plan_safe_witness :
  match fst (compile_plan (TD := any_draft_to_vec) sample_proposal sample_outcome
               (([], 0%nat) : SampleWorld)) with
  | Ok plan => length (sp_steps plan) = 2%nat
  | Err _ => False
  end.
Proof.
  pose proof (compile_plan_safe (TD := any_draft_to_vec) sample_proposal sample_outcome
    (([], 0%nat) : SampleWorld) [x7b; x7d] eq_refl eq_refl eq_refl) as H. cbv zeta in H.
  destruct (fst (compile_plan _ _ _)) as [plan|e] eqn:E.
  - destruct H as (_ & Hl & _). rewrite Hl. vm_compute. reflexivity.
  - pose proof (f_equal is_ok E) as Hl. vm_compute in Hl. discriminate Hl.
Defined.
