(* ===== verification/Safety.v ===== *)
(** * The execution safety policy

    crates/operations/src/safety.rs: the limits an execution is bound to, and
    the checks every root, source and destination passes before it is planned.
    The development takes the [cfg(unix)] branches. *)

From stdpp Require Import sorting.
From S2P Require Export Ordering HostFs PathSafety Apply.
#[local] Open Scope Z_scope.

Definition DEFAULT_MAX_REHASH_BYTES : Z := HARD_MAX_REHASH_BYTES.
Definition LARGE_BATCH_CONFIRMATION_THRESHOLD : Z := 1000.
Definition CONFIRMATION_PHRASE : str := lit "ORGANIZE".
Definition STAGING_DIRECTORY_NAME : str := lit ".supremacy-staging".

Record ExecutionSafetyPolicy := {
  esp_maximum_rehash_bytes : Z;
  esp_large_batch_confirmation_threshold : Z;
  esp_allow_independent_safe_subset : bool;
  esp_allow_qualified_case_only_rename : bool;
  esp_protected_paths : list PathBuf
}.

Definition default_safety_policy : ExecutionSafetyPolicy := {|
  esp_maximum_rehash_bytes := DEFAULT_MAX_REHASH_BYTES;
  esp_large_batch_confirmation_threshold := LARGE_BATCH_CONFIRMATION_THRESHOLD;
  esp_allow_independent_safe_subset := true;
  esp_allow_qualified_case_only_rename := false;
  esp_protected_paths := []
|}.

Definition with_protected_paths (self : ExecutionSafetyPolicy) (protected_paths : list PathBuf) :
    ExecutionSafetyPolicy := {|
  esp_maximum_rehash_bytes := esp_maximum_rehash_bytes self;
  esp_large_batch_confirmation_threshold := esp_large_batch_confirmation_threshold self;
  esp_allow_independent_safe_subset := esp_allow_independent_safe_subset self;
  esp_allow_qualified_case_only_rename := esp_allow_qualified_case_only_rename self;
  esp_protected_paths := protected_paths
|}.

Inductive SafetyPolicyError :=
  | SpInvalidRoot | SpLinkedOrInvalidRoot | SpOutsideRoot | SpProtectedPath
  | SpInvalidRelativePath | SpSourceMissing | SpLinkedOrSpecialEntry | SpDestinationExists
  | SpConfirmationRequired | SpConfirmationPhraseRequired | SpInvalidVerificationBound
  | SpSerializationFailed | SpIo (error : io_error).

(** ** The binding *)

Definition path_encoding_order (encoding : PathEncoding) : Z :=
  match encoding with WindowsUtf16Le => 0 | UnixBytes => 1 end.

Record CanonicalPolicyPath := { cpp_encoding : PathEncoding; cpp_bytes : bytes }.

Record CanonicalSafetyPolicy := {
  csp_version : str;
  csp_maximum_rehash_bytes : Z;
  csp_large_batch_confirmation_threshold : Z;
  csp_confirmation_phrase : str;
  csp_allow_independent_safe_subset : bool;
  csp_allow_qualified_case_only_rename : bool;
  csp_staging_directory_name : str;
  csp_protected_paths : list CanonicalPolicyPath
}.

Definition native_path_bytes (path : PathBuf) : PathEncoding * bytes := (UnixBytes, path).

Definition canonical_policy_path (path : PathBuf) : CanonicalPolicyPath :=
  let native := native_path_bytes path in
  {| cpp_encoding := fst native; cpp_bytes := snd native |}.

(** The comparison of [sort_by]. *)
Definition policy_path_le (left right : CanonicalPolicyPath) : Prop :=
  let l := path_encoding_order (cpp_encoding left) in
  let r := path_encoding_order (cpp_encoding right) in
  l < r \/ l = r /\ bytes_leb (cpp_bytes left) (cpp_bytes right) = true.
#[export] Instance policy_path_le_dec : RelDecision policy_path_le.
Proof. intros l r. unfold policy_path_le. apply _. Defined.

(** [blake3::Hash::to_hex]. *)
Class Blake3Hex : Type := hash_to_hex : bytes32 -> str.

Section binding.
Context `{B3 : Blake3} `{BH : Blake3Hex} `{TC : ToVec CanonicalSafetyPolicy}.

Definition canonical_policy (self : ExecutionSafetyPolicy) : CanonicalSafetyPolicy := {|
  csp_version := EXECUTION_SAFETY_POLICY_VERSION;
  csp_maximum_rehash_bytes := esp_maximum_rehash_bytes self;
  csp_large_batch_confirmation_threshold := esp_large_batch_confirmation_threshold self;
  csp_confirmation_phrase := CONFIRMATION_PHRASE;
  csp_allow_independent_safe_subset := esp_allow_independent_safe_subset self;
  csp_allow_qualified_case_only_rename := esp_allow_qualified_case_only_rename self;
  csp_staging_directory_name := STAGING_DIRECTORY_NAME;
  csp_protected_paths :=
    merge_sort policy_path_le (canonical_policy_path <$> esp_protected_paths self)
|}.

(** [ExecutionSafetyPolicy::binding]. *)
Definition binding (self : ExecutionSafetyPolicy) :
    res SafetyPolicyError ExecutionSafetyPolicyBinding :=
  reject_if ((esp_maximum_rehash_bytes self =? 0)
    || (HARD_MAX_REHASH_BYTES <? esp_maximum_rehash_bytes self)) SpInvalidVerificationBound;;
  encoded ← map_err (fun _ => SpSerializationFailed) (to_vec (canonical_policy self));
  Ok {| espb_version := EXECUTION_SAFETY_POLICY_VERSION;
        espb_maximum_rehash_bytes := esp_maximum_rehash_bytes self;
        espb_allow_qualified_case_only_rename := esp_allow_qualified_case_only_rename self;
        espb_digest_hex := hash_to_hex (blake3_hash encoded) |}.
End binding.

(** [ExecutionSafetyPolicy::validate_confirmation]. *)
Definition validate_confirmation (self : ExecutionSafetyPolicy) (operation_count : Z)
    (confirmed : bool) (phrase : option str) : res SafetyPolicyError unit :=
  reject_if (negb confirmed) SpConfirmationRequired;;
  reject_if ((esp_large_batch_confirmation_threshold self <=? operation_count)
    && negb (bool_decide (trim <$> phrase = Some CONFIRMATION_PHRASE)))
    SpConfirmationPhraseRequired.

(** [ExecutionSafetyPolicy::validate_destination_components]. *)
Definition validate_destination_components (destination : list str) (filename : str) :
    res SafetyPolicyError unit :=
  let path_policy := default_policy in
  map_err (fun _ => SpInvalidRelativePath) (validate_user_destination path_policy destination);;
  map_err (fun _ => SpInvalidRelativePath) (validate_user_filename path_policy filename);;
  reject_if (maximum_path_utf16 path_policy <? path_length_utf16 destination filename)
    SpInvalidRelativePath.

(** ** Paths *)

(** [path_contains], on Unix. *)
Definition path_contains (parent child : PathBuf) : bool :=
  path_eq child parent || path_starts_with child parent.

Definition is_platform_protected_root `{TG : Target} (path : PathBuf) : bool :=
  if target_macos then
    existsb (fun protected => path_contains protected path)
      [bstr "/System"; bstr "/Library"; bstr "/Applications"]
  else path_eq path (bstr "/").

Definition resolve_lexically (root relative : PathBuf) : res SafetyPolicyError PathBuf :=
  reject_if (bool_decide (relative = []) || is_absolute relative
    || existsb (fun component => negb (is_normal component)) (components relative))
    SpInvalidRelativePath;;
  Ok (path_join root relative).

(** [Component::as_os_str]. *)
Definition component_os_str (c : Component) : bytes :=
  match c with
  | RootDir => bstr "/"
  | CurDir => bstr "."
  | ParentDir => bstr ".."
  | Normal name => name
  end.

Section checks.
Context {W : Type} `{FS : StdFs W} `{TG : Target}.

(** The loop of [validate_existing_ancestors]; [index] counts the components
    already visited, [break] is [mret]. *)
Fixpoint check_ancestors (current : PathBuf) (include_leaf : bool) (component_count index : nat)
    (rest : list Component) : SE W SafetyPolicyError unit :=
  match rest with
  | [] => mret tt
  | component :: rest =>
      if negb include_leaf && (index + 1 =? component_count)%nat then mret tt
      else
        let current := path_join current (component_os_str component) in
        found ← se_try (symlink_metadata current);
        match found with
        | Ok metadata =>
            if md_is_symlink metadata then se_fail SpLinkedOrSpecialEntry
            else if (index + 1 <? component_count)%nat && negb (md_is_dir metadata) then
              se_fail SpLinkedOrSpecialEntry
            else check_ancestors current include_leaf component_count (index + 1) rest
        | Err error => if is_not_found error then mret tt else se_fail (SpIo error)
        end
  end.

Definition validate_existing_ancestors (root relative : PathBuf) (include_leaf : bool) :
    SE W SafetyPolicyError unit :=
  check_ancestors root include_leaf (length (components relative)) 0 (components relative).

(** The loop of [nearest_existing_parent], along the ancestors of the path. *)
Fixpoint nearest_existing (candidates : list PathBuf) : SE W SafetyPolicyError PathBuf :=
  match candidates with
  | [] => se_fail SpOutsideRoot
  | current :: candidates =>
      found ← se_try (symlink_metadata current);
      match found with
      | Ok metadata =>
          if md_is_symlink metadata || negb (md_is_dir metadata) then se_fail SpLinkedOrSpecialEntry
          else mret current
      | Err error =>
          if is_not_found error then nearest_existing candidates else se_fail (SpIo error)
      end
  end.

Definition nearest_existing_parent (path : PathBuf) : SE W SafetyPolicyError PathBuf :=
  nearest_existing (ancestors path).

(** [protected.canonicalize().unwrap_or_else(..)]. *)
Definition canonical_or_self (path : PathBuf) : SE W SafetyPolicyError PathBuf :=
  r ← se_try (canonicalize path);
  mret match r with Ok canonical => canonical | Err _ => path end.

(** The loop over the protected paths, in both places it occurs. *)
Fixpoint reject_overlap (protected_paths : list PathBuf) (candidate : PathBuf) :
    SE W SafetyPolicyError unit :=
  match protected_paths with
  | [] => mret tt
  | protected :: protected_paths =>
      protected ← canonical_or_self protected;
      se_lift (reject_if (path_contains candidate protected || path_contains protected candidate)
        SpProtectedPath);;
      reject_overlap protected_paths candidate
  end.

(** [ExecutionSafetyPolicy::reject_app_owned_path]. *)
Definition reject_app_owned_path (self : ExecutionSafetyPolicy) (candidate : PathBuf) :
    SE W SafetyPolicyError unit :=
  reject_overlap (esp_protected_paths self) candidate.

(** [ExecutionSafetyPolicy::validate_root]. *)
Definition validate_root (self : ExecutionSafetyPolicy) (root : PathBuf) :
    SE W SafetyPolicyError PathBuf :=
  se_lift (reject_if (negb (is_absolute root)
    || existsb (fun component => bool_decide (component = ParentDir \/ component = CurDir))
         (components root)) SpInvalidRoot);;
  metadata ← se_map_err SpIo (symlink_metadata root);
  se_lift (reject_if (md_is_symlink metadata || negb (md_is_dir metadata)) SpLinkedOrInvalidRoot);;
  canonical ← se_map_err SpIo (canonicalize root);
  se_lift (reject_if (bool_decide (path_parent canonical = None)
    || is_platform_protected_root canonical) SpProtectedPath);;
  reject_overlap (esp_protected_paths self) canonical;;
  mret canonical.

(** [ExecutionSafetyPolicy::resolve_existing_source]. *)
Definition resolve_existing_source (self : ExecutionSafetyPolicy) (root relative : PathBuf) :
    SE W SafetyPolicyError PathBuf :=
  joined ← se_lift (resolve_lexically root relative);
  metadata ← se_map_err (fun error => if is_not_found error then SpSourceMissing else SpIo error)
    (symlink_metadata joined);
  se_lift (reject_if (md_is_symlink metadata || negb (md_is_file metadata)) SpLinkedOrSpecialEntry);;
  validate_existing_ancestors root relative true;;
  canonical_root ← se_map_err SpIo (canonicalize root);
  canonical_source ← se_map_err SpIo (canonicalize joined);
  se_lift (reject_if (path_eq canonical_source canonical_root
    || negb (path_contains canonical_root canonical_source)) SpOutsideRoot);;
  reject_app_owned_path self canonical_source;;
  mret joined.

(** [ExecutionSafetyPolicy::resolve_absent_destination]. *)
Definition resolve_absent_destination (self : ExecutionSafetyPolicy) (root relative : PathBuf)
    (internal_staging : bool) : SE W SafetyPolicyError PathBuf :=
  joined ← se_lift (resolve_lexically root relative);
  validate_existing_ancestors root relative false;;
  found ← se_try (symlink_metadata joined);
  match found with
  | Ok _ => se_fail SpDestinationExists
  | Err error => if is_not_found error then mret tt else se_fail (SpIo error)
  end;;
  parent ← se_lift (ok_or (path_parent joined) SpOutsideRoot);
  existing_parent ← nearest_existing_parent parent;
  canonical_root ← se_map_err SpIo (canonicalize root);
  canonical_parent ← se_map_err SpIo (canonicalize existing_parent);
  se_lift (reject_if (negb (path_eq canonical_parent canonical_root)
    && negb (path_contains canonical_root canonical_parent)) SpOutsideRoot);;
  (if internal_staging then mret tt
   else
     reject_app_owned_path self joined;;
     se_lift (reject_if (match components relative with
       | component :: _ => bool_decide (component_os_str component = utf8 STAGING_DIRECTORY_NAME)
       | [] => false
       end) SpProtectedPath));;
  mret joined.
End checks.

(** ** What the checks establish *)

Lemma path_contains_iff parent child :
  path_contains parent child = true <-> components parent `prefix_of` components child.
Proof.
  unfold path_contains, path_eq, path_starts_with. rewrite orb_true_iff, !bool_decide_eq_true.
  split; [intros [->|?]; done|by right].
Qed.

Section snapshot.
Context {W : Type} `{FS : StdFs W} `{ST : !StableFs W} `{TG : Target}.

Lemma run_lift {E A B} (m : res E A) (k : A -> SE W E B) w :
  (se_lift m ≫= k) w = match m with Ok a => k a w | Err e => (Err e, w) end.
Proof. by destruct m. Qed.

Lemma run_try {E F A B} (m : SE W E A) (k : res E A -> SE W F B) w r :
  m w = (r, w) -> (se_try m ≫= k) w = k r w.
Proof. intros H. cbv [mbind se_bind se_try]. by rewrite H. Qed.

Lemma run_map_err {E F A B} (f : E -> F) (m : SE W E A) (k : A -> SE W F B) w r :
  m w = (r, w) ->
  (se_map_err f m ≫= k) w = match r with Ok a => k a w | Err e => (Err (f e), w) end.
Proof. intros H. cbv [mbind se_bind se_map_err]. rewrite H. by destruct r. Qed.

(** The path after [k] components below the root. *)
Definition step_path (root : PathBuf) (names : list Component) (k : nat) : PathBuf :=
  foldl path_join root (component_os_str <$> take k names).

Definition missing (w : W) (path : PathBuf) : Prop :=
  exists e, seen_metadata w path = Err e /\ io_kind e = NotFound.

Definition unlinked_directory (w : W) (path : PathBuf) : Prop :=
  exists m, seen_metadata w path = Ok m /\ md_is_symlink m = false /\ md_is_dir m = true.

(** Down to the [m]-th component no link is met, and nothing but directories
    before the last component, unless the way ends at something missing. *)
Definition way_is_clear (w : W) (root : PathBuf) (names : list Component) (m : nat) : Prop :=
  forall k, (1 <= k <= m)%nat ->
    (exists j, (1 <= j <= k)%nat /\ missing w (step_path root names j))
    \/ exists md, seen_metadata w (step_path root names k) = Ok md /\ md_is_symlink md = false
         /\ ((k < length names)%nat -> md_is_dir md = true).

Definition visited (include_leaf : bool) (n : nat) : nat := if include_leaf then n else (n - 1)%nat.

Lemma step_path_cons root c names k :
  step_path root (c :: names) (S k) = step_path (path_join root (component_os_str c)) names k.
Proof. done. Qed.

Lemma way_is_clear_0 w root names : way_is_clear w root names 0.
Proof. intros k Hk. lia. Qed.

Lemma way_is_clear_cons w root c names m :
  way_is_clear w root (c :: names) (S m) <->
    let current := path_join root (component_os_str c) in
    missing w current
    \/ exists md, seen_metadata w current = Ok md /\ md_is_symlink md = false
         /\ (names <> [] -> md_is_dir md = true) /\ way_is_clear w current names m.
Proof.
  cbv zeta. set (current := path_join root (component_os_str c)).
  assert (step_path root (c :: names) 1 = current) as H1 by (by cbn; rewrite take_0).
  split.
  - intros H. destruct (H 1%nat ltac:(lia)) as [(j & Hj & Hm)|(md & Hmd & Hs & Hd)].
    { left. by replace j with 1%nat in Hm by lia. }
    rewrite H1 in *. right. exists md. split_and!; [done|done| |].
    + intros Hne. apply Hd. destruct names; [done|]. cbn. lia.
    + intros k Hk. destruct (H (S k) ltac:(lia)) as [(j & Hj & Hm)|(md' & Hmd' & Hs' & Hd')].
      * left. destruct j as [|[|j]]; [lia| |].
        -- rewrite H1 in Hm. destruct Hm as (e & He & _). by rewrite Hmd in He.
        -- exists (S j). split; [lia|]. by rewrite step_path_cons in Hm.
      * right. exists md'. rewrite step_path_cons in Hmd'. split_and!; [done..|].
        intros Hlt. apply Hd'. cbn. lia.
  - intros [Hm|(md & Hmd & Hs & Hd & Hw)] k Hk.
    + left. exists 1%nat. split; [lia|]. by rewrite H1.
    + destruct k as [|k]; [lia|]. destruct (decide (k = 0%nat)) as [->|Hk0].
      * right. exists md. rewrite H1. split_and!; [done..|]. intros Hlt. apply Hd.
        intros ->. cbn in Hlt. lia.
      * destruct (Hw k ltac:(lia)) as [(j & Hj & Hm)|(md' & Hmd' & Hs' & Hd')].
        -- left. exists (S j). by split; [lia|].
        -- right. exists md'. split_and!; [done..|]. intros Hlt. apply Hd'. cbn in Hlt. lia.
Qed.

Lemma check_ancestors_run current leaf n i rest w :
  n = (i + length rest)%nat ->
  exists r, check_ancestors current leaf n i rest w = (r, w)
    /\ (r = Ok tt <-> way_is_clear w current rest (visited leaf (length rest))).
Proof.
  revert current i. induction rest as [|c rest IH]; intros current i Hn; cbn [check_ancestors].
  { exists (Ok tt). split; [done|]. destruct leaf; cbn; by split; intros; [apply way_is_clear_0|]. }
  destruct (negb leaf && (i + 1 =? n)%nat) eqn:Hb.
  { apply andb_true_iff in Hb as [->%negb_true_iff He%Nat.eqb_eq]. cbn [length] in Hn.
    assert (length rest = 0)%nat as H0 by lia. exists (Ok tt). split; [done|]. cbn [visited length].
    rewrite H0. by split; intros; [apply way_is_clear_0|]. }
  assert (visited leaf (length (c :: rest)) = S (visited leaf (length rest))) as Hv.
  { destruct leaf; cbn in *; [done|]. apply Nat.eqb_neq in Hb. lia. }
  rewrite Hv. setoid_rewrite way_is_clear_cons. cbv zeta.
  set (next := path_join current (component_os_str c)).
  rewrite (run_try _ _ _ _ (symlink_metadata_seen next w)).
  destruct (seen_metadata w next) as [md|e] eqn:Hmd.
  - assert (missing w next <-> False) as Hno.
    { split; [|done]. intros (e & He & _). by rewrite Hmd in He. }
    assert ((i + 1 <? n)%nat = negb (bool_decide (rest = []))) as ->.
    { cbn [length] in Hn. case_bool_decide as Hr; [subst rest|].
      - apply Nat.ltb_ge. cbn in Hn. lia.
      - apply Nat.ltb_lt. destruct rest; [done|]. cbn in Hn. lia. }
    destruct (md_is_symlink md) eqn:Hs.
    { eexists. split; [done|]. rewrite Hno. split; [done|].
      intros [[]|(md' & [= <-] & Hs' & _)]. congruence. }
    destruct (negb (bool_decide (rest = [])) && negb (md_is_dir md)) eqn:Hd.
    { eexists. split; [done|]. rewrite Hno. split; [done|].
      intros [[]|(md' & [= <-] & _ & Hd' & _)].
      apply andb_true_iff in Hd as [Hr%negb_true_iff Hdd%negb_true_iff].
      apply bool_decide_eq_false in Hr. by rewrite Hd' in Hdd. }
    destruct (IH next (i + 1)%nat) as (r & Hr & Hiff); [cbn in Hn; lia|].
    exists r. split; [done|]. rewrite Hiff, Hno. split.
    + intros Hw. right. exists md. split_and!; [done..| |done]. intros Hne.
      rewrite bool_decide_false in Hd by done. cbn in Hd. by apply negb_false_iff in Hd.
    + by intros [[]|(md' & _ & _ & _ & Hw)].
  - destruct (is_not_found e) eqn:He; eexists; (split; [done|]); unfold is_not_found in He; bools.
    + split; [|done]. intros _. left. by exists e.
    + split; [done|]. intros [(e' & He' & Hk)|(md & Hmd' & _)]; congruence.
Qed.

Lemma validate_existing_ancestors_run root relative leaf w :
  exists r, validate_existing_ancestors root relative leaf w = (r, w)
    /\ (r = Ok tt <-> way_is_clear w root (components relative)
                        (visited leaf (length (components relative)))).
Proof. apply check_ancestors_run. done. Qed.

(** The nearest ancestor that exists, when it is a directory. *)
Definition nearest_directory (w : W) (path q : PathBuf) : Prop :=
  exists pre post, ancestors path = pre ++ q :: post /\ Forall (missing w) pre
    /\ unlinked_directory w q.

Lemma nearest_existing_run candidates w :
  exists r, nearest_existing candidates w = (r, w)
    /\ forall q, r = Ok q <-> exists pre post, candidates = pre ++ q :: post /\ Forall (missing w) pre
         /\ unlinked_directory w q.
Proof.
  induction candidates as [|c candidates IH]; cbn [nearest_existing].
  { eexists. split; [done|]. intros q. split; [done|]. by intros ([] & post & [=] & _). }
  rewrite (run_try _ _ _ _ (symlink_metadata_seen c w)).
  destruct (seen_metadata w c) as [md|e] eqn:Hmd.
  - assert (forall q pre post, c :: candidates = pre ++ q :: post -> Forall (missing w) pre -> c = q)
      as Hq.
    { intros q [|p pre] post He Hf; [by injection He|]. apply Forall_cons_iff in Hf as [Hf _].
      injection He as -> _. destruct Hf as (e & He' & _). by rewrite Hmd in He'. }
    destruct (md_is_symlink md || negb (md_is_dir md)) eqn:Hb; eexists; (split; [done|]); intros q; split.
    + done.
    + intros (pre & post & He & Hf & (md' & Hmd' & Hs & Hd)). destruct (Hq _ _ _ He Hf).
      rewrite Hmd in Hmd'. injection Hmd' as <-. by rewrite Hs, Hd in Hb.
    + intros [= <-]. apply orb_false_iff in Hb as [Hs Hd%negb_false_iff].
      exists [], candidates. split_and!; [done|done|]. by exists md.
    + intros (pre & post & He & Hf & _). by destruct (Hq _ _ _ He Hf).
  - destruct (is_not_found e) eqn:Hnf; unfold is_not_found in Hnf; bools.
    + destruct IH as (r & Hr & Hiff). exists r. split; [done|]. intros q. rewrite Hiff. split.
      * intros (pre & post & -> & Hf & Hu). exists (c :: pre), post. split_and!; [done| |done].
        constructor; [by exists e|done].
      * intros ([|p pre] & post & He & Hf & Hu).
        { injection He as -> ->. destruct Hu as (md & Hmd' & _). congruence. }
        injection He as -> ->. apply Forall_cons_iff in Hf as [_ Hf]. eauto.
    + eexists. split; [done|]. intros q. split; [done|]. intros ([|p pre] & post & He & Hf & Hu).
      * injection He as -> ->. destruct Hu as (md & Hmd' & _). congruence.
      * injection He as -> ->. apply Forall_cons_iff in Hf as [(e' & He' & Hk) _]. congruence.
Qed.

(** Where a protected path really is. *)
Definition real_path (w : W) (path : PathBuf) : PathBuf :=
  match seen_canonical w path with Ok canonical => canonical | Err _ => path end.

(** Two places of which neither lies below the other. *)
Definition apart (a b : PathBuf) : Prop :=
  ~ components a `prefix_of` components b /\ ~ components b `prefix_of` components a.

Lemma apart_iff a b : apart a b <-> path_contains a b || path_contains b a = false.
Proof.
  unfold apart. rewrite orb_false_iff, <- !not_true_iff_false, !path_contains_iff. done.
Qed.

Lemma reject_overlap_run protected candidate w :
  exists r, reject_overlap protected candidate w = (r, w)
    /\ (r = Ok tt <-> Forall (fun p => apart candidate (real_path w p)) protected).
Proof.
  induction protected as [|p protected IH]; cbn [reject_overlap].
  { exists (Ok tt). split; [done|]. by split; [constructor|]. }
  assert (canonical_or_self p w = (Ok (real_path w p), w)) as Hc.
  { unfold canonical_or_self. by rewrite (run_try _ _ _ _ (canonicalize_seen p w)). }
  cbv [mbind se_bind]. rewrite Hc. fold (@mbind (SE W SafetyPolicyError) _).
  setoid_rewrite Forall_cons_iff. setoid_rewrite apart_iff at 1.
  change (exists r, (se_lift (reject_if (path_contains candidate (real_path w p)
    || path_contains (real_path w p) candidate) SpProtectedPath) ≫=
    (fun _ => reject_overlap protected candidate)) w = (r, w) /\ (r = Ok tt <->
    path_contains candidate (real_path w p) || path_contains (real_path w p) candidate = false
    /\ Forall (fun p => apart candidate (real_path w p)) protected)).
  rewrite run_lift. destruct (_ || _); cbn [reject_if].
  - eexists. split; [done|]. by split; [|intros []].
  - destruct IH as (r & Hr & Hiff). exists r. split; [done|]. rewrite Hiff. naive_solver.
Qed.

(** Lexically below the root. *)
Lemma resolve_lexically_Ok root relative joined :
  resolve_lexically root relative = Ok joined <->
    relative <> [] /\ only_names relative /\ joined = path_join root relative.
Proof.
  unfold resolve_lexically. rewrite bind_Ok. setoid_rewrite reject_if_Ok. split.
  - intros ([] & [[H1 H2]%orb_false_iff H3]%orb_false_iff & [= <-]). bools. split_and!; [done| |done].
    apply Forall_forall. intros c Hc. destruct (is_normal c) eqn:Hn; [done|].
    rewrite <- H3. apply existsb_exists. exists c. rewrite Hn. split; [by apply list_elem_of_In|done].
  - intros (Hne & Hn & ->). exists tt. split; [|done]. rewrite !orb_false_iff. split_and!.
    + by apply bool_decide_eq_false.
    + by apply only_names_spec in Hn as [? _].
    + destruct (existsb _ _) eqn:He; [|done]. apply existsb_exists in He as (c & Hc & Hb).
      unfold only_names in Hn. rewrite Forall_forall in Hn.
      rewrite Hn in Hb by by apply list_elem_of_In. done.
Qed.

(** A root is approved exactly when it is an absolute path without dot
    entries to a directory that is not a link, and what it really is has a
    parent, is no protected place of the platform, and neither contains nor
    lies in a path the application protects. *)
Theorem validate_root_iff self root w canonical w' :
  validate_root self root w = (Ok canonical, w') <->
    w' = w /\ is_absolute root = true
    /\ Forall (fun c => c <> ParentDir /\ c <> CurDir) (components root)
    /\ unlinked_directory w root
    /\ seen_canonical w root = Ok canonical
    /\ path_parent canonical <> None /\ is_platform_protected_root canonical = false
    /\ Forall (fun p => apart canonical (real_path w p)) (esp_protected_paths self).
Proof.
  unfold validate_root. rewrite run_lift.
  assert (reject_if (negb (is_absolute root)
      || existsb (fun component => bool_decide (component = ParentDir \/ component = CurDir))
           (components root)) SpInvalidRoot = Ok tt <->
    is_absolute root = true /\ Forall (fun c => c <> ParentDir /\ c <> CurDir) (components root)) as Hlex.
  { rewrite reject_if_Ok, orb_false_iff, negb_false_iff, Forall_forall. apply and_iff_compat_l.
    rewrite <- not_true_iff_false, existsb_exists. split.
    - intros H c Hc. enough (~ (c = ParentDir \/ c = CurDir)) by naive_solver. intros Hd.
      apply H. exists c. split; [by apply list_elem_of_In|]. by apply bool_decide_eq_true.
    - intros H (c & Hc%list_elem_of_In & Hd%bool_decide_eq_true). apply H in Hc. naive_solver. }
  destruct (reject_if _ SpInvalidRoot) as [[]|e]; [|naive_solver].
  rewrite (run_map_err _ _ _ _ _ (symlink_metadata_seen root w)).
  destruct (seen_metadata w root) as [md|e] eqn:Hmd;
    [|split; [done|]; intros (_ & _ & _ & (md & Hmd' & _) & _); congruence].
  rewrite run_lift. assert (unlinked_directory w root <->
    md_is_symlink md || negb (md_is_dir md) = false) as Hdir.
  { rewrite orb_false_iff, negb_false_iff. unfold unlinked_directory. rewrite Hmd. naive_solver. }
  destruct (md_is_symlink md || negb (md_is_dir md)); cbn [reject_if]; [naive_solver|].
  rewrite (run_map_err _ _ _ _ _ (canonicalize_seen root w)).
  destruct (seen_canonical w root) as [c|e] eqn:Hc; [|naive_solver].
  rewrite run_lift. destruct (bool_decide (path_parent c = None)) eqn:Hp; bools;
    [split; [done|]; naive_solver|]. cbn [orb].
  destruct (is_platform_protected_root c) eqn:Hprot; cbn [reject_if];
    [split; [done|]; intros (_ & _ & _ & _ & Hc' & _ & Hprot' & _); congruence|].
  destruct (reject_overlap_run (esp_protected_paths self) c w) as (r & Hr & Hiff).
  cbv [mbind se_bind]. rewrite Hr. destruct r as [[]|e].
  - destruct (proj1 Hlex eq_refl) as [Ha Hcs]. pose proof (proj1 Hiff eq_refl) as Hall.
    split; [|intros (-> & _ & _ & _ & Hc' & _); by injection Hc' as ->].
    intros [= <- <-]. split_and!; try done. by apply Hdir.
  - split; [done|]. intros (_ & _ & _ & _ & Hc' & _ & _ & Hall).
    injection Hc' as <-. by apply Hiff in Hall.
Qed.

Lemma run_bind {E A B} (m : SE W E A) (k : A -> SE W E B) w r :
  m w = (r, w) -> (m ≫= k) w = match r with Ok a => k a w | Err e => (Err e, w) end.
Proof. intros H. cbv [mbind se_bind]. rewrite H. by destruct r. Qed.

Lemma error_iff {A E} (e : E) (w w' : W) (a : A) (P : Prop) :
  ~ P -> (Err e, w) = (Ok a, w') <-> P.
Proof. by split. Qed.

(** C34: A source is accepted exactly when it is a regular file strictly below the
    root, by name and in reality: the path is made of names, no link and no
    file is met on the way, and what it resolves to lies below what the root
    resolves to and apart from every path the application protects. *)
Theorem resolve_existing_source_iff self root relative w joined w' :
  resolve_existing_source self root relative w = (Ok joined, w') <->
    w' = w /\ relative <> [] /\ only_names relative /\ joined = path_join root relative
    /\ (exists m, seen_metadata w joined = Ok m /\ md_is_symlink m = false /\ md_is_file m = true)
    /\ way_is_clear w root (components relative) (length (components relative))
    /\ exists real_root real_source,
         seen_canonical w root = Ok real_root /\ seen_canonical w joined = Ok real_source
         /\ components real_source <> components real_root
         /\ components real_root `prefix_of` components real_source
         /\ Forall (fun p => apart real_source (real_path w p)) (esp_protected_paths self).
Proof.
  unfold resolve_existing_source. rewrite run_lift.
  destruct (resolve_lexically root relative) as [j|e] eqn:Hl.
  2: { apply error_iff. intros (_ & Hne & Hn & Hj & _).
       by rewrite (proj2 (resolve_lexically_Ok _ _ _) (conj Hne (conj Hn Hj))) in Hl. }
  apply resolve_lexically_Ok in Hl as (Hne & Hn & ->). set (j := path_join root relative).
  rewrite (run_map_err _ _ _ _ _ (symlink_metadata_seen j w)).
  destruct (seen_metadata w j) as [md|e] eqn:Hmd.
  2: { apply error_iff. intros (_ & _ & _ & -> & (m & Hm & _) & _). congruence. }
  rewrite run_lift. destruct (md_is_symlink md || negb (md_is_file md)) eqn:Hf; cbn [reject_if].
  { apply error_iff. intros (_ & _ & _ & -> & (m & Hm & Hs & Hfile) & _).
    fold j in Hm. rewrite Hmd in Hm. injection Hm as <-. by rewrite Hs, Hfile in Hf. }
  apply orb_false_iff in Hf as [Hs Hfile%negb_false_iff].
  destruct (validate_existing_ancestors_run root relative true w) as (r & Hr & Hway).
  rewrite (run_bind _ _ _ _ Hr). destruct r as [[]|e].
  2: { apply error_iff. intros (_ & _ & _ & _ & _ & Hw & _). by apply Hway in Hw. }
  rewrite (run_map_err _ _ _ _ _ (canonicalize_seen root w)).
  destruct (seen_canonical w root) as [cr|e] eqn:Hcr; [|apply error_iff; naive_solver].
  rewrite (run_map_err _ _ _ _ _ (canonicalize_seen j w)).
  destruct (seen_canonical w j) as [cs|e] eqn:Hcs.
  2: { apply error_iff. intros (_ & _ & _ & -> & _ & _ & ? & ? & _ & Hc & _). congruence. }
  rewrite run_lift.
  destruct (path_eq cs cr || negb (path_contains cr cs)) eqn:Hb; cbn [reject_if].
  { apply error_iff. intros (_ & _ & _ & -> & _ & _ & ? & ? & [= <-] & Hc & Hd & Hp & _).
    fold j in Hc. rewrite Hcs in Hc. injection Hc as <-. apply path_contains_iff in Hp.
    rewrite Hp, orb_false_r in Hb. by apply bool_decide_eq_true in Hb. }
  apply orb_false_iff in Hb as [Hd%bool_decide_eq_false Hp%negb_false_iff%path_contains_iff].
  destruct (reject_overlap_run (esp_protected_paths self) cs w) as (r & Hr' & Hiff).
  unfold reject_app_owned_path. rewrite (run_bind _ _ _ _ Hr'). destruct r as [[]|e].
  2: { apply error_iff. intros (_ & _ & _ & -> & _ & _ & ? & ? & _ & Hc & _ & _ & Hall).
       fold j in Hc. rewrite Hcs in Hc. injection Hc as <-. by apply Hiff in Hall. }
  split; [|by intros (-> & _ & _ & -> & _)]. intros [= <- <-]. split_and!; try done.
  - by exists md.
  - by apply Hway.
  - exists cr, cs. split_and!; try done. by apply Hiff.
Qed.

(** What the program keeps for itself. *)
Lemma keep_clear_run self joined relative (staging : bool) w :
  exists r, (if staging then mret tt
     else reject_app_owned_path self joined;;
       se_lift (reject_if (match components relative with
         | component :: _ => bool_decide (component_os_str component = utf8 STAGING_DIRECTORY_NAME)
         | [] => false
         end) SpProtectedPath)) w = (r, w)
    /\ (r = Ok tt <-> (staging = false ->
         Forall (fun p => apart joined (real_path w p)) (esp_protected_paths self)
         /\ forall c rest, components relative = c :: rest ->
              component_os_str c <> utf8 STAGING_DIRECTORY_NAME)).
Proof.
  destruct staging; [by exists (Ok tt)|].
  destruct (reject_overlap_run (esp_protected_paths self) joined w) as (r & Hr & Hiff).
  unfold reject_app_owned_path. rewrite (run_bind _ _ _ _ Hr). destruct r as [[]|e].
  - exists (reject_if (match components relative with
      | component :: _ => bool_decide (component_os_str component = utf8 STAGING_DIRECTORY_NAME)
      | [] => false end) SpProtectedPath). split; [done|]. rewrite reject_if_Ok. split.
    + intros Hb _. split; [by apply Hiff|]. intros c rest Hc. rewrite Hc in Hb.
      by apply bool_decide_eq_false in Hb.
    + intros H. destruct (H eq_refl) as [_ Hc]. destruct (components relative) as [|c rest]; [done|].
      apply bool_decide_eq_false. by apply (Hc c rest).
  - exists (Err e). split; [done|]. split; [done|]. intros H. by apply Hiff, H.
Qed.

(** Where the nearest directory that exists really is. *)
Lemma really_below w root j parent q :
  path_parent j = Some parent -> (forall q', nearest_directory w parent q' <-> q' = q) ->
  (exists p nearest real_root real_nearest, path_parent j = Some p
     /\ nearest_directory w p nearest
     /\ seen_canonical w root = Ok real_root /\ seen_canonical w nearest = Ok real_nearest
     /\ components real_root `prefix_of` components real_nearest)
  <-> exists real_root real_nearest, seen_canonical w root = Ok real_root
        /\ seen_canonical w q = Ok real_nearest /\ path_contains real_root real_nearest = true.
Proof.
  intros Hp Hq. setoid_rewrite path_contains_iff. split.
  - intros (p & n & cr & cn & Hp' & Hn & H). rewrite Hp in Hp'. injection Hp' as <-.
    apply Hq in Hn as ->. by exists cr, cn.
  - intros (cr & cn & H). exists parent, q, cr, cn. split; [done|]. split; [by apply Hq|done].
Qed.

(** C33: A destination is accepted exactly when nothing is there yet and it lies
    below the root, by name and in reality: no link and no file is met on the
    way to it, the nearest directory that exists resolves to a place in what
    the root resolves to, and, unless it is a staging place of the program, it
    keeps clear of the staging directory and of every protected path. *)
Theorem resolve_absent_destination_iff self root relative staging w joined w' :
  resolve_absent_destination self root relative staging w = (Ok joined, w') <->
    w' = w /\ relative <> [] /\ only_names relative /\ joined = path_join root relative
    /\ way_is_clear w root (components relative) (length (components relative) - 1)
    /\ missing w joined
    /\ (exists parent nearest real_root real_nearest, path_parent joined = Some parent
         /\ nearest_directory w parent nearest
         /\ seen_canonical w root = Ok real_root /\ seen_canonical w nearest = Ok real_nearest
         /\ components real_root `prefix_of` components real_nearest)
    /\ (staging = false ->
         Forall (fun p => apart joined (real_path w p)) (esp_protected_paths self)
         /\ forall c rest, components relative = c :: rest ->
              component_os_str c <> utf8 STAGING_DIRECTORY_NAME).
Proof.
  unfold resolve_absent_destination. rewrite run_lift.
  destruct (resolve_lexically root relative) as [j|e] eqn:Hl.
  2: { apply error_iff. intros (_ & Hne & Hn & Hj & _).
       by rewrite (proj2 (resolve_lexically_Ok _ _ _) (conj Hne (conj Hn Hj))) in Hl. }
  apply resolve_lexically_Ok in Hl as (Hne & Hn & ->). set (j := path_join root relative).
  destruct (validate_existing_ancestors_run root relative false w) as (r & Hr & Hway).
  rewrite (run_bind _ _ _ _ Hr). cbn [visited] in Hway. destruct r as [[]|e].
  2: { apply error_iff. intros (_ & _ & _ & _ & Hw & _). by apply Hway in Hw. }
  rewrite (run_try _ _ _ _ (symlink_metadata_seen j w)).
  destruct (seen_metadata w j) as [md|e] eqn:Hmd.
  { apply error_iff. intros (_ & _ & _ & -> & _ & (e & He & _) & _). congruence. }
  destruct (is_not_found e) eqn:Hnf; unfold is_not_found in Hnf; bools.
  2: { apply error_iff. intros (_ & _ & _ & -> & _ & (e' & He & Hk) & _). congruence. }
  rewrite (run_bind (mret tt) _ w (Ok tt) eq_refl). cbn iota. rewrite run_lift.
  destruct (path_parent j) as [parent|] eqn:Hpar; cbn [ok_or].
  2: { apply error_iff. intros (_ & _ & _ & -> & _ & _ & (? & ? & ? & ? & Hpa & _) & _). congruence. }
  destruct (nearest_existing_run (ancestors parent) w) as (rn & Hrn & Hnear).
  unfold nearest_existing_parent. rewrite (run_bind _ _ _ _ Hrn). destruct rn as [q|en].
  2: { apply error_iff. intros (_ & _ & _ & -> & _ & _ & (p & q & ? & ? & Hpa & Hq & _) & _).
       fold j in Hpa. rewrite Hpar in Hpa. injection Hpa as <-. by apply Hnear in Hq. }
  assert (forall q', nearest_directory w parent q' <-> q' = q) as Huniq.
  { intros q'. split; [intros H%Hnear; congruence|intros ->; by apply Hnear]. }
  pose proof (really_below w root j parent q Hpar Huniq) as Hreal.
  rewrite (run_map_err _ _ _ _ _ (canonicalize_seen root w)).
  destruct (seen_canonical w root) as [cr|ec] eqn:Hcr; [|apply error_iff; naive_solver].
  rewrite (run_map_err _ _ _ _ _ (canonicalize_seen q w)).
  destruct (seen_canonical w q) as [cq|ec] eqn:Hcq.
  2: { apply error_iff. intros (_ & _ & _ & -> & _ & _ & Hc & _).
       apply Hreal in Hc as (? & ? & _ & ? & _). done. }
  rewrite run_lift. assert (negb (path_eq cq cr) && negb (path_contains cr cq)
    = negb (path_contains cr cq)) as ->.
  { unfold path_contains. by destruct (path_eq cq cr), (path_starts_with cq cr). }
  destruct (path_contains cr cq) eqn:Hin; cbn [negb reject_if].
  2: { apply error_iff. intros (_ & _ & _ & -> & _ & _ & Hc & _).
       apply Hreal in Hc as (? & ? & [= <-] & [= <-] & ?). congruence. }
  destruct (keep_clear_run self j relative staging w) as (rk & Hk & Hclear).
  rewrite (run_bind _ _ _ _ Hk). destruct rk as [[]|ek].
  2: { apply error_iff. intros (_ & _ & _ & -> & _ & _ & _ & Hcl). by apply Hclear in Hcl. }
  split; [|by intros (-> & _ & _ & -> & _)]. intros [= <- <-]. split_and!; try done.
  - by apply Hway.
  - by exists e.
  - apply Hreal. by exists cr, cq.
  - by apply Hclear.
Qed.
End snapshot.

(** ** The binding forgets only the order of the protected paths *)

#[export] Instance policy_path_le_total : Total policy_path_le.
Proof.
  intros l r. unfold policy_path_le.
  destruct (Z.lt_trichotomy (path_encoding_order (cpp_encoding l))
    (path_encoding_order (cpp_encoding r))) as [?|[?|?]]; [by left; left| |by right; left].
  by destruct (bytes_leb_total (cpp_bytes l) (cpp_bytes r)); [left|right]; right.
Qed.
#[export] Instance policy_path_le_trans : Transitive policy_path_le.
Proof.
  intros a b c. unfold policy_path_le. intros [?|[? H1]] [?|[? H2]]; try (left; lia).
  right. split; [lia|]. by eapply bytes_leb_trans.
Qed.
#[export] Instance policy_path_le_antisym : AntiSymm (=) policy_path_le.
Proof.
  intros [ea ba] [eb bb]. unfold policy_path_le. cbn. intros [?|[He H1]] [?|[? H2]]; try lia.
  f_equal; [by destruct ea, eb|by apply bytes_leb_antisym].
Qed.

(** Policies that allow the same: the protected paths are a set. *)
Record policy_equiv (a b : ExecutionSafetyPolicy) : Prop := {
  pe_rehash : esp_maximum_rehash_bytes a = esp_maximum_rehash_bytes b;
  pe_threshold : esp_large_batch_confirmation_threshold a = esp_large_batch_confirmation_threshold b;
  pe_subset : esp_allow_independent_safe_subset a = esp_allow_independent_safe_subset b;
  pe_case_only : esp_allow_qualified_case_only_rename a = esp_allow_qualified_case_only_rename b;
  pe_protected : esp_protected_paths a ≡ₚ esp_protected_paths b
}.

#[export] Instance policy_equiv_equivalence : Equivalence policy_equiv.
Proof.
  split.
  - by intros a.
  - intros a b []. split; by symmetry.
  - intros a b c [] []. split; etrans; eassumption.
Qed.

Section binding_properties.
Context `{B3 : Blake3} `{BH : Blake3Hex} `{TC : ToVec CanonicalSafetyPolicy}.

#[export] Instance canonical_policy_proper : Proper (policy_equiv ==> eq) canonical_policy.
Proof.
  intros a b [H1 H2 H3 H4 H5]. unfold canonical_policy. rewrite H1, H2, H3, H4. f_equal.
  apply (StronglySorted_unique policy_path_le); [apply (StronglySorted_merge_sort policy_path_le)..|].
  by rewrite !merge_sort_Permutation, H5.
Qed.

#[export] Instance binding_proper : Proper (policy_equiv ==> eq) binding.
Proof.
  intros a b H. pose proof (canonical_policy_proper a b H) as Hc. destruct H as [H1 H2 H3 H4 H5].
  unfold binding. by rewrite Hc, H1, H4.
Qed.

Lemma canonical_policy_inj a b : canonical_policy a = canonical_policy b -> policy_equiv a b.
Proof.
  intros H. unfold canonical_policy in H. injection H as H1 H2 H3 H4 H5. split; try done.
  assert (canonical_policy_path <$> esp_protected_paths a
    ≡ₚ canonical_policy_path <$> esp_protected_paths b) as Hp.
  { by rewrite <- (merge_sort_Permutation policy_path_le (_ <$> esp_protected_paths a)), H5,
      merge_sort_Permutation. }
  apply (fmap_Permutation cpp_bytes) in Hp. rewrite <- !list_fmap_compose in Hp.
  by rewrite !list_fmap_id in Hp.
Qed.

(** Serialising forgets nothing; the hexadecimal form of a hash neither. *)
Class PolicySerde : Prop := {
  policy_to_vec_inj (a b : CanonicalSafetyPolicy) l : to_vec a = Ok l -> to_vec b = Ok l -> a = b;
  hash_to_hex_inj h k : hash_to_hex h = hash_to_hex k -> h = k
}.

(** The digest an execution is bound to stands for the policy and for
    nothing less: policies that differ only in the order of their protected
    paths have one binding, and policies with one digest differ only in that
    order, or their encodings collide under blake3.  Bindings exist only
    within the hard limit on verification. *)
Theorem binding_binds_policy `{PS : PolicySerde} a b x y :
  binding a = Ok x -> binding b = Ok y ->
  (policy_equiv a b -> x = y)
  /\ (espb_digest_hex x = espb_digest_hex y -> policy_equiv a b
      \/ exists l k, to_vec (canonical_policy a) = Ok l /\ to_vec (canonical_policy b) = Ok k
           /\ collides blake3_hash l k)
  /\ esp_maximum_rehash_bytes a <> 0 /\ esp_maximum_rehash_bytes a <= HARD_MAX_REHASH_BYTES.
Proof.
  intros Ha Hb. split; [intros H; rewrite H in Ha; congruence|].
  apply bind_Ok in Ha as ([] & [H0%Z.eqb_neq H1%Z.ltb_ge]%reject_if_Ok%orb_false_iff
    & (l & Hl%map_err_Ok & [= <-])%bind_Ok).
  apply bind_Ok in Hb as ([] & _ & (k & Hk%map_err_Ok & [= <-])%bind_Ok).
  cbn [espb_digest_hex]. split; [|done]. intros He%hash_to_hex_inj.
  destruct (equal_or_collides blake3_hash l k He) as [<-|Hc]; [left|by right; exists l, k].
  apply canonical_policy_inj. by eapply policy_to_vec_inj.
Qed.
End binding_properties.

(** Confirmation: a batch goes ahead exactly when it was confirmed and, from
    the threshold on, the phrase was typed, up to white space around it. *)
Theorem validate_confirmation_iff self operation_count confirmed phrase :
  validate_confirmation self operation_count confirmed phrase = Ok tt <->
    confirmed = true
    /\ (esp_large_batch_confirmation_threshold self <= operation_count ->
        exists p, phrase = Some p /\ trim p = CONFIRMATION_PHRASE).
Proof.
  unfold validate_confirmation.
  destruct confirmed; cbn [negb reject_if mbind res_bind]; [|split; [done|by intros [? _]]].
  rewrite reject_if_Ok, andb_false_iff, negb_false_iff, bool_decide_eq_true, Z.leb_gt, fmap_Some. split.
  - intros H. split; [done|]. intros Hle. destruct H as [?|(p & -> & Hp)]; [lia|by exists p].
  - intros [_ H].
    destruct (Z.lt_ge_cases operation_count (esp_large_batch_confirmation_threshold self)) as [?|Hge];
      [by left|right]. destruct (H Hge) as (p & -> & Hp). by exists p.
Qed.

(** ** A concrete file system *)

(** A root with a directory in it, and nothing else. *)
Definition sample_metadata (path : PathBuf) : res io_error Metadata :=
  if path_eq path (bstr "/data") || path_eq path (bstr "/data/Clients") then
    Ok {| md_is_symlink := false; md_is_dir := true; md_is_file := false |}
  else if path_eq path (bstr "/data/Clients/a.txt") then
    Ok {| md_is_symlink := false; md_is_dir := false; md_is_file := true |}
  else Err (IoError NotFound []).

#[local] Instance sample_stdfs : StdFs unit := {|
  symlink_metadata path := fun w => (sample_metadata path, w);
  canonicalize path := fun w => (Ok path, w);
  read_dir_first _ := fun w => (Ok None, w)
|}.
#[local] Instance sample_stable : StableFs unit.
Proof.
  refine {| seen_metadata _ path := sample_metadata path; seen_canonical _ path := Ok path |}; done.
Defined.
#[local] Instance sample_linux : Target := false.

Definition sample_policy : ExecutionSafetyPolicy :=
  with_protected_paths default_safety_policy [bstr "/home/app/catalog.db"].

Lemma validate_root_iff_witness :
  validate_root sample_policy (bstr "/data") tt = (Ok (bstr "/data"), tt)
  /\ Forall (fun p => apart (bstr "/data") (real_path tt p)) (esp_protected_paths sample_policy).
Proof.
  assert (validate_root sample_policy (bstr "/data") tt = (Ok (bstr "/data"), tt)) as H
    by (vm_compute; reflexivity).
  split; [exact H|]. apply validate_root_iff in H. apply H.
Defined.

Lemma resolve_existing_source_iff_witness :
  resolve_existing_source sample_policy (bstr "/data") (bstr "Clients/a.txt") tt
    = (Ok (bstr "/data/Clients/a.txt"), tt)
  /\ way_is_clear tt (bstr "/data") (components (bstr "Clients/a.txt"))
      (length (components (bstr "Clients/a.txt"))).
Proof.
  assert (resolve_existing_source sample_policy (bstr "/data") (bstr "Clients/a.txt") tt
    = (Ok (bstr "/data/Clients/a.txt"), tt)) as H by (vm_compute; reflexivity).
  split; [exact H|]. apply resolve_existing_source_iff in H. apply H.
Defined.

Lemma resolve_absent_destination_iff_witness :
  resolve_absent_destination sample_policy (bstr "/data") (bstr "Clients/b.txt") false tt
    = (Ok (bstr "/data/Clients/b.txt"), tt)
  /\ missing tt (bstr "/data/Clients/b.txt").
Proof.
  assert (resolve_absent_destination sample_policy (bstr "/data") (bstr "Clients/b.txt") false tt
    = (Ok (bstr "/data/Clients/b.txt"), tt)) as H by (vm_compute; reflexivity).
  split; [exact H|]. apply resolve_absent_destination_iff in H. apply H.
Defined.

(** The staging directory is recognised by its exact name only: in another
    case, which names the same directory on the file systems the program is
    made for, it is accepted as a destination. *)
Lemma staging_in_another_case_accepted :
  resolve_absent_destination sample_policy (bstr "/data") (bstr ".supremacy-staging/x") false tt
    = (Err SpProtectedPath, tt)
  /\ resolve_absent_destination sample_policy (bstr "/data") (bstr ".Supremacy-Staging/x") false tt
    = (Ok (bstr "/data/.Supremacy-Staging/x"), tt).
Proof. split; vm_compute; reflexivity. Qed.

#[local] Existing Instances sample_blake3.
#[local] Instance sample_hex : Blake3Hex := fun h => Byte.to_N <$> barr h.

Definition reordered_policy : ExecutionSafetyPolicy :=
  with_protected_paths default_safety_policy [bstr "/b"; bstr "/a"].
Definition ordered_policy : ExecutionSafetyPolicy :=
  with_protected_paths default_safety_policy [bstr "/a"; bstr "/b"].

#[local] Instance CanonicalPolicyPath_eq_dec : EqDecision CanonicalPolicyPath.
Proof. solve_decision. Defined.
#[local] Instance CanonicalSafetyPolicy_eq_dec : EqDecision CanonicalSafetyPolicy.
Proof. solve_decision. Defined.
#[local] Instance sample_policy_to_vec : ToVec CanonicalSafetyPolicy :=
  single_to_vec (canonical_policy ordered_policy).
#[local] Instance sample_policy_serde : PolicySerde.
Proof.
  split.
  - intros a b l. unfold to_vec, sample_policy_to_vec, single_to_vec.
    case_decide; [|done]. case_decide; [|done]. congruence.
  - intros h k H. apply barray_eq. unfold hash_to_hex, sample_hex in H.
    exact (list_fmap_eq_inj Byte.to_N _ _ _ H).
Qed.

Lemma binding_binds_policy_witness :
  exists x, binding reordered_policy = Ok x /\ binding ordered_policy = Ok x.
Proof.
  destruct (binding reordered_policy) as [x|e] eqn:Hx; [|vm_compute in Hx; discriminate Hx].
  destruct (binding ordered_policy) as [y|e] eqn:Hy; [|vm_compute in Hy; discriminate Hy].
  exists x. split; [reflexivity|]. f_equal. symmetry.
  apply (binding_binds_policy reordered_policy ordered_policy x y Hx Hy).
  split; try reflexivity. apply Permutation_swap.
Defined.

(** The example of the source's tests. *)
Example large_batches_need_the_phrase :
  validate_confirmation default_safety_policy 1000 true (Some (lit "organize")) = Err SpConfirmationPhraseRequired
  /\ validate_confirmation default_safety_policy 1000 true (Some CONFIRMATION_PHRASE) = Ok tt.
Proof. split; vm_compute; reflexivity. Qed.
