(* ===== verification/Planning.v ===== *)
(** * Planning: from candidates to an ordered plan

    The pure part of crates/application/src/execution.rs that prepares an
    execution: keys and prefixes of relative paths, blocked candidates,
    collisions, dependencies and their order, summaries. *)

From S2P Require Export Ordering Organization Safety.
#[local] Open Scope Z_scope.

(** ** Errors of the application layer (application/src/lib.rs)

    The payloads of the layers that are not modelled are their texts. *)

Inductive ApprovedExecutorError :=
  | AxUnavailable (detail : str)
  | AxAmbiguous (detail : str).

Inductive ApplicationError :=
  | ApInvalidWorkspaceName | ApNotFound | ApReviewIncomplete | ApSimulationBlocked
  | ApInvalidDigest | ApPersistence (text : str) | ApPlatform (error : PlatformError)
  | ApIo (error : io_error) | ApCatalog (text : str) | ApOperations (error : OperationsError)
  | ApKnowledge (text : str) | ApContentExtraction (detail : str) | ApInvalidSemanticCorrection
  | ApInvalidSemanticResult | ApInvalidIdentityDecision | ApInvalidOrganizationProposal
  | ApInvalidMonitoringRequest | ApInvalidRule | ApExecutionApprovalRequired
  | ApExecutionAlreadyActive | ApInvalidExecution | ApExecutionRecoveryRequired
  | ApJournalLocked | ApExecutionPreflightBlocked | ApExecutionConsentExpired
  | ApExecutionConfirmationDeclined | ApExecutionSafety (error : SafetyPolicyError)
  | ApApprovedExecutor (error : ApprovedExecutorError).

Definition safety_policy_error_text (error : SafetyPolicyError) : str :=
  match error with
  | SpInvalidRoot => lit "the approved root is invalid"
  | SpLinkedOrInvalidRoot => lit "the approved root is linked or is not a directory"
  | SpOutsideRoot => lit "the path is outside the approved root"
  | SpProtectedPath => lit "the path is protected by execution policy"
  | SpInvalidRelativePath => lit "the relative destination is invalid"
  | SpSourceMissing => lit "the source no longer exists"
  | SpLinkedOrSpecialEntry => lit "the source is linked or is not a regular file"
  | SpDestinationExists => lit "the destination already exists"
  | SpConfirmationRequired => lit "explicit confirmation is required"
  | SpConfirmationPhraseRequired => lit "the large-batch confirmation phrase is required"
  | SpInvalidVerificationBound =>
      lit "the execution verification bound is outside the supported range"
  | SpSerializationFailed => lit "the execution safety policy could not be serialized"
  | SpIo error => lit "filesystem safety inspection failed: " ++ io_text error
  end.

(** ** Text helpers of the standard library *)

(** [str::replace] of one character by another and [matches(c).count()]. *)
Definition replace_char (from to : char) (s : str) : str :=
  (fun c => if decide (c = from) then to else c) <$> s.
Definition count_char (c : char) (s : str) : Z := zlen (filter (fun d => d = c) s).
(** ** Relative paths *)

Definition normalize_relative_string (value : str) : str := replace_char 92%N 47%N value.

Definition is_slash (c : char) : bool := bool_decide (c = 47%N).

(** A piece [relative_path] refuses. *)
Definition bad_piece (component : str) : bool :=
  bool_decide (component = []) || bool_decide (component = lit ".")
  || bool_decide (component = lit "..").

Definition relative_path (value : str) : res ApplicationError PathBuf :=
  let normalized := normalize_relative_string value in
  reject_if (bool_decide (normalized = []) || starts_with_any [47%N] normalized
    || ends_with_any [47%N] normalized
    || bool_decide (utf8 normalized !! 1%nat = Some x3a)) ApInvalidExecution;;
  output ← fold_res (fun output component =>
      reject_if (bad_piece component) ApInvalidExecution;;
      Ok (path_join output (utf8 component))) [] (split is_slash normalized);
  reject_if (is_absolute output || existsb (fun c => negb (is_normal c)) (components output))
    ApInvalidExecution;;
  Ok output.

Definition destination_relative (destination : list str) (filename : str) : str :=
  join [47%N] (destination ++ [filename]).

(** [Path::file_name]: the last component, when it is a name. *)
Definition path_file_name (path : PathBuf) : option bytes :=
  match last (components path) with
  | Some (Normal name) => Some name
  | _ => None
  end.

Definition classify_operation (source destination : str) : ExecutionOperationKind :=
  let source := utf8 source in
  let destination := utf8 destination in
  let moved := negb (opt_path_eq (path_parent source) (path_parent destination)) in
  let renamed := negb (bool_decide (path_file_name source = path_file_name destination)) in
  match moved, renamed with
  | true, true => EokMoveAndRename
  | true, false => EokMove
  | false, true => EokRename
  | false, false => EokRename
  end.

Section keys.
Context `{UC : UnicodeCase}.

Definition path_key (value : str) : str := to_lowercase (normalize_relative_string value).

Definition is_case_only_operation (operation : ExecutionOperation) : bool :=
  match eo_source_relative_path operation with
  | Some source =>
      negb (bool_decide (source = eo_destination_relative_path operation))
      && bool_decide (path_key source = path_key (eo_destination_relative_path operation))
  | None => false
  end.

Definition is_case_only_proposal (operation : OrganizationProposalOperation) : bool :=
  let source := normalize_relative_string (pss_relative_path (opo_source operation)) in
  let destination :=
    destination_relative (opo_proposed_destination operation) (opo_proposed_name operation) in
  negb (bool_decide (source = destination)) && bool_decide (path_key source = path_key destination).

(** The body of the inner loop of [directory_prefixes]: of the spellings of one
    key the least is kept. *)
Definition note_prefix (output : gmap str str) (prefix : str) : gmap str str :=
  partial_alter (fun existing => Some match existing with
    | Some existing => if negb (str_leb existing prefix) then prefix else existing
    | None => prefix
    end) (path_key prefix) output.

Definition destination_prefixes (destination : str) : list str :=
  let components := split is_slash (normalize_relative_string destination) in
  (fun depth => join [47%N] (take depth components)) <$> seq 1 (length components - 1).

Definition depth_leb : str -> str -> bool := fun a b =>
  pair_leb Z.leb str_leb (count_char 47%N a, a) (count_char 47%N b, b).

Definition directory_prefixes (destinations : list str) : res ApplicationError (list str) :=
  output ← fold_res (fun output destination =>
      fold_res (fun output prefix =>
        _ ← relative_path prefix;
        Ok (note_prefix output prefix)) output (destination_prefixes destination))
    ∅ destinations;
  Ok (sort_by depth_leb (map_to_list output).*2).
End keys.

(** ** Small predicates *)

(** [str::parse::<i128>]. *)
Definition digits_value (s : str) : option Z :=
  if bool_decide (s = []) || negb (forallb is_ascii_digit s) then None
  else Some (foldl (fun n c => 10 * n + (Z.of_N c - 48)) 0 s).
Definition parse_i128 (s : str) : option Z :=
  n ← match s with
      | 43%N :: s => digits_value s
      | 45%N :: s => Z.opp <$> digits_value s
      | s => digits_value s
      end;
  if (- 2 ^ 127 <=? n) && (n <? 2 ^ 127) then Some n else None.

Definition modified_time_matches (expected : option str) (observed : option Z) : bool :=
  match expected with
  | Some expected => bool_decide (parse_i128 expected = observed)
  | None => true
  end.

(** What ends a computation without a value: an error, or a panic. *)
Inductive Abrupt (E : Type) : Type :=
  | Panicked
  | Failed (error : E).
Arguments Panicked {E}.
Arguments Failed {E} _.

(** [&value[a..b]] counts bytes and panics when a bound is inside a
    character. *)
Fixpoint drop_bytes (n : Z) (s : str) : option str :=
  if n =? 0 then Some s
  else match s with
  | [] => None
  | c :: s => if n <? zlen (utf8_char c) then None else drop_bytes (n - zlen (utf8_char c)) s
  end.
Definition str_slice (s : str) (a b : Z) : option str :=
  from_a ← drop_bytes a s;
  from_b ← drop_bytes b s;
  Some (take (length from_a - length from_b) from_a).

(** [u8::from_str_radix(_, 16)], which accepts a leading [+]. *)
Definition hex_digit_value (c : char) : option Z :=
  let v := Z.of_N c in
  if (48 <=? v) && (v <=? 57) then Some (v - 48)
  else if (97 <=? v) && (v <=? 102) then Some (v - 87)
  else if (65 <=? v) && (v <=? 70) then Some (v - 55) else None.
Definition u8_from_hex (s : str) : option Z :=
  let digits := match s with 43%N :: ((_ :: _) as digits) => digits | digits => digits end in
  if bool_decide (digits = []) then None
  else
    n ← foldl (fun n c => n ← n; d ← hex_digit_value c; Some (16 * n + d)) (Some 0) digits;
    if n <=? u8_max then Some n else None.

(** The bytes are read in order; the first one that is not a number ends it. *)
Fixpoint decode_hex_pairs (value : str) (index count : nat) : res unit (option bytes) :=
  match count with
  | O => Ok (Some [])
  | S count =>
      match str_slice value (2 * Z.of_nat index) (2 * Z.of_nat index + 2) with
      | None => Err tt
      | Some digits =>
          match u8_from_hex digits with
          | None => Ok None
          | Some byte =>
              rest ← decode_hex_pairs value (S index) count;
              Ok (option_map (cons (byte_of_Z byte)) rest)
          end
      end
  end.

Definition decode_hex_digest (value : str) : res unit (option bytes32) :=
  if negb (len value =? 64) then Ok None
  else
    output ← decode_hex_pairs value 0 32;
    Ok (bytes ← output; barray_of 32 bytes).

Definition encode_hex_bytes (value : bytes) : str :=
  let digit n := default 48%N (lit "0123456789abcdef" !! Z.to_nat n) in
  concat ((fun byte => [digit (Z.shiftr (byte_to_Z byte) 4); digit (Z.land (byte_to_Z byte) 15)])
    <$> value).

Definition same_file_state (expected observed : FileFingerprint) : bool :=
  let e := fp_native_identity expected in
  let o := fp_native_identity observed in
  bool_decide (vi_stable_identifier (ni_volume e) = vi_stable_identifier (ni_volume o))
  && bool_decide (ni_object_key e = ni_object_key o)
  && (ni_link_count o =? 1)
  && bool_decide (ni_reparse_tag o = None)
  && (fp_byte_size expected =? fp_byte_size observed)
  && bool_decide (fp_modified_at_ns expected = fp_modified_at_ns observed)
  && (fp_attributes expected =? fp_attributes observed)
  && bool_decide (fp_content_digest expected = fp_content_digest observed)
  && bool_decide (is_Some (fp_content_digest expected)).

Definition constant_time_equal (left right : bytes32) : bool :=
  foldl (fun difference '(l, r) => Z.lor difference (Z.lxor l r)) 0
    (zip (byte_to_Z <$> barr left) (byte_to_Z <$> barr right)) =? 0.

Definition plan_verification_code (digest_hex : str) : res unit str :=
  let compact := to_ascii_uppercase (take 8 digest_hex) in
  if len compact =? 8 then
    left ← ok_or (str_slice compact 0 4) tt;
    right ← ok_or (str_slice compact 4 8) tt;
    Ok (left ++ lit "-" ++ right)
  else Ok (lit "INVALID").

Definition source_cleanup_top_level_is_protected (value : str) : bool :=
  let lower := to_ascii_lowercase value in
  starts_with (lit ".") value
  || bool_decide (lower ∈ [lit "documents"; lit "images"; lit "pictures"; lit "photos";
       [118; 105; 100; 233; 111; 115]%N; lit "videos"; lit "archives"; lit "installateurs";
       [224; 32; 118; 233; 114; 105; 102; 105; 101; 114]%N; lit "a verifier";
       [100; 233; 118; 101; 108; 111; 112; 112; 101; 109; 101; 110; 116]%N;
       lit "developpement"; lit "applications"; lit "library"; lit "system"; lit "windows";
       lit "program files"; lit "program files (x86)"]).

(** ** Candidates *)

Record PlannedCandidate := { pc_operation : ExecutionOperation; pc_blocked : bool }.

(** The assignments to the fields of an operation. *)
Definition with_operation (f : ExecutionOperation -> ExecutionOperation)
    (candidate : PlannedCandidate) : PlannedCandidate :=
  {| pc_operation := f (pc_operation candidate); pc_blocked := pc_blocked candidate |}.

Definition execution_preconditions (internal_staging : bool) : list str :=
  [lit "source_exists"; lit "source_identity_matches"; lit "source_size_matches";
   lit "source_modified_time_matches"; lit "source_content_hash_revalidated";
   lit "destination_absent"; lit "same_volume"; lit "single_link";
   lit "no_symlink_or_reparse_traversal"; lit "no_overwrite"]
  ++ (if internal_staging then [lit "application_controlled_staging_name"] else []).

Definition block_operation (stale : bool) (code message : str) (operation : ExecutionOperation) :
    ExecutionOperation := {|
  eo_id := eo_id operation;
  eo_execution_id := eo_execution_id operation;
  eo_proposal_operation_id := eo_proposal_operation_id operation;
  eo_kind := eo_kind operation;
  eo_source_relative_path := eo_source_relative_path operation;
  eo_destination_relative_path := eo_destination_relative_path operation;
  eo_original_source_relative_path := eo_original_source_relative_path operation;
  eo_expected_source_hash := eo_expected_source_hash operation;
  eo_expected_source_size := eo_expected_source_size operation;
  eo_expected_source_modified_at := eo_expected_source_modified_at operation;
  eo_live_fingerprint := eo_live_fingerprint operation;
  eo_post_fingerprint := eo_post_fingerprint operation;
  eo_preconditions := eo_preconditions operation;
  eo_dependencies := eo_dependencies operation;
  eo_sequence := eo_sequence operation;
  eo_status := if stale then EosStale else EosBlocked;
  eo_directory_existed_before := eo_directory_existed_before operation;
  eo_reason := eo_reason operation;
  eo_error_code := Some code;
  eo_error_message := Some (take 2048 message);
  eo_started_at := eo_started_at operation;
  eo_completed_at := eo_completed_at operation;
  eo_rolled_back_at := eo_rolled_back_at operation
|}.

(** [block_operation(&mut candidate.operation, ..); candidate.blocked = true]. *)
Definition block_candidate (stale : bool) (code message : str) (candidate : PlannedCandidate) :
    PlannedCandidate :=
  {| pc_operation := block_operation stale code message (pc_operation candidate);
     pc_blocked := true |}.

Section candidates.
Context `{UC : UnicodeCase}.

Definition destination_key (candidate : PlannedCandidate) : str :=
  path_key (eo_destination_relative_path (pc_operation candidate)).

(** The destinations of [detect_plan_collisions] with their indices. *)
Definition collect_destinations (candidates : list PlannedCandidate) : gmap str (list nat) :=
  foldl (fun destinations '(index, candidate) =>
      if pc_blocked candidate then destinations
      else partial_alter (fun indexes => Some (default [] indexes ++ [index]))
             (destination_key candidate) destinations)
    ∅ (imap pair candidates).

Definition detect_plan_collisions (candidates : list PlannedCandidate) : list PlannedCandidate :=
  foldl (fun candidates indexes =>
      foldl (fun candidates index =>
          alter (block_candidate false (lit "duplicate_plan_destination")
            (lit "Multiple approved operations target the same case-insensitive destination."))
            index candidates) candidates indexes)
    candidates
    (filter (fun indexes => (1 < length indexes)%nat)
       (map_to_list (collect_destinations candidates)).*2).

(** One turn of the loop of [propagate_dependency_blocks]. *)
Definition propagate_turn (candidates : list PlannedCandidate) : list PlannedCandidate * bool :=
  let blocked_ids :=
    eo_id ∘ pc_operation <$> filter (fun candidate => pc_blocked candidate = true) candidates in
  let hit candidate :=
    negb (pc_blocked candidate)
    && existsb (fun dependency => bool_decide (dependency ∈ blocked_ids))
         (eo_dependencies (pc_operation candidate)) in
  ((fun candidate =>
      if hit candidate
      then block_candidate false (lit "blocked_dependency")
             (lit "A destination dependency is blocked.") candidate
      else candidate) <$> candidates,
   existsb hit candidates).

Fixpoint propagate_within (turns : nat) (candidates : list PlannedCandidate) :
    list PlannedCandidate :=
  match turns with
  | O => candidates
  | S turns =>
      let '(candidates, changed) := propagate_turn candidates in
      if changed : bool then propagate_within turns candidates else candidates
  end.

(** Every turn that goes on blocks a candidate. *)
Definition propagate_dependency_blocks (candidates : list PlannedCandidate) :
    list PlannedCandidate := propagate_within (S (length candidates)) candidates.

Definition source_key (candidate : PlannedCandidate) : str :=
  path_key (default [] (eo_source_relative_path (pc_operation candidate))).

Definition unblocked_indices (candidates : list PlannedCandidate) : list nat :=
  omap (fun '(index, candidate) =>
      if pc_blocked candidate then None else Some index) (imap pair candidates).

Definition id_at (candidates : list PlannedCandidate) (index : nat) : option OperationStepId :=
  eo_id ∘ pc_operation <$> candidates !! index.
Definition dependencies_at (candidates : list PlannedCandidate) (index : nat) :
    list OperationStepId :=
  default [] (eo_dependencies ∘ pc_operation <$> candidates !! index).
Definition order_key (candidates : list PlannedCandidate) (index : nat) : str * uuid :=
  match candidates !! index with
  | Some candidate => (source_key candidate, eo_id (pc_operation candidate))
  | None => ([], fill 16 x00)
  end.

(** The choice of [next] in [dependency_order]. *)
Definition next_ready (candidates : list PlannedCandidate) (remaining : list nat) : option nat :=
  let remaining_ids := omap (id_at candidates) remaining in
  min_by (fun i j => pair_leb str_leb uuid_leb (order_key candidates i) (order_key candidates j))
    (filter (fun index =>
        Forall (fun dependency => dependency ∉ remaining_ids) (dependencies_at candidates index))
      remaining).

(** The loop: the indices in order, and those that remain. *)
Fixpoint order_within (turns : nat) (candidates : list PlannedCandidate)
    (remaining ordered : list nat) : list nat * list nat :=
  match turns with
  | O => (ordered, remaining)
  | S turns =>
      match next_ready candidates remaining with
      | None => (ordered, remaining)
      | Some next =>
          order_within turns candidates (filter (fun index => index <> next) remaining)
            (ordered ++ [next])
      end
  end.

Definition dependency_order (candidates : list PlannedCandidate) : list nat * list nat :=
  let remaining := unblocked_indices candidates in
  let '(ordered, cyclic) := order_within (length remaining) candidates remaining [] in
  (ordered, sort_by (fun i j =>
     str_leb (fst (order_key candidates i)) (fst (order_key candidates j))) cyclic).
End candidates.

Definition count_where (P : PlannedCandidate -> bool) (candidates : list PlannedCandidate) : Z :=
  zlen (filter (fun candidate => P candidate = true) candidates).

Definition has_error_code (code : str) (candidate : PlannedCandidate) : bool :=
  bool_decide (eo_error_code (pc_operation candidate) = Some code).
Definition has_kind (kinds : list ExecutionOperationKind) (candidate : PlannedCandidate) : bool :=
  bool_decide (eo_kind (pc_operation candidate) ∈ kinds).

Definition execution_summary (proposal : OrganizationProposal)
    (candidates : list PlannedCandidate) (directory_count : Z) :
    res ApplicationError ExecutionSummary :=
  let files_to_move := count_where (has_kind [EokMove; EokMoveAndRename]) candidates in
  let files_to_rename := count_where (has_kind [EokRename; EokMoveAndRename]) candidates in
  let blocked := count_where pc_blocked candidates in
  let preflight_ok := usize_saturating_sub (zlen candidates) blocked in
  let checked n := ok_or (u64_try_from n) ApInvalidExecution in
  affected_files ← checked (zlen candidates);
  files_to_move ← checked files_to_move;
  files_to_rename ← checked files_to_rename;
  conflicts ← checked (count_where (fun candidate =>
      has_error_code (lit "duplicate_plan_destination") candidate
      || has_error_code (lit "destination_exists") candidate) candidates);
  needs_review ← checked (count_where (fun candidate =>
      has_error_code (lit "proposal_needs_review") candidate
      || bool_decide (eo_status (pc_operation candidate) = EosStale)) candidates);
  preflight_ok ← checked preflight_ok;
  blocked ← checked blocked;
  Ok {| es_affected_files := affected_files;
        es_folders_to_create := directory_count;
        es_files_to_move := files_to_move;
        es_files_to_rename := files_to_rename;
        es_files_unchanged := ops_unchanged (op_summary proposal);
        es_conflicts := conflicts;
        es_needs_review := needs_review;
        es_preflight_ok := preflight_ok;
        es_applied := 0; es_blocked := blocked; es_skipped := 0; es_failed := 0;
        es_rolled_back := 0; es_rollback_blocked := 0; es_rollback_failed := 0 |}.

(** ** Collisions *)

Lemma imap_pair_lookup {A} (l : list A) i a :
  (i, a) ∈ imap pair l <-> l !! i = Some a.
Proof.
  rewrite list_elem_of_lookup. setoid_rewrite list_lookup_imap_Some. naive_solver.
Qed.

Lemma imap_pair_indices {A} (l : list A) : (imap pair l).*1 = seq 0 (length l).
Proof.
  apply list_eq. intros i. rewrite list_lookup_fmap, list_lookup_imap.
  destruct (decide (i < length l)%nat) as [Hi|Hi].
  - rewrite lookup_seq_lt by done. by destruct (lookup_lt_is_Some_2 l i Hi) as [a ->].
  - rewrite lookup_ge_None_2 by lia. by rewrite lookup_seq_ge by lia.
Qed.

(** Altering several times at given indices what one alteration settles. *)
Lemma foldl_alter_lookup {A} (f : A -> A) (ixs : list nat) (l : list A) i :
  (forall a, f (f a) = f a) ->
  foldl (fun l i => alter f i l) l ixs !! i = (if decide (i ∈ ixs) then f <$> l !! i else l !! i).
Proof.
  intros Hf. revert l. induction ixs as [|j ixs IH]; intros l; cbn; [done|]. rewrite IH.
  destruct (decide (j = i)) as [->|Hne].
  - rewrite list_lookup_alter_eq. rewrite (decide_True (P := i ∈ i :: ixs)) by by left.
    case_decide; [|done]. destruct (l !! i); cbn; by rewrite ?Hf.
  - rewrite list_lookup_alter_ne by done. do 2 case_decide; set_solver.
Qed.

Lemma foldl_concat {A B} (f : A -> B -> A) a (ls : list (list B)) :
  foldl (fun a l => foldl f a l) a ls = foldl f a (concat ls).
Proof. revert a. induction ls as [|l ls IH]; intros a; cbn; [done|]. by rewrite IH, foldl_app. Qed.

Lemma elem_of_concat {A} (x : A) (ls : list (list A)) :
  x ∈ concat ls <-> exists l, l ∈ ls /\ x ∈ l.
Proof. induction ls as [|l ls IH]; cbn; [set_solver|]. rewrite elem_of_app, IH. set_solver. Qed.

Section collisions.
Context `{UC : UnicodeCase}.

(** Two unblocked candidates of one destination, ignoring case. *)
Definition collides_at (candidates : list PlannedCandidate) (i : nat) : Prop :=
  exists c j d, candidates !! i = Some c /\ pc_blocked c = false
    /\ candidates !! j = Some d /\ pc_blocked d = false
    /\ i <> j /\ destination_key c = destination_key d.

Definition indices_of_key (k : str) (ps : list (nat * PlannedCandidate)) : list nat :=
  omap (fun '(i, c) =>
    if pc_blocked c then None else if decide (destination_key c = k) then Some i else None) ps.

Lemma collect_destinations_lookup candidates k :
  collect_destinations candidates !! k =
  match indices_of_key k (imap pair candidates) with [] => None | ixs => Some ixs end.
Proof.
  unfold collect_destinations. generalize (imap pair candidates) as ps. intros ps.
  induction ps as [|[i c] ps IH] using rev_ind; [done|].
  rewrite foldl_app. cbn. unfold indices_of_key in *. rewrite omap_app. cbn.
  destruct (pc_blocked c); [by rewrite app_nil_r|].
  destruct (decide (destination_key c = k)) as [<-|Hne].
  - rewrite lookup_partial_alter_eq, IH. by destruct (omap _ ps).
  - by rewrite lookup_partial_alter_ne, app_nil_r.
Qed.

Lemma indices_of_key_spec k candidates i :
  i ∈ indices_of_key k (imap pair candidates) <->
  exists c, candidates !! i = Some c /\ pc_blocked c = false /\ destination_key c = k.
Proof.
  unfold indices_of_key. rewrite list_elem_of_omap. split.
  - intros ([i' c] & Hin%imap_pair_lookup & Hc). repeat case_match; naive_solver.
  - intros (c & Hc & Hb & Hk). exists (i, c). rewrite imap_pair_lookup, Hb.
    split; [done|]. by rewrite decide_True.
Qed.

Lemma indices_of_key_NoDup k candidates : NoDup (indices_of_key k (imap pair candidates)).
Proof.
  eapply sublist_NoDup; [apply (NoDup_seq 0 (length candidates))|].
  rewrite <- imap_pair_indices. unfold indices_of_key.
  induction (imap pair candidates) as [|[i c] ps IH]; cbn; [constructor|].
  destruct (pc_blocked c); [by constructor|]. case_decide; by constructor.
Qed.

Lemma longer_than_one (ixs : list nat) i :
  NoDup ixs -> i ∈ ixs -> ((1 < length ixs)%nat <-> exists j, j ∈ ixs /\ i <> j).
Proof.
  intros Hnd Hi. split.
  - intros Hlen. destruct ixs as [|a [|b ixs]]; cbn in Hlen; try lia.
    apply NoDup_cons in Hnd as [Ha _]. destruct (decide (i = a)) as [->|Hne].
    + exists b. set_solver.
    + exists a. set_solver.
  - intros (j & Hj & Hne). destruct ixs as [|a [|b ixs]]; cbn; [set_solver|set_solver|lia].
Qed.

Lemma colliding_indices candidates i :
  i ∈ concat (filter (fun indexes => (1 < length indexes)%nat)
        (map_to_list (collect_destinations candidates)).*2) <-> collides_at candidates i.
Proof.
  rewrite elem_of_concat. setoid_rewrite list_elem_of_filter.
  setoid_rewrite list_elem_of_fmap. unfold collides_at. split.
  - intros (ixs & (Hlen & [k ixs'] & -> & Hk%elem_of_map_to_list) & Hi). cbn in *.
    rewrite collect_destinations_lookup in Hk.
    assert (ixs' = indices_of_key k (imap pair candidates)) as ->
      by (by destruct (indices_of_key k _); simplify_eq).
    apply (longer_than_one _ i (indices_of_key_NoDup _ _) Hi) in Hlen as (j & Hj & Hne).
    apply indices_of_key_spec in Hi as (c & ? & ? & ?), Hj as (d & ? & ? & ?).
    exists c, j, d. by repeat split; congruence.
  - intros (c & j & d & Hc & Hbc & Hd & Hbd & Hne & Hk).
    set (k := destination_key c) in *.
    assert (i ∈ indices_of_key k (imap pair candidates))
      by (apply indices_of_key_spec; eauto).
    assert (j ∈ indices_of_key k (imap pair candidates))
      by (apply indices_of_key_spec; eauto).
    exists (indices_of_key k (imap pair candidates)). split; [|done].
    split; [by apply (longer_than_one _ i (indices_of_key_NoDup _ _)); eauto|].
    exists (k, indices_of_key k (imap pair candidates)). split; [done|].
    apply elem_of_map_to_list. rewrite collect_destinations_lookup.
    by destruct (indices_of_key k _); [set_solver|].
Qed.

#[export] Instance collides_at_dec candidates i : Decision (collides_at candidates i).
Proof.
  refine (cast_if (decide (i ∈ concat (filter (fun indexes => (1 < length indexes)%nat)
        (map_to_list (collect_destinations candidates)).*2)))); by rewrite <- colliding_indices.
Defined.

(** What a collision does to a candidate. *)
Definition collision_block : PlannedCandidate -> PlannedCandidate :=
  block_candidate false (lit "duplicate_plan_destination")
    (lit "Multiple approved operations target the same case-insensitive destination.").

Lemma detect_plan_collisions_lookup candidates i :
  detect_plan_collisions candidates !! i =
  (if decide (collides_at candidates i) then collision_block <$> candidates !! i
   else candidates !! i).
Proof.
  unfold detect_plan_collisions. rewrite foldl_concat, foldl_alter_lookup by done.
  do 2 case_decide; try done; by rewrite colliding_indices in *.
Qed.
End collisions.

(** ** Blocked dependencies *)

Definition dependency_block : PlannedCandidate -> PlannedCandidate :=
  block_candidate false (lit "blocked_dependency") (lit "A destination dependency is blocked.").

(** A candidate that is blocked, or depends on one that cannot be executed. *)
Inductive doomed (candidates : list PlannedCandidate) : nat -> Prop :=
  | doomed_blocked i c :
      candidates !! i = Some c -> pc_blocked c = true -> doomed candidates i
  | doomed_dependency i c j d :
      candidates !! i = Some c -> candidates !! j = Some d ->
      eo_id (pc_operation d) ∈ eo_dependencies (pc_operation c) ->
      doomed candidates j -> doomed candidates i.

(** A candidate that depends on a blocked one. *)
Definition hit (candidates : list PlannedCandidate) (candidate : PlannedCandidate) : bool :=
  negb (pc_blocked candidate)
  && existsb (fun dependency => bool_decide (dependency ∈
       eo_id ∘ pc_operation <$> filter (fun candidate => pc_blocked candidate = true) candidates))
     (eo_dependencies (pc_operation candidate)).

Lemma existsb_elem_of {A} (f : A -> bool) l :
  existsb f l = true <-> exists x, x ∈ l /\ f x = true.
Proof. rewrite existsb_exists. by setoid_rewrite list_elem_of_In. Qed.

Lemma hit_true l c :
  hit l c = true <-> pc_blocked c = false /\ exists j d, l !! j = Some d
    /\ pc_blocked d = true /\ eo_id (pc_operation d) ∈ eo_dependencies (pc_operation c).
Proof.
  unfold hit. rewrite andb_true_iff, negb_true_iff, existsb_elem_of.
  setoid_rewrite bool_decide_eq_true. setoid_rewrite list_elem_of_fmap.
  setoid_rewrite list_elem_of_filter. setoid_rewrite list_elem_of_lookup.
  unfold compose. naive_solver.
Qed.

Lemma propagate_turn_lookup l i :
  (propagate_turn l).1 !! i = (fun c => if hit l c then dependency_block c else c) <$> l !! i.
Proof. unfold propagate_turn. cbn [fst]. by rewrite list_lookup_fmap. Qed.

Lemma turn_keeps_ids l c :
  eo_id (pc_operation (if hit l c then dependency_block c else c)) = eo_id (pc_operation c)
  /\ eo_dependencies (pc_operation (if hit l c then dependency_block c else c))
     = eo_dependencies (pc_operation c).
Proof. by destruct (hit l c). Qed.

Lemma propagate_turn_doomed l i : doomed (propagate_turn l).1 i <-> doomed l i.
Proof.
  split.
  - induction 1 as [i c Hc Hb|i c j d Hc Hd Hdep _ IH].
    + rewrite propagate_turn_lookup in Hc. apply fmap_Some in Hc as (c0 & Hc & ->).
      destruct (hit l c0) eqn:Hhit; [|by eapply doomed_blocked].
      apply hit_true in Hhit as (_ & j & d & Hd & Hbd & Hdep).
      eapply doomed_dependency; [done..|]. by eapply doomed_blocked.
    + rewrite propagate_turn_lookup in Hc, Hd.
      apply fmap_Some in Hc as (c0 & Hc & ->), Hd as (d0 & Hd & ->).
      rewrite (proj1 (turn_keeps_ids _ _)), (proj2 (turn_keeps_ids _ _)) in Hdep.
      by eapply doomed_dependency.
  - induction 1 as [i c Hc Hb|i c j d Hc Hd Hdep _ IH].
    + apply (doomed_blocked _ i (if hit l c then dependency_block c else c)).
      * by rewrite propagate_turn_lookup, Hc.
      * by destruct (hit l c).
    + eapply (doomed_dependency _ i _ j);
        [by rewrite propagate_turn_lookup, Hc|by rewrite propagate_turn_lookup, Hd| |done].
      by rewrite (proj1 (turn_keeps_ids _ _)), (proj2 (turn_keeps_ids _ _)).
Qed.

Definition unblocked_count (l : list PlannedCandidate) : nat :=
  length (filter (fun c => pc_blocked c = false) l).

Lemma blocking_count (h : PlannedCandidate -> bool) l :
  (forall c, h c = true -> pc_blocked c = false) ->
  (unblocked_count ((fun c => if h c then dependency_block c else c) <$> l)
     <= unblocked_count l)%nat
  /\ (existsb h l = true ->
     (unblocked_count ((fun c => if h c then dependency_block c else c) <$> l)
        < unblocked_count l)%nat).
Proof.
  intros Hh. unfold unblocked_count. induction l as [|c k [IHle IHlt]]; cbn [existsb]; [done|].
  rewrite fmap_cons, !filter_cons. destruct (h c) eqn:Hc; cbn [orb].
  - pose proof (Hh c Hc). repeat case_decide; cbn in *; try congruence; split; [|intros _]; lia.
  - split; [|intros Hk; specialize (IHlt Hk)]; case_decide; cbn; lia.
Qed.

Lemma propagate_turn_count l :
  (propagate_turn l).2 = true -> (unblocked_count (propagate_turn l).1 < unblocked_count l)%nat.
Proof. intros H. apply (blocking_count (hit l) l); [|exact H]. intros c ?%hit_true. naive_solver. Qed.

(** A turn that changes nothing leaves no blocked dependency. *)
Lemma propagate_turn_stable l :
  (propagate_turn l).2 = false ->
  (propagate_turn l).1 = l
  /\ forall i c, l !! i = Some c -> doomed l i -> pc_blocked c = true.
Proof.
  intros Hno.
  assert (forall c, c ∈ l -> hit l c = false) as Hhit.
  { intros c Hc. apply not_true_iff_false. intros Ht.
    assert (existsb (hit l) l = true) as Hex by (apply existsb_elem_of; eauto).
    unfold propagate_turn in Hno. cbn [snd] in Hno. unfold hit in Hex. congruence. }
  split.
  - apply list_eq. intros i. rewrite propagate_turn_lookup. destruct (l !! i) as [c|] eqn:Hc; [|done].
    cbn. by rewrite Hhit by (by eapply list_elem_of_lookup_2).
  - intros i c Hc Hdoom. revert c Hc.
    induction Hdoom as [i c' Hc' Hb|i c' j d Hc' Hd Hdep _ IH]; intros c Hc;
      rewrite Hc in Hc'; injection Hc' as <-; [done|].
    apply not_false_iff_true. intros Hb.
    assert (hit l c = true) as Ht by (apply hit_true; eauto 10).
    rewrite Hhit in Ht by (by eapply list_elem_of_lookup_2). done.
Qed.

(** The result of the loop: it is stable, and blocks what is doomed. *)
Definition settled (l l' : list PlannedCandidate) : Prop :=
  propagate_turn l' = (l', false) /\ length l' = length l /\
  forall i c, l !! i = Some c -> exists c', l' !! i = Some c'
    /\ (pc_blocked c' = true <-> doomed l i)
    /\ c' = (if pc_blocked c' && negb (pc_blocked c) then dependency_block c else c).

Lemma propagate_within_settled n l :
  (unblocked_count l < n)%nat -> settled l (propagate_within n l).
Proof.
  revert l. induction n as [|n IH]; intros l Hn; [lia|]. cbn [propagate_within].
  destruct (propagate_turn l) as [l1 changed] eqn:Hturn.
  pose proof (propagate_turn_lookup l) as Hl1. pose proof (propagate_turn_doomed l) as Hdoom.
  rewrite Hturn in Hl1, Hdoom. cbn [fst] in *. destruct changed.
  - pose proof (propagate_turn_count l) as Hcount. rewrite Hturn in Hcount. cbn [fst snd] in Hcount.
    destruct (IH l1) as (Hst & Hlen & Hspec); [specialize (Hcount eq_refl); lia|].
    split_and!; [done| |].
    { rewrite Hlen. change l1 with (l1, true).1. rewrite <- Hturn. apply length_fmap. }
    intros i c Hc. specialize (Hl1 i). rewrite Hc in Hl1. cbn in Hl1.
    destruct (Hspec _ _ Hl1) as (c' & Hc' & Hd & Heq). exists c'. rewrite Hdoom in Hd.
    split; [done|]. split; [done|]. destruct (hit l c) eqn:Hhit; [|done].
    rewrite andb_false_r in Heq. apply hit_true in Hhit as [-> _]. by subst c'.
  - pose proof (propagate_turn_stable l) as Hst. rewrite Hturn in Hst.
    cbn [fst snd] in Hst. destruct (Hst eq_refl) as [-> Hblocked]. split_and!; [done|done|].
    intros i c Hc. exists c. split; [done|]. rewrite andb_negb_r. split; [|done].
    split; [by eapply doomed_blocked|by apply Hblocked].
Qed.

Lemma propagate_settled l : settled l (propagate_dependency_blocks l).
Proof.
  apply propagate_within_settled. unfold unblocked_count.
  pose proof (length_filter (fun c => pc_blocked c = false) l). lia.
Qed.

(** ** The order of execution *)

Section order.
Context `{UC : UnicodeCase}.

(** Nothing in [pending] is a dependency of [i]. *)
Definition independent_of (candidates : list PlannedCandidate) (pending : list nat) (i : nat) : Prop :=
  forall j d, j ∈ pending -> id_at candidates j = Some d -> d ∉ dependencies_at candidates i.

(** Every one of [stuck] waits for one of them. *)
Definition deadlocked (candidates : list PlannedCandidate) (stuck : list nat) : Prop :=
  forall i, i ∈ stuck -> exists j d, j ∈ stuck /\ id_at candidates j = Some d
    /\ d ∈ dependencies_at candidates i.

Lemma ready_iff candidates remaining i :
  Forall (fun dependency => dependency ∉ omap (id_at candidates) remaining)
    (dependencies_at candidates i) <-> independent_of candidates remaining i.
Proof.
  rewrite Forall_forall. setoid_rewrite list_elem_of_omap. unfold independent_of. naive_solver.
Qed.

Lemma next_ready_Some candidates remaining i :
  next_ready candidates remaining = Some i ->
  i ∈ remaining /\ independent_of candidates remaining i.
Proof.
  unfold next_ready, min_by. destruct (filter _ remaining) as [|a l] eqn:Hf; [done|]. intros [= <-].
  rewrite <- ready_iff. apply and_comm.
  apply (list_elem_of_filter (fun index => Forall (fun dependency =>
    dependency ∉ omap (id_at candidates) remaining) (dependencies_at candidates index))).
  rewrite Hf. clear Hf. revert a. induction l as [|b l IH]; intros a; cbn [foldl]; [by left|].
  destruct (pair_leb _ _ _ _); [|by right].
  specialize (IH a). apply elem_of_cons in IH as [->|?]; [by left|by do 2 right].
Qed.

Lemma next_ready_None candidates remaining :
  next_ready candidates remaining = None -> deadlocked candidates remaining.
Proof.
  unfold next_ready. rewrite min_by_None. intros Hf i Hi.
  destruct (decide (Forall (fun dependency => dependency ∉ omap (id_at candidates) remaining)
    (dependencies_at candidates i))) as [Hall|Hnot].
  - assert (i ∈ @nil nat) as []%elem_of_nil. rewrite <- Hf. by apply list_elem_of_filter.
  - apply not_Forall_Exists in Hnot; [|apply _]. apply Exists_exists in Hnot as (d & Hd & Hin).
    apply dec_stable in Hin. apply list_elem_of_omap in Hin as (j & Hj & Hid). eauto.
Qed.

Lemma remove_perm (l : list nat) i :
  NoDup l -> i ∈ l -> l ≡ₚ i :: filter (fun j => j <> i) l.
Proof.
  intros Hnd Hi. apply list_elem_of_split in Hi as (l1 & l2 & ->).
  rewrite NoDup_app in Hnd. destruct Hnd as (_ & Hd & [Hi Hnd]%NoDup_cons).
  assert (forall k : list nat, i ∉ k -> filter (fun j => j <> i) k = k) as Hk.
  { intros k. induction k as [|j k IH]; [done|]. rewrite not_elem_of_cons, filter_cons.
    intros [? ?]. rewrite decide_True by done. by rewrite IH. }
  rewrite filter_app, filter_cons, decide_False by auto. rewrite !Hk; [|done|set_solver].
  by rewrite Permutation_middle.
Qed.

Lemma order_within_spec n candidates remaining ordered o r :
  (length remaining <= n)%nat -> NoDup remaining ->
  order_within n candidates remaining ordered = (o, r) ->
  exists new, o = ordered ++ new /\ new ++ r ≡ₚ remaining
    /\ (forall k i, new !! k = Some i -> independent_of candidates (drop k new ++ r) i)
    /\ deadlocked candidates r.
Proof.
  revert remaining ordered. induction n as [|n IH]; intros remaining ordered Hlen Hnd; cbn.
  { destruct remaining; cbn in Hlen; [|lia]. intros [= <- <-]. exists [].
    rewrite app_nil_r. repeat split; [done|by intros ? ?|by intros ? []%elem_of_nil]. }
  destruct (next_ready candidates remaining) as [i|] eqn:Hnext.
  - apply next_ready_Some in Hnext as [Hi Hind]. intros Hgo.
    pose proof (remove_perm _ _ Hnd Hi) as Hperm.
    apply IH in Hgo as (new & -> & Hnew & Hindep & Hdead).
    + exists (i :: new). rewrite <- app_assoc. repeat split; [by rewrite Hperm, <- Hnew| |done].
      intros [|k] i' Hk; cbn in Hk |- *; [|by apply Hindep]. injection Hk as <-.
      intros j d Hj. apply Hind. rewrite Hperm, <- Hnew. done.
    + apply Permutation_length in Hperm. cbn in Hperm. lia.
    + by apply NoDup_filter.
  - intros [= <- <-]. exists []. rewrite app_nil_r.
    repeat split; [done|by intros ? ?|by apply next_ready_None].
Qed.

Lemma unblocked_indices_spec candidates i :
  i ∈ unblocked_indices candidates <->
  exists c, candidates !! i = Some c /\ pc_blocked c = false.
Proof.
  unfold unblocked_indices. rewrite list_elem_of_omap. split.
  - intros ([j c] & Hj%imap_pair_lookup & Hc). destruct (pc_blocked c) eqn:?; naive_solver.
  - intros (c & Hc & Hb). exists (i, c). by rewrite imap_pair_lookup, Hb.
Qed.

Lemma unblocked_indices_NoDup candidates : NoDup (unblocked_indices candidates).
Proof.
  eapply sublist_NoDup; [apply (NoDup_seq 0 (length candidates))|].
  rewrite <- imap_pair_indices. unfold unblocked_indices.
  induction (imap pair candidates) as [|[i c] ps IH]; cbn; [constructor|].
  destruct (pc_blocked c); by constructor.
Qed.

Lemma dependency_order_facts candidates ordered cyclic :
  dependency_order candidates = (ordered, cyclic) ->
  ordered ++ cyclic ≡ₚ unblocked_indices candidates
  /\ (forall k i, ordered !! k = Some i ->
        independent_of candidates (drop k ordered ++ cyclic) i)
  /\ deadlocked candidates cyclic.
Proof.
  unfold dependency_order.
  destruct (order_within _ _ _ _) as [o r] eqn:Ho. intros [= <- <-].
  apply order_within_spec in Ho as (new & -> & Hperm & Hind & Hdead);
    [|done|apply unblocked_indices_NoDup]. cbn [app].
  pose proof (sort_by_perm (fun i j => str_leb (order_key candidates i).1
    (order_key candidates j).1) r) as Hsort.
  repeat split.
  - by rewrite Hsort.
  - intros k i Hk j d Hj. eapply Hind; [done|]. by rewrite Hsort in Hj.
  - intros i Hi. rewrite Hsort in Hi. destruct (Hdead i Hi) as (j & d & Hj & ?).
    exists j, d. by rewrite Hsort.
Qed.

(** [dependency_order] lists every unblocked candidate once; each one comes
    after all its dependencies among them, and the candidates it gives back as
    cyclic are exactly those left waiting for one another: each depends on one
    of them, so none could have been ordered. *)
Theorem dependency_order_spec candidates :
  let '(ordered, cyclic) := dependency_order candidates in
  ordered ++ cyclic ≡ₚ unblocked_indices candidates
  /\ (forall k i, ordered !! k = Some i ->
        independent_of candidates (drop k ordered ++ cyclic) i)
  /\ deadlocked candidates cyclic.
Proof.
  destruct (dependency_order candidates) as [ordered cyclic] eqn:Ho.
  by apply dependency_order_facts.
Qed.
End order.

(** ** Relative paths *)

Lemma is_slash_true c : is_slash c = true <-> c = 47%N.
Proof. apply bool_decide_eq_true. Qed.

Lemma slash_at_an_end s :
  starts_with_any [47%N] s || ends_with_any [47%N] s = true -> [] ∈ split is_slash s.
Proof.
  intros [H|H]%orb_true_iff.
  - destruct s as [|c s]; [done|]. cbn in H. apply bool_decide_eq_true, list_elem_of_singleton in H as ->.
    cbn. by left.
  - destruct s as [|c s _] using rev_ind; [done|]. rewrite ends_with_any_app in H.
    apply bool_decide_eq_true, list_elem_of_singleton in H as ->.
    rewrite split_app_sep by done. apply elem_of_app. right. by left.
Qed.

Lemma bad_piece_false c :
  bad_piece c = false <-> c <> [] /\ c <> lit "." /\ c <> lit "..".
Proof. unfold bad_piece. rewrite !orb_false_iff, !bool_decide_eq_false. naive_solver. Qed.

Lemma normalize_scalar s :
  Forall (fun c => is_scalar c = true) s ->
  Forall (fun c => is_scalar c = true) (normalize_relative_string s).
Proof.
  intros H. apply Forall_fmap. eapply Forall_impl; [exact H|]. intros c Hc. cbn.
  by case_decide.
Qed.

Lemma split_plain s :
  Forall (fun c => is_scalar c = true) s ->
  Forall (fun c => bad_piece c = false) (split is_slash s) ->
  Forall plain (utf8 <$> split is_slash s).
Proof.
  intros Hs Hgood. apply Forall_fmap. pose proof (split_scalar is_slash s Hs) as H1.
  pose proof (split_no_sep is_slash s) as H2. rewrite Forall_forall in *. intros c Hc.
  destruct (proj1 (bad_piece_false c) (Hgood c Hc)) as (? & ? & ?).
  apply plain_utf8; auto. intros Hin. specialize (H2 c Hc). rewrite Forall_forall in H2.
  by apply H2 in Hin.
Qed.

(** [relative_path] accepts exactly the texts that, with backslashes read as
    slashes, are a sequence of names (not empty, neither [.] nor [..]) and have
    no colon as their second byte; the path it returns has these names as its
    components. *)
Theorem relative_path_iff value :
  Forall (fun c => is_scalar c = true) value ->
  let names := split is_slash (normalize_relative_string value) in
  if decide (Forall (fun c => bad_piece c = false) names
     /\ utf8 (normalize_relative_string value) !! 1%nat <> Some x3a)
  then exists path, relative_path value = Ok path
    /\ components path = (fun name => Normal (utf8 name)) <$> names
  else relative_path value = Err ApInvalidExecution.
Proof.
  intros Hs%normalize_scalar names. unfold relative_path. fold names.
  set (normalized := normalize_relative_string value) in *.
  destruct (decide _) as [[Hgood Hcolon]|Hno].
  - rewrite (bool_decide_eq_false_2 (_ !! _ = _)) by done. rewrite orb_false_r.
    destruct (_ || _) eqn:Hends.
    { exfalso. assert ([] ∈ names) as Hin.
      { rewrite <- orb_assoc in Hends. apply orb_true_iff in Hends as [Hnil|Hends].
        - apply bool_decide_eq_true in Hnil. unfold names. rewrite Hnil. by left.
        - by apply slash_at_an_end. }
      rewrite Forall_forall in Hgood. by apply Hgood in Hin. }
    cbn [reject_if mbind res_bind].
    rewrite (push_all bad_piece ApInvalidExecution [] names Hgood). cbn [mbind res_bind].
    pose proof (split_plain _ Hs Hgood) as Hplain. fold names in Hplain.
    rewrite components_pushed by done.
    assert (is_absolute (foldl path_join [] (utf8 <$> names)) = false) as ->.
    { apply not_true_iff_false. intros Habs. pose proof (components_pushed _ Hplain) as Hc.
      unfold components in Hc. rewrite Habs in Hc. by destruct (utf8 <$> names). }
    rewrite <- list_fmap_compose. cbn [orb].
    replace (existsb _ _) with false.
    + eexists. split; [done|]. rewrite components_pushed by done. by rewrite <- list_fmap_compose.
    + symmetry. apply not_true_iff_false. rewrite existsb_elem_of. intros (c & Hc & Hn).
      by apply list_elem_of_fmap in Hc as (name & -> & _).
  - destruct (_ || _) eqn:Hends; [done|]. cbn [reject_if mbind res_bind].
    apply orb_false_iff in Hends as [_ Hcolon%bool_decide_eq_false].
    rewrite (push_bad bad_piece ApInvalidExecution [] names); [done|].
    apply not_false_iff_true. intros Hall. apply Hno. split; [|done].
    apply Forall_forall. intros c Hc. apply not_true_iff_false. intros Hb.
    rewrite <- not_true_iff_false, existsb_elem_of in Hall. eauto.
Qed.

(** ** Directories *)

Lemma fold_res_concat {E A S} (f : S -> A -> res E S) s (ls : list (list A)) :
  fold_res (fun s l => fold_res f s l) s ls = fold_res f s (concat ls).
Proof.
  revert s. induction ls as [|l ls IH]; intros s; cbn [fold_res concat]; [done|].
  rewrite fold_res_app. destruct (fold_res f s l); [|done]. apply IH.
Qed.

Lemma fold_res_fmap {E A B S} (f : S -> B -> res E S) (g : A -> B) s l :
  fold_res (fun s a => f s (g a)) s l = fold_res f s (g <$> l).
Proof.
  revert s. induction l as [|a l IH]; intros s; cbn [fold_res fmap list_fmap]; [done|].
  destruct (f s (g a)); [|done]. apply IH.
Qed.

#[export] Instance depth_leb_order : TotalPreorder depth_leb.
Proof.
  apply (key_order (pair_leb Z.leb str_leb) (fun a => (count_char 47%N a, a))).
  apply pair_leb_order; [apply _| |apply _]. intros a b. rewrite !Z.leb_le. lia.
Qed.

Section directories.
Context `{UC : UnicodeCase}.

Definition all_prefixes (destinations : list str) : list str :=
  concat (destination_prefixes <$> destinations).

Definition prefix_step (output : gmap str str) (prefix : str) :
    res ApplicationError (gmap str str) :=
  _ ← relative_path prefix;
  Ok (note_prefix output prefix).

(** What the map holds after the prefixes [ps]. *)
Definition prefixes_noted (ps : list str) (output : gmap str str) : Prop :=
  (forall k v, output !! k = Some v -> v ∈ ps /\ path_key v = k)
  /\ (forall q, q ∈ ps -> exists v, output !! path_key q = Some v /\ str_leb v q = true)
  /\ Forall (fun q => is_ok (relative_path q) = true) ps.

Lemma note_prefix_noted ps output q :
  prefixes_noted ps output -> is_ok (relative_path q) = true ->
  prefixes_noted (ps ++ [q]) (note_prefix output q).
Proof.
  intros (Hfrom & Hall & Hok) Hq. unfold note_prefix. split_and!.
  - intros k v. destruct (decide (path_key q = k)) as [<-|Hne].
    + rewrite lookup_partial_alter_eq. intros [= <-].
      destruct (output !! path_key q) as [w|] eqn:Hw; [|set_solver].
      destruct (Hfrom _ _ Hw). destruct (str_leb w q); set_solver.
    + rewrite lookup_partial_alter_ne by done. intros (? & ?)%Hfrom. set_solver.
  - intros p [Hp|Hp%list_elem_of_singleton]%elem_of_app; [|subst p].
    + destruct (Hall p Hp) as (v & Hv & Hle). destruct (decide (path_key q = path_key p)) as [He|Hne].
      * rewrite He, lookup_partial_alter_eq, Hv. eexists. split; [done|].
        destruct (str_leb v q) eqn:Hvq; cbn; [done|].
        eapply tp_trans; [|exact Hle]. by apply (tp_flip str_leb).
      * rewrite lookup_partial_alter_ne by done. eauto.
    + rewrite lookup_partial_alter_eq. eexists. split; [done|].
      destruct (output !! path_key q) as [w|]; [|apply tp_refl, _].
      destruct (str_leb w q) eqn:Hw; cbn; [done|apply tp_refl, _].
  - apply Forall_app. by repeat constructor.
Qed.

Lemma prefix_fold_noted ps output :
  fold_res prefix_step ∅ ps = Ok output -> prefixes_noted ps output.
Proof.
  revert output. induction ps as [|q ps IH] using rev_ind; intros output.
  { intros [= <-]. split_and!; [by intros ? ?|by intros ? ?%elem_of_nil|constructor]. }
  rewrite fold_res_app, bind_Ok. intros (o & Ho & Hq). cbn in Hq.
  unfold prefix_step in Hq. destruct (relative_path q) as [p|] eqn:Hp; [|done].
  cbn in Hq. injection Hq as <-. apply note_prefix_noted; [by apply IH|by rewrite Hp].
Qed.

Lemma prefix_fold_err ps output e :
  fold_res prefix_step output ps = Err e ->
  e = ApInvalidExecution /\ Exists (fun q => is_err (relative_path q) = true) ps.
Proof.
  revert output. induction ps as [|q ps IH]; intros output; cbn [fold_res]; [done|].
  unfold prefix_step at 2. destruct (relative_path q) as [p|e'] eqn:Hp; cbn [mbind res_bind].
  - fold prefix_step. intros (? & ?)%IH. split; [done|]. by constructor 2.
  - intros [= ->]. split; [|constructor; by rewrite Hp]. unfold relative_path in Hp.
    repeat first [ apply bind_Err in Hp as [Hp|(? & _ & Hp)]
                 | apply reject_if_Err in Hp as [_ <-]; done ]; [|done].
    destruct (existsb bad_piece (split is_slash (normalize_relative_string q))) eqn:Hb.
    + rewrite push_bad in Hp by done. by injection Hp.
    + rewrite push_all in Hp; [done|]. apply Forall_forall. intros c Hc.
      apply not_true_iff_false. intros ?. rewrite <- not_true_iff_false, existsb_elem_of in Hb. eauto.
Qed.

(** The directories of a list of destinations: nothing but their proper
    prefixes, each of them up to case and only once up to case, shallow ones
    first; and they fail only if one of the prefixes is no relative path. *)
Theorem directory_prefixes_spec destinations :
  match directory_prefixes destinations with
  | Ok prefixes =>
      (forall p, p ∈ prefixes -> p ∈ all_prefixes destinations)
      /\ (forall q, q ∈ all_prefixes destinations ->
            is_ok (relative_path q) = true
            /\ exists p, p ∈ prefixes /\ path_key p = path_key q /\ str_leb p q = true)
      /\ NoDup (path_key <$> prefixes)
      /\ StronglySorted (fun a b => depth_leb a b = true) prefixes
  | Err e => e = ApInvalidExecution
      /\ Exists (fun q => is_err (relative_path q) = true) (all_prefixes destinations)
  end.
Proof.
  unfold directory_prefixes.
  change (fold_res _ ∅ destinations) with
    (fold_res (fun s d => fold_res prefix_step s (destination_prefixes d)) ∅ destinations).
  rewrite (fold_res_fmap (fun s l => fold_res prefix_step s l)), fold_res_concat.
  fold (all_prefixes destinations).
  destruct (fold_res prefix_step ∅ _) as [output|e] eqn:Ho; cbn [mbind res_bind].
  - apply prefix_fold_noted in Ho as (Hfrom & Hall & Hok).
    assert (forall p, p ∈ sort_by depth_leb (map_to_list output).*2
      <-> exists k, output !! k = Some p) as Hin.
    { intros p. rewrite sort_by_perm, list_elem_of_fmap. split.
      - intros ([k v] & -> & ?%elem_of_map_to_list). eauto.
      - intros [k ?]. exists (k, p). by rewrite elem_of_map_to_list. }
    split_and!; [| | |apply sort_by_sorted, _].
    + intros p [k Hk]%Hin. by apply Hfrom in Hk as [? _].
    + intros q Hq. rewrite Forall_forall in Hok. split; [by apply Hok|].
      destruct (Hall q Hq) as (v & Hv & Hle). exists v. rewrite Hin. split; [eauto|].
      split; [|done]. by apply Hfrom in Hv as [_ ?].
    + rewrite sort_by_perm, <- list_fmap_compose.
      replace ((path_key ∘ snd) <$> map_to_list output) with ((map_to_list output).*1);
        [apply NoDup_fst_map_to_list|].
      apply list_fmap_ext. intros i [k v] Hi%list_elem_of_lookup_2.
      apply elem_of_map_to_list, Hfrom in Hi as [_ <-]. done.
  - by apply prefix_fold_err in Ho.
Qed.
End directories.

(** ** Collisions, blocks and comparisons: the statements *)

(** [detect_plan_collisions] blocks exactly the unblocked candidates whose
    destination, up to case, is that of another unblocked one, and leaves all
    others as they are. *)
Theorem detect_plan_collisions_spec `{UC : UnicodeCase} candidates i :
  detect_plan_collisions candidates !! i =
  (if decide (collides_at candidates i) then collision_block <$> candidates !! i
   else candidates !! i).
Proof. apply detect_plan_collisions_lookup. Qed.

(** The loop of [propagate_dependency_blocks] ends, and blocks exactly the
    candidates from which a chain of dependencies leads to a blocked one: the
    least set closed under "depends on a blocked candidate". *)
Theorem propagate_dependency_blocks_spec candidates :
  settled candidates (propagate_dependency_blocks candidates).
Proof. apply propagate_settled. Qed.

Lemma lor_lxor_fold (ps : list (Z * Z)) (d : Z) :
  Forall (fun p => 0 <= p.1 /\ 0 <= p.2) ps -> 0 <= d ->
  (foldl (fun difference '(l, r) => Z.lor difference (Z.lxor l r)) d ps = 0
   <-> d = 0 /\ Forall (fun p => p.1 = p.2) ps).
Proof.
  intros Hps. revert d. induction Hps as [|[x y] ps [Hx Hy] _ IH]; intros d Hd; cbn.
  { split; [by repeat constructor|naive_solver]. }
  cbn in Hx, Hy. rewrite IH.
  - rewrite Z.lor_eq_0_iff, Z.lxor_eq_0_iff, Forall_cons. cbn. naive_solver.
  - apply Z.lor_nonneg. split; [done|]. apply Z.lxor_nonneg. lia.
Qed.

(** [constant_time_equal] is equality of digests. *)
Theorem constant_time_equal_iff left right : constant_time_equal left right = true <-> left = right.
Proof.
  unfold constant_time_equal. rewrite Z.eqb_eq, lor_lxor_fold; [|..|done].
  - split; [|intros ->; split; [done|]].
    + intros [_ H]. apply barray_eq. assert (length (barr left) = length (barr right)) as Hlen
        by (by rewrite !barr_len).
      apply list_eq_same_length with 32%nat; [by rewrite barr_len..|]. intros i x y _ Hx Hy.
      rewrite Forall_forall in H. apply byte_to_Z_inj.
      apply (H (byte_to_Z x, byte_to_Z y)), list_elem_of_lookup. exists i.
      apply lookup_zip_with_Some. eexists _, _. by rewrite !list_lookup_fmap, Hx, Hy.
    + apply Forall_forall. intros [x y] (i & Hi)%list_elem_of_lookup.
      apply lookup_zip_with_Some in Hi as (? & ? & [= -> ->] & Hx & Hy). cbn. congruence.
  - apply Forall_forall. intros [x y] (i & Hi)%list_elem_of_lookup.
    apply lookup_zip_with_Some in Hi as (? & ? & [= -> ->] & Hx & Hy). cbn.
    rewrite list_lookup_fmap in Hx, Hy.
    apply fmap_Some in Hx as (? & _ & ->), Hy as (? & _ & ->).
    split; apply byte_to_Z_range.
Qed.

(** A snapshot hash with a sign in front of a digit is taken for a digest. *)
Lemma signed_digits_are_a_digest :
  exists digest, decode_hex_digest (concat (replicate 32 (lit "+f"))) = Ok (Some digest).
Proof. eexists. vm_compute. reflexivity. Qed.
