(* ===== verification/PlanDigest.v ===== *)
(** * The digest of a prepared execution

    crates/application/src/execution.rs: the canonical material of a plan, its
    digest, and the check that a stored execution still is what was digested. *)

From S2P Require Export Planning Samples.
#[local] Open Scope Z_scope.

Record CanonicalOperation := {
  co_id : OperationStepId;
  co_proposal_operation_id : option ProposalItemId;
  co_kind : ExecutionOperationKind;
  co_source_relative_path : option str;
  co_destination_relative_path : str;
  co_original_source_relative_path : option str;
  co_expected_source_hash : option str;
  co_expected_source_size : option Z;
  co_expected_source_modified_at : option str;
  co_live_fingerprint : option FileFingerprint;
  co_preconditions : list str;
  co_dependencies : list OperationStepId;
  co_sequence : Z;
  co_directory_existed_before : option bool
}.

Record CanonicalPlanMaterial := {
  cpm_material_version : Z;
  cpm_execution_id : ExecutionId;
  cpm_plan_id : PlanId;
  cpm_proposal_id : ProposalId;
  cpm_proposal_revision_id : OrganizationRevisionId;
  cpm_proposal_revision : Z;
  cpm_source_scan_id : ScanId;
  cpm_approved_operation_ids : list ProposalItemId;
  cpm_approved_operation_count : Z;
  cpm_root_id : RootId;
  cpm_destination_root : ExecutionRootBinding;
  cpm_safety_policy : ExecutionSafetyPolicyBinding;
  cpm_operations : list CanonicalOperation
}.

Definition canonical_operation (operation : ExecutionOperation) : CanonicalOperation := {|
  co_id := eo_id operation;
  co_proposal_operation_id := eo_proposal_operation_id operation;
  co_kind := eo_kind operation;
  co_source_relative_path := eo_source_relative_path operation;
  co_destination_relative_path := eo_destination_relative_path operation;
  co_original_source_relative_path := eo_original_source_relative_path operation;
  co_expected_source_hash := eo_expected_source_hash operation;
  co_expected_source_size := eo_expected_source_size operation;
  co_expected_source_modified_at := eo_expected_source_modified_at operation;
  co_live_fingerprint := eo_live_fingerprint operation;
  co_preconditions := eo_preconditions operation;
  co_dependencies := eo_dependencies operation;
  co_sequence := eo_sequence operation;
  co_directory_existed_before := eo_directory_existed_before operation
|}.

(** The filter of [plan_digest]: operations of the plan's own and approved
    ones. *)
Definition is_digested (approved : list ProposalItemId) (operation : ExecutionOperation) : bool :=
  match eo_proposal_operation_id operation with
  | None => true
  | Some operation_id => bool_decide (operation_id ∈ approved)
  end.

Definition canonical_operations (approved : list ProposalItemId)
    (operations : list ExecutionOperation) : list CanonicalOperation :=
  canonical_operation <$> filter (fun operation => is_digested approved operation = true) operations.

(** The identifiers [verify_plan_digest] collects and sorts. *)
Definition executable_operation_ids (operations : list ExecutionOperation) : list ProposalItemId :=
  sort_by uuid_leb (omap eo_proposal_operation_id
    (filter (fun operation => eo_status operation ∉ [EosBlocked; EosStale]) operations)).

(** [windows(2).any(|pair| pair[0] >= pair[1])]. *)
Fixpoint any_unordered (ids : list uuid) : bool :=
  match ids with
  | a :: (b :: _) as rest => negb (uuid_lt a b) || any_unordered rest
  | _ => false
  end.

Section digest.
Context `{B3 : Blake3} `{BH : Blake3Hex} `{TM : ToVec CanonicalPlanMaterial}.

Definition plan_digest (execution_id : ExecutionId) (plan_id : PlanId) (proposal_id : ProposalId)
    (proposal_revision_id : OrganizationRevisionId) (proposal_revision : Z)
    (source_scan_id : ScanId) (approved_operation_ids : list ProposalItemId)
    (approved_operation_count : Z) (root_id : RootId) (destination_root : ExecutionRootBinding)
    (safety_policy : ExecutionSafetyPolicyBinding) (operations : list ExecutionOperation) :
    res ApplicationError str :=
  let material := {|
    cpm_material_version := EXECUTION_PLAN_MATERIAL_VERSION;
    cpm_execution_id := execution_id;
    cpm_plan_id := plan_id;
    cpm_proposal_id := proposal_id;
    cpm_proposal_revision_id := proposal_revision_id;
    cpm_proposal_revision := proposal_revision;
    cpm_source_scan_id := source_scan_id;
    cpm_approved_operation_ids := approved_operation_ids;
    cpm_approved_operation_count := approved_operation_count;
    cpm_root_id := root_id;
    cpm_destination_root := destination_root;
    cpm_safety_policy := safety_policy;
    cpm_operations := canonical_operations approved_operation_ids operations |} in
  encoded ← map_err (fun _ => ApInvalidExecution) (to_vec material);
  Ok (hash_to_hex (blake3_hash encoded)).

Definition verify_plan_digest (detail : ExecutionDetail) : res ApplicationError unit :=
  let session := ed_session detail in
  let approval := ses_approval session in
  computed ← plan_digest (ses_id session) (ses_plan_id session) (ses_proposal_id session)
    (ses_proposal_revision_id session) (ses_proposal_revision session)
    (ses_source_scan_id session) (aep_approved_operation_ids approval)
    (aep_operation_count approval) (ses_root_id session) (aep_destination_root approval)
    (aep_safety_policy approval) (ed_operations detail);
  let approved_ids := aep_approved_operation_ids approval in
  approved_count ← (if bool_decide (computed <> ses_plan_digest_hex session)
      || bool_decide (computed <> aep_digest_hex approval)
      || negb (aep_material_version approval =? EXECUTION_PLAN_MATERIAL_VERSION)
      || bool_decide (aep_execution_id approval <> ses_id session)
      || bool_decide (aep_plan_id approval <> ses_plan_id session)
      || bool_decide (aep_proposal_id approval <> ses_proposal_id session)
      || bool_decide (aep_proposal_revision_id approval <> ses_proposal_revision_id session)
      || negb (aep_proposal_revision approval =? ses_proposal_revision session)
      || bool_decide (aep_source_snapshot_version approval <> ses_source_scan_id session)
    then Err ApInvalidExecution
    else ok_or (u64_try_from (zlen approved_ids)) ApInvalidExecution);
  reject_if (negb (aep_operation_count approval =? approved_count)
    || negb (aep_operation_count approval =? es_preflight_ok (ses_summary session))
    || any_unordered approved_ids
    || bool_decide (executable_operation_ids (ed_operations detail) <> approved_ids))
    ApInvalidExecution.
End digest.

(** ** What the digest stands for *)

Lemma uuid_num_inj (u v : uuid) : from_be_bytes (barr u) = from_be_bytes (barr v) -> u = v.
Proof.
  unfold from_be_bytes. intros H. apply barray_eq.
  assert (forall l k : bytes, length l = length k -> from_le_bytes l = from_le_bytes k -> l = k) as Hle.
  { induction l as [|x l IH]; intros [|y k]; cbn; try done. intros [= Hlen] Heq.
    pose proof (byte_to_Z_range x). pose proof (byte_to_Z_range y).
    assert (byte_to_Z x = byte_to_Z y) as Hx.
    { apply (f_equal (fun z => z mod 256)) in Heq.
      rewrite !(Z.mul_comm 256), !Z_mod_plus_full, !Z.mod_small in Heq; lia. }
    f_equal; [by apply byte_to_Z_inj|]. apply IH; [done|]. lia. }
  apply (inj reverse), Hle; [by rewrite !length_reverse, !barr_len|done].
Qed.

Lemma uuid_leb_antisym u v : uuid_leb u v = true -> uuid_leb v u = true -> u = v.
Proof.
  unfold uuid_leb, uuid_lt. rewrite !negb_true_iff, !Z.ltb_ge. intros. apply uuid_num_inj. lia.
Qed.

(** A sorted list without repetitions is strictly increasing. *)
Lemma sorted_not_unordered ids :
  StronglySorted (fun u v => uuid_leb u v = true) ids -> NoDup ids -> any_unordered ids = false.
Proof.
  induction 1 as [|a ids Hs IH Ha]; [done|]. intros [Hnot Hnd]%NoDup_cons. cbn.
  destruct ids as [|b ids]; [done|]. rewrite IH, orb_false_r by done.
  apply negb_false_iff. apply Forall_cons in Ha as [Hab _]. unfold uuid_leb in Hab.
  destruct (uuid_lt a b) eqn:Hlt; [done|]. exfalso. apply Hnot.
  rewrite (uuid_leb_antisym a b); [by left|done|]. unfold uuid_leb. by rewrite Hlt.
Qed.

Lemma sort_uuid_perm l k : l ≡ₚ k -> sort_by uuid_leb l = sort_by uuid_leb k.
Proof.
  intros H. assert (AntiSymm (=) (fun u v => uuid_leb u v = true)) by exact uuid_leb_antisym.
  apply (StronglySorted_unique (fun u v => uuid_leb u v = true)).
  - apply sort_by_sorted, _.
  - apply sort_by_sorted, _.
  - by rewrite !sort_by_perm.
Qed.

Section digest_properties.
Context `{B3 : Blake3} `{BH : Blake3Hex} `{TM : ToVec CanonicalPlanMaterial}.

(** Serialising forgets nothing; the hexadecimal form of a hash neither. *)
Class PlanSerde : Prop := {
  material_to_vec_inj (a b : CanonicalPlanMaterial) l : to_vec a = Ok l -> to_vec b = Ok l -> a = b;
  plan_hash_to_hex_inj h k : hash_to_hex h = hash_to_hex k -> h = k
}.

(** The material a stored execution was digested from. *)
Definition detail_material (detail : ExecutionDetail) : CanonicalPlanMaterial :=
  let session := ed_session detail in
  let approval := ses_approval session in {|
    cpm_material_version := EXECUTION_PLAN_MATERIAL_VERSION;
    cpm_execution_id := ses_id session;
    cpm_plan_id := ses_plan_id session;
    cpm_proposal_id := ses_proposal_id session;
    cpm_proposal_revision_id := ses_proposal_revision_id session;
    cpm_proposal_revision := ses_proposal_revision session;
    cpm_source_scan_id := ses_source_scan_id session;
    cpm_approved_operation_ids := aep_approved_operation_ids approval;
    cpm_approved_operation_count := aep_operation_count approval;
    cpm_root_id := ses_root_id session;
    cpm_destination_root := aep_destination_root approval;
    cpm_safety_policy := aep_safety_policy approval;
    cpm_operations :=
      canonical_operations (aep_approved_operation_ids approval) (ed_operations detail) |}.

Lemma verify_plan_digest_inv detail :
  verify_plan_digest detail = Ok tt ->
  (exists encoded, to_vec (detail_material detail) = Ok encoded
     /\ ses_plan_digest_hex (ed_session detail) = hash_to_hex (blake3_hash encoded))
  /\ executable_operation_ids (ed_operations detail)
     = aep_approved_operation_ids (ses_approval (ed_session detail))
  /\ any_unordered (aep_approved_operation_ids (ses_approval (ed_session detail))) = false
  /\ zlen (aep_approved_operation_ids (ses_approval (ed_session detail)))
     = es_preflight_ok (ses_summary (ed_session detail)).
Proof.
  unfold verify_plan_digest. intros (computed & Hc & (count & Hcount & Hrest)%bind_Ok)%bind_Ok.
  unfold plan_digest in Hc. apply bind_Ok in Hc as (encoded & He%map_err_Ok & [= <-]).
  destruct (_ || _) eqn:Hguards in Hcount; [done|]. apply ok_or_Ok in Hcount.
  apply reject_if_Ok in Hrest. rewrite !orb_false_iff in Hrest.
  destruct Hrest as [[[Hn%negb_false_iff Hp%negb_false_iff] Hw] Hids%bool_decide_eq_false].
  apply Z.eqb_eq in Hn, Hp. apply dec_stable in Hids.
  unfold u64_try_from in Hcount. case_match; simplify_eq.
  split_and!; [|done|done|congruence]. exists encoded. split; [done|].
  do 8 apply orb_false_iff in Hguards as [Hguards _]. apply bool_decide_eq_false in Hguards.
  symmetry. by apply dec_stable.
Qed.

(** C37: Two stored executions that pass the verification with one digest are
    the same frozen plan, or their materials collide under blake3; and the
    digest leaves out nothing that would be executed. *)
Theorem verified_digest_binds_plan `{PS : !PlanSerde} x y :
  verify_plan_digest x = Ok tt -> verify_plan_digest y = Ok tt ->
  ses_plan_digest_hex (ed_session x) = ses_plan_digest_hex (ed_session y) ->
  (detail_material x = detail_material y
   \/ exists l k, to_vec (detail_material x) = Ok l /\ to_vec (detail_material y) = Ok k
        /\ collides blake3_hash l k)
  /\ (forall operation, operation ∈ ed_operations x ->
        eo_status operation ∉ [EosBlocked; EosStale] ->
        canonical_operation operation ∈ cpm_operations (detail_material x)).
Proof.
  intros ((l & Hl & Hx) & Hids & _)%verify_plan_digest_inv ((k & Hk & Hy) & _)%verify_plan_digest_inv.
  rewrite Hx, Hy. intros He%plan_hash_to_hex_inj. split.
  - destruct (equal_or_collides blake3_hash l k He) as [<-|Hc]; [left|by right; exists l, k].
    by eapply material_to_vec_inj.
  - intros operation Hin Hstatus. cbn [cpm_operations detail_material].
    apply list_elem_of_fmap. exists operation. split; [done|]. apply list_elem_of_filter.
    split; [|done]. unfold is_digested. destruct (eo_proposal_operation_id operation) as [id|] eqn:Hid; [|done].
    apply bool_decide_eq_true. rewrite <- Hids. unfold executable_operation_ids.
    rewrite sort_by_perm. apply list_elem_of_omap. exists operation. split; [|done].
    by apply list_elem_of_filter.
Qed.
End digest_properties.

(** ** A concrete plan *)

#[local] Instance CanonicalOperation_eq_dec : EqDecision CanonicalOperation.
Proof. solve_decision. Defined.
#[local] Instance CanonicalPlanMaterial_eq_dec : EqDecision CanonicalPlanMaterial.
Proof. solve_decision. Defined.

Definition sample_planned_operation : ExecutionOperation := {|
  eo_id := uid x31; eo_execution_id := uid x01; eo_proposal_operation_id := Some (uid x41);
  eo_kind := EokMove; eo_source_relative_path := Some (lit "in/a.txt");
  eo_destination_relative_path := lit "out/a.txt";
  eo_original_source_relative_path := Some (lit "in/a.txt");
  eo_expected_source_hash := None; eo_expected_source_size := Some 10;
  eo_expected_source_modified_at := None; eo_live_fingerprint := Some sample_fingerprint;
  eo_post_fingerprint := None; eo_preconditions := execution_preconditions false;
  eo_dependencies := []; eo_sequence := 0; eo_status := EosPreflightOk;
  eo_directory_existed_before := None; eo_reason := None; eo_error_code := None;
  eo_error_message := None; eo_started_at := None; eo_completed_at := None;
  eo_rolled_back_at := None
|}.

Definition sample_planned_detail (digest : str) : ExecutionDetail := {|
  ed_session := {|
    ses_id := uid x01; ses_plan_id := uid x02; ses_proposal_id := uid x03;
    ses_proposal_revision_id := uid x04; ses_proposal_revision := 1; ses_workspace_id := uid x05;
    ses_root_id := uid x06; ses_source_scan_id := uid x07; ses_status := OesAwaitingConfirmation;
    ses_recovery_state := ErsRecoveryNotRequired; ses_plan_digest_hex := digest;
    ses_approval := {|
      aep_material_version := EXECUTION_PLAN_MATERIAL_VERSION; aep_execution_id := uid x01;
      aep_plan_id := uid x02; aep_proposal_id := uid x03; aep_proposal_revision_id := uid x04;
      aep_proposal_revision := 1; aep_source_snapshot_version := uid x07;
      aep_approved_operation_ids := [uid x41]; aep_operation_count := 1;
      aep_destination_root := {|
        erb_canonical_path := {| np_encoding := UnixBytes; np_bytes := bstr "/data" |};
        erb_display_path := lit "/data"; erb_volume := sample_volume |};
      aep_safety_policy := {|
        espb_version := EXECUTION_SAFETY_POLICY_VERSION;
        espb_maximum_rehash_bytes := HARD_MAX_REHASH_BYTES;
        espb_allow_qualified_case_only_rename := false; espb_digest_hex := [] |};
      aep_approval_timestamp := None; aep_user_confirmed := false; aep_digest_hex := digest |};
    ses_consent := ExecutionConsent_pending;
    ses_summary := {|
      es_affected_files := 1; es_folders_to_create := 0; es_files_to_move := 1;
      es_files_to_rename := 0; es_files_unchanged := 0; es_conflicts := 0; es_needs_review := 0;
      es_preflight_ok := 1; es_applied := 0; es_blocked := 0; es_skipped := 0; es_failed := 0;
      es_rolled_back := 0; es_rollback_blocked := 0; es_rollback_failed := 0 |};
    ses_current_operation := None; ses_rollback_available := false;
    ses_confirmation_phrase_required := false; ses_created_at := [];
    ses_approved_at := None; ses_started_at := None; ses_completed_at := None;
    ses_rolled_back_at := None; ses_error := None |};
  ed_operations := [sample_planned_operation]
|}.

#[local] Existing Instance sample_blake3.
#[local] Instance sample_plan_hex : Blake3Hex := fun h => Byte.to_N <$> barr h.
#[local] Instance sample_material_to_vec : ToVec CanonicalPlanMaterial :=
  single_to_vec (detail_material (sample_planned_detail [])).
#[local] Instance sample_plan_serde : PlanSerde.
Proof.
  split.
  - intros a b l. unfold to_vec, sample_material_to_vec, single_to_vec.
    case_decide; [|done]. case_decide; [|done]. congruence.
  - intros h k H. apply barray_eq. unfold hash_to_hex, sample_plan_hex in H.
    exact (list_fmap_eq_inj Byte.to_N _ _ _ H).
Qed.

Definition sample_plan_digest : str := hash_to_hex (blake3_hash [x7b; x7d]).

Lemma verified_digest_binds_plan_witness :
  verify_plan_digest (sample_planned_detail sample_plan_digest) = Ok tt
  /\ canonical_operation sample_planned_operation
       ∈ cpm_operations (detail_material (sample_planned_detail sample_plan_digest)).
Proof.
  assert (verify_plan_digest (sample_planned_detail sample_plan_digest) = Ok tt) as H
    by (vm_compute; reflexivity).
  split; [exact H|].
  apply (verified_digest_binds_plan _ _ H H eq_refl); [by left|].
  apply (bool_decide_unpack _). vm_compute. exact I.
Defined.
