(* ===== verification/Prepare.v ===== *)
(** * Preparing an execution

    crates/application/src/execution.rs, [prepare_execution] and what it calls:
    from an approved proposal to the stored plan that waits for confirmation.
    The file system and the volume are only inspected. *)

From S2P Require Export PlanDigest.
#[local] Open Scope Z_scope.

(** ** The world of the service *)

(** [fs::read_dir]: the names of the entries, in the order of the directory. *)
Class ReadDir (W : Type) : Type :=
  read_dir : PathBuf -> SE W io_error (list (res io_error bytes)).

Record RootRecord := {
  rtr_id : RootId;
  rtr_workspace_id : WorkspaceId;
  rtr_display_label : str;
  rtr_absolute_path : str;
  rtr_absolute_path_native : PathBuf
}.

(** What [prepare_execution] asks of the database; errors are their text. *)
Class PlanDatabase (W : Type) : Type := {
  blocking_execution_exists : SE W str bool;
  organization_proposal : ProposalId -> SE W str OrganizationProposal;
  root_by_id : WorkspaceId -> RootId -> SE W str RootRecord;
  persist_prepared_execution : ExecutionDetail -> SE W str unit;
  stored_execution_detail : ExecutionId -> SE W str ExecutionDetail
}.

(** The diagnostics behind their lock ([None] when it is poisoned) and the
    clock. *)
Class ServiceHost (W : Type) : Type := {
  diagnostics_read : W -> option (list JournalDiagnostic);
  diagnostics_push : JournalDiagnostic -> W -> W;
  execution_now_iso : W -> str * W
}.

(** The display text of an [ApplicationError]. *)
Definition application_error_text (error : ApplicationError) : str :=
  match error with
  | ApInvalidWorkspaceName => lit "invalid workspace name"
  | ApNotFound => lit "record was not found"
  | ApReviewIncomplete => lit "the proposal still contains unreviewed or blocked mutations"
  | ApSimulationBlocked => lit "the simulation contains blockers"
  | ApInvalidDigest => lit "plan digest is invalid"
  | ApPersistence text => lit "persistence failed: " ++ text
  | ApPlatform error => lit "platform failed: " ++ platform_error_text error
  | ApIo error => lit "local filesystem inspection failed: " ++ io_text error
  | ApCatalog text => lit "catalog failed: " ++ text
  | ApOperations error => lit "operation failed: " ++ operations_error_text error
  | ApKnowledge text => lit "semantic analysis failed: " ++ text
  | ApContentExtraction detail => lit "safe local content extraction failed: " ++ detail
  | ApInvalidSemanticCorrection => lit "semantic correction is invalid"
  | ApInvalidSemanticResult => lit "semantic worker returned an invalid result"
  | ApInvalidIdentityDecision => lit "identity decision input is invalid"
  | ApInvalidOrganizationProposal => lit "organization proposal input is invalid or unsafe"
  | ApInvalidMonitoringRequest =>
      lit "monitoring request is invalid or outside its registered root"
  | ApInvalidRule => lit "local rule input is invalid or unsafe"
  | ApExecutionApprovalRequired =>
      lit "filesystem execution requires an explicitly approved current proposal"
  | ApExecutionAlreadyActive =>
      lit "another filesystem execution or recovery blocks this request"
  | ApInvalidExecution => lit "filesystem execution state or plan integrity is invalid"
  | ApExecutionRecoveryRequired => lit "filesystem execution recovery must be resolved first"
  | ApJournalLocked => lit "the authenticated execution journal is locked for diagnostics"
  | ApExecutionPreflightBlocked =>
      lit "no approved operation passed the fail-closed preflight"
  | ApExecutionConsentExpired =>
      lit "the native execution consent expired before start authorization"
  | ApExecutionConfirmationDeclined =>
      lit "the user declined the native execution confirmation"
  | ApExecutionSafety error =>
      lit "execution safety policy refused the request: " ++ safety_policy_error_text error
  | ApApprovedExecutor (AxUnavailable detail) =>
      lit "the isolated approved-operation executor is unavailable: " ++ detail
  | ApApprovedExecutor (AxAmbiguous detail) =>
      lit "the isolated executor outcome is ambiguous: " ++ detail
  end.

(** An operation that is not started: the fields every literal of the plan
    leaves empty. *)
Definition fresh_operation (id : OperationStepId) (execution_id : ExecutionId)
    (proposal_operation_id : option ProposalItemId) (kind : ExecutionOperationKind)
    (source : option str) (destination : str) (original_source : option str)
    (expected_source_hash : option str) (expected_source_size : option Z)
    (expected_source_modified_at : option str) (live_fingerprint : option FileFingerprint)
    (preconditions : list str) (dependencies : list OperationStepId)
    (directory_existed_before : option bool) (reason : str) : ExecutionOperation := {|
  eo_id := id;
  eo_execution_id := execution_id;
  eo_proposal_operation_id := proposal_operation_id;
  eo_kind := kind;
  eo_source_relative_path := source;
  eo_destination_relative_path := destination;
  eo_original_source_relative_path := original_source;
  eo_expected_source_hash := expected_source_hash;
  eo_expected_source_size := expected_source_size;
  eo_expected_source_modified_at := expected_source_modified_at;
  eo_live_fingerprint := live_fingerprint;
  eo_post_fingerprint := None;
  eo_preconditions := preconditions;
  eo_dependencies := dependencies;
  eo_sequence := 0;
  eo_status := EosPreflightOk;
  eo_directory_existed_before := directory_existed_before;
  eo_reason := Some reason;
  eo_error_code := None;
  eo_error_message := None;
  eo_started_at := None;
  eo_completed_at := None;
  eo_rolled_back_at := None
|}.

(** An operation with the fields that planning assigns again. *)
Definition replanned (source : option str) (live_fingerprint : option FileFingerprint)
    (dependencies : list OperationStepId) (sequence : Z) (reason : option str)
    (o : ExecutionOperation) : ExecutionOperation := {|
  eo_id := eo_id o;
  eo_execution_id := eo_execution_id o;
  eo_proposal_operation_id := eo_proposal_operation_id o;
  eo_kind := eo_kind o;
  eo_source_relative_path := source;
  eo_destination_relative_path := eo_destination_relative_path o;
  eo_original_source_relative_path := eo_original_source_relative_path o;
  eo_expected_source_hash := eo_expected_source_hash o;
  eo_expected_source_size := eo_expected_source_size o;
  eo_expected_source_modified_at := eo_expected_source_modified_at o;
  eo_live_fingerprint := live_fingerprint;
  eo_post_fingerprint := eo_post_fingerprint o;
  eo_preconditions := eo_preconditions o;
  eo_dependencies := dependencies;
  eo_sequence := sequence;
  eo_status := eo_status o;
  eo_directory_existed_before := eo_directory_existed_before o;
  eo_reason := reason;
  eo_error_code := eo_error_code o;
  eo_error_message := eo_error_message o;
  eo_started_at := eo_started_at o;
  eo_completed_at := eo_completed_at o;
  eo_rolled_back_at := eo_rolled_back_at o
|}.

Definition with_live_fingerprint (fingerprint : FileFingerprint) (o : ExecutionOperation) :=
  replanned (eo_source_relative_path o) (Some fingerprint) (eo_dependencies o) (eo_sequence o)
    (eo_reason o) o.
Definition with_dependencies (dependencies : list OperationStepId) (o : ExecutionOperation) :=
  replanned (eo_source_relative_path o) (eo_live_fingerprint o) dependencies (eo_sequence o)
    (eo_reason o) o.
Definition with_sequence (sequence : Z) (o : ExecutionOperation) :=
  replanned (eo_source_relative_path o) (eo_live_fingerprint o) (eo_dependencies o) sequence
    (eo_reason o) o.
(** The second half of a staged operation: from the staging place, after the
    stage, with a reason of its own if it gets one. *)
Definition after_stage (staging_path : str) (stage_id : OperationStepId) (reason : option str)
    (o : ExecutionOperation) :=
  replanned (Some staging_path) (eo_live_fingerprint o) [stage_id] (eo_sequence o) reason o.

(** The literal of an internal stage. *)
Definition stage_operation (stage_id : OperationStepId) (execution_id : ExecutionId)
    (source staging_path : str) (dependencies : list OperationStepId) (reason : str)
    (operation : ExecutionOperation) : ExecutionOperation :=
  fresh_operation stage_id execution_id None EokInternalStage (Some source) staging_path
    (Some source) (eo_expected_source_hash operation) (eo_expected_source_size operation)
    (eo_expected_source_modified_at operation) (eo_live_fingerprint operation)
    (execution_preconditions true) dependencies None reason.

(** ** Inspecting the file system *)

Section prepare.
Context {W : Type} `{B3 : Blake3} `{BH : Blake3Hex} `{UU : UuidCrate} `{UC : UnicodeCase}.
Context `{US : UuidSource W} `{FS : StdFs W} `{RD : ReadDir W} `{RO : ReadOnlyPlatform W}.
Context `{DB : PlanDatabase W} `{SH : ServiceHost W} `{TG : Target}.
Context `{TM : ToVec CanonicalPlanMaterial} `{TC : ToVec CanonicalSafetyPolicy}.
Variable policy : ExecutionSafetyPolicy.
Variable gate : ApplyGate.

(** The scan of [case_insensitive_existing]. *)
Fixpoint find_entry (parent : PathBuf) (target_key : str) (entries : list (res io_error bytes)) :
    res io_error (option PathBuf) :=
  match entries with
  | [] => Ok None
  | entry :: entries =>
      name ← entry;
      if bool_decide (to_lowercase (to_string_lossy name) = target_key)
      then Ok (Some (path_join parent name))
      else find_entry parent target_key entries
  end.

Definition case_insensitive_existing (path : PathBuf) : SE W io_error (option PathBuf) :=
  found ← se_try (symlink_metadata path);
  match found with
  | Ok _ => mret (Some path)
  | Err error =>
      if negb (is_not_found error) then se_fail error
      else match path_parent path, path_file_name path with
      | Some parent, Some target_name =>
          let target_key := to_lowercase (to_string_lossy target_name) in
          entries ← se_try (read_dir parent);
          match entries with
          | Ok entries => se_lift (find_entry parent target_key entries)
          | Err error => if is_not_found error then mret None else se_fail error
          end
      | _, _ => mret None
      end
  end.

(** ** The service's own guards *)

Definition journal_is_locked (w : W) : bool :=
  match diagnostics_read w with
  | Some diagnostics => negb (bool_decide (length diagnostics = 0%nat))
  | None => true
  end.

Definition require_mutations_unlocked : SE W ApplicationError unit := fun w =>
  (if journal_is_locked w then Err ApJournalLocked else Ok tt, w).

Definition require_apply_gate : SE W ApplicationError unit :=
  require_mutations_unlocked;;
  se_lift (if gate_enabled gate then Ok tt
           else Err (ApOperations (OeGateDisabled (gate_reason gate)))).

(** ** One candidate *)

(** Why a source is refused: a code, a message, and whether it is stale. *)
Notation Refusal := (str * str * bool)%type.

Definition refuse_if (bad : bool) (refusal : Refusal) : SE W (Abrupt Refusal) unit :=
  se_lift (reject_if bad (Failed refusal)).

Definition live_source_fingerprint (root : PathBuf) (proposal : OrganizationProposalOperation)
    (root_volume : VolumeIdentity) : SE W (Abrupt Refusal) FileFingerprint :=
  let snapshot := opo_source proposal in
  relative ← se_lift (map_err (fun error =>
      Failed (lit "invalid_source_path", application_error_text error, true))
    (relative_path (pss_relative_path snapshot)));
  source ← se_map_err (fun error =>
      Failed (lit "source_unavailable", safety_policy_error_text error, true))
    (resolve_existing_source policy root relative);
  fingerprint ← se_map_err (fun error =>
      Failed (lit "source_fingerprint_failed", platform_error_text error, true))
    (fingerprint_streaming source (esp_maximum_rehash_bytes policy));
  refuse_if (negb (stable_for_apply fingerprint)
      || negb (bool_decide (vi_stable_identifier (ni_volume (fp_native_identity fingerprint))
                 = vi_stable_identifier root_volume))
      || negb (fp_byte_size fingerprint =? pss_byte_size snapshot)
      || negb (modified_time_matches (pss_modified_at snapshot) (fp_modified_at_ns fingerprint)))
    (lit "source_drift",
     lit "Source identity, size, or modified time changed after proposal review.", true);;
  match pss_content_hash snapshot with
  | Some expected_hash =>
      decoded ← se_lift (map_err (fun _ => Panicked) (decode_hex_digest expected_hash));
      expected ← se_lift (ok_or decoded (Failed (lit "invalid_snapshot_hash",
        lit "The proposal source hash is malformed.", true)));
      refuse_if (negb (bool_decide (fp_content_digest fingerprint = Some expected)))
        (lit "source_hash_drift", lit "Source content hash changed after proposal review.", true)
  | None => mret tt
  end;;
  mret fingerprint.

(** The operation [preflight_candidate] starts from. *)
Definition proposed_operation (id : OperationStepId) (execution_id : ExecutionId)
    (proposal : OrganizationProposalOperation) (source destination : str) : ExecutionOperation :=
  fresh_operation id execution_id (Some (opo_id proposal)) (classify_operation source destination)
    (Some source) destination (Some source) (pss_content_hash (opo_source proposal))
    (Some (pss_byte_size (opo_source proposal))) (pss_modified_at (opo_source proposal)) None
    (execution_preconditions false) [] None
    (take 1024 (join [32%N] (or_explanation <$> opo_reasons proposal))).

(** The chain of tests that need no file system: the refusal, if any. *)
Definition preflight_refusal (proposal : OrganizationProposalOperation) (source destination : str) :
    option Refusal :=
  if opo_stale proposal then Some (lit "stale_source", lit "Source snapshot is stale.", true)
  else if (opo_needs_review proposal || requires_review (opo_conflict_state proposal))
       && negb (opo_user_override proposal) then
    Some (lit "proposal_needs_review",
          lit "The approved proposal operation still requires review.", false)
  else if bool_decide (source = destination) then
    Some (lit "no_effect", lit "The proposed operation has no filesystem effect.", false)
  else if bool_decide (path_key source = path_key destination)
       && negb (esp_allow_qualified_case_only_rename policy) then
    Some (lit "case_only_rename_unqualified",
          lit "Case-only rename is blocked until native behavior is proven safe.", false)
  else match validate_destination_components (opo_proposed_destination proposal)
               (opo_proposed_name proposal) with
  | Err error => Some (lit "invalid_destination", safety_policy_error_text error, false)
  | Ok _ => None
  end.

Definition blocked_candidate (refusal : Refusal) (operation : ExecutionOperation) :
    PlannedCandidate :=
  let '(code, message, stale) := refusal in
  block_candidate stale code message {| pc_operation := operation; pc_blocked := false |}.

Definition preflight_candidate (execution_id : ExecutionId)
    (proposal : OrganizationProposalOperation) (root : PathBuf) (root_volume : VolumeIdentity) :
    SE W (Abrupt ApplicationError) PlannedCandidate :=
  let source := normalize_relative_string (pss_relative_path (opo_source proposal)) in
  let destination :=
    destination_relative (opo_proposed_destination proposal) (opo_proposed_name proposal) in
  id ← new_id;
  let operation := proposed_operation id execution_id proposal source destination in
  match preflight_refusal proposal source destination with
  | Some refusal => mret (blocked_candidate refusal operation)
  | None =>
      live ← se_try (live_source_fingerprint root proposal root_volume);
      match live with
      | Ok fingerprint =>
          mret {| pc_operation := with_live_fingerprint fingerprint operation;
                  pc_blocked := false |}
      | Err (Failed refusal) => mret (blocked_candidate refusal operation)
      | Err Panicked => se_fail Panicked
      end
  end.

(** ** Destinations *)

(** The unblocked candidates by the key of their source; of two the later. *)
Definition note_source (sources : gmap str nat) (entry : nat * PlannedCandidate) : gmap str nat :=
  let '(index, candidate) := entry in
  if pc_blocked candidate then sources
  else match eo_source_relative_path (pc_operation candidate) with
  | Some source => <[path_key source := index]> sources
  | None => sources
  end.
Definition sources_by_key (candidates : list PlannedCandidate) : gmap str nat :=
  foldl note_source ∅ (imap pair candidates).

Definition block_at (index : nat) (code message : str) (candidates : list PlannedCandidate) :
    list PlannedCandidate := alter (block_candidate false code message) index candidates.

(** What is done when the destination is taken. *)
Definition resolve_occupied (sources : gmap str nat) (candidates : list PlannedCandidate)
    (index : nat) (operation : ExecutionOperation) : list PlannedCandidate :=
  let destination := eo_destination_relative_path operation in
  match sources !! path_key destination with
  | Some occupant =>
      if (occupant =? index)%nat && esp_allow_qualified_case_only_rename policy
         && is_case_only_operation operation then candidates
      else match candidates !! occupant with
      | Some other =>
          if (occupant =? index)%nat || pc_blocked other
          then block_at index (lit "destination_exists") (lit "Destination already exists.") candidates
          else alter (with_operation (fun o =>
                 with_dependencies (eo_dependencies o ++ [eo_id (pc_operation other)]) o))
                 index candidates
      | None => candidates
      end
  | None => block_at index (lit "destination_exists")
              (lit "Destination already exists and is not vacated by this plan.") candidates
  end.

(** The body of the loop of [resolve_destination_dependencies]. *)
Definition resolve_destination (root : PathBuf) (sources : gmap str nat)
    (candidates : list PlannedCandidate) (index : nat) :
    SE W (Abrupt ApplicationError) (list PlannedCandidate) :=
  match candidates !! index with
  | None => mret candidates
  | Some candidate =>
      if pc_blocked candidate then mret candidates
      else
        let operation := pc_operation candidate in
        match relative_path (eo_destination_relative_path operation) with
        | Err error =>
            mret (block_at index (lit "invalid_destination") (application_error_text error)
                    candidates)
        | Ok relative =>
            found ← se_try (case_insensitive_existing (path_join root relative));
            match found with
            | Ok (Some _) => mret (resolve_occupied sources candidates index operation)
            | Ok None =>
                resolved ← se_try (resolve_absent_destination policy root relative false);
                mret match resolved with
                     | Ok _ => candidates
                     | Err error =>
                         block_at index (lit "unsafe_destination")
                           (safety_policy_error_text error) candidates
                     end
            | Err error =>
                mret (block_at index (lit "destination_inspection_failed") (io_text error)
                        candidates)
            end
        end
  end.

Definition resolve_destination_dependencies (root : PathBuf)
    (candidates : list PlannedCandidate) : SE W (Abrupt ApplicationError) (list PlannedCandidate) :=
  let sources := sources_by_key candidates in
  fold_se (resolve_destination root sources) candidates (seq 0 (length candidates)).

(** ** Directories to create *)

Definition directory_operation (id : OperationStepId) (execution_id : ExecutionId)
    (relative_string : str) (internal : bool) : ExecutionOperation :=
  fresh_operation id execution_id None EokCreateDirectory None relative_string None None None None
    None
    [lit "destination_absent"; lit "parent_inside_approved_root";
     lit "no_symlink_or_reparse_traversal"; lit "remove_on_rollback_only_if_empty"]
    [] (Some false)
    (if internal then lit "Application-controlled staging directory."
     else lit "Approved destination directory required by the frozen plan.").

(** The loop of [plan_directories]. *)
Definition plan_directory (execution_id : ExecutionId) (root : PathBuf) (user_prefixes : list str)
    (planned : list ExecutionOperation * Z) (relative_string : str) :
    SE W (Abrupt ApplicationError) (list ExecutionOperation * Z) :=
  let '(operations, user_count) := planned in
  relative ← se_lift (map_err Failed (relative_path relative_string));
  found ← se_try (symlink_metadata (path_join root relative));
  match found with
  | Ok metadata =>
      if md_is_dir metadata && negb (md_is_symlink metadata) then mret (operations, user_count)
      else se_fail (Failed ApInvalidExecution)
  | Err error =>
      if negb (is_not_found error) then se_fail (Failed (ApExecutionSafety (SpIo error)))
      else
        let internal := starts_with STAGING_DIRECTORY_NAME relative_string in
        se_map_err (fun e => Failed (ApExecutionSafety e))
          (resolve_absent_destination policy root relative internal);;
        id ← new_id;
        mret (operations ++ [directory_operation id execution_id relative_string internal],
              if bool_decide (relative_string ∈ user_prefixes)
              then usize_saturating_add user_count 1 else user_count)
  end.

Definition plan_directories (execution_id : ExecutionId) (root : PathBuf)
    (all_destinations user_destinations : list str) :
    SE W (Abrupt ApplicationError) (list ExecutionOperation * Z) :=
  user_prefixes ← se_lift (map_err Failed (directory_prefixes user_destinations));
  all_prefixes ← se_lift (map_err Failed (directory_prefixes all_destinations));
  fold_se (plan_directory execution_id root user_prefixes) ([], 0) all_prefixes.

(** ** Directories to remove *)

(** [Path::strip_prefix] of a path made of the prefix and single names. *)
Definition path_strip_prefix (path base : PathBuf) : option PathBuf :=
  if path_starts_with path base
  then Some (join_pieces (component_os_str <$> drop (length (components base)) (components path)))
  else None.

(** The loop of [collect_fully_planned_directory_tree] over the sorted entries
    of a directory; [recurse] collects a directory below it. *)
Fixpoint collect_children
    (recurse : str -> list str -> SE W (Abrupt ApplicationError) (bool * list str))
    (root absolute : PathBuf) (planned_sources : list str) (children : list bytes)
    (removable : list str) : SE W (Abrupt ApplicationError) (bool * list str) :=
  match children with
  | [] => mret (true, removable)
  | name :: children =>
      let entry_path := path_join absolute name in
      metadata ← se_map_err (fun e => Failed (ApIo e)) (symlink_metadata entry_path);
      if md_is_symlink metadata then mret (false, removable)
      else
        stripped ← se_lift (ok_or (path_strip_prefix entry_path root) (Failed ApInvalidExecution));
        let child_relative := normalize_relative_string (to_string_lossy stripped) in
        if md_is_dir metadata then
          below ← recurse child_relative removable;
          if (fst below : bool)
          then collect_children recurse root absolute planned_sources children (snd below)
          else mret (false, snd below)
        else if md_is_file metadata
          && bool_decide (normalize_relative_string child_relative ∈ planned_sources)
        then collect_children recurse root absolute planned_sources children removable
        else mret (false, removable)
  end.

(** [collect_fully_planned_directory_tree]: whether everything below the
    directory is moved away, and the directories collected so far.  The
    recursion follows the directories of the file system: [depth] is the room
    on the stack. *)
Fixpoint collect_fully_planned_directory_tree (depth : nat) (root : PathBuf)
    (planned_sources destination_paths : list str) (relative_directory : str)
    (removable : list str) : SE W (Abrupt ApplicationError) (bool * list str) :=
  match depth with
  | O => se_fail Panicked
  | S depth =>
      let normalized_directory := normalize_relative_string relative_directory in
      if existsb (fun destination => bool_decide (destination = normalized_directory)
           || starts_with (normalized_directory ++ [47%N]) destination) destination_paths
      then mret (false, removable)
      else
        relative ← se_lift (map_err Failed (relative_path normalized_directory));
        let absolute := path_join root relative in
        metadata ← se_map_err (fun e => Failed (ApIo e)) (symlink_metadata absolute);
        if md_is_symlink metadata || negb (md_is_dir metadata) then mret (false, removable)
        else
          entries ← se_map_err (fun e => Failed (ApIo e)) (read_dir absolute);
          children ← se_lift (map_err (fun e => Failed (ApIo e)) (collect id entries));
          visited ← collect_children
            (collect_fully_planned_directory_tree depth root planned_sources destination_paths)
            root absolute planned_sources (sort_by bytes_leb children) removable;
          mret (if (fst visited : bool) then (true, snd visited ++ [normalized_directory])
                else visited)
  end.

Definition MAX_TREE_DEPTH : nat := 4096.

Definition cleanup_operation (id : OperationStepId) (execution_id : ExecutionId) (relative : str) :
    ExecutionOperation :=
  fresh_operation id execution_id None EokRemoveDirectoryIfEmpty (Some relative) relative
    (Some relative) None None None None
    [lit "source_directory_is_unlinked"; lit "source_directory_is_empty_after_planned_moves"]
    [] (Some true)
    (lit "Remove an emptied source folder so Ranger cleans the visible folder tree.").

(** The normalised original sources of the executable file operations. *)
Definition planned_source_paths (executable : list ExecutionOperation) : list str :=
  normalize_relative_string <$> omap (fun operation =>
      if bool_decide (is_Some (eo_proposal_operation_id operation))
         && negb (bool_decide (eo_kind operation = EokInternalStage))
      then match eo_original_source_relative_path operation with
           | Some path => Some path
           | None => eo_source_relative_path operation
           end
      else None) executable.

(** [retain] over the set of the first components. *)
Definition retain_top_level (root : PathBuf) (planned_sources destination_paths : list str)
    (removable : list str) (top : str) : SE W (Abrupt ApplicationError) (list str) :=
  tree ← se_try (collect_fully_planned_directory_tree MAX_TREE_DEPTH root planned_sources
    destination_paths top []);
  match tree with
  | Ok (true, discovered) => mret (removable ++ discovered)
  | Ok (false, _) | Err (Failed _) => mret removable
  | Err Panicked => se_fail Panicked
  end.

Definition deepest_first : str -> str -> bool := fun a b =>
  pair_leb (fun m n => n <=? m) str_leb
    (zlen (split is_slash a), a) (zlen (split is_slash b), b).

(** [Vec::dedup]. *)
Fixpoint dedup (l : list str) : list str :=
  match l with
  | a :: (b :: _) as rest => if bool_decide (a = b) then dedup rest else a :: dedup rest
  | l => l
  end.

Definition plan_source_directory_cleanup (execution_id : ExecutionId) (root : PathBuf)
    (executable : list ExecutionOperation) (user_destinations : list str) :
    SE W (Abrupt ApplicationError) (list ExecutionOperation) :=
  let planned_sources := planned_source_paths executable in
  if bool_decide (planned_sources = []) then mret []
  else
    let destination_paths := normalize_relative_string <$> user_destinations in
    let top_levels := sort_by str_leb (remove_dups (filter (fun top =>
        negb (bool_decide (top = [])) && negb (source_cleanup_top_level_is_protected top) = true)
      (omap (fun source => head (split is_slash source)) planned_sources))) in
    removable ← fold_se (retain_top_level root planned_sources destination_paths) [] top_levels;
    fold_se (fun operations relative =>
        id ← new_id;
        mret (operations ++ [cleanup_operation id execution_id relative]))
      [] (dedup (sort_by deepest_first removable)).

(** ** Staging *)

Definition staging_candidate (execution_id : ExecutionId) (id : uuid) : str :=
  STAGING_DIRECTORY_NAME ++ lit "/" ++ uuid_to_string execution_id ++ lit "/" ++ uuid_to_string id.

Fixpoint unique_staging_within (attempts : nat) (root : PathBuf) (execution_id : ExecutionId)
    (reserved : list str) : SE W (Abrupt ApplicationError) str :=
  match attempts with
  | O => se_fail (Failed ApExecutionPreflightBlocked)
  | S attempts =>
      id ← new_id;
      let candidate := staging_candidate execution_id id in
      relative ← se_lift (map_err Failed (relative_path candidate));
      if existsb (fun existing => bool_decide (path_key existing = path_key candidate)) reserved
      then unique_staging_within attempts root execution_id reserved
      else
        existing ← se_map_err (fun e => Failed (ApIo e))
          (case_insensitive_existing (path_join root relative));
        match existing with
        | Some _ => unique_staging_within attempts root execution_id reserved
        | None =>
            resolved ← se_try (resolve_absent_destination policy root relative true);
            if is_ok resolved then mret candidate
            else unique_staging_within attempts root execution_id reserved
        end
  end.

Definition unique_staging_path : PathBuf -> ExecutionId -> list str ->
    SE W (Abrupt ApplicationError) str := unique_staging_within 16.

(** ** The plan *)

Notation invalid := (Failed ApInvalidExecution).

(** The loop over the ordered candidates: the executable operations and the
    staging destinations so far. *)
Definition schedule_ordered (root : PathBuf) (execution_id : ExecutionId)
    (candidates : list PlannedCandidate)
    (planned : list ExecutionOperation * list str) (index : nat) :
    SE W (Abrupt ApplicationError) (list ExecutionOperation * list str) :=
  let '(executable, staging_destinations) := planned in
  candidate ← se_lift (ok_or (candidates !! index) Panicked);
  let operation := pc_operation candidate in
  if esp_allow_qualified_case_only_rename policy && is_case_only_operation operation then
    source ← se_lift (ok_or (eo_source_relative_path operation) invalid);
    staging_path ← unique_staging_path root execution_id staging_destinations;
    stage_id ← new_id;
    mret (executable ++
      [stage_operation stage_id execution_id source staging_path (eo_dependencies operation)
         (lit "Qualification-only case rename staging transition.") operation;
       after_stage staging_path stage_id
         (Some (lit "Qualification-only final case rename transition.")) operation],
      staging_destinations ++ [staging_path])
  else mret (executable ++ [operation], staging_destinations).

(** The loop over the cyclic candidates: stages, their second halves, and the
    staging destinations so far. *)
Definition schedule_cyclic (root : PathBuf) (execution_id : ExecutionId)
    (candidates : list PlannedCandidate)
    (planned : list ExecutionOperation * list ExecutionOperation * list str) (index : nat) :
    SE W (Abrupt ApplicationError)
      (list ExecutionOperation * list ExecutionOperation * list str) :=
  let '(stages, cycle_operations, staging_destinations) := planned in
  candidate ← se_lift (ok_or (candidates !! index) Panicked);
  let operation := pc_operation candidate in
  source ← se_lift (ok_or (eo_source_relative_path operation) invalid);
  staging_path ← unique_staging_path root execution_id staging_destinations;
  stage_id ← new_id;
  mret (stages ++ [stage_operation stage_id execution_id source staging_path []
                     (lit "Internal collision-safe staging step.") operation],
        cycle_operations ++ [after_stage staging_path stage_id (eo_reason operation) operation],
        staging_destinations ++ [staging_path]).

(** Every operation of a cycle waits for all stages. *)
Definition schedule (root : PathBuf) (execution_id : ExecutionId)
    (candidates : list PlannedCandidate) :
    SE W (Abrupt ApplicationError) (list ExecutionOperation * list str) :=
  let '(ordered, cyclic) := dependency_order candidates in
  scheduled ← fold_se (schedule_ordered root execution_id candidates) ([], []) ordered;
  let '(executable, staging_destinations) := scheduled in
  cycles ← fold_se (schedule_cyclic root execution_id candidates) ([], [], staging_destinations)
    cyclic;
  let '(stages, cycle_operations, staging_destinations) := cycles in
  let all_stage_ids := eo_id <$> stages in
  mret (executable ++ stages ++ (with_dependencies all_stage_ids <$> cycle_operations),
        staging_destinations).

(** The proposal operations an execution is made of. *)
Definition is_executable_proposal (operation : OrganizationProposalOperation) : bool :=
  bool_decide (opo_operation_kind operation ∈ [MoveProposal; RenameProposal])
  || (opo_user_override operation
      && bool_decide (opo_operation_kind operation = KeepInPlace)
      && is_case_only_proposal operation).

(** The checks on the volume; those of Windows are not compiled in. *)
Definition admit_volume (volume : VolumeIdentity) : res ApplicationError unit :=
  reject_if (negb (vi_local volume) || vi_removable volume) (ApExecutionSafety SpProtectedPath);;
  reject_if (target_macos && negb match vi_filesystem_type volume with
      | Some value => eq_ignore_ascii_case value (lit "apfs") || eq_ignore_ascii_case value (lit "hfs")
      | None => false
      end)
    (ApOperations (OePlatform (PeUnsupported
      (lit "same-volume apply currently requires a local APFS or HFS volume")))).

Definition approved_ids (candidates : list PlannedCandidate) : list ProposalItemId :=
  sort_by uuid_leb (omap (fun candidate =>
      if pc_blocked candidate then None else eo_proposal_operation_id (pc_operation candidate))
    candidates).

(** [operation.sequence = u32::try_from(index)?] for all operations. *)
Fixpoint number_operations (index : Z) (operations : list ExecutionOperation) :
    res ApplicationError (list ExecutionOperation) :=
  match operations with
  | [] => Ok []
  | operation :: operations =>
      sequence ← ok_or (u32_try_from index) ApInvalidExecution;
      rest ← number_operations (index + 1) operations;
      Ok (with_sequence sequence operation :: rest)
  end.

(** What the rest of [prepare_execution] needs of its first part. *)
Record PlanContext := {
  ctx_proposal : OrganizationProposal;
  ctx_root : PathBuf;
  ctx_volume : VolumeIdentity;
  ctx_destination_root : ExecutionRootBinding;
  ctx_safety_policy : ExecutionSafetyPolicyBinding
}.

(** Gate, proposal, root, volume, policy. *)
Definition plan_context (proposal_id : ProposalId) (revision : Z) :
    SE W ApplicationError PlanContext :=
  require_apply_gate;;
  blocking ← se_map_err ApPersistence blocking_execution_exists;
  se_lift (reject_if blocking ApExecutionAlreadyActive);;
  proposal ← se_map_err ApPersistence (organization_proposal proposal_id);
  se_lift (reject_if (negb (bool_decide (op_status proposal = PsApprovedForFutureApply))
    || negb (op_revision proposal =? revision)) ApExecutionApprovalRequired);;
  root ← se_map_err ApPersistence (root_by_id (op_workspace_id proposal) (op_root_id proposal));
  canonical_root ← se_map_err ApExecutionSafety
    (validate_root policy (rtr_absolute_path_native root));
  volume ← se_map_err ApPlatform (inspect_volume canonical_root);
  se_lift (admit_volume volume);;
  safety_policy ← se_lift (map_err (fun _ => ApInvalidExecution) (binding policy));
  mret {| ctx_proposal := proposal;
          ctx_root := canonical_root;
          ctx_volume := volume;
          ctx_destination_root := {|
            erb_canonical_path :=
              {| np_encoding := fst (native_path_bytes canonical_root);
                 np_bytes := snd (native_path_bytes canonical_root) |};
            erb_display_path := to_string_lossy canonical_root;
            erb_volume := volume |};
          ctx_safety_policy := safety_policy |}.

(** The candidates after preflight, collisions, dependencies and blocks. *)
Definition plan_candidates (context : PlanContext) (execution_id : ExecutionId) :
    SE W (Abrupt ApplicationError) (list PlannedCandidate) :=
  candidates ← fold_se (fun candidates operation =>
      candidate ← preflight_candidate execution_id operation (ctx_root context) (ctx_volume context);
      mret (candidates ++ [candidate]))
    [] (filter (fun operation => is_executable_proposal operation = true)
         (op_operations (ctx_proposal context)));
  se_lift (reject_if (bool_decide (candidates = [])) (Failed ApExecutionPreflightBlocked));;
  candidates ← resolve_destination_dependencies (ctx_root context)
    (detect_plan_collisions candidates);
  mret (propagate_dependency_blocks candidates).

(** The stored form of the plan. *)
Definition assemble_detail (context : PlanContext) (execution_id : ExecutionId) (plan_id : PlanId)
    (approved_operation_ids : list ProposalItemId) (operation_count : Z)
    (summary : ExecutionSummary) (operations : list ExecutionOperation) (created_at : str)
    (digest_hex : str) : ExecutionDetail :=
  let proposal := ctx_proposal context in {|
  ed_session := {|
    ses_id := execution_id;
    ses_plan_id := plan_id;
    ses_proposal_id := op_id proposal;
    ses_proposal_revision_id := op_revision_id proposal;
    ses_proposal_revision := op_revision proposal;
    ses_workspace_id := op_workspace_id proposal;
    ses_root_id := op_root_id proposal;
    ses_source_scan_id := op_source_scan_id proposal;
    ses_status := OesAwaitingConfirmation;
    ses_recovery_state := ErsRecoveryNotRequired;
    ses_plan_digest_hex := digest_hex;
    ses_approval := {|
      aep_material_version := EXECUTION_PLAN_MATERIAL_VERSION;
      aep_execution_id := execution_id;
      aep_plan_id := plan_id;
      aep_proposal_id := op_id proposal;
      aep_proposal_revision_id := op_revision_id proposal;
      aep_proposal_revision := op_revision proposal;
      aep_source_snapshot_version := op_source_scan_id proposal;
      aep_approved_operation_ids := approved_operation_ids;
      aep_operation_count := operation_count;
      aep_destination_root := ctx_destination_root context;
      aep_safety_policy := ctx_safety_policy context;
      aep_approval_timestamp := None;
      aep_user_confirmed := false;
      aep_digest_hex := digest_hex |};
    ses_consent := ExecutionConsent_pending;
    ses_summary := summary;
    ses_current_operation := None;
    ses_rollback_available := false;
    ses_confirmation_phrase_required :=
      esp_large_batch_confirmation_threshold policy <=? operation_count;
    ses_created_at := created_at;
    ses_approved_at := None;
    ses_started_at := None;
    ses_completed_at := None;
    ses_rolled_back_at := None;
    ses_error := None |};
  ed_operations := operations
|}.

(** The operations of a plan: directories first, then what is executed, the
    cleanup, and what is blocked. *)
Definition plan_operations (context : PlanContext) (execution_id : ExecutionId)
    (candidates : list PlannedCandidate) :
    SE W (Abrupt ApplicationError) (list ExecutionOperation * Z) :=
  scheduled ← schedule (ctx_root context) execution_id candidates;
  let '(executable, staging_destinations) := scheduled in
  let user_destinations := eo_destination_relative_path <$>
    filter (fun operation => eo_kind operation <> EokInternalStage) executable in
  planned ← plan_directories execution_id (ctx_root context)
    (user_destinations ++ staging_destinations) user_destinations;
  let '(directories, user_directory_count) := planned in
  source_cleanup ← plan_source_directory_cleanup execution_id (ctx_root context) executable
    user_destinations;
  operations ← se_lift (map_err Failed (number_operations 0
    (directories ++ executable ++ source_cleanup
     ++ (pc_operation <$> filter (fun candidate => pc_blocked candidate = true) candidates))));
  mret (operations, user_directory_count).

(** [prepare_execution] up to the point where the plan is stored. *)
Definition prepare_detail (context : PlanContext) : SE W (Abrupt ApplicationError) ExecutionDetail :=
  execution_id ← new_id;
  plan_id ← new_id;
  candidates ← plan_candidates context execution_id;
  let approved_operation_ids := approved_ids candidates in
  let safe_candidate_count := count_where (fun candidate => negb (pc_blocked candidate)) candidates in
  se_lift (reject_if ((safe_candidate_count =? 0)
      || (negb (esp_allow_independent_safe_subset policy)
          && negb (safe_candidate_count =? zlen candidates)))
    (Failed ApExecutionPreflightBlocked));;
  planned ← plan_operations context execution_id candidates;
  let '(operations, user_directory_count) := planned in
  directory_count ← se_lift (ok_or (u64_try_from user_directory_count) invalid);
  summary ← se_lift (map_err Failed
    (execution_summary (ctx_proposal context) candidates directory_count));
  created_at ← (fun w => let '(now, w') := execution_now_iso w in (Ok now, w'));
  operation_count ← se_lift (ok_or (u64_try_from (zlen approved_operation_ids)) invalid);
  let proposal := ctx_proposal context in
  digest_hex ← se_lift (map_err Failed (plan_digest execution_id plan_id (op_id proposal)
    (op_revision_id proposal) (op_revision proposal) (op_source_scan_id proposal)
    approved_operation_ids operation_count (op_root_id proposal) (ctx_destination_root context)
    (ctx_safety_policy context) operations));
  let detail := assemble_detail context execution_id plan_id approved_operation_ids
    operation_count summary operations created_at digest_hex in
  se_lift (map_err Failed (verify_plan_digest detail));;
  mret detail.

Definition prepare_execution (proposal_id : ProposalId) (revision : Z) :
    SE W (Abrupt ApplicationError) ExecutionDetail :=
  context ← se_map_err Failed (plan_context proposal_id revision);
  detail ← prepare_detail context;
  se_map_err (fun text => Failed (ApPersistence text)) (persist_prepared_execution detail);;
  se_map_err (fun text => Failed (ApPersistence text))
    (stored_execution_detail (ses_id (ed_session detail))).
End prepare.
