(* ===== verification/Prepared.v ===== *)
(** * What a prepared execution guarantees

    The invariants of the candidates through preflight, collisions,
    dependencies and blocks, and the plan that [prepare_detail] of Prepare.v
    makes of them. *)

From S2P Require Export Prepare.
#[local] Open Scope Z_scope.

(** ** Candidates *)

Definition not_executed (status : ExecutionOperationStatus) : Prop :=
  status ∈ [EosBlocked; EosStale].

(** What preflight establishes of a candidate. *)
Record candidate_ok (c : PlannedCandidate) : Prop := {
  cok_proposal : is_Some (eo_proposal_operation_id (pc_operation c));
  cok_source : is_Some (eo_source_relative_path (pc_operation c));
  cok_kind : eo_kind (pc_operation c) <> EokInternalStage;
  cok_blocked : pc_blocked c = true -> not_executed (eo_status (pc_operation c));
  cok_open : pc_blocked c = false -> eo_status (pc_operation c) = EosPreflightOk
    /\ exists fp, eo_live_fingerprint (pc_operation c) = Some fp /\ stable_for_apply fp = true
}.

Lemma block_candidate_ok stale code message c :
  candidate_ok c -> candidate_ok (block_candidate stale code message c).
Proof.
  intros [Hp Hs Hk Hb Ho]. split; cbn; try done. intros _. unfold not_executed.
  destruct stale; set_solver.
Qed.

(** Planning goes on with the same operations: it only blocks and adds
    dependencies. *)
Record evolves1 (c d : PlannedCandidate) : Prop := {
  ev_id : eo_id (pc_operation d) = eo_id (pc_operation c);
  ev_proposal : eo_proposal_operation_id (pc_operation d) = eo_proposal_operation_id (pc_operation c);
  ev_source : eo_source_relative_path (pc_operation d) = eo_source_relative_path (pc_operation c);
  ev_destination :
    eo_destination_relative_path (pc_operation d) = eo_destination_relative_path (pc_operation c);
  ev_kind : eo_kind (pc_operation d) = eo_kind (pc_operation c);
  ev_blocked : pc_blocked c = true -> pc_blocked d = true;
  ev_ok : candidate_ok c -> candidate_ok d;
  ev_dependencies : eo_dependencies (pc_operation c) ⊆ eo_dependencies (pc_operation d)
}.

Definition evolves : list PlannedCandidate -> list PlannedCandidate -> Prop := Forall2 evolves1.

#[export] Instance evolves1_refl : Reflexive evolves1.
Proof. by intros c; split. Qed.
#[export] Instance evolves1_trans : Transitive evolves1.
Proof. intros a b c [] []. split; try congruence; auto. by etrans. Qed.
#[export] Instance evolves_preorder : PreOrder evolves.
Proof.
  split; [intros l; unfold evolves; reflexivity|].
  intros l1 l2 l3. unfold evolves. apply transitivity.
Qed.

Lemma block_evolves1 stale code message c : evolves1 c (block_candidate stale code message c).
Proof. split; try done. apply block_candidate_ok. Qed.

Lemma evolves_alter f i l :
  (forall c, l !! i = Some c -> evolves1 c (f c)) -> evolves l (alter f i l).
Proof.
  intros Hf. apply Forall2_same_length_lookup_2; [by rewrite length_alter|].
  intros j c d Hc Hd. destruct (decide (i = j)) as [->|Hne].
  - rewrite list_lookup_alter_eq, Hc in Hd. injection Hd as <-. auto.
  - rewrite list_lookup_alter_ne, Hc in Hd by done. by injection Hd as <-.
Qed.

Lemma block_at_evolves i code message l : evolves l (block_at i code message l).
Proof. apply evolves_alter. intros c _. apply block_evolves1. Qed.

Lemma evolves_lookup l l' i c :
  evolves l l' -> l !! i = Some c -> exists d, l' !! i = Some d /\ evolves1 c d.
Proof. intros H Hc. destruct (Forall2_lookup_l _ _ _ _ _ H Hc) as (d & ? & ?). eauto. Qed.

Lemma evolves_lookup_r l l' i d :
  evolves l l' -> l' !! i = Some d -> exists c, l !! i = Some c /\ evolves1 c d.
Proof. intros H Hd. destruct (Forall2_lookup_r _ _ _ _ _ H Hd) as (c & ? & ?). eauto. Qed.

Lemma evolves_ok l l' : evolves l l' -> Forall candidate_ok l -> Forall candidate_ok l'.
Proof.
  intros H Hok. apply Forall_lookup. intros i d Hd.
  destruct (evolves_lookup_r _ _ _ _ H Hd) as (c & Hc & []). rewrite Forall_lookup in Hok. eauto.
Qed.

(** Every dependency is the identifier of a candidate. *)
Definition deps_known (l : list PlannedCandidate) : Prop :=
  forall i c d, l !! i = Some c -> d ∈ eo_dependencies (pc_operation c) ->
  exists j e, l !! j = Some e /\ eo_id (pc_operation e) = d.

Lemma deps_known_evolves l l' :
  evolves l l' -> deps_known l ->
  (forall i c c' d, l !! i = Some c -> l' !! i = Some c' ->
     d ∈ eo_dependencies (pc_operation c') -> d ∉ eo_dependencies (pc_operation c) ->
     exists j e, l !! j = Some e /\ eo_id (pc_operation e) = d) ->
  deps_known l'.
Proof.
  intros Hev Hknown Hnew i c' d Hc' Hd.
  destruct (evolves_lookup_r _ _ _ _ Hev Hc') as (c & Hc & _).
  assert (exists j e, l !! j = Some e /\ eo_id (pc_operation e) = d) as (j & e & He & Hid).
  { destruct (decide (d ∈ eo_dependencies (pc_operation c))) as [Hin|Hin]; [by eapply Hknown|].
    by eapply Hnew. }
  destruct (evolves_lookup _ _ _ _ Hev He) as (e' & He' & []). exists j, e'. split; congruence.
Qed.

Lemma block_at_spec i code message l :
  evolves l (block_at i code message l)
  /\ (deps_known l -> deps_known (block_at i code message l)).
Proof.
  split; [apply block_at_evolves|]. intros Hk.
  eapply deps_known_evolves; [apply block_at_evolves|done|].
  intros j e e' d He He' Hin Hnot. unfold block_at in He'. destruct (decide (i = j)) as [->|Hne].
  - rewrite list_lookup_alter_eq, He in He'. by injection He' as <-.
  - rewrite list_lookup_alter_ne, He in He' by done. by injection He' as <-.
Qed.

Section candidates.
Context `{UC : UnicodeCase}.

(** Unblocked candidates have destinations of their own, up to case. *)
Definition distinct_destinations (l : list PlannedCandidate) : Prop :=
  forall i j c d, l !! i = Some c -> l !! j = Some d -> pc_blocked c = false ->
  pc_blocked d = false -> destination_key c = destination_key d -> i = j.

Lemma distinct_destinations_evolves l l' :
  evolves l l' -> distinct_destinations l -> distinct_destinations l'.
Proof.
  intros Hev H i j c' d' Hc' Hd' Hbc Hbd Hkey.
  destruct (evolves_lookup_r _ _ _ _ Hev Hc') as (c & Hc & [? ? ? Hdc ? Hb _ _]).
  destruct (evolves_lookup_r _ _ _ _ Hev Hd') as (d & Hd & [? ? ? Hdd ? Hb' _ _]).
  apply (H i j c d); try done.
  - destruct (pc_blocked c); [by rewrite Hb in Hbc|done].
  - destruct (pc_blocked d); [by rewrite Hb' in Hbd|done].
  - unfold destination_key in *. congruence.
Qed.

Lemma detect_evolves l : evolves l (detect_plan_collisions l).
Proof.
  apply Forall2_same_length_lookup. split.
  - apply Nat.le_antisymm; apply Nat.le_ngt; intros Hlt.
    + assert (length (detect_plan_collisions l) <= length (detect_plan_collisions l))%nat as H0 by lia.
      apply lookup_ge_None_2 in H0. rewrite detect_plan_collisions_lookup in H0.
      destruct (lookup_lt_is_Some_2 l _ Hlt) as [c Hc]. rewrite Hc in H0. by case_decide.
    + assert (length l <= length l)%nat as H0 by lia. apply lookup_ge_None_2 in H0.
      destruct (lookup_lt_is_Some_2 _ _ Hlt) as [c Hc]. rewrite detect_plan_collisions_lookup, H0 in Hc.
      by case_decide.
  - intros i c d Hc Hd. rewrite detect_plan_collisions_lookup, Hc in Hd.
    case_decide; injection Hd as <-; [apply block_evolves1|done].
Qed.

Lemma detect_distinct l : distinct_destinations (detect_plan_collisions l).
Proof.
  intros i j c d Hc Hd Hbc Hbd Hkey. destruct (decide (i = j)) as [|Hne]; [done|exfalso].
  rewrite detect_plan_collisions_lookup in Hc, Hd.
  destruct (decide (collides_at l i)) as [Hi|Hi].
  { by apply fmap_Some in Hc as (? & _ & ->). }
  destruct (decide (collides_at l j)) as [Hj|Hj].
  { by apply fmap_Some in Hd as (? & _ & ->). }
  apply Hi. unfold collides_at. eauto 10.
Qed.

Lemma detect_deps_known l : deps_known l -> deps_known (detect_plan_collisions l).
Proof.
  intros H. eapply deps_known_evolves; [apply detect_evolves|done|].
  intros i c c' d Hc Hc' Hin Hnot. rewrite detect_plan_collisions_lookup, Hc in Hc'.
  case_decide; by injection Hc' as <-.
Qed.

Lemma propagate_evolves l : evolves l (propagate_dependency_blocks l).
Proof.
  destruct (propagate_settled l) as (_ & Hlen & H). apply Forall2_same_length_lookup_2; [done|].
  intros i c d Hc Hd. destruct (H i c Hc) as (c' & Hc' & _ & Heq). rewrite Hc' in Hd. injection Hd as <-.
  rewrite Heq. destruct (_ && _); [apply block_evolves1|done].
Qed.

Lemma propagate_deps_known l : deps_known l -> deps_known (propagate_dependency_blocks l).
Proof.
  intros Hk. eapply deps_known_evolves; [apply propagate_evolves|done|].
  intros i c c' d Hc Hc' Hin Hnot. destruct (propagate_settled l) as (_ & _ & H).
  destruct (H i c Hc) as (c'' & Hc'' & _ & Heq). rewrite Hc'' in Hc'. injection Hc' as <-.
  rewrite Heq in Hin. by destruct (_ && _).
Qed.

(** Nothing that is left unblocked is doomed. *)
Lemma propagate_stable_lookup l i c :
  propagate_dependency_blocks l !! i = Some c -> doomed (propagate_dependency_blocks l) i ->
  pc_blocked c = true.
Proof.
  destruct (propagate_settled l) as (Hst & _).
  pose proof (propagate_turn_stable (propagate_dependency_blocks l)) as Hstable.
  rewrite Hst in Hstable. destruct (Hstable eq_refl) as [_ Hdoom]. apply Hdoom.
Qed.

(** What an executable candidate waits for is itself executable. *)
Lemma propagate_deps_unblocked l i c d :
  deps_known l -> propagate_dependency_blocks l !! i = Some c -> pc_blocked c = false ->
  d ∈ eo_dependencies (pc_operation c) ->
  exists j e, propagate_dependency_blocks l !! j = Some e /\ eo_id (pc_operation e) = d
    /\ pc_blocked e = false.
Proof.
  intros Hk%propagate_deps_known Hc Hb Hd. destruct (Hk _ _ _ Hc Hd) as (j & e & He & Hid).
  exists j, e. split_and!; [done..|]. destruct (pc_blocked e) eqn:Hbe; [|done]. exfalso.
  rewrite (propagate_stable_lookup l i c Hc) in Hb; [done|].
  eapply doomed_dependency; [exact Hc|exact He|by rewrite Hid|by eapply doomed_blocked].
Qed.
End candidates.

(** ** Preflight and destinations *)

Section preparation.
Context {W : Type} `{B3 : Blake3} `{BH : Blake3Hex} `{UU : UuidCrate} `{UC : UnicodeCase}.
Context `{US : UuidSource W} `{FS : StdFs W} `{RD : ReadDir W} `{RO : ReadOnlyPlatform W}.
Context `{DB : PlanDatabase W} `{SH : ServiceHost W} `{TG : Target}.
Context `{TM : ToVec CanonicalPlanMaterial} `{TC : ToVec CanonicalSafetyPolicy}.
Variable policy : ExecutionSafetyPolicy.

Lemma live_source_fingerprint_stable root proposal volume :
  returns (W := W) (live_source_fingerprint policy root proposal volume)
    (fun fp => stable_for_apply fp = true).
Proof.
  unfold live_source_fingerprint.
  do 3 (eapply returns_bind; [apply returns_any|intros ? _]).
  eapply returns_bind with (P := fun _ => stable_for_apply _ = true).
  { apply returns_lift. intros u Hu. apply reject_if_Ok in Hu.
    repeat apply orb_false_iff in Hu as [Hu _]. by apply negb_false_iff. }
  intros _ Hst. eapply returns_bind; [apply returns_any|]. intros _ _. by apply returns_ret.
Qed.

Lemma classify_operation_kind source destination :
  classify_operation source destination <> EokInternalStage.
Proof. unfold classify_operation. by repeat case_match. Qed.

Lemma blocked_candidate_ok refusal operation :
  is_Some (eo_proposal_operation_id operation) -> is_Some (eo_source_relative_path operation) ->
  eo_kind operation <> EokInternalStage -> candidate_ok (blocked_candidate refusal operation).
Proof.
  intros Hp Hs Hk. destruct refusal as [[code message] stale]. split; cbn; try done.
  intros _. unfold not_executed. destruct stale; set_solver.
Qed.

Lemma preflight_candidate_ok execution_id proposal root volume :
  returns (W := W) (preflight_candidate policy execution_id proposal root volume)
    (fun c => candidate_ok c /\ eo_dependencies (pc_operation c) = []
       /\ eo_proposal_operation_id (pc_operation c) = Some (opo_id proposal)).
Proof.
  unfold preflight_candidate. eapply returns_bind; [apply returns_any|]. intros id _.
  set (operation := proposed_operation _ _ _ _ _).
  assert (forall refusal, candidate_ok (blocked_candidate refusal operation)
    /\ eo_dependencies (pc_operation (blocked_candidate refusal operation)) = []
    /\ eo_proposal_operation_id (pc_operation (blocked_candidate refusal operation))
       = Some (opo_id proposal)) as Hblocked.
  { intros [[code message] stale]. split; [|done].
    apply (blocked_candidate_ok (code, message, stale)); [done..|apply classify_operation_kind]. }
  destruct (preflight_refusal _ _ _ _) as [refusal|]; [apply returns_ret, Hblocked|].
  eapply returns_bind; [apply returns_try, live_source_fingerprint_stable|].
  intros [fp|[|refusal]] Hfp; [|apply returns_fail|apply returns_ret, Hblocked].
  apply returns_ret. split_and!; [|done..].
  split; cbn; try done; [apply classify_operation_kind|]. eauto.
Qed.

(** The maps of sources and of what occupies a destination. *)
Lemma sources_by_key_spec l key i :
  sources_by_key l !! key = Some i ->
  exists c source, l !! i = Some c /\ pc_blocked c = false
    /\ eo_source_relative_path (pc_operation c) = Some source /\ path_key source = key.
Proof.
  unfold sources_by_key. setoid_rewrite <- imap_pair_lookup.
  generalize (imap pair l) as ps. intros ps. revert key i.
  induction ps as [|[k c] ps IH] using rev_ind; intros key i; cbn; [by rewrite lookup_empty|].
  rewrite foldl_app. cbn. setoid_rewrite elem_of_app.
  assert (foldl note_source ∅ ps !! key = Some i ->
    exists c0 source, ((i, c0) ∈ ps \/ (i, c0) ∈ [(k, c)]) /\ pc_blocked c0 = false
      /\ eo_source_relative_path (pc_operation c0) = Some source /\ path_key source = key) as Hold.
  { intros H. destruct (IH key i H) as (c0 & source & ? & ?). exists c0, source. split; [by left|done]. }
  destruct (pc_blocked c) eqn:Hb; [done|].
  destruct (eo_source_relative_path (pc_operation c)) as [source|] eqn:Hs; [|done].
  destruct (decide (path_key source = key)) as [<-|Hne].
  - rewrite lookup_insert_eq. intros [= <-]. exists c, source. split_and!; [|done..].
    right. by apply list_elem_of_singleton.
  - by rewrite lookup_insert_ne.
Qed.

Lemma resolve_occupied_spec l0 l i c :
  evolves l0 l -> l !! i = Some c ->
  let l' := resolve_occupied policy (sources_by_key l0) l i (pc_operation c) in
  evolves l l' /\ (deps_known l -> deps_known l').
Proof.
  intros Hev Hc l'. unfold l', resolve_occupied.
  pose proof (fun code message => block_at_spec i code message l) as Hblock.
  destruct (sources_by_key l0 !! _) as [occupant|] eqn:Hocc; [|apply Hblock].
  destruct (_ && is_case_only_operation _); [by split|].
  destruct (l !! occupant) as [other|] eqn:Hother; [|by split].
  destruct (_ || pc_blocked other); [apply Hblock|].
  set (f := with_operation _). assert (evolves l (alter f i l)) as Hevf.
  { apply evolves_alter. intros e He. rewrite Hc in He. injection He as <-. split; cbn; try done.
    - intros []. by split.
    - set_solver. }
  split; [done|]. intros Hk. eapply deps_known_evolves; [exact Hevf|done|].
  intros j e e' d He He' Hin Hnot. destruct (decide (i = j)) as [->|Hne].
  - rewrite list_lookup_alter_eq, He in He'. injection He' as <-. cbn in Hin.
    rewrite Hc in He. injection He as <-. apply elem_of_app in Hin as [?|Hd]; [done|].
    apply list_elem_of_singleton in Hd as ->. eauto.
  - rewrite list_lookup_alter_ne, He in He' by done. by injection He' as <-.
Qed.

Lemma resolve_destination_evolves root l0 l i :
  evolves l0 l ->
  returns (W := W) (resolve_destination policy root (sources_by_key l0) l i)
    (fun l' => evolves l l' /\ (deps_known l -> deps_known l')).
Proof.
  intros Hev. unfold resolve_destination.
  destruct (l !! i) as [c|] eqn:Hc; [|by apply returns_ret].
  destruct (pc_blocked c); [by apply returns_ret|].
  pose proof (fun code message => block_at_spec i code message l) as Hblock.
  destruct (relative_path _) as [relative|error]; [|by apply returns_ret].
  eapply returns_bind; [apply returns_any|]. intros [[existing|]|error] _.
  - by apply returns_ret, resolve_occupied_spec.
  - eapply returns_bind; [apply returns_any|]. intros [resolved|error] _; by apply returns_ret.
  - by apply returns_ret.
Qed.

Lemma resolve_dependencies_evolves root l :
  returns (W := W) (resolve_destination_dependencies policy root l)
    (fun l' => evolves l l' /\ (deps_known l -> deps_known l')).
Proof.
  unfold resolve_destination_dependencies.
  apply (returns_fold _ (fun _ l' => evolves l l' /\ (deps_known l -> deps_known l'))); [done|].
  intros done i todo l' _ [Hev Hk]. eapply returns_weaken.
  - by apply resolve_destination_evolves.
  - intros l'' [Hev' Hk']. split; [by etrans|auto].
Qed.

(** ** The candidates of a plan *)

Record candidates_ready (l : list PlannedCandidate) : Prop := {
  cr_ok : Forall candidate_ok l;
  cr_distinct : distinct_destinations l;
  cr_dependencies : forall i c d, l !! i = Some c -> pc_blocked c = false ->
    d ∈ eo_dependencies (pc_operation c) ->
    exists j e, l !! j = Some e /\ eo_id (pc_operation e) = d /\ pc_blocked e = false
}.

Lemma plan_candidates_ready context execution_id :
  returns (W := W) (plan_candidates policy context execution_id) candidates_ready.
Proof.
  unfold plan_candidates.
  eapply returns_bind with (P := fun l => Forall (fun c => candidate_ok c
    /\ eo_dependencies (pc_operation c) = []) l).
  { apply (returns_fold _ (fun _ l => Forall (fun c => candidate_ok c
      /\ eo_dependencies (pc_operation c) = []) l)); [constructor|].
    intros done operation todo l _ Hl. eapply returns_bind; [apply preflight_candidate_ok|].
    intros c (Hok & Hdeps & _). apply returns_ret, Forall_app. split; [exact Hl|].
    by apply Forall_singleton. }
  intros l Hl. eapply returns_bind; [apply returns_any|]. intros _ _.
  eapply returns_bind; [apply resolve_dependencies_evolves|]. intros l2 [Hev Hk]. apply returns_ret.
  assert (evolves l (propagate_dependency_blocks l2)) as Hev2.
  { etrans; [apply detect_evolves|]. etrans; [exact Hev|apply propagate_evolves]. }
  assert (deps_known l2) as Hk2.
  { apply Hk, detect_deps_known. intros i c d Hc Hd.
    destruct (Forall_lookup_1 _ _ _ _ Hl Hc) as [_ He]. rewrite He in Hd.
    by apply elem_of_nil in Hd. }
  split.
  - eapply evolves_ok; [exact Hev2|]. eapply Forall_impl; [exact Hl|]. by intros c [].
  - eapply distinct_destinations_evolves; [|apply (detect_distinct l)].
    etrans; [exact Hev|apply propagate_evolves].
  - intros i c d. by apply propagate_deps_unblocked.
Qed.

(** ** Scheduling *)

Definition executed (o : ExecutionOperation) : Prop := ~ not_executed (eo_status o).

(** Every dependency of an executed operation is an executed operation that
    comes before it. *)
Definition backed (l : list ExecutionOperation) : Prop :=
  forall i o d, l !! i = Some o -> executed o -> d ∈ eo_dependencies o ->
  exists o', o' ∈ take i l /\ executed o' /\ eo_id o' = d.

Lemma backed_app l k :
  backed l ->
  (forall i o d, k !! i = Some o -> executed o -> d ∈ eo_dependencies o ->
     exists o', o' ∈ l ++ take i k /\ executed o' /\ eo_id o' = d) ->
  backed (l ++ k).
Proof.
  intros Hl Hk i o d Ho He Hd. rewrite take_app.
  apply lookup_app_Some in Ho as [Ho|[Hlen Ho]].
  - destruct (Hl i o d Ho He Hd) as (o' & Hin & ?). exists o'. split; [|done].
    apply elem_of_app. by left.
  - destruct (Hk _ o d Ho He Hd) as (o' & Hin & ?). exists o'. split; [|done].
    by rewrite take_ge by done.
Qed.

(** Operations that wait for nothing. *)
Lemma backed_independent l k :
  backed k -> Forall (fun o => executed o -> eo_dependencies o = []) l -> backed (l ++ k).
Proof.
  intros Hk Hl i o d Ho He Hd. rewrite take_app. apply lookup_app_Some in Ho as [Ho|[Hlen Ho]].
  - rewrite (Forall_lookup_1 _ _ _ _ Hl Ho He) in Hd. by apply elem_of_nil in Hd.
  - destruct (Hk _ o d Ho He Hd) as (o' & Hin & ?). exists o'. split; [|done].
    apply elem_of_app. by right.
Qed.

(** What scheduling keeps of the operation of a candidate. *)
Definition essence (o : ExecutionOperation) :=
  (eo_id o, eo_proposal_operation_id o, eo_kind o, eo_destination_relative_path o,
   eo_original_source_relative_path o, eo_live_fingerprint o, eo_status o).

Definition is_file_operation (o : ExecutionOperation) : Prop := is_Some (eo_proposal_operation_id o).
#[export] Instance is_file_operation_dec o : Decision (is_file_operation o).
Proof. unfold is_file_operation. apply _. Defined.

Definition operation_at (l : list PlannedCandidate) (i : nat) : option ExecutionOperation :=
  pc_operation <$> l !! i.

(** The file operations of [operations] are those of the candidates at
    [indices]. *)
Definition covers (l : list PlannedCandidate) (operations : list ExecutionOperation)
    (indices : list nat) : Prop :=
  essence <$> filter is_file_operation operations = essence <$> omap (operation_at l) indices.

Lemma covers_app l ops ops' is' js :
  covers l ops is' -> covers l ops' js -> covers l (ops ++ ops') (is' ++ js).
Proof. unfold covers. intros H H'. by rewrite filter_app, omap_app, !fmap_app, H, H'. Qed.

Lemma covers_one l i c o :
  l !! i = Some c -> candidate_ok c -> essence o = essence (pc_operation c) -> covers l [o] [i].
Proof.
  intros Hc [Hp _ _ _ _] He. unfold covers.
  replace (omap (operation_at l) [i]) with [pc_operation c]
    by (unfold operation_at; cbn; by rewrite Hc).
  rewrite filter_cons, decide_True; [cbn; by rewrite He|].
  unfold is_file_operation. injection He as _ Hpo _ _ _ _ _. by rewrite Hpo.
Qed.

Lemma covers_stage l o : eo_proposal_operation_id o = None -> covers l [o] [].
Proof.
  intros Hn. unfold covers. rewrite filter_cons, decide_False; [done|].
  unfold is_file_operation. rewrite Hn. by intros [].
Qed.

Lemma covers_id l operations indices i c :
  covers l operations indices -> i ∈ indices -> l !! i = Some c ->
  exists o, o ∈ operations /\ eo_id o = eo_id (pc_operation c).
Proof.
  unfold covers. intros H Hi Hc.
  assert (essence (pc_operation c) ∈ essence <$> filter is_file_operation operations) as Hin.
  { rewrite H. apply list_elem_of_fmap. exists (pc_operation c). split; [done|].
    apply list_elem_of_omap. exists i. unfold operation_at. by rewrite Hc. }
  apply list_elem_of_fmap in Hin as (o & He & [_ Ho]%list_elem_of_filter).
  exists o. split; [done|]. by injection He.
Qed.

Lemma unique_staging_path_fresh root execution_id reserved :
  returns (W := W) (unique_staging_path policy root execution_id reserved)
    (fun path => path_key path ∉ path_key <$> reserved).
Proof.
  unfold unique_staging_path. generalize 16%nat as attempts. intros attempts.
  induction attempts as [|attempts IH]; cbn [unique_staging_within]; [apply returns_fail|].
  eapply returns_bind; [apply returns_any|]. intros id _.
  eapply returns_bind; [apply returns_any|]. intros relative _.
  destruct (existsb _ reserved) eqn:Hr; [done|].
  eapply returns_bind; [apply returns_any|]. intros [existing|] _; [done|].
  eapply returns_bind; [apply returns_any|]. intros resolved _.
  destruct (is_ok resolved); [|done]. apply returns_ret.
  intros (p & He & Hp)%list_elem_of_fmap. rewrite <- not_true_iff_false, existsb_elem_of in Hr.
  apply Hr. exists p. split; [done|]. by apply bool_decide_eq_true.
Qed.

(** The staging destinations are distinct up to case. *)
Definition staged (staging : list str) : Prop := NoDup (path_key <$> staging).

Lemma staged_snoc staging path :
  staged staging -> path_key path ∉ path_key <$> staging -> staged (staging ++ [path]).
Proof.
  unfold staged. intros Hs Hp. rewrite fmap_app. apply NoDup_app. split_and!; [done| |].
  - intros k Hk Hk'. apply list_elem_of_singleton in Hk' as ->. done.
  - apply NoDup_singleton.
Qed.

Section scheduling.
Variable l : list PlannedCandidate.
Hypothesis ready : candidates_ready l.
Variables ordered cyclic : list nat.
Hypothesis order : dependency_order l = (ordered, cyclic).

Lemma order_facts :
  ordered ++ cyclic ≡ₚ unblocked_indices l
  /\ (forall k i, ordered !! k = Some i -> independent_of l (drop k ordered ++ cyclic) i).
Proof. by apply dependency_order_facts in order as (? & ? & _). Qed.

Lemma planned_index i : i ∈ ordered ++ cyclic ->
  exists c, l !! i = Some c /\ pc_blocked c = false /\ candidate_ok c.
Proof.
  rewrite (proj1 order_facts). intros (c & Hc & Hb)%unblocked_indices_spec.
  exists c. split_and!; [done..|]. by eapply Forall_lookup_1, Hc; destruct ready.
Qed.

(** A dependency of an ordered candidate was ordered before it. *)
Lemma ordered_dependency pre i post c d :
  ordered = pre ++ i :: post -> l !! i = Some c -> pc_blocked c = false ->
  d ∈ eo_dependencies (pc_operation c) ->
  exists j e, j ∈ pre /\ l !! j = Some e /\ eo_id (pc_operation e) = d.
Proof.
  intros Hsplit Hc Hb Hd. destruct (cr_dependencies _ ready _ _ _ Hc Hb Hd) as (j & e & He & Hid & Hbe).
  exists j, e. split_and!; [|done..].
  assert (j ∈ ordered ++ cyclic) as Hj.
  { rewrite (proj1 order_facts). apply unblocked_indices_spec. eauto. }
  rewrite Hsplit, <- app_assoc in Hj. apply elem_of_app in Hj as [?|Hj]; [done|exfalso].
  assert (ordered !! length pre = Some i) as Hi by (rewrite Hsplit; by apply list_lookup_middle).
  apply (proj2 order_facts) in Hi. rewrite Hsplit, drop_app_length in Hi.
  apply (Hi j d Hj).
  - unfold id_at, compose. rewrite He. cbn. by rewrite Hid.
  - unfold dependencies_at. rewrite Hc. done.
Qed.

Lemma open_executed c : candidate_ok c -> pc_blocked c = false -> executed (pc_operation c).
Proof.
  intros [_ _ _ _ Ho] Hb. destruct (Ho Hb) as [Hs _]. unfold executed, not_executed. rewrite Hs.
  set_solver.
Qed.

Lemma stage_executed stage_id execution_id source path deps reason o :
  executed (stage_operation stage_id execution_id source path deps reason o).
Proof. unfold executed, not_executed. cbn. set_solver. Qed.

Record ordered_inv (done : list nat) (planned : list ExecutionOperation * list str) : Prop := {
  oi_backed : backed planned.1;
  oi_executed : Forall executed planned.1;
  oi_covers : covers l planned.1 done;
  oi_staged : staged planned.2
}.

Lemma schedule_ordered_inv root execution_id :
  returns (W := W) (fold_se (schedule_ordered policy root execution_id l) ([], []) ordered)
    (ordered_inv ordered).
Proof.
  apply returns_fold.
  { split; [by intros ? ? ?|constructor|done|apply NoDup_nil_2]. }
  intros done i todo [executable staging] Hsplit [Hbacked Hex Hcov Hst].
  cbn [fst snd] in *. unfold schedule_ordered.
  destruct (planned_index i) as (c & Hc & Hb & Hok).
  { rewrite Hsplit. apply elem_of_app. left. apply elem_of_app. right. by left. }
  rewrite Hc. eapply returns_bind with (P := fun c' => c' = c);
    [by apply returns_lift; intros ? [= <-]|]. intros ? ->.
  pose proof (open_executed c Hok Hb) as Hexc.
  assert (forall d, d ∈ eo_dependencies (pc_operation c) ->
    exists o', o' ∈ executable /\ executed o' /\ eo_id o' = d) as Hdeps.
  { intros d Hd. destruct (ordered_dependency _ _ _ _ _ Hsplit Hc Hb Hd) as (j & e & Hj & He & Hid).
    destruct (covers_id _ _ _ _ _ Hcov Hj He) as (o' & Ho' & Hid'). exists o'.
    split_and!; [done| |congruence]. rewrite Forall_forall in Hex. auto. }
  destruct (_ && _).
  - eapply returns_bind; [apply returns_any|]. intros source _.
    eapply returns_bind; [apply unique_staging_path_fresh|]. intros path Hpath.
    eapply returns_bind; [apply returns_any|]. intros stage_id _. apply returns_ret.
    split; cbn.
    + apply backed_app; [done|]. intros [|[|]] o d Ho He Hd; cbn in Ho |- *; [| |done];
        injection Ho as <-; cbn in Hd.
      * rewrite app_nil_r. auto.
      * apply list_elem_of_singleton in Hd as ->. eexists. split; [|split; [apply stage_executed|done]].
        apply elem_of_app. right. by left.
    + apply Forall_app. split; [done|]. constructor; [apply stage_executed|]. by apply Forall_singleton.
    + apply covers_app; [done|]. change [i] with ([] ++ [i]).
      apply (covers_app l [_] [_]); [by apply covers_stage|by eapply covers_one].
    + by apply staged_snoc.
  - apply returns_ret. split; cbn.
    + apply backed_app; [done|]. intros [|] o d Ho He Hd; cbn in Ho |- *; [|done].
      injection Ho as <-. rewrite app_nil_r. auto.
    + apply Forall_app. split; [done|by apply Forall_singleton].
    + apply covers_app; [done|]. by eapply covers_one.
    + done.
Qed.

Record cyclic_inv (done : list nat)
    (planned : list ExecutionOperation * list ExecutionOperation * list str) : Prop := {
  ci_stages : Forall (fun o => executed o /\ eo_dependencies o = []
    /\ eo_proposal_operation_id o = None) planned.1.1;
  ci_executed : Forall executed planned.1.2;
  ci_covers : covers l planned.1.2 done;
  ci_staged : staged planned.2
}.

Lemma schedule_cyclic_inv root execution_id staging :
  staged staging ->
  returns (W := W) (fold_se (schedule_cyclic policy root execution_id l) ([], [], staging) cyclic)
    (cyclic_inv cyclic).
Proof.
  intros Hstaging. apply returns_fold; [by split|].
  intros done i todo [[stages cycle_operations] staged_so_far] Hsplit [Hstages Hex Hcov Hst].
  cbn [fst snd] in *. unfold schedule_cyclic.
  destruct (planned_index i) as (c & Hc & Hb & Hok).
  { rewrite Hsplit, !elem_of_app. right. right. by left. }
  rewrite Hc. eapply returns_bind with (P := fun c' => c' = c);
    [by apply returns_lift; intros ? [= <-]|]. intros ? ->.
  eapply returns_bind; [apply returns_any|]. intros source _.
  eapply returns_bind; [apply unique_staging_path_fresh|]. intros path Hpath.
  eapply returns_bind; [apply returns_any|]. intros stage_id _. apply returns_ret.
  split; cbn.
  - apply Forall_app. split; [done|]. apply Forall_singleton.
    split; [apply stage_executed|split; reflexivity].
  - apply Forall_app. split; [done|]. apply Forall_singleton. by apply (open_executed c).
  - apply covers_app; [done|]. by eapply covers_one.
  - by apply staged_snoc.
Qed.
End scheduling.

(** The executable operations of a plan. *)
Record scheduled_well (l : list PlannedCandidate) (scheduled : list ExecutionOperation * list str) :
    Prop := {
  sw_backed : backed scheduled.1;
  sw_executed : Forall executed scheduled.1;
  sw_files : essence <$> filter is_file_operation scheduled.1
    ≡ₚ essence <$> omap (operation_at l) (unblocked_indices l);
  sw_staged : staged scheduled.2
}.

Lemma with_dependencies_essence ids (l : list ExecutionOperation) :
  essence <$> filter is_file_operation (with_dependencies ids <$> l)
  = essence <$> filter is_file_operation l.
Proof.
  induction l as [|o l IH]; [done|]. rewrite fmap_cons, !filter_cons.
  destruct (decide (is_file_operation o)) as [H|H].
  - rewrite (decide_True (P := is_file_operation (with_dependencies ids o))) by exact H.
    rewrite !fmap_cons. f_equal. exact IH.
  - rewrite (decide_False (P := is_file_operation (with_dependencies ids o))) by exact H. exact IH.
Qed.

Lemma schedule_well root execution_id l :
  candidates_ready l ->
  returns (W := W) (schedule policy root execution_id l) (scheduled_well l).
Proof.
  intros ready. unfold schedule. destruct (dependency_order l) as [ordered cyclic] eqn:order.
  eapply returns_bind; [by eapply schedule_ordered_inv|].
  intros [executable staging] [Hb He Hc Hs]. cbn [fst snd] in *.
  eapply returns_bind; [by eapply schedule_cyclic_inv|].
  intros [[stages cycle_operations] staging'] [Hstages Hex Hcov Hst]. cbn [fst snd] in *.
  apply returns_ret. split; cbn.
  - apply backed_app; [done|]. intros i o d Ho Hexec Hd.
    apply lookup_app_Some in Ho as [Ho|[Hlen Ho]].
    { destruct (Forall_lookup_1 _ _ _ _ Hstages Ho) as (_ & Hnil & _). rewrite Hnil in Hd.
      by apply elem_of_nil in Hd. }
    rewrite list_lookup_fmap in Ho. apply fmap_Some in Ho as (o0 & Ho & ->).
    cbn in Hd. apply list_elem_of_fmap in Hd as (stage & -> & Hstage). exists stage.
    rewrite take_app, take_ge by done. split_and!; [set_solver| |done].
    rewrite Forall_forall in Hstages. by apply Hstages.
  - apply Forall_app. split; [done|]. apply Forall_app. split.
    + eapply Forall_impl; [exact Hstages|]. by intros o (? & _).
    + apply Forall_fmap. eapply Forall_impl; [exact Hex|]. done.
  - rewrite filter_app, filter_app, !fmap_app, with_dependencies_essence, Hc, Hcov.
    replace (filter is_file_operation stages) with (@nil ExecutionOperation).
    + cbn. rewrite <- fmap_app, <- omap_app. apply fmap_Permutation.
      by rewrite (proj1 (order_facts l _ _ order)).
    + clear -Hstages. induction Hstages as [|o stages (_ & _ & Hn) _ IH]; [done|].
      rewrite filter_cons, decide_False; [done|]. unfold is_file_operation. rewrite Hn. by intros [].
  - done.
Qed.

(** ** The operations of a plan *)

(** The operations planning adds: nothing they wait for, no file of theirs. *)
Definition own_operation (o : ExecutionOperation) : Prop :=
  eo_dependencies o = [] /\ eo_proposal_operation_id o = None.

Lemma plan_directories_own execution_id root all user :
  returns (W := W) (plan_directories policy execution_id root all user)
    (fun planned => Forall own_operation planned.1).
Proof.
  unfold plan_directories. do 2 (eapply returns_bind; [apply returns_any|intros ? _]).
  apply (returns_fold _ (fun _ planned => Forall own_operation planned.1)); [constructor|].
  intros done prefix todo [operations user_count] _ Hown. cbn [fst] in Hown. unfold plan_directory.
  do 2 (eapply returns_bind; [apply returns_any|intros ? _]).
  destruct a2 as [metadata|error].
  - destruct (_ && _); [by apply returns_ret|apply returns_fail].
  - destruct (negb _); [apply returns_fail|].
    do 2 (eapply returns_bind; [apply returns_any|intros ? _]). apply returns_ret. cbn [fst].
    apply Forall_app. split; [done|]. apply Forall_singleton. by split.
Qed.

Lemma plan_cleanup_own execution_id root executable user :
  returns (W := W) (plan_source_directory_cleanup execution_id root executable user)
    (Forall own_operation).
Proof.
  unfold plan_source_directory_cleanup. case_bool_decide; [by apply returns_ret; constructor|].
  eapply returns_bind; [apply returns_any|]. intros removable _.
  apply (returns_fold _ (fun _ => Forall own_operation)); [constructor|].
  intros done relative todo operations _ Hown.
  eapply returns_bind; [apply returns_any|]. intros id _. apply returns_ret, Forall_app.
  split; [done|]. apply Forall_singleton. by split.
Qed.

(** Numbering changes nothing but the numbers. *)
Definition numbered_as (o o' : ExecutionOperation) : Prop :=
  essence o' = essence o /\ eo_dependencies o' = eo_dependencies o.

Lemma number_operations_spec index l l' :
  number_operations index l = Ok l' ->
  Forall2 numbered_as l l'
  /\ forall i o, l' !! i = Some o -> eo_sequence o = index + Z.of_nat i.
Proof.
  revert index l'. induction l as [|o l IH]; intros index l'; cbn [number_operations].
  { intros [= <-]. split; [constructor|done]. }
  intros (s & Hs%ok_or_Ok & (rest & Hrest & [= <-])%bind_Ok)%bind_Ok.
  unfold u32_try_from in Hs. case_match; simplify_eq. apply IH in Hrest as [Hall Hseq]. split.
  - by constructor.
  - intros [|i] o' Ho; cbn in Ho; [injection Ho as <-; cbn; lia|].
    rewrite (Hseq _ _ Ho). lia.
Qed.

Lemma numbered_executed o o' : numbered_as o o' -> executed o' <-> executed o.
Proof. intros [He _]. unfold executed. by injection He as _ _ _ _ _ _ ->. Qed.

Lemma numbered_backed l l' : Forall2 numbered_as l l' -> backed l -> backed l'.
Proof.
  intros H Hb i o' d Ho' He Hd. destruct (Forall2_lookup_r _ _ _ _ _ H Ho') as (o & Ho & Hn).
  assert (executed o) as He0 by (by apply (numbered_executed o o')).
  destruct Hn as [_ Hdeps]. rewrite Hdeps in Hd.
  destruct (Hb i o d Ho He0 Hd) as (p & Hp & Hep & Hid).
  apply (Forall2_take _ _ _ i) in H. apply list_elem_of_lookup in Hp as [k Hk].
  destruct (Forall2_lookup_l _ _ _ _ _ H Hk) as (p' & Hp' & Hnp).
  exists p'. split_and!; [by eapply list_elem_of_lookup_2|by apply (numbered_executed p p')|].
  destruct Hnp as [Hess _]. by injection Hess as -> _.
Qed.

(** The file operations that are executed. *)
Definition live_file (o : ExecutionOperation) : Prop := is_file_operation o /\ executed o.
#[local] Instance live_file_dec o : Decision (live_file o).
Proof. unfold live_file, executed, not_executed. apply _. Defined.

Lemma live_file_essence o o' : essence o' = essence o -> live_file o' <-> live_file o.
Proof.
  intros He. unfold live_file, is_file_operation, executed.
  by injection He as _ -> _ _ _ _ ->.
Qed.

Lemma filter_essence l l' :
  Forall2 (fun o o' => essence o' = essence o) l l' ->
  essence <$> filter live_file l' = essence <$> filter live_file l.
Proof.
  induction 1 as [|o o' l l' He _ IH]; [done|]. rewrite !filter_cons.
  pose proof (live_file_essence _ _ He). repeat case_decide; try tauto.
  rewrite !fmap_cons, He. by rewrite IH.
Qed.

Lemma filter_none (P : ExecutionOperation -> Prop) `{!forall o, Decision (P o)} l :
  Forall (fun o => ~ P o) l -> filter P l = [].
Proof. induction 1 as [|o l Ho _ IH]; [done|]. by rewrite filter_cons, decide_False. Qed.

Record operations_well (l : list PlannedCandidate) (operations : list ExecutionOperation) : Prop := {
  ow_numbered : forall i o, operations !! i = Some o -> eo_sequence o = Z.of_nat i;
  ow_backed : backed operations;
  ow_files : essence <$> filter live_file operations
    ≡ₚ essence <$> omap (operation_at l) (unblocked_indices l)
}.

Lemma plan_operations_well context execution_id l :
  candidates_ready l ->
  returns (W := W) (plan_operations policy context execution_id l)
    (fun planned => operations_well l planned.1).
Proof.
  intros ready. unfold plan_operations.
  eapply returns_bind; [by apply schedule_well|]. intros [executable staging] [Hb He Hf _].
  cbn [fst snd] in *. eapply returns_bind; [apply plan_directories_own|].
  intros [directories user_count] Hdirs. cbn [fst] in Hdirs.
  eapply returns_bind; [apply plan_cleanup_own|]. intros cleanup Hclean.
  eapply returns_bind with (P := fun operations => operations_well l operations);
    [|intros operations Hops; by apply returns_ret].
  apply returns_lift. intros operations Hn%map_err_Ok.
  apply number_operations_spec in Hn as [Hall Hseq]. cbn in Hseq.
  set (blocked := pc_operation <$> _) in Hall.
  assert (Forall (fun o => ~ executed o) blocked) as Hblocked.
  { apply Forall_fmap, Forall_forall. intros c [Hc Hin]%list_elem_of_filter. cbn.
    unfold executed. intros Hn. apply Hn. pose proof (cr_ok _ ready) as Hok.
    rewrite Forall_forall in Hok. by apply Hok. }
  assert (forall o, own_operation o -> ~ live_file o) as Hown.
  { intros o [_ Hn] [[p Hp] _]. congruence. }
  split; [done| |].
  - eapply numbered_backed; [exact Hall|]. apply backed_independent.
    2: { eapply Forall_impl; [exact Hdirs|]. by intros o [? _]. }
    apply backed_app; [done|]. intros i o d Ho Hexec Hd.
    apply lookup_app_Some in Ho as [Ho|[_ Ho]].
    + destruct (Forall_lookup_1 _ _ _ _ Hclean Ho) as [Hnil _]. rewrite Hnil in Hd.
      by apply elem_of_nil in Hd.
    + by destruct (Forall_lookup_1 _ _ _ _ Hblocked Ho).
  - rewrite (filter_essence _ operations)
      by (eapply Forall2_impl; [exact Hall|]; by intros o o' []).
    rewrite !filter_app, (filter_none live_file directories), (filter_none live_file cleanup),
      (filter_none live_file blocked), !app_nil_r; cbn [app].
    + replace (filter live_file executable) with (filter is_file_operation executable); [done|].
      clear -He. induction He as [|o l Ho _ IH]; [done|]. rewrite !filter_cons, IH.
      repeat case_decide; first [reflexivity | unfold live_file in *; tauto].
    + eapply Forall_impl; [exact Hblocked|]. intros o Hn [_ ?]. done.
    + eapply Forall_impl; [exact Hclean|]. auto.
    + eapply Forall_impl; [exact Hdirs|]. auto.
Qed.

Lemma NoDup_fmap_omap {A B C} (g : A -> option B) (f : B -> C) (is' : list A) :
  NoDup is' ->
  (forall i j o o', i ∈ is' -> j ∈ is' -> g i = Some o -> g j = Some o' -> f o = f o' -> i = j) ->
  NoDup (f <$> omap g is').
Proof.
  induction 1 as [|i is' Hi Hnd IH]; intros Hinj; cbn; [constructor|].
  assert (NoDup (f <$> omap g is')) as Hrest.
  { apply IH. intros j k o o' ? ?. apply Hinj; by right. }
  destruct (g i) as [o|] eqn:Ho; [|done]. cbn. constructor; [|done].
  intros (o' & Hf & (j & Hj & Hgj)%list_elem_of_omap)%list_elem_of_fmap.
  apply Hi. rewrite (Hinj i j o o'); [done|by left|by right|done..].
Qed.

(** The files of the plan, seen from its operations. *)
Lemma live_file_origin l operations o :
  candidates_ready l -> operations_well l operations -> o ∈ operations -> live_file o ->
  exists i c, l !! i = Some c /\ pc_blocked c = false /\ essence o = essence (pc_operation c).
Proof.
  intros ready [_ _ Hf] Ho Hlive.
  assert (essence o ∈ essence <$> filter live_file operations) as Hin.
  { apply list_elem_of_fmap. exists o. split; [done|]. by apply list_elem_of_filter. }
  rewrite Hf in Hin. apply list_elem_of_fmap in Hin as (p & He & (i & Hi & Hp)%list_elem_of_omap).
  apply unblocked_indices_spec in Hi as (c & Hc & Hb). unfold operation_at in Hp.
  rewrite Hc in Hp. injection Hp as <-. eauto.
Qed.

Lemma live_destinations_distinct l operations :
  candidates_ready l -> operations_well l operations ->
  NoDup ((fun o => path_key (eo_destination_relative_path o)) <$> filter live_file operations).
Proof.
  intros ready [_ _ Hf].
  pose (destination_of := fun e : OperationStepId * option ProposalItemId * ExecutionOperationKind
    * str * option str * option FileFingerprint * ExecutionOperationStatus =>
    let '(_, _, _, destination, _, _, _) := e in path_key destination).
  assert (forall k : list ExecutionOperation, (fun o => path_key (eo_destination_relative_path o)) <$> k
    = destination_of <$> (essence <$> k)) as Hvia.
  { intros k. rewrite <- list_fmap_compose. done. }
  rewrite Hvia, Hf, <- Hvia. apply NoDup_fmap_omap; [apply unblocked_indices_NoDup|].
  intros i j o o' (c & Hc & Hb)%unblocked_indices_spec (d & Hd & Hb')%unblocked_indices_spec.
  unfold operation_at. rewrite Hc, Hd. intros [= <-] [= <-] Hkey.
  by apply (cr_distinct _ ready i j c d).
Qed.

(** ** The plan *)

Record prepared_well (detail : ExecutionDetail) : Prop := {
  (* operations are numbered by their position *)
  pw_numbered : forall i o, ed_operations detail !! i = Some o -> eo_sequence o = Z.of_nat i;
  (* dependencies come first and are executed *)
  pw_backed : backed (ed_operations detail);
  (* no two executed files go to one place, up to case *)
  pw_destinations : NoDup ((fun o => path_key (eo_destination_relative_path o))
    <$> filter live_file (ed_operations detail));
  (* every executed file was seen as it is, and is approved *)
  pw_files : forall o, o ∈ ed_operations detail -> live_file o ->
    eo_status o = EosPreflightOk
    /\ (exists fp, eo_live_fingerprint o = Some fp /\ stable_for_apply fp = true)
    /\ exists id, eo_proposal_operation_id o = Some id
         /\ id ∈ aep_approved_operation_ids (ses_approval (ed_session detail));
  (* something is executed, nothing yet *)
  pw_pending : 0 < aep_operation_count (ses_approval (ed_session detail))
    /\ ses_status (ed_session detail) = OesAwaitingConfirmation
    /\ ses_consent (ed_session detail) = ExecutionConsent_pending
    /\ aep_user_confirmed (ses_approval (ed_session detail)) = false;
  pw_verified : verify_plan_digest detail = Ok tt
}.

(** C38: Whatever the file system and the database answer, a plan that
    [prepare_execution] stores is executable as it stands: operations are
    numbered by position, every dependency of an executed operation is an
    executed operation before it, no two executed files share a destination up
    to case, every one of them has a stable live fingerprint and is approved,
    nothing is confirmed yet, and the digest verifies. *)
Theorem prepared_plan_is_executable context :
  returns (W := W) (prepare_detail policy context) prepared_well.
Proof.
  unfold prepare_detail. do 2 (eapply returns_bind; [apply returns_any|intros ? _]).
  eapply returns_bind; [apply plan_candidates_ready|]. intros l ready.
  eapply returns_bind with (P := fun _ =>
    count_where (fun candidate => negb (pc_blocked candidate)) l <> 0).
  { apply returns_lift. intros u Hu. apply reject_if_Ok in Hu.
    apply orb_false_iff in Hu as [Hu _]. by apply Z.eqb_neq in Hu. }
  intros _ Hsafe. eapply returns_bind; [by apply plan_operations_well|].
  intros [operations user_count] Hops. cbn [fst] in Hops.
  do 3 (eapply returns_bind; [apply returns_any|intros ? _]).
  eapply returns_bind with (P := fun count => count = zlen (approved_ids l)).
  { apply returns_lift. intros count Hc%ok_or_Ok. unfold u64_try_from in Hc. by case_match; simplify_eq. }
  intros count ->. eapply returns_bind; [apply returns_any|]. intros digest _.
  set (detail := assemble_detail _ _ _ _ _ _ _ _ _ _).
  eapply returns_bind with (P := fun _ => verify_plan_digest detail = Ok tt);
    [by apply returns_lift; intros [] ?%map_err_Ok|].
  intros _ Hverify. apply returns_ret. pose proof (verify_plan_digest_inv _ Hverify) as (_ & Hids & _).
  split; cbn [ed_operations detail assemble_detail]; try by destruct Hops.
  - by eapply live_destinations_distinct.
  - intros o Ho Hlive. destruct (live_file_origin _ _ _ ready Hops Ho Hlive) as (i & c & Hc & Hb & He).
    destruct (Forall_lookup_1 _ _ _ _ (cr_ok _ ready) Hc) as [Hp _ _ _ Hopen].
    destruct (Hopen Hb) as [Hs Hfp]. injection He as _ Hpo _ _ _ Hl Hst.
    rewrite Hst, Hl, Hpo. split_and!; [done|done|]. destruct Hp as [id Hid]. exists id.
    split; [done|]. rewrite <- Hids. unfold executable_operation_ids. rewrite sort_by_perm.
    apply list_elem_of_omap. exists o. rewrite Hpo. split; [|done].
    apply list_elem_of_filter. by destruct Hlive.
  - split_and!; [|done..]. cbn [aep_operation_count ses_approval ed_session detail assemble_detail].
    unfold approved_ids, zlen. rewrite sort_by_length. unfold count_where, zlen in Hsafe.
    clear -ready Hsafe. destruct ready as [Hok _ _].
    induction Hok as [|c l [Hp _ _ _ _] _ IH]; [done|]. cbn. rewrite filter_cons in Hsafe.
    destruct (pc_blocked c); cbn in Hsafe; [by apply IH|]. destruct Hp as [id ->]. cbn. lia.
Qed.
End preparation.
