(* ===== verification/Inspection.v ===== *)
(** * What planning sees of the file system

    On a file system that stays as it is while it is inspected: which
    directories the cleanup removes, and that the destinations of a plan are
    free or vacated by it. *)

From S2P Require Export Prepared.
#[local] Open Scope Z_scope.

#[local] Notation scalar := (Forall (fun c => is_scalar c = true)).

(** Reading a directory does not change what is read, its entries are names,
    and what has more components than fit [PATH_MAX] does not exist. *)
Class StableDir (W : Type) `{RD : ReadDir W} `{ST : StableFs W} : Type := {
  seen_entries : W -> PathBuf -> res io_error (list (res io_error bytes));
  read_dir_seen path w : read_dir path w = (seen_entries w path, w);
  entry_plain w path entries name :
    seen_entries w path = Ok entries -> Ok name ∈ entries -> plain name;
  path_max w path metadata :
    seen_metadata w path = Ok metadata -> (length (components path) <= 4096)%nat
}.

(** Computations that only look. *)
Definition looks {W E A} (m : SE W E A) : Prop := forall w, snd (m w) = w.

Lemma looks_bind {W E A B} (m : SE W E A) (k : A -> SE W E B) :
  looks m -> (forall a, looks (k a)) -> looks (m ≫= k).
Proof.
  intros Hm Hk w. cbv [mbind se_bind]. specialize (Hm w).
  destruct (m w) as [[a|e] w1]; cbn in Hm |- *; subst w1; [apply Hk|done].
Qed.
Lemma looks_ret {W E A} (a : A) : looks (W := W) (E := E) (mret a).
Proof. done. Qed.
Lemma looks_fail {W E A} (e : E) : looks (W := W) (A := A) (se_fail e).
Proof. done. Qed.
Lemma looks_lift {W E A} (m : res E A) : looks (W := W) (se_lift m).
Proof. done. Qed.
Lemma looks_try {W E F A} (m : SE W E A) : looks m -> looks (se_try (F := F) m).
Proof. intros H w. unfold se_try. specialize (H w). by destruct (m w). Qed.
Lemma looks_map_err {W E F A} (f : E -> F) (m : SE W E A) : looks m -> looks (se_map_err f m).
Proof. intros H w. unfold se_map_err. specialize (H w). by destruct (m w). Qed.

(** The attempt of a computation that only looks. *)
Lemma looks_tried {W E F A} (m : SE W E A) w (r : res E A) w' :
  looks m -> se_try (F := F) m w = (Ok r, w') -> w' = w /\ m w = (r, w).
Proof.
  intros H. unfold se_try. specialize (H w). destruct (m w) as [r' w1]. cbn in H. by intros [= -> ->]; subst.
Qed.

(** Runs through a computation, following its branches. *)
Ltac looking :=
  repeat first
    [ assumption
    | progress intros
    | match goal with
      | |- looks (_ ≫= _) => apply looks_bind
      | |- looks (mret _) => apply looks_ret
      | |- looks (se_fail _) => apply looks_fail
      | |- looks (se_lift _) => apply looks_lift
      | |- looks (se_try _) => apply looks_try
      | |- looks (se_map_err _ _) => apply looks_map_err
      | |- looks (match ?x with _ => _ end) => destruct x
      end ].

(** A run that ends well, past a part that only looks. *)
Lemma looks_run {W E A B} (m : SE W E A) (k : A -> SE W E B) w b w' :
  looks m -> (m ≫= k) w = (Ok b, w') -> exists a, m w = (Ok a, w) /\ k a w = (Ok b, w').
Proof.
  intros Hm (a & w1 & Ha & Hk)%se_bind_Ok. pose proof (Hm w) as Hw. rewrite Ha in Hw.
  cbn in Hw. subst w1. eauto.
Qed.

Lemma lift_run {W E A B} (m : res E A) (k : A -> SE W E B) w b w' :
  (se_lift m ≫= k) w = (Ok b, w') -> exists a, m = Ok a /\ k a w = (Ok b, w').
Proof. intros (a & Ha & Hk)%looks_run; [|apply looks_lift]. injection Ha as ->. eauto. Qed.

Lemma mapped_run {W E F A B} (f : E -> F) (m : SE W E A) (k : A -> SE W F B) w b w' :
  looks m -> (se_map_err f m ≫= k) w = (Ok b, w') ->
  exists a, m w = (Ok a, w) /\ k a w = (Ok b, w').
Proof.
  intros Hm (a & Ha & Hk)%looks_run; [|by apply looks_map_err]. exists a. split; [|done].
  unfold se_map_err in Ha. destruct (m w) as [r w1]. injection Ha as Hr ->.
  by apply map_err_Ok in Hr as ->.
Qed.

Lemma tried_run {W E F A B} (m : SE W E A) (k : res E A -> SE W F B) w b w' :
  looks m -> (se_try m ≫= k) w = (Ok b, w') ->
  exists r, m w = (r, w) /\ k r w = (Ok b, w').
Proof.
  intros Hm (r & w1 & Hr & Hk)%se_bind_Ok. apply looks_tried in Hr as [-> Hr]; [|done]. eauto.
Qed.

Section inspection.
Context {W : Type} `{B3 : Blake3} `{BH : Blake3Hex} `{UU : UuidCrate} `{UC : UnicodeCase}.
Context `{US : UuidSource W} `{FS : StdFs W} `{RD : !ReadDir W} `{RO : ReadOnlyPlatform W} `{TG : Target}.
Context `{ST : !StableFs W} `{SD : !StableDir W}.
Variable policy : ExecutionSafetyPolicy.

Lemma looks_metadata path : looks (symlink_metadata path).
Proof. intros w. by rewrite symlink_metadata_seen. Qed.
Lemma looks_canonicalize path : looks (canonicalize path).
Proof. intros w. by rewrite canonicalize_seen. Qed.
Lemma looks_read_dir path : looks (read_dir path).
Proof. intros w. by rewrite read_dir_seen. Qed.

Lemma looks_check_ancestors current leaf n i rest : looks (check_ancestors current leaf n i rest).
Proof.
  revert current i. induction rest as [|c rest IH]; intros current i; cbn [check_ancestors]; [done|].
  looking; [apply looks_metadata|apply IH].
Qed.

Lemma looks_nearest candidates : looks (nearest_existing candidates).
Proof. induction candidates; cbn [nearest_existing]; looking; apply looks_metadata. Qed.

Lemma looks_reject_overlap paths candidate : looks (reject_overlap paths candidate).
Proof.
  induction paths; cbn [reject_overlap]; unfold canonical_or_self; looking; apply looks_canonicalize.
Qed.

Lemma looks_resolve_absent root relative staging :
  looks (resolve_absent_destination policy root relative staging).
Proof.
  unfold resolve_absent_destination, validate_existing_ancestors, nearest_existing_parent,
    reject_app_owned_path. looking;
    auto using looks_check_ancestors, looks_metadata, looks_nearest, looks_canonicalize,
      looks_reject_overlap.
Qed.

Lemma looks_resolve_existing root relative : looks (resolve_existing_source policy root relative).
Proof.
  unfold resolve_existing_source, validate_existing_ancestors, reject_app_owned_path. looking;
    auto using looks_check_ancestors, looks_metadata, looks_canonicalize, looks_reject_overlap.
Qed.

Lemma looks_existing path : looks (case_insensitive_existing path).
Proof.
  unfold case_insensitive_existing. looking; auto using looks_metadata, looks_read_dir.
Qed.

(** What a resolved path has shown to be there, or not to be. *)
Lemma resolve_absent_seen root relative staging w joined w' :
  resolve_absent_destination policy root relative staging w = (Ok joined, w') ->
  w' = w /\ missing w (path_join root relative).
Proof.
  intros Hrun. pose proof (looks_resolve_absent root relative staging w) as Hw.
  rewrite Hrun in Hw. split; [done|]. revert Hrun. unfold resolve_absent_destination.
  intros (j & Hj & H)%lift_run. apply resolve_lexically_Ok in Hj as (_ & _ & ->).
  apply looks_run in H as (u & _ & H); [|unfold validate_existing_ancestors; looking;
    apply looks_check_ancestors].
  apply tried_run in H as (found & Hf & H); [|apply looks_metadata].
  rewrite symlink_metadata_seen in Hf. injection Hf as <-.
  apply se_bind_Ok in H as (u' & w1 & H & _).
  destruct (seen_metadata w _) as [m|e] eqn:He; [done|]. exists e. split; [done|].
  unfold is_not_found in H. by case_bool_decide.
Qed.

Lemma resolve_existing_seen root relative w joined w' :
  resolve_existing_source policy root relative w = (Ok joined, w') ->
  w' = w /\ joined = path_join root relative
  /\ exists m, seen_metadata w joined = Ok m /\ md_is_symlink m = false /\ md_is_file m = true.
Proof.
  intros Hrun. pose proof (looks_resolve_existing root relative w) as Hw.
  rewrite Hrun in Hw. revert Hrun. unfold resolve_existing_source.
  intros (j & Hj & H)%lift_run. apply resolve_lexically_Ok in Hj as (_ & _ & ->).
  apply mapped_run in H as (m & Hm & H); [|apply looks_metadata].
  rewrite symlink_metadata_seen in Hm. injection Hm as Hm.
  apply lift_run in H as (u & Hkind%reject_if_Ok & H).
  apply orb_false_iff in Hkind as [? Hfile%negb_false_iff].
  assert (joined = path_join root relative) as ->.
  { do 5 apply se_bind_Ok in H as (? & ? & _ & H). by injection H. }
  split_and!; [done..|]. eauto.
Qed.

(** ** Free destinations *)

(** Nothing is at the destination, in any case, and the policy admits it. *)
Definition destination_free (w : W) (root : PathBuf) (destination : str) : Prop :=
  exists relative resolved, relative_path destination = Ok relative
    /\ case_insensitive_existing (path_join root relative) w = (Ok None, w)
    /\ resolve_absent_destination policy root relative false w = (Ok resolved, w).

(** The candidate [j] moves away from the destination of [c] at [i] before [c]
    moves in, or is [c] itself, which only changes the case. *)
Definition vacates (l : list PlannedCandidate) (i : nat) (c : PlannedCandidate) (j : nat)
    (d : PlannedCandidate) : Prop :=
  l !! j = Some d
  /\ path_key <$> eo_source_relative_path (pc_operation d) = Some (destination_key c)
  /\ if decide (j = i)
     then esp_allow_qualified_case_only_rename policy = true
          /\ is_case_only_operation (pc_operation c) = true
     else eo_id (pc_operation d) ∈ eo_dependencies (pc_operation c).

Definition secured (w : W) (root : PathBuf) (l : list PlannedCandidate) (i : nat) : Prop :=
  forall c, l !! i = Some c -> pc_blocked c = false ->
    destination_free w root (eo_destination_relative_path (pc_operation c))
    \/ exists j d, vacates l i c j d.

Lemma vacates_evolves l l' i c c' j d :
  evolves l l' -> evolves1 c c' -> vacates l i c j d -> exists d', vacates l' i c' j d'.
Proof.
  intros Hev [_ _ Hsrc Hdest _ _ _ Hdeps] (Hj & Hs & Hd).
  destruct (evolves_lookup _ _ _ _ Hev Hj) as (d' & Hj' & [Hid _ Hsrc' _ _ _ _ _]).
  exists d'. unfold vacates, destination_key, is_case_only_operation in *.
  rewrite Hsrc', Hdest, Hsrc, Hid. split_and!; [done..|]. case_decide; [done|]. set_solver.
Qed.

Lemma secured_evolves w root l l' i : evolves l l' -> secured w root l i -> secured w root l' i.
Proof.
  intros Hev Hs c' Hc' Hb'. destruct (evolves_lookup_r _ _ _ _ Hev Hc') as (c & Hc & Hcc).
  destruct (Hs c Hc) as [Hfree|(j & d & Hd)].
  - destruct (pc_blocked c) eqn:Hb; [|done]. destruct Hcc as [_ _ _ _ _ Hkeep _ _].
    by rewrite Hkeep in Hb'.
  - left. destruct Hcc as [_ _ _ Hdest _ _ _ _]. by rewrite Hdest.
  - right. destruct (vacates_evolves _ _ _ _ _ _ _ Hev Hcc Hd) as (d' & ?). eauto.
Qed.

(** A candidate blocked where it stands needs no destination. *)
Lemma secured_blocked w root l i code message : secured w root (block_at i code message l) i.
Proof.
  intros c Hc Hb. unfold block_at in Hc. rewrite list_lookup_alter_eq in Hc.
  by apply fmap_Some in Hc as (c0 & _ & ->).
Qed.

Lemma resolve_occupied_secured w root l0 l i c :
  evolves l0 l -> l !! i = Some c ->
  secured w root (resolve_occupied policy (sources_by_key l0) l i (pc_operation c)) i.
Proof.
  intros Hev Hc. unfold resolve_occupied.
  destruct (sources_by_key l0 !! _) as [occupant|] eqn:Hocc; [|apply secured_blocked].
  apply sources_by_key_spec in Hocc as (d0 & source & Hd0 & _ & Hs & Hkey).
  destruct (evolves_lookup _ _ _ _ Hev Hd0) as (d & Hd & [_ _ Hsrc _ _ _ _ _]).
  assert (path_key <$> eo_source_relative_path (pc_operation d) = Some (destination_key c)) as Hvacant.
  { rewrite Hsrc, Hs. cbn. by rewrite Hkey. }
  rewrite Hd. destruct (Nat.eqb_spec occupant i) as [->|Hne]; cbn [andb orb].
  - destruct (_ && is_case_only_operation _) eqn:Hcase; [|apply secured_blocked].
    apply andb_true_iff in Hcase as [Hallow Hcase]. intros c' Hc' _. rewrite Hc in Hc'.
    injection Hc' as <-. right. exists i, d. split_and!; [done..|]. by rewrite decide_True.
  - destruct (pc_blocked d); [apply secured_blocked|]. intros c' Hc' _.
    rewrite list_lookup_alter_eq, Hc in Hc'. injection Hc' as <-. right. exists occupant, d.
    split_and!; [by rewrite list_lookup_alter_ne|done|]. rewrite decide_False by done. cbn. set_solver.
Qed.

Lemma resolve_destination_secured root l0 l i w l' w' :
  evolves l0 l -> resolve_destination policy root (sources_by_key l0) l i w = (Ok l', w') ->
  w' = w /\ secured w root l' i.
Proof.
  intros Hev. unfold resolve_destination. destruct (l !! i) as [c|] eqn:Hc.
  2: { intros [= <- <-]. split; [done|]. intros c Hc'. congruence. }
  destruct (pc_blocked c) eqn:Hb.
  { intros [= <- <-]. split; [done|]. intros c' Hc'. congruence. }
  destruct (relative_path _) as [relative|error] eqn:Hrel.
  2: { intros [= <- <-]. split; [done|apply secured_blocked]. }
  intros (r & w1 & Htry & Hrun)%se_bind_Ok. apply looks_tried in Htry as [-> Hfound];
    [|apply looks_existing]. revert Hrun.
  destruct r as [[existing|]|error].
  - intros [= <- <-]. split; [done|by apply resolve_occupied_secured].
  - intros (resolved & w1 & Htry & Hrun)%se_bind_Ok.
    apply looks_tried in Htry as [-> Hres]; [|apply looks_resolve_absent].
    injection Hrun as <- <-. split; [done|]. destruct resolved as [joined|error];
      [|apply secured_blocked].
    intros c' Hc' _. rewrite Hc in Hc'. injection Hc' as <-. left. by exists relative, joined.
  - intros [= <- <-]. split; [done|apply secured_blocked].
Qed.

Lemma resolve_dependencies_secured root l w l' w' :
  resolve_destination_dependencies policy root l w = (Ok l', w') ->
  w' = w /\ evolves l l' /\ forall i, secured w root l' i.
Proof.
  intros Hrun. pose proof (resolve_dependencies_evolves policy root l w l' w' Hrun) as [Hev _].
  revert Hrun. unfold resolve_destination_dependencies.
  enough (forall todo l1 l2 w2, evolves l l1 ->
    fold_se (resolve_destination policy root (sources_by_key l)) l1 todo w = (Ok l2, w2) ->
    w2 = w /\ evolves l1 l2 /\ forall i, i ∈ todo -> secured w root l2 i) as Hfold.
  { intros Hrun. destruct (Hfold _ _ _ _ (reflexivity l) Hrun) as (-> & _ & Hall).
    split_and!; [done..|]. intros i c Hc. apply Hall; [|done]. apply elem_of_seq.
    apply lookup_lt_Some in Hc as ?. apply Forall2_length in Hev. lia. }
  induction todo as [|i todo IH]; intros l1 l2 w2 Hl1 Hrun; cbn [fold_se] in Hrun.
  { injection Hrun as <- <-. split_and!; [done..|]. by intros i ?%elem_of_nil. }
  apply se_bind_Ok in Hrun as (l3 & w3 & Hstep & Hrest).
  destruct (resolve_destination_secured _ _ _ _ _ _ _ Hl1 Hstep) as [-> Hi].
  pose proof (resolve_destination_evolves policy root l l1 i Hl1 w l3 w Hstep) as [Hl3 _].
  destruct (IH l3 l2 w2) as (-> & Hl2 & Hall); [by etrans|done|].
  split_and!; [done|by etrans|]. intros j [->|Hj]%elem_of_cons; [by eapply secured_evolves|auto].
Qed.


(** ** The directories to remove *)

(** The number of names in a relative path. *)
Definition depth (s : str) : nat := length (split is_slash s).

Lemma depth_slashes s : depth s = S (length (filter (fun c => c = 47%N) s)).
Proof.
  unfold depth. induction s as [|c s IH]; [done|]. cbn [split]. rewrite filter_cons.
  unfold is_slash at 1. case_decide as Hc.
  - rewrite (bool_decide_eq_true_2 _ Hc). cbn. by rewrite IH.
  - rewrite (bool_decide_eq_false_2 _ Hc). pose proof (split_not_nil is_slash s).
    by destruct (split is_slash s).
Qed.

Lemma depth_normalize s : (depth s <= depth (normalize_relative_string s))%nat.
Proof.
  rewrite !depth_slashes. apply le_n_S. induction s as [|c s IH]; [done|].
  unfold normalize_relative_string, replace_char in *. rewrite fmap_cons, !filter_cons.
  repeat case_decide; cbn [length]; subst; try done; lia.
Qed.

Lemma normalize_idem s :
  normalize_relative_string (normalize_relative_string s) = normalize_relative_string s.
Proof.
  unfold normalize_relative_string, replace_char. rewrite <- list_fmap_compose.
  apply list_fmap_ext. intros i c _. cbn. by repeat case_decide.
Qed.

Lemma relative_path_depth s relative :
  scalar s -> relative_path s = Ok relative ->
  length (components relative) = depth (normalize_relative_string s) /\ only_names relative.
Proof.
  intros Hs Hr. pose proof (relative_path_iff s Hs) as H. cbn zeta in H.
  destruct (decide _); [|congruence]. destruct H as (path & Hp & Hc).
  rewrite Hr in Hp. injection Hp as <-. split; [by rewrite Hc, length_fmap|].
  unfold only_names. rewrite Hc. apply Forall_fmap. by apply Forall_true.
Qed.

Lemma join_slashes ps :
  (length ps <= S (length (filter (fun b => b = 47%N) (Byte.to_N <$> join_pieces ps))))%nat.
Proof.
  induction ps as [|p [|q ps] IH]; [cbn [length]; lia|cbn [length]; lia|].
  rewrite join_pieces_cons by done. rewrite fmap_app, filter_app, length_app.
  rewrite fmap_cons, filter_cons, decide_True by done. cbn [length] in IH |- *. lia.
Qed.

(** An entry of a directory, named from the root, is deeper. *)
Lemma child_deeper root relative name stripped :
  only_names relative -> plain name ->
  path_strip_prefix (path_join (path_join root relative) name) root = Some stripped ->
  (length (components relative) < depth (normalize_relative_string (to_string_lossy stripped)))%nat.
Proof.
  intros Hrel Hname. assert (components name = [Normal name]) as Hn by by apply components_plain.
  assert (only_names name) as Hon by (unfold only_names; rewrite Hn; by repeat constructor).
  unfold path_strip_prefix. case_match; [|done]. intros [= <-].
  rewrite !components_join, <- app_assoc, drop_app_length, Hn by done.
  eapply Nat.lt_le_trans; [|apply depth_normalize]. rewrite depth_slashes. apply Nat.lt_succ_r.
  unfold to_string_lossy. rewrite (lossy_keeps 47 _ _ ltac:(done) (utf8_lossy_spec _)).
  match goal with |- (_ <= length (filter _ (_ <$> join_pieces ?ps)))%nat =>
    pose proof (join_slashes ps) as Hj end.
  rewrite length_fmap, length_app in Hj. cbn [length] in Hj. lia.
Qed.

Lemma lossy_normal_scalar l : scalar (normalize_relative_string (to_string_lossy l)).
Proof. eapply normalize_scalar, lossy_scalar, utf8_lossy_spec. Qed.

(** What is below a removed directory: regular files that the plan moves away,
    and directories, deeper, that are removed as well; no destination. *)
Definition accounted (w : W) (root : PathBuf) (sources dirs : list str) (absolute : PathBuf)
    (above : nat) (name : bytes) : Prop :=
  exists metadata stripped, seen_metadata w (path_join absolute name) = Ok metadata
    /\ md_is_symlink metadata = false
    /\ path_strip_prefix (path_join absolute name) root = Some stripped
    /\ let child := normalize_relative_string (to_string_lossy stripped) in
       if md_is_dir metadata then child ∈ dirs /\ (above < depth child)%nat
       else md_is_file metadata = true /\ child ∈ sources.

Definition emptied (w : W) (root : PathBuf) (sources destinations dirs : list str) (dir : str) :
    Prop :=
  Forall (fun destination => destination <> dir
    /\ starts_with (dir ++ [47%N]) destination = false) destinations
  /\ exists relative metadata names, relative_path dir = Ok relative
       /\ seen_metadata w (path_join root relative) = Ok metadata
       /\ md_is_dir metadata = true /\ md_is_symlink metadata = false
       /\ seen_entries w (path_join root relative) = Ok (Ok <$> names)
       /\ Forall (accounted w root sources dirs (path_join root relative) (depth dir)) names.

Lemma accounted_weaken w root sources dirs dirs' absolute above name :
  dirs ⊆ dirs' -> accounted w root sources dirs absolute above name ->
  accounted w root sources dirs' absolute above name.
Proof.
  intros Hsub (md & st & ? & ? & ? & Hc). exists md, st. split_and!; [done..|].
  cbn zeta in *. destruct (md_is_dir md); [destruct Hc; split; [by apply Hsub|done]|done].
Qed.

Lemma emptied_weaken w root sources destinations dirs dirs' dir :
  dirs ⊆ dirs' -> emptied w root sources destinations dirs dir ->
  emptied w root sources destinations dirs' dir.
Proof.
  intros Hsub (Hd & rel & md & names & ? & ? & ? & ? & ? & Hall). split; [done|].
  exists rel, md, names. split_and!; [done..|]. eapply Forall_impl; [exact Hall|].
  intros name. by apply accounted_weaken.
Qed.

Lemma collect_id {E A} (entries : list (res E A)) names :
  collect id entries = Ok names -> entries = Ok <$> names.
Proof. rewrite collect_Forall2. induction 1 as [|a b l k H _ IH]; [done|]. cbn. by rewrite <- IH, <- H. Qed.

Lemma looks_children recurse root absolute sources children removable :
  (forall dir removable, looks (recurse dir removable)) ->
  looks (W := W) (collect_children recurse root absolute sources children removable).
Proof.
  intros Hrec. revert removable.
  induction children as [|name children IH]; intros removable; cbn [collect_children]; [done|].
  looking; auto using looks_metadata.
Qed.

Lemma looks_tree n root sources destinations dir removable :
  looks (collect_fully_planned_directory_tree n root sources destinations dir removable).
Proof.
  revert dir removable. induction n as [|n IH]; intros dir removable;
    cbn [collect_fully_planned_directory_tree]; [done|].
  looking; auto using looks_metadata, looks_read_dir, looks_children.
Qed.

Section tree.
Variables (root : PathBuf) (sources destinations : list str) (w : W).

Notation emptied_all dirs := (Forall (emptied w root sources destinations dirs) dirs).

Lemma emptied_all_app dirs dirs' : emptied_all dirs -> emptied_all dirs' -> emptied_all (dirs ++ dirs').
Proof.
  intros H H'. apply Forall_app. split; (eapply Forall_impl; [eassumption|]); intros dir;
    apply emptied_weaken; set_solver.
Qed.

(** What a collected directory adds. *)
Definition collects (collect : str -> list str -> SE W (Abrupt ApplicationError) (bool * list str)) :=
  forall dir removable removable' w', scalar dir ->
  collect dir removable w = (Ok (true, removable'), w') ->
  exists found, removable' = removable ++ found /\ normalize_relative_string dir ∈ found
    /\ emptied_all found.

Lemma children_collected recurse relative children removable removable' w' :
  collects recurse -> (forall dir removable, looks (recurse dir removable)) ->
  only_names relative -> Forall plain children ->
  collect_children recurse root (path_join root relative) sources children removable w
    = (Ok (true, removable'), w') ->
  exists found, removable' = removable ++ found /\ emptied_all found
    /\ Forall (accounted w root sources found (path_join root relative)
                (length (components relative))) children.
Proof.
  intros Hrec Hlook Hrel Hplain. revert removable removable'.
  induction Hplain as [|name children Hname _ IH]; intros removable removable'; cbn [collect_children].
  { intros [= <- <-]. exists []. by rewrite app_nil_r. }
  intros (metadata & Hmd & Hrun)%mapped_run; [|apply looks_metadata].
  rewrite symlink_metadata_seen in Hmd. injection Hmd as Hmd.
  destruct (md_is_symlink metadata) eqn:Hsym; [done|].
  apply lift_run in Hrun as (stripped & Hst%ok_or_Ok & Hrun).
  pose proof (child_deeper _ _ _ _ Hrel Hname Hst) as Hdeep.
  set (child := normalize_relative_string (to_string_lossy stripped)) in *.
  destruct (md_is_dir metadata) eqn:Hdir.
  - apply looks_run in Hrun as ([[] below] & Hbelow & Hrun); [|done|apply Hlook].
    cbn [fst snd] in Hrun. apply Hrec in Hbelow as (found & -> & Hin & Hall);
      [|apply lossy_normal_scalar].
    apply IH in Hrun as (found' & -> & Hall' & Hacc). exists (found ++ found').
    rewrite app_assoc. split_and!; [done|by apply emptied_all_app|]. constructor.
    + exists metadata, stripped. split_and!; [done..|]. cbn zeta. fold child. rewrite Hdir.
      split; [|done]. unfold child in *. rewrite normalize_idem in Hin. set_solver.
    + eapply Forall_impl; [exact Hacc|]. intros n. apply accounted_weaken. set_solver.
  - destruct (md_is_file metadata) eqn:Hfile; [|done]. cbn [andb] in Hrun.
    case_bool_decide as Hsrc; [|done]. apply IH in Hrun as (found & -> & Hall & Hacc).
    exists found. split_and!; [done..|]. constructor; [|done].
    exists metadata, stripped. split_and!; [done..|]. cbn zeta. fold child. rewrite Hdir.
    split; [done|]. unfold child in *. by rewrite normalize_idem in Hsrc.
Qed.

Lemma tree_collected n : collects (collect_fully_planned_directory_tree n root sources destinations).
Proof.
  induction n as [|n IH]; intros dir removable removable' w' Hs;
    cbn [collect_fully_planned_directory_tree]; [done|].
  set (dir' := normalize_relative_string dir).
  destruct (existsb _ destinations) eqn:Hdest; [done|].
  intros (relative & Hrel%map_err_Ok & Hrun)%lift_run.
  apply relative_path_depth in Hrel as H; [|by apply normalize_scalar]. destruct H as [Hlen Hnames].
  fold dir' in Hlen. unfold dir' in Hlen. rewrite normalize_idem in Hlen. fold dir' in Hlen.
  apply mapped_run in Hrun as (metadata & Hmd & Hrun); [|apply looks_metadata].
  rewrite symlink_metadata_seen in Hmd. injection Hmd as Hmd.
  destruct (_ || _) eqn:Hkind; [done|]. apply orb_false_iff in Hkind as [Hsym Hdir%negb_false_iff].
  apply mapped_run in Hrun as (entries & Hent & Hrun); [|apply looks_read_dir].
  rewrite read_dir_seen in Hent. injection Hent as Hent.
  apply lift_run in Hrun as (names & Hn%map_err_Ok%collect_id & Hrun). subst entries.
  apply looks_run in Hrun as ([[] found] & Hvisit & Hrun);
    [|done|apply looks_children; intros; apply looks_tree].
  injection Hrun as <- _. cbn [snd].
  apply children_collected in Hvisit as (below & -> & Hall & Hacc); try done.
  2: { intros; apply looks_tree. }
  2: { rewrite sort_by_perm. apply Forall_forall. intros name Hin.
       eapply entry_plain; [exact Hent|]. apply list_elem_of_fmap. eauto. }
  exists (below ++ [dir']). rewrite app_assoc. split_and!; [done|set_solver|].
  apply Forall_app. split; [eapply Forall_impl; [exact Hall|]; intros d; apply emptied_weaken; set_solver|].
  apply Forall_singleton. split.
  - apply Forall_forall. intros d Hd. rewrite <- not_true_iff_false, existsb_elem_of in Hdest. split.
    + intros ->. apply Hdest. exists dir'. split; [done|]. by rewrite bool_decide_eq_true_2.
    + apply not_true_iff_false. intros Hstart. apply Hdest. exists d. split; [done|].
      rewrite Hstart. apply orb_true_r.
  - exists relative, metadata, names. split_and!; [done..|]. rewrite <- Hlen.
    rewrite (sort_by_perm bytes_leb names) in Hacc.
    eapply Forall_impl; [exact Hacc|]. intros name. apply accounted_weaken. set_solver.
Qed.
End tree.

(** *** The recursion ends

    A directory at depth [d] is only entered when its path has [d] names, so
    4096 frames are never used up. *)

Lemma mapped_not_panicked {E A} (f : E -> ApplicationError) (m : SE W E A) w w' :
  se_map_err (fun e => Failed (f e)) m w <> (Err Panicked, w').
Proof. unfold se_map_err. by destruct (m w) as [[]]. Qed.

Lemma lifted_not_panicked {A} (m : res ApplicationError A) w w' :
  se_lift (W := W) (map_err Failed m) w <> (Err Panicked, w').
Proof. by destruct m. Qed.

Lemma children_not_panicked recurse root relative sources children removable w w' :
  only_names relative -> Forall plain children ->
  (forall name child removable w w', length (components (path_join (path_join root relative) name)) <= 4096 ->
     plain name -> scalar child -> length (components relative) < depth (normalize_relative_string child) ->
     recurse child removable w <> (Err Panicked, w'))%nat ->
  collect_children recurse root (path_join root relative) sources children removable w
    <> (Err Panicked, w').
Proof.
  intros Hrel Hplain Hrec. revert removable w w'.
  induction Hplain as [|name children Hname _ IH]; intros removable w w'; cbn [collect_children]; [done|].
  intros [H|(metadata & w1 & Hmd & H)]%se_bind_Err; [by apply mapped_not_panicked in H|].
  unfold se_map_err in Hmd. rewrite symlink_metadata_seen in Hmd. injection Hmd as Hmd _.
  apply map_err_Ok, path_max in Hmd.
  destruct (md_is_symlink metadata); [done|].
  apply se_bind_Err in H as [H|(stripped & w2 & Hst & H)]; [by destruct (path_strip_prefix _ _)|].
  unfold se_lift in Hst. injection Hst as Hst%ok_or_Ok _.
  pose proof (child_deeper _ _ _ _ Hrel Hname Hst) as Hdeep.
  destruct (md_is_dir metadata).
  - apply se_bind_Err in H as [H|([[] below] & w3 & _ & H)]; [|by apply IH in H|done].
    revert H. apply (Hrec name); [done|done|apply lossy_normal_scalar|by rewrite normalize_idem].
  - destruct (_ && _); [by apply IH in H|done].
Qed.

Lemma tree_not_panicked n root sources destinations dir removable w w' :
  scalar dir -> (4096 <= n + depth (normalize_relative_string dir))%nat ->
  collect_fully_planned_directory_tree (S n) root sources destinations dir removable w
    <> (Err Panicked, w').
Proof.
  revert dir removable w w'. induction n as [n IH] using (well_founded_induction lt_wf).
  intros dir removable w w' Hs Hn. cbn [collect_fully_planned_directory_tree].
  destruct (existsb _ destinations); [done|].
  intros [H|(relative & w1 & Hrel & H)]%se_bind_Err; [by apply lifted_not_panicked in H|].
  unfold se_lift in Hrel. injection Hrel as Hrel%map_err_Ok _.
  apply relative_path_depth in Hrel as [Hlen Hnames]; [|by apply normalize_scalar].
  rewrite normalize_idem in Hlen.
  apply se_bind_Err in H as [H|(metadata & w2 & _ & H)]; [by apply mapped_not_panicked in H|].
  destruct (_ || _); [done|].
  apply se_bind_Err in H as [H|(entries & w3 & Hent & H)]; [by apply mapped_not_panicked in H|].
  unfold se_map_err in Hent. rewrite read_dir_seen in Hent. injection Hent as Hent%map_err_Ok _.
  apply se_bind_Err in H as [H|(names & w4 & Hn' & H)]; [by destruct (collect id entries)|].
  unfold se_lift in Hn'. injection Hn' as Hn'%map_err_Ok%collect_id _. subst entries.
  apply se_bind_Err in H as [H|([[] found] & w5 & _ & H)]; [|done..].
  apply children_not_panicked in H; [done..| |].
  - rewrite sort_by_perm. apply Forall_forall. intros name Hin.
    eapply entry_plain; [exact Hent|]. apply list_elem_of_fmap. eauto.
  - intros name child rem w6 w7 Hmax Hname Hsc Hdeep.
    rewrite !components_join, !length_app, (components_plain name) in Hmax
      by (done || unfold only_names; rewrite components_plain by done; by repeat constructor).
    cbn [length] in Hmax. destruct n as [|n]; [exfalso; lia|]. apply IH; [lia|done|lia].
Qed.

(** *** The cleanup of a plan *)

Lemma dedup_cons a b l :
  dedup (a :: b :: l) = if bool_decide (a = b) then dedup (b :: l) else a :: dedup (b :: l).
Proof. done. Qed.

Lemma dedup_elem_of l x : x ∈ dedup l <-> x ∈ l.
Proof.
  induction l as [|a [|b l] IH]; [done|done|]. rewrite dedup_cons. case_bool_decide as Hab.
  - subst. rewrite IH. rewrite !elem_of_cons. tauto.
  - by rewrite !(elem_of_cons _ _ a), IH.
Qed.

Lemma dedup_sorted (R : str -> str -> Prop) l : StronglySorted R l -> StronglySorted R (dedup l).
Proof.
  induction 1 as [|a l Hl IH Ha]; [constructor|]. destruct l as [|b l]; [by repeat constructor|].
  rewrite dedup_cons. case_bool_decide; [done|]. constructor; [done|].
  apply Forall_forall. intros x Hx. rewrite dedup_elem_of in Hx. rewrite Forall_forall in Ha. by apply Ha.
Qed.

#[local] Instance deepest_first_order : TotalPreorder deepest_first.
Proof.
  unfold deepest_first.
  apply (key_order (pair_leb (fun m n => n <=? m) str_leb) (fun a => (zlen (split is_slash a), a))).
  apply pair_leb_order; [split; intros *; rewrite ?Z.leb_le; lia| |apply _].
  intros a b. rewrite !Z.leb_le. lia.
Qed.

Lemma deepest_first_depth a b : deepest_first a b = true -> (depth b <= depth a)%nat.
Proof.
  unfold deepest_first, pair_leb, depth, zlen. cbn [fst snd]. case_decide; [lia|].
  rewrite Z.leb_le. lia.
Qed.

(** The deeper ones come first. *)
Lemma deeper_before l i a b :
  StronglySorted (fun x y => deepest_first x y = true) l ->
  l !! i = Some a -> b ∈ l -> (depth a < depth b)%nat -> b ∈ take i l.
Proof.
  intros Hs Ha [j Hb]%list_elem_of_lookup Hlt. apply list_elem_of_lookup. exists j.
  apply lookup_take_Some. split; [done|]. apply not_le. intros Hij.
  assert (deepest_first a b = true) as Hle%deepest_first_depth.
  { destruct (decide (i = j)) as [->|Hne].
    - assert (a = b) as -> by congruence. apply (tp_refl deepest_first).
    - apply (sorted_lookup (fun x y => deepest_first x y = true) l i j); [exact Hs|lia|done..]. }
  lia.
Qed.

Lemma cleanup_operations execution_id dirs w :
  exists operations w', fold_se (fun operations relative =>
      id ← new_id (E := Abrupt ApplicationError);
      mret (operations ++ [cleanup_operation id execution_id relative])) [] dirs w
    = (Ok operations, w')
  /\ Forall2 (fun operation dir => exists id, operation = cleanup_operation id execution_id dir)
       operations dirs.
Proof.
  enough (forall l w, exists operations w', fold_se (fun operations relative =>
      id ← new_id (E := Abrupt ApplicationError);
      mret (operations ++ [cleanup_operation id execution_id relative])) l dirs w
    = (Ok (l ++ operations), w')
  /\ Forall2 (fun operation dir => exists id, operation = cleanup_operation id execution_id dir)
       operations dirs) as Hgen by apply (Hgen []).
  induction dirs as [|dir dirs IH]; intros l w0; cbn [fold_se].
  { exists [], w0. by rewrite app_nil_r. }
  destruct (fresh_uuid w0) as [id w1] eqn:Hid.
  destruct (IH (l ++ [cleanup_operation id execution_id dir]) w1) as (ops & w2 & Hrun & Hall).
  exists (cleanup_operation id execution_id dir :: ops), w2. split; [|by constructor; [eexists|]].
  rewrite <- app_assoc in Hrun. apply se_bind_Ok. do 2 eexists. split; [|exact Hrun].
  cbv [mbind se_bind new_id]. by rewrite Hid.
Qed.

Lemma retain_run root sources destinations w tops :
  Forall scalar tops ->
  exists removable, fold_se (retain_top_level root sources destinations) [] tops w
    = (Ok removable, w)
  /\ Forall (emptied w root sources destinations removable) removable.
Proof.
  intros Htops.
  enough (forall removable, Forall (emptied w root sources destinations removable) removable ->
    exists removable', fold_se (retain_top_level root sources destinations) removable tops w
      = (Ok removable', w)
    /\ Forall (emptied w root sources destinations removable') removable') as Hgen
    by by apply (Hgen []).
  induction Htops as [|top tops Htop _ IH]; intros removable Hall; cbn [fold_se]; [by exists removable|].
  cbv [mbind se_bind]. unfold retain_top_level at 1. cbv [mbind se_bind se_try].
  destruct (collect_fully_planned_directory_tree _ _ _ _ _ _ w) as [r w1] eqn:Htree.
  pose proof (looks_tree MAX_TREE_DEPTH root sources destinations top [] w) as Hw.
  rewrite Htree in Hw. cbn in Hw. subst w1. destruct r as [[[] found]|[|error]].
  - apply tree_collected in Htree as (found' & -> & _ & Hall'); [|done]. cbn [app].
    apply IH. by apply emptied_all_app.
  - by apply IH.
  - exfalso. revert Htree. apply tree_not_panicked; [done|]. rewrite depth_slashes. lia.
  - by apply IH.
Qed.

(** C39: Planning the removal of emptied source folders always succeeds, and on a
    file system that stays as it is it plans to remove only real directories,
    below or at which no file is to be moved, whose every entry is a regular
    file that the plan moves away or a directory whose removal is planned
    before. *)
Theorem source_cleanup_is_safe execution_id root executable user_destinations w :
  Forall scalar (planned_source_paths executable) ->
  let sources := planned_source_paths executable in
  let destinations := normalize_relative_string <$> user_destinations in
  exists operations dirs w',
    plan_source_directory_cleanup execution_id root executable user_destinations w
      = (Ok operations, w')
    /\ Forall2 (fun operation dir => exists id, operation = cleanup_operation id execution_id dir)
         operations dirs
    /\ forall i dir, dirs !! i = Some dir -> emptied w root sources destinations (take i dirs) dir.
Proof.
  intros Hscalar sources destinations. unfold plan_source_directory_cleanup. fold sources.
  case_bool_decide; [by exists [], [], w|]. fold destinations.
  set (tops := sort_by str_leb _).
  assert (Forall scalar tops) as Htops.
  { unfold tops. rewrite sort_by_perm. apply Forall_forall. intros top Htop.
    apply elem_of_remove_dups, list_elem_of_filter in Htop as [_ Htop].
    apply list_elem_of_omap in Htop as (source & Hin & Hhead).
    rewrite Forall_forall in Hscalar. specialize (Hscalar _ Hin).
    apply (split_scalar is_slash) in Hscalar. destruct (split is_slash source); [done|].
    injection Hhead as <-. by apply Forall_cons_iff in Hscalar as [? _]. }
  destruct (retain_run root sources destinations w tops Htops) as (removable & Hrun & Hall).
  rewrite (run_bind _ _ _ _ Hrun).
  set (dirs := dedup _).
  destruct (cleanup_operations execution_id dirs w) as (operations & w' & Hops & Hforall).
  exists operations, dirs, w'. split_and!; [done..|]. intros i dir Hi.
  assert (forall x, x ∈ dirs <-> x ∈ removable) as Hin.
  { intros x. unfold dirs. rewrite dedup_elem_of. by rewrite (sort_by_perm deepest_first removable). }
  assert (dir ∈ removable) as Hdir by (eapply Hin, list_elem_of_lookup_2; exact Hi).
  rewrite Forall_forall in Hall.
  destruct (Hall dir Hdir) as (Hd & rel & md & names & ? & ? & ? & ? & ? & Hacc).
  split; [done|]. exists rel, md, names. split_and!; [done..|].
  eapply Forall_impl; [exact Hacc|]. intros name (md' & st & ? & ? & ? & Hc).
  exists md', st. split_and!; [done..|]. cbn zeta in *. destruct (md_is_dir md'); [|done].
  destruct Hc as [Hc Hlt]. split; [|done]. eapply deeper_before; [|exact Hi| |done].
  - unfold dirs. apply dedup_sorted. exact (sort_by_sorted deepest_first removable).
  - by apply Hin.
Qed.
End inspection.

Create HintDb looks.
#[export] Hint Resolve looks_bind looks_ret looks_fail looks_lift looks_try looks_map_err
  looks_metadata looks_canonicalize looks_read_dir looks_resolve_absent
  looks_resolve_existing looks_existing : looks.

(** ** A concrete tree

    Two files in a directory: the first moves away, the second takes its
    place. *)

Definition sample_tree_metadata (path : PathBuf) : res io_error Metadata :=
  if path_eq path (bstr "/data") || path_eq path (bstr "/data/inbox") then
    Ok {| md_is_symlink := false; md_is_dir := true; md_is_file := false |}
  else if path_eq path (bstr "/data/inbox/a.txt") || path_eq path (bstr "/data/inbox/b.txt") then
    Ok {| md_is_symlink := false; md_is_dir := false; md_is_file := true |}
  else Err (IoError NotFound []).

Definition sample_tree_entries (path : PathBuf) : res io_error (list (res io_error bytes)) :=
  if path_eq path (bstr "/data") then Ok [Ok (bstr "inbox")]
  else if path_eq path (bstr "/data/inbox") then Ok [Ok (bstr "b.txt"); Ok (bstr "a.txt")]
  else Err (IoError NotFound []).

#[local] Instance sample_tree_fs : StdFs nat := {|
  symlink_metadata path := fun w => (sample_tree_metadata path, w);
  canonicalize path := fun w => (Ok path, w);
  read_dir_first _ := fun w => (Ok None, w)
|}.
#[local] Instance sample_tree_stable : StableFs nat.
Proof.
  refine {| seen_metadata _ path := sample_tree_metadata path; seen_canonical _ path := Ok path |};
    done.
Defined.
#[local] Instance sample_tree_dir : ReadDir nat := fun path w => (sample_tree_entries path, w).

Lemma plain_name (s : bytes) :
  bool_decide (s <> []) && bool_decide (s <> bstr ".") && bool_decide (s <> bstr "..")
    && bool_decide (SLASH ∉ s) = true -> plain s.
Proof. rewrite !andb_true_iff, !bool_decide_eq_true. unfold plain. tauto. Qed.

#[local] Instance sample_tree_stable_dir : StableDir nat.
Proof.
  refine {| seen_entries _ path := sample_tree_entries path |}; [done| |].
  - intros w path entries name. cbn. unfold sample_tree_entries. repeat case_match; intros [= <-];
      rewrite ?elem_of_cons, elem_of_nil; intros Hin; apply plain_name;
      destruct_or?; try done; simplify_eq; vm_compute; reflexivity.
  - intros w path metadata. cbn. unfold sample_tree_metadata, path_eq.
    repeat case_bool_decide; cbn [orb]; intros [=];
      match goal with H : components path = _ |- _ => rewrite H end; vm_compute; lia.
Defined.

#[local] Instance sample_tree_uuids : UuidSource nat := fun n => (fill 16 (byte_of_Z (Z.of_nat n)), S n).
#[local] Instance sample_tree_reads : ReadOnlyPlatform nat := {|
  inspect_volume _ := fun w => (Ok sample_volume, w);
  fingerprint _ _ _ := fun w => (Ok sample_fingerprint, w);
  fingerprint_streaming path _ := fun w =>
    (if is_ok (sample_tree_metadata path) then Ok sample_fingerprint else Err (PeUnsupported []), w)
|}.
#[local] Instance sample_tree_target : Target := false.
#[local] Existing Instances sample_blake3 sample_uuid.
#[local] Instance sample_tree_hex : Blake3Hex := fun h => Byte.to_N <$> barr h.
#[local] Instance sample_tree_case : UnicodeCase := ascii_unicode_case.

Definition sample_tree_operation (id : byte) (source : String.string)
    (folders : list String.string) (name : String.string) : OrganizationProposalOperation := {|
  opo_id := uid id; opo_file_id := uid id; opo_file_version_id := uid id;
  opo_source := {| pss_relative_path := lit source; pss_content_hash := None;
                   pss_byte_size := 10; pss_modified_at := None |};
  opo_source_name := lit source;
  opo_machine_destination := lit <$> folders; opo_machine_name := lit name;
  opo_proposed_destination := lit <$> folders; opo_proposed_name := lit name;
  opo_operation_kind := MoveProposal;
  opo_confidence_score := f32_zero; opo_confidence_level := ClHigh;
  opo_reasons := []; opo_conflict_state := CsNone; opo_needs_review := false;
  opo_stale := false; opo_user_override := false;
  opo_disruption_score := f32_zero;
  opo_proposed_path_length := 0; opo_proposed_depth := 1; opo_semantic_context := [];
  opo_document_type := []; opo_customer_name := None; opo_supplier_name := None;
  opo_project_name := None; opo_duplicate_group_id := None; opo_duplicate_canonical := false
|}.

Definition sample_tree_proposal : OrganizationProposal := {|
  op_id := uid x03; op_revision_id := uid x04; op_workspace_id := uid x05; op_root_id := uid x06;
  op_source_scan_id := uid x07; op_revision := 1; op_status := PsApprovedForFutureApply;
  op_engine_version := []; op_policy_version := []; op_source_semantic_version := None;
  op_source_relationship_version := None; op_created_at := []; op_updated_at := [];
  op_summary := {|
    ops_files_analyzed := 2; ops_proposed_moves := 2; ops_proposed_renames := 0; ops_unchanged := 0;
    ops_needs_review := 0; ops_unresolved := 0; ops_conflicts := 0; ops_high_confidence := 2;
    ops_medium_confidence := 0; ops_low_confidence := 0; ops_duplicate_no_action := 0;
    ops_average_depth := f32_zero; ops_maximum_depth := 1 |};
  op_diff := {| opd_destinations_changed := 0; opd_files_added := 0; opd_conflicts_resolved := 0;
                opd_moved_to_review := 0 |};
  op_nodes := [];
  op_operations := [sample_tree_operation x41 "inbox/a.txt" ["sorted"%string] "a.txt";
                    sample_tree_operation x42 "inbox/b.txt" ["inbox"%string] "a.txt"]
|}.

Definition sample_tree_context : PlanContext := {|
  ctx_proposal := sample_tree_proposal; ctx_root := bstr "/data"; ctx_volume := sample_volume;
  ctx_destination_root := {|
    erb_canonical_path := {| np_encoding := UnixBytes; np_bytes := bstr "/data" |};
    erb_display_path := lit "/data"; erb_volume := sample_volume |};
  ctx_safety_policy := {|
    espb_version := EXECUTION_SAFETY_POLICY_VERSION;
    espb_maximum_rehash_bytes := HARD_MAX_REHASH_BYTES;
    espb_allow_qualified_case_only_rename := false; espb_digest_hex := [] |}
|}.

Definition sample_tree_plan := plan_candidates sample_policy sample_tree_context (uid x01) 0%nat.


Definition sample_tree_executable : list ExecutionOperation :=
  [proposed_operation (uid x31) (uid x01) (sample_tree_operation x41 "inbox/a.txt" ["sorted"%string] "a.txt")
     (lit "inbox/a.txt") (lit "sorted/a.txt");
   proposed_operation (uid x32) (uid x01) (sample_tree_operation x42 "inbox/b.txt" ["sorted"%string] "b.txt")
     (lit "inbox/b.txt") (lit "sorted/b.txt")].

Definition sample_tree_cleanup :=
  plan_source_directory_cleanup (uid x01) (bstr "/data") sample_tree_executable
    [lit "sorted/a.txt"; lit "sorted/b.txt"] 7%nat.

Example sample_tree_is_cleaned :
  sample_tree_cleanup = (Ok [cleanup_operation (uid x07) (uid x01) (lit "inbox")], 8%nat).
Proof. vm_compute. reflexivity. Qed.

(** Both files of the directory leave: it is removed. *)
Lemma source_cleanup_is_safe_witness :
  exists operations dirs w', sample_tree_cleanup = (Ok operations, w') /\ length operations = 1%nat
  /\ length dirs = 1%nat
  /\ forall i dir, dirs !! i = Some dir ->
       emptied 7%nat (bstr "/data") [lit "inbox/a.txt"; lit "inbox/b.txt"]
         [lit "sorted/a.txt"; lit "sorted/b.txt"] (take i dirs) dir.
Proof.
  assert (Forall scalar (planned_source_paths sample_tree_executable)) as Hscalar
    by (apply (bool_decide_unpack _); vm_compute; exact I).
  destruct (source_cleanup_is_safe (uid x01) (bstr "/data") sample_tree_executable
    [lit "sorted/a.txt"; lit "sorted/b.txt"] 7%nat Hscalar)
    as (operations & dirs & w' & Hrun & Hops & Hdirs).
  exists operations, dirs, w'.
  assert (length operations = 1%nat) as Hlen.
  { vm_compute in Hrun. injection Hrun as <- _. reflexivity. }
  split_and!; [exact Hrun|exact Hlen| |exact Hdirs].
  apply Forall2_length in Hops. by rewrite <- Hops.
Defined.

(** The whole plan of the sample: the directory of the first destination, then
    the two moves in the order of their dependency. *)
#[local] Instance sample_tree_material : ToVec CanonicalPlanMaterial := fun _ => Ok [x7b; x7d].
#[local] Instance sample_tree_host : ServiceHost nat := {|
  diagnostics_read _ := Some []; diagnostics_push _ := fun w => w;
  execution_now_iso := fun w => ([], w)
|}.

Example sample_tree_is_prepared :
  exists detail w', prepare_detail sample_policy sample_tree_context 0%nat = (Ok detail, w')
  /\ (fun o => (eo_kind o, eo_destination_relative_path o)) <$> ed_operations detail
     = [(EokCreateDirectory, lit "sorted"); (EokMove, lit "sorted/a.txt");
        (EokRename, lit "inbox/a.txt")].
Proof.
  destruct (prepare_detail sample_policy sample_tree_context 0%nat) as [[detail|error] w'] eqn:Hrun.
  - exists detail, w'. split; [done|]. vm_compute in Hrun. injection Hrun as <- _. reflexivity.
  - vm_compute in Hrun. discriminate Hrun.
Qed.

(** Destinations are compared as wholes, not with the directories the plan
    creates for others: a plan is prepared that creates a directory and then
    moves a file to the same path. *)
Definition clashing_context : PlanContext := {|
  ctx_proposal := {|
    op_id := uid x03; op_revision_id := uid x04; op_workspace_id := uid x05; op_root_id := uid x06;
    op_source_scan_id := uid x07; op_revision := 1; op_status := PsApprovedForFutureApply;
    op_engine_version := []; op_policy_version := []; op_source_semantic_version := None;
    op_source_relationship_version := None; op_created_at := []; op_updated_at := [];
    op_summary := op_summary sample_tree_proposal; op_diff := op_diff sample_tree_proposal;
    op_nodes := [];
    op_operations := [sample_tree_operation x41 "inbox/a.txt" ["sorted"%string] "b.txt";
                      sample_tree_operation x42 "inbox/b.txt" ["sorted"%string; "b.txt"%string] "c.txt"] |};
  ctx_root := bstr "/data"; ctx_volume := sample_volume;
  ctx_destination_root := ctx_destination_root sample_tree_context;
  ctx_safety_policy := ctx_safety_policy sample_tree_context
|}.

Lemma directory_and_file_prepared_at_one_path :
  exists detail w', prepare_detail sample_policy clashing_context 0%nat = (Ok detail, w')
  /\ (fun o => (eo_kind o, eo_destination_relative_path o)) <$> take 3 (ed_operations detail)
     = [(EokCreateDirectory, lit "sorted"); (EokCreateDirectory, lit "sorted/b.txt");
        (EokMoveAndRename, lit "sorted/b.txt")].
Proof.
  destruct (prepare_detail sample_policy clashing_context 0%nat) as [[detail|error] w'] eqn:Hrun.
  - exists detail, w'. split; [done|]. vm_compute in Hrun. injection Hrun as <- _. reflexivity.
  - vm_compute in Hrun. discriminate Hrun.
Qed.
