(* ===== verification/Observe.v ===== *)
(** * Observing one operation

    crates/application/src/execution.rs: what the coordinator looks at before
    and after a mutation, forward and backward, and what recovery concludes
    from the file system alone. *)

From S2P Require Export Inspection.
#[local] Open Scope Z_scope.

Inductive RecoveryObservation :=
  | RoNotStarted
  | RoApplied (fingerprint : option FileFingerprint)
  | RoAmbiguous (reason : str).

Definition precondition_error (text : str) : ApplicationError :=
  ApOperations (OePlatform (PePrecondition text)).

Definition is_directory_kind (kind : ExecutionOperationKind) : bool :=
  bool_decide (kind ∈ [EokCreateDirectory; EokRemoveDirectoryIfEmpty]).

(** [metadata.is_dir() && !metadata.file_type().is_symlink()]. *)
Definition is_real_directory (metadata : Metadata) : bool :=
  md_is_dir metadata && negb (md_is_symlink metadata).

Section observe.
Context {W : Type} `{FS : StdFs W} `{RO : ReadOnlyPlatform W}.
Variable policy : ExecutionSafetyPolicy.

Notation io := (se_map_err ApIo).
Notation safely := (se_map_err ApExecutionSafety).
Notation invalid := ApInvalidExecution.

Definition execution_fingerprint (path : PathBuf) : SE W ApplicationError FileFingerprint :=
  se_map_err ApPlatform (fingerprint_streaming path (esp_maximum_rehash_bytes policy)).

Definition fingerprint_if_present (path : PathBuf) :
    SE W ApplicationError (option FileFingerprint) :=
  found ← se_try (symlink_metadata path);
  match found with
  | Ok metadata =>
      if md_is_symlink metadata || negb (md_is_file metadata) then se_fail invalid
      else fingerprint ← execution_fingerprint path; mret (Some fingerprint)
  | Err error => if is_not_found error then mret None else se_fail (ApIo error)
  end.

(** [relative_path(operation.source_relative_path.as_deref().ok_or(..)?)?]. *)
Definition source_path (operation : ExecutionOperation) : res ApplicationError PathBuf :=
  source ← ok_or (eo_source_relative_path operation) invalid;
  relative_path source.

(** [entries.next().transpose()?.is_some()]. *)
Definition has_entries (path : PathBuf) : SE W ApplicationError bool :=
  first ← io (read_dir_first path);
  match first with
  | None => mret false
  | Some entry => se_lift (map_err ApIo entry);; mret true
  end.

(** The fingerprint of [path], when it is in the expected state. *)
Definition expected_state (expected : option FileFingerprint) (changed : ApplicationError)
    (path : PathBuf) : SE W ApplicationError FileFingerprint :=
  observed ← execution_fingerprint path;
  expected ← se_lift (ok_or expected invalid);
  se_lift (reject_if (negb (same_file_state expected observed)) changed);;
  mret observed.

(** ** Forward *)

Definition revalidate_operation (root : PathBuf) (operation : ExecutionOperation) :
    SE W ApplicationError (option FileFingerprint) :=
  if bool_decide (eo_kind operation = EokRemoveDirectoryIfEmpty) then
    source_relative ← se_lift (source_path operation);
    let source := path_join root source_relative in
    metadata ← io (symlink_metadata source);
    se_lift (reject_if (md_is_symlink metadata || negb (md_is_dir metadata)) invalid);;
    occupied ← has_entries source;
    se_lift (reject_if occupied
      (precondition_error (lit "source directory is not empty after its planned moves")));;
    mret None
  else
    destination_relative ← se_lift (relative_path (eo_destination_relative_path operation));
    let internal := starts_with STAGING_DIRECTORY_NAME (eo_destination_relative_path operation) in
    safely (resolve_absent_destination policy root destination_relative internal);;
    if bool_decide (eo_kind operation = EokCreateDirectory) then mret None
    else
      source_relative ← se_lift (source_path operation);
      source ← safely (resolve_existing_source policy root source_relative);
      current ← expected_state (eo_live_fingerprint operation)
        (precondition_error (lit "source changed between preflight and mutation")) source;
      mret (Some current).

Definition verify_postcondition (root : PathBuf) (operation : ExecutionOperation) :
    SE W ApplicationError (option FileFingerprint) :=
  if bool_decide (eo_kind operation = EokRemoveDirectoryIfEmpty) then
    source_relative ← se_lift (source_path operation);
    found ← se_try (symlink_metadata (path_join root source_relative));
    match found with
    | Err error => if is_not_found error then mret None else se_fail invalid
    | Ok _ => se_fail invalid
    end
  else
    destination_relative ← se_lift (relative_path (eo_destination_relative_path operation));
    let destination := path_join root destination_relative in
    if bool_decide (eo_kind operation = EokCreateDirectory) then
      metadata ← io (symlink_metadata destination);
      se_lift (reject_if (md_is_symlink metadata || negb (md_is_dir metadata)) invalid);;
      mret None
    else
      source_relative ← se_lift (source_path operation);
      found ← se_try (symlink_metadata (path_join root source_relative));
      se_lift (reject_if (is_ok found) invalid);;
      observed ← expected_state (eo_live_fingerprint operation) invalid destination;
      mret (Some observed).

(** ** Backward *)

Definition revalidate_rollback (root : PathBuf) (operation : ExecutionOperation) :
    SE W ApplicationError (option FileFingerprint) :=
  if bool_decide (eo_kind operation = EokRemoveDirectoryIfEmpty) then
    restore_relative ← se_lift (source_path operation);
    safely (resolve_absent_destination policy root restore_relative false);;
    mret None
  else
    current_relative ← se_lift (relative_path (eo_destination_relative_path operation));
    let current := path_join root current_relative in
    if bool_decide (eo_kind operation = EokCreateDirectory) then
      found ← se_try (symlink_metadata current);
      match found with
      | Ok metadata =>
          if is_real_directory metadata then
            occupied ← has_entries current;
            se_lift (reject_if occupied (precondition_error
              (lit "directory created by this execution is no longer empty")));;
            mret None
          else se_fail invalid
      | Err error => if is_not_found error then mret None else se_fail (ApIo error)
      end
    else
      current ← safely (resolve_existing_source policy root current_relative);
      fingerprint ← expected_state (eo_post_fingerprint operation) (precondition_error
        (lit "the applied file changed after execution; rollback is blocked")) current;
      rollback_relative ← se_lift (source_path operation);
      let internal := match eo_source_relative_path operation with
        | Some value => starts_with STAGING_DIRECTORY_NAME value
        | None => false
        end in
      safely (resolve_absent_destination policy root rollback_relative internal);;
      mret (Some fingerprint).

Definition verify_rollback_postcondition (root : PathBuf) (operation : ExecutionOperation) :
    SE W ApplicationError unit :=
  if bool_decide (eo_kind operation = EokRemoveDirectoryIfEmpty) then
    restored_relative ← se_lift (source_path operation);
    metadata ← io (symlink_metadata (path_join root restored_relative));
    se_lift (reject_if (md_is_symlink metadata || negb (md_is_dir metadata)) invalid)
  else
    destination_relative ← se_lift (relative_path (eo_destination_relative_path operation));
    let prior_destination := path_join root destination_relative in
    found ← se_try (symlink_metadata prior_destination);
    se_lift (reject_if (is_ok found) invalid);;
    if bool_decide (eo_kind operation = EokCreateDirectory) then mret tt
    else
      restored_relative ← se_lift (source_path operation);
      expected_state (eo_post_fingerprint operation) invalid (path_join root restored_relative);;
      mret tt.

(** ** Recovery *)

(** What an entry that should be a directory, or nothing, says. *)
Definition observe_directory (path : PathBuf) (there gone : RecoveryObservation)
    (unexpected : str) : SE W ApplicationError RecoveryObservation :=
  found ← se_try (symlink_metadata path);
  match found with
  | Ok metadata =>
      mret (if is_real_directory metadata then there else RoAmbiguous unexpected)
  | Err error => if is_not_found error then mret gone else se_fail (ApIo error)
  end.

(** The final [match]: the file is still at [from], is at [to], or neither can
    be told. *)
Definition classify_observation (expected : FileFingerprint)
    (from to : option FileFingerprint) (both neither changed : str) : RecoveryObservation :=
  match from, to with
  | Some observed, None =>
      if same_file_state expected observed then RoNotStarted else RoAmbiguous changed
  | None, Some observed =>
      if same_file_state expected observed then RoApplied (Some observed) else RoAmbiguous changed
  | Some _, Some _ => RoAmbiguous both
  | None, None => RoAmbiguous neither
  end.

Definition observe_recovery (root : PathBuf) (operation : ExecutionOperation) :
    SE W ApplicationError RecoveryObservation :=
  if bool_decide (eo_kind operation = EokRemoveDirectoryIfEmpty) then
    source_relative ← se_lift (source_path operation);
    observe_directory (path_join root source_relative) RoNotStarted (RoApplied None)
      (lit "Cleanup source path contains an unexpected entry.")
  else
    destination_relative ← se_lift (relative_path (eo_destination_relative_path operation));
    let destination := path_join root destination_relative in
    if bool_decide (eo_kind operation = EokCreateDirectory) then
      observe_directory destination (RoApplied None) RoNotStarted
        (lit "Directory path contains an unexpected entry.")
    else
      source_relative ← se_lift (source_path operation);
      expected ← se_lift (ok_or (eo_live_fingerprint operation) invalid);
      source_observed ← fingerprint_if_present (path_join root source_relative);
      destination_observed ← fingerprint_if_present destination;
      mret (classify_observation expected source_observed destination_observed
        (lit "Both source and destination exist.")
        (lit "Neither source nor destination exists.")
        (lit "Observed file identity or content does not match the journal.")).

Definition observe_rollback_recovery (root : PathBuf) (operation : ExecutionOperation) :
    SE W ApplicationError RecoveryObservation :=
  if bool_decide (eo_kind operation = EokRemoveDirectoryIfEmpty) then
    restored_relative ← se_lift (source_path operation);
    observe_directory (path_join root restored_relative) (RoApplied None) RoNotStarted
      (lit "Rollback cleanup path contains an unexpected entry.")
  else
    destination_relative ← se_lift (relative_path (eo_destination_relative_path operation));
    let current := path_join root destination_relative in
    if bool_decide (eo_kind operation = EokCreateDirectory) then
      observe_directory current RoNotStarted (RoApplied None)
        (lit "Rollback directory path contains an unexpected entry.")
    else
      restored_relative ← se_lift (source_path operation);
      expected ← se_lift (ok_or (eo_post_fingerprint operation) invalid);
      current_observed ← fingerprint_if_present current;
      restored_observed ← fingerprint_if_present (path_join root restored_relative);
      mret (classify_observation expected current_observed restored_observed
        (lit "Both applied and restored paths exist during rollback recovery.")
        (lit "Neither applied nor restored path exists during rollback recovery.")
        (lit "Rollback file identity or content does not match the journal.")).
End observe.

(** ** What the observations conclude

    On a file system and a reader that stay as they are while they are
    looked at. *)

Class StableReads (W : Type) `{RO : ReadOnlyPlatform W} `{ST : StableFs W} : Type := {
  seen_fingerprint : W -> PathBuf -> Z -> res PlatformError FileFingerprint;
  seen_first : W -> PathBuf -> res io_error (option (res io_error unit));
  fingerprint_streaming_seen path maximum w :
    fingerprint_streaming path maximum w = (seen_fingerprint w path maximum, w);
  read_dir_first_seen path w : read_dir_first path w = (seen_first w path, w);
  (* what can be read is there *)
  fingerprint_present w path maximum fp :
    seen_fingerprint w path maximum = Ok fp -> exists m, seen_metadata w path = Ok m
}.

(** Opens the first step of a run that only looks. *)
Ltac peek H :=
  lazymatch type of H with
  | (se_lift _ ≫= _) _ = _ => apply lift_run in H as (? & ? & H)
  | (se_map_err _ _ ≫= _) _ = _ =>
      apply mapped_run in H as (? & ? & H); [|solve [eauto with looks]]
  | (se_try _ ≫= _) _ = _ => apply tried_run in H as (? & ? & H); [|solve [eauto with looks]]
  | (_ ≫= _) _ = _ => apply looks_run in H as (? & ? & H); [|solve [eauto with looks]]
  end.

Section observed.
Context {W : Type} `{FS : StdFs W} `{RO : !ReadOnlyPlatform W} `{ST : !StableFs W} `{SR : !StableReads W}.
Variable policy : ExecutionSafetyPolicy.

Lemma looks_execution_fingerprint path : looks (W := W) (execution_fingerprint policy path).
Proof. intros w. unfold execution_fingerprint, se_map_err. by rewrite fingerprint_streaming_seen. Qed.
Lemma looks_first path : looks (W := W) (read_dir_first path).
Proof. intros w. by rewrite read_dir_first_seen. Qed.
#[local] Hint Resolve looks_execution_fingerprint looks_first : looks.

Lemma looks_has_entries path : looks (W := W) (has_entries path).
Proof. unfold has_entries. looking; eauto with looks. Qed.
Lemma looks_if_present path : looks (W := W) (fingerprint_if_present policy path).
Proof. unfold fingerprint_if_present. looking; eauto with looks. Qed.
#[local] Hint Resolve looks_has_entries looks_if_present : looks.

(** A regular file with its fingerprint. *)
Definition file_at (w : W) (path : PathBuf) (fp : FileFingerprint) : Prop :=
  (exists m, seen_metadata w path = Ok m /\ md_is_symlink m = false /\ md_is_file m = true)
  /\ seen_fingerprint w path (esp_maximum_rehash_bytes policy) = Ok fp.

(** The fingerprint is read, whatever the entry is. *)
Definition reads_as (w : W) (path : PathBuf) (fp : FileFingerprint) : Prop :=
  seen_fingerprint w path (esp_maximum_rehash_bytes policy) = Ok fp.

Lemma execution_fingerprint_run path w :
  execution_fingerprint policy path w
  = (map_err ApPlatform (seen_fingerprint w path (esp_maximum_rehash_bytes policy)), w).
Proof. unfold execution_fingerprint, se_map_err. by rewrite fingerprint_streaming_seen. Qed.

Lemma if_present_run path w :
  exists r, fingerprint_if_present policy path w = (r, w)
  /\ (forall fp, r = Ok (Some fp) <-> file_at w path fp)
  /\ (r = Ok None <-> missing w path).
Proof.
  unfold fingerprint_if_present. rewrite (run_try _ _ _ _ (symlink_metadata_seen path w)).
  unfold file_at, missing.
  destruct (seen_metadata w path) as [m|e] eqn:Hm.
  - destruct (_ || _) eqn:Hkind.
    + eexists. split; [done|]. split; [|split; [done|intros (? & ? & _); congruence]].
      intros fp. split; [done|]. intros [(m' & [= ->] & Hs & Hf) _]. by rewrite Hs, Hf in Hkind.
    + rewrite (run_bind _ _ _ _ (execution_fingerprint_run path w)).
      apply orb_false_iff in Hkind as [? ?%negb_false_iff].
      destruct (seen_fingerprint w path _) as [fp|e] eqn:Hfp; cbn [map_err];
        (eexists; split; [done|]; split; [|split; [done|intros (? & ? & _); congruence]]).
      * intros fp'. split; [intros [= <-]; split; [eauto|done]|]. intros [_ [= <-]]. done.
      * intros fp'. split; [done|]. by intros [_ ?].
  - unfold is_not_found. case_bool_decide as He;
      (eexists; split; [done|]; split; [intros fp; split; [done|by intros [(? & ? & _) _]]|]).
    + split; [intros _; by exists e|done].
    + split; [done|]. intros (e' & [= <-] & ?). done.
Qed.

Lemma if_present_file path w fp :
  file_at w path fp -> fingerprint_if_present policy path w = (Ok (Some fp), w).
Proof. intros H. destruct (if_present_run path w) as (r & -> & Hf & _). by apply Hf in H as ->. Qed.
Lemma if_present_missing path w :
  missing w path -> fingerprint_if_present policy path w = (Ok None, w).
Proof. intros H. destruct (if_present_run path w) as (r & -> & _ & Hm). by apply Hm in H as ->. Qed.

Lemma expected_state_run expected changed path w fp w' :
  expected_state policy expected changed path w = (Ok fp, w') ->
  w' = w /\ reads_as w path fp /\ exists e, expected = Some e /\ same_file_state e fp = true.
Proof.
  unfold expected_state. intros (observed & w1 & Ho & H)%se_bind_Ok.
  rewrite execution_fingerprint_run in Ho. injection Ho as Ho%map_err_Ok <-.
  apply lift_run in H as (e & He%ok_or_Ok & H). apply lift_run in H as (u & Hs%reject_if_Ok & H).
  injection H as <- <-. split_and!; [done|done|]. exists e. by apply negb_false_iff in Hs.
Qed.

(** [observe_recovery] decides about a file by what is at its two places. *)
Lemma observe_file_run root operation w s d expected :
  is_directory_kind (eo_kind operation) = false ->
  source_path operation = Ok s -> relative_path (eo_destination_relative_path operation) = Ok d ->
  eo_live_fingerprint operation = Some expected ->
  exists r, observe_recovery policy root operation w = (r, w)
  /\ (r = Ok RoNotStarted <-> exists fp, file_at w (path_join root s) fp
        /\ same_file_state expected fp = true /\ missing w (path_join root d))
  /\ (forall x, r = Ok (RoApplied x) <-> exists fp, x = Some fp /\ file_at w (path_join root d) fp
        /\ same_file_state expected fp = true /\ missing w (path_join root s)).
Proof.
  intros Hkind Hs Hd Hlive. unfold observe_recovery, is_directory_kind in *.
  rewrite (bool_decide_eq_false_2 (_ = EokRemoveDirectoryIfEmpty)),
    (bool_decide_eq_false_2 (_ = EokCreateDirectory))
    by (intros He; rewrite He in Hkind; revert Hkind; by vm_compute).
  rewrite run_lift, Hd. cbn iota. rewrite run_lift, Hs. cbn iota. rewrite run_lift, Hlive. cbn [ok_or].
  destruct (if_present_run (path_join root s) w) as (r1 & Hr1 & Hf1 & Hm1).
  destruct (if_present_run (path_join root d) w) as (r2 & Hr2 & Hf2 & Hm2).
  setoid_rewrite <- Hf1. setoid_rewrite <- Hf2. setoid_rewrite <- Hm1. setoid_rewrite <- Hm2.
  rewrite (run_bind _ _ _ _ Hr1).
  destruct r1 as [from|e1]; cbn iota.
  2: { eexists. split; [done|]. split; [|intros x]; (split; [done|]); intros (fp & H);
       decompose [and] H; simplify_eq. }
  rewrite (run_bind _ _ _ _ Hr2). destruct r2 as [to|e2].
  2: { eexists. split; [done|]. split; [|intros x]; (split; [done|]); intros (fp & H);
       decompose [and] H; simplify_eq. }
  eexists. split; [done|]. unfold classify_observation. clear.
  destruct from as [f|], to as [t|];
    [|destruct (same_file_state expected f) eqn:?|destruct (same_file_state expected t) eqn:?|];
    (split; [|intros x]; (split; [intros [=]; subst|intros (fp & H); decompose [and] H; simplify_eq]));
    first [congruence | eauto 10].
Qed.

(** *** The checks and recovery agree *)

Lemma kind_cases kind :
  kind = EokRemoveDirectoryIfEmpty \/ kind = EokCreateDirectory
  \/ is_directory_kind kind = false /\ kind <> EokRemoveDirectoryIfEmpty /\ kind <> EokCreateDirectory.
Proof.
  destruct kind; first [by left | by right; left | right; right; split; [by vm_compute|done]].
Qed.

(** Opens the definitions on one kind of operation. *)
Ltac of_kind Hk :=
  rewrite ?Hk; repeat first
    [ rewrite (bool_decide_eq_true_2 (_ = _) eq_refl)
    | rewrite bool_decide_eq_false_2 by (done || congruence) ].

Lemma observe_directory_there path there gone unexpected m w :
  seen_metadata w path = Ok m -> md_is_symlink m = false -> md_is_dir m = true ->
  observe_directory path there gone unexpected w = (Ok there, w).
Proof.
  intros Hm Hs Hd. unfold observe_directory. rewrite (run_try _ _ _ _ (symlink_metadata_seen path w)), Hm.
  unfold is_real_directory. by rewrite Hs, Hd.
Qed.

Lemma observe_directory_gone path there gone unexpected w :
  missing w path -> observe_directory path there gone unexpected w = (Ok gone, w).
Proof.
  intros (e & He & Hk). unfold observe_directory.
  rewrite (run_try _ _ _ _ (symlink_metadata_seen path w)), He.
  unfold is_not_found. by rewrite bool_decide_eq_true_2.
Qed.

(** Reading metadata, whichever way the error goes. *)
Lemma metadata_run {E B} (f : io_error -> E) path (k : Metadata -> SE W E B) w b w' :
  (se_map_err f (symlink_metadata path) ≫= k) w = (Ok b, w') ->
  exists m, seen_metadata w path = Ok m /\ k m w = (Ok b, w').
Proof.
  intros (m & Hm & H)%mapped_run; [|apply looks_metadata].
  rewrite symlink_metadata_seen in Hm. injection Hm as Hm. eauto.
Qed.

Lemma try_metadata_run {E B} path (k : res io_error Metadata -> SE W E B) w b w' :
  (se_try (symlink_metadata path) ≫= k) w = (Ok b, w') ->
  k (seen_metadata w path) w = (Ok b, w').
Proof.
  intros (m & Hm & H)%tried_run; [|apply looks_metadata].
  rewrite symlink_metadata_seen in Hm. by injection Hm as <-.
Qed.

Lemma revalidated_not_started root operation w current w' :
  revalidate_operation policy root operation w = (Ok current, w') ->
  observe_recovery policy root operation w = (Ok RoNotStarted, w).
Proof.
  unfold revalidate_operation, observe_recovery.
  destruct (kind_cases (eo_kind operation)) as [Hk|[Hk|(Hk & Hk1 & Hk2)]].
  - of_kind Hk. intros (s & Hs & H)%lift_run. rewrite run_lift, Hs.
    apply metadata_run in H as (m & Hm & H). apply lift_run in H as (u & Hd%reject_if_Ok & _).
    apply orb_false_iff in Hd as [? ?%negb_false_iff]. by eapply observe_directory_there.
  - of_kind Hk. intros (d & Hd & H)%lift_run. rewrite run_lift, Hd.
    apply mapped_run in H as (j & Hj & _); [|apply looks_resolve_absent].
    apply resolve_absent_seen in Hj as [_ Hj]. by apply observe_directory_gone.
  - of_kind Hk1. of_kind Hk2. intros (d & Hd & H)%lift_run.
    apply mapped_run in H as (j & Hj & H); [|apply looks_resolve_absent].
    apply resolve_absent_seen in Hj as [_ Hmissing].
    apply lift_run in H as (s & Hs & H).
    apply mapped_run in H as (source & Hsrc & H); [|apply looks_resolve_existing].
    apply resolve_existing_seen in Hsrc as (_ & -> & Hfile).
    apply se_bind_Ok in H as (fp & w1 & H & _).
    apply expected_state_run in H as (_ & Hreads & e & He & Hsame).
    rewrite run_lift, Hd. cbn iota. rewrite run_lift, Hs. cbn iota. rewrite run_lift, He. cbn [ok_or].
    rewrite (run_bind _ _ _ _ (if_present_file _ _ fp (conj Hfile Hreads))).
    rewrite (run_bind _ _ _ _ (if_present_missing _ _ Hmissing)).
    cbn. unfold classify_observation. by rewrite Hsame.
Qed.

(** Recovery cannot contradict what the coordinator has proved; it may be
    unable to look. *)
Definition concludes (observation : RecoveryObservation)
    (run : res ApplicationError RecoveryObservation * W) : Prop :=
  fst run = Ok observation \/ exists error, fst run = Err error.

(** A file that moved from [gone] to [path], as recovery sees it. *)
Lemma moved_classified gone path fp e w both neither changed :
  (forall m, seen_metadata w gone <> Ok m) -> reads_as w path fp -> same_file_state e fp = true ->
  concludes (RoApplied (Some fp))
    ((from ← fingerprint_if_present policy gone; to ← fingerprint_if_present policy path;
      mret (classify_observation e from to both neither changed)) w).
Proof.
  intros Hgone Hfp Hsame. unfold concludes.
  destruct (if_present_run gone w) as (r1 & Hr1 & Hf1 & Hm1).
  destruct (if_present_run path w) as (r2 & Hr2 & Hf2 & Hm2).
  rewrite (run_bind _ _ _ _ Hr1). destruct r1 as [[f|]|error]; [| |by right; exists error].
  { destruct (proj1 (Hf1 f) eq_refl) as [(m & Hm & _) _]. by apply Hgone in Hm. }
  rewrite (run_bind _ _ _ _ Hr2). destruct r2 as [[t|]|error]; [| |by right; exists error].
  - left. destruct (proj1 (Hf2 t) eq_refl) as [_ Ht]. unfold reads_as in Hfp.
    assert (t = fp) as -> by congruence. cbn. by rewrite Hsame.
  - destruct (proj1 Hm2 eq_refl) as (error & Herr & _).
    apply fingerprint_present in Hfp as [m Hm]. congruence.
Qed.

Lemma verified_applied root operation w post w' :
  verify_postcondition policy root operation w = (Ok post, w') ->
  concludes (RoApplied post) (observe_recovery policy root operation w).
Proof.
  unfold verify_postcondition, observe_recovery.
  destruct (kind_cases (eo_kind operation)) as [Hk|[Hk|(Hk & Hk1 & Hk2)]].
  - of_kind Hk. intros (s & Hs & H)%lift_run. rewrite run_lift, Hs.
    apply try_metadata_run in H. destruct (seen_metadata w _) as [m|error] eqn:Hm; [done|].
    destruct (is_not_found error) eqn:Hnf; [|done]. injection H as <- _. left.
    rewrite observe_directory_gone; [done|]. exists error. split; [done|].
    unfold is_not_found in Hnf. by case_bool_decide.
  - of_kind Hk. intros (d & Hd & H)%lift_run. rewrite run_lift, Hd.
    apply metadata_run in H as (m & Hm & H). apply lift_run in H as (u & Hdir%reject_if_Ok & H).
    injection H as <- _. apply orb_false_iff in Hdir as [? ?%negb_false_iff]. left.
    by rewrite (observe_directory_there _ _ _ _ m).
  - of_kind Hk1. of_kind Hk2. intros (d & Hd & H)%lift_run. apply lift_run in H as (s & Hs & H).
    apply try_metadata_run in H. apply lift_run in H as (u & Hgone%reject_if_Ok & H).
    apply se_bind_Ok in H as (fp & w1 & H & Hret). injection Hret as <- _.
    apply expected_state_run in H as (_ & Hreads & e & He & Hsame).
    rewrite run_lift, Hd. cbn iota. rewrite run_lift, Hs. cbn iota. rewrite run_lift, He. cbn [ok_or].
    apply moved_classified; [|done|done]. intros m Hm. by rewrite Hm in Hgone.
Qed.

Lemma rollback_revalidated root operation w current w' :
  revalidate_rollback policy root operation w = (Ok current, w') ->
  observe_rollback_recovery policy root operation w = (Ok RoNotStarted, w)
  \/ eo_kind operation = EokCreateDirectory
     /\ observe_rollback_recovery policy root operation w = (Ok (RoApplied None), w).
Proof.
  unfold revalidate_rollback, observe_rollback_recovery.
  destruct (kind_cases (eo_kind operation)) as [Hk|[Hk|(Hk & Hk1 & Hk2)]].
  - of_kind Hk. intros (s & Hs & H)%lift_run. rewrite run_lift, Hs.
    apply mapped_run in H as (j & Hj & _); [|apply looks_resolve_absent].
    apply resolve_absent_seen in Hj as [_ Hj]. left. by apply observe_directory_gone.
  - of_kind Hk. intros (d & Hd & H)%lift_run. rewrite run_lift, Hd.
    apply try_metadata_run in H. destruct (seen_metadata w _) as [m|error] eqn:Hm.
    + destruct (is_real_directory m) eqn:Hdir; [|done].
      apply andb_true_iff in Hdir as [? ?%negb_true_iff]. left. by eapply observe_directory_there.
    + destruct (is_not_found error) eqn:Hnf; [|done]. right. split; [done|].
      apply observe_directory_gone. exists error. split; [done|].
      unfold is_not_found in Hnf. by case_bool_decide.
  - of_kind Hk1. of_kind Hk2. intros (d & Hd & H)%lift_run.
    apply mapped_run in H as (source & Hsrc & H); [|apply looks_resolve_existing].
    apply resolve_existing_seen in Hsrc as (_ & -> & Hfile).
    apply se_bind_Ok in H as (fp & w1 & H & Hrest).
    apply expected_state_run in H as (-> & Hreads & e & He & Hsame).
    apply lift_run in Hrest as (s & Hs & Hrest).
    apply mapped_run in Hrest as (j & Hj & _); [|apply looks_resolve_absent].
    apply resolve_absent_seen in Hj as [_ Hmissing]. left.
    rewrite run_lift, Hd. cbn iota. rewrite run_lift, Hs. cbn iota. rewrite run_lift, He. cbn [ok_or].
    rewrite (run_bind _ _ _ _ (if_present_file _ _ fp (conj Hfile Hreads))).
    rewrite (run_bind _ _ _ _ (if_present_missing _ _ Hmissing)).
    cbn. unfold classify_observation. by rewrite Hsame.
Qed.

Lemma rollback_verified root operation w w' :
  verify_rollback_postcondition policy root operation w = (Ok tt, w') ->
  exists post, concludes (RoApplied post) (observe_rollback_recovery policy root operation w).
Proof.
  unfold verify_rollback_postcondition, observe_rollback_recovery.
  destruct (kind_cases (eo_kind operation)) as [Hk|[Hk|(Hk & Hk1 & Hk2)]].
  - of_kind Hk. intros (s & Hs & H)%lift_run. exists None. rewrite run_lift, Hs.
    apply metadata_run in H as (m & Hm & H). injection H as Hdir%reject_if_Ok _.
    apply orb_false_iff in Hdir as [? ?%negb_false_iff]. left.
    by rewrite (observe_directory_there _ _ _ _ m).
  - of_kind Hk. intros (d & Hd & H)%lift_run. exists None. rewrite run_lift, Hd.
    apply try_metadata_run in H. apply lift_run in H as (u & Hgone%reject_if_Ok & _).
    unfold concludes, observe_directory. rewrite (run_try _ _ _ _ (symlink_metadata_seen _ w)).
    destruct (seen_metadata w _) as [m|error]; [done|].
    destruct (is_not_found error); [by left|right; by eexists].
  - of_kind Hk1. of_kind Hk2. intros (d & Hd & H)%lift_run.
    apply try_metadata_run in H. apply lift_run in H as (u & Hgone%reject_if_Ok & H).
    apply lift_run in H as (s & Hs & H). apply se_bind_Ok in H as (fp & w1 & H & _).
    apply expected_state_run in H as (_ & Hreads & e & He & Hsame). exists (Some fp).
    rewrite run_lift, Hd. cbn iota. rewrite run_lift, Hs. cbn iota. rewrite run_lift, He. cbn [ok_or].
    apply moved_classified; [|done|done]. intros m Hm. by rewrite Hm in Hgone.
Qed.

(** C21: What recovery concludes agrees with what the coordinator has checked in
    the same state: an operation that passes the check before its mutation is
    observed as not started, one whose postcondition is verified is observed
    as applied unless an entry cannot be inspected, and the same holds of its
    rollback (where a directory that is gone already counts as removed). *)
Theorem observations_agree root operation w :
  (forall current w', revalidate_operation policy root operation w = (Ok current, w') ->
     observe_recovery policy root operation w = (Ok RoNotStarted, w))
  /\ (forall post w', verify_postcondition policy root operation w = (Ok post, w') ->
        concludes (RoApplied post) (observe_recovery policy root operation w))
  /\ (forall current w', revalidate_rollback policy root operation w = (Ok current, w') ->
        observe_rollback_recovery policy root operation w = (Ok RoNotStarted, w)
        \/ eo_kind operation = EokCreateDirectory
           /\ observe_rollback_recovery policy root operation w = (Ok (RoApplied None), w))
  /\ (forall w', verify_rollback_postcondition policy root operation w = (Ok tt, w') ->
        exists post, concludes (RoApplied post) (observe_rollback_recovery policy root operation w)).
Proof.
  split_and!; intros; [by eapply revalidated_not_started|by eapply verified_applied
    |by eapply rollback_revalidated|by eapply rollback_verified].
Qed.

(** Recovery says of a file that its mutation did not start exactly when the
    expected file is at the source and nothing at the destination, and that it
    was applied exactly when the expected file is at the destination and
    nothing at the source. *)
Theorem observe_recovery_of_file root operation w s d expected :
  is_directory_kind (eo_kind operation) = false ->
  source_path operation = Ok s -> relative_path (eo_destination_relative_path operation) = Ok d ->
  eo_live_fingerprint operation = Some expected ->
  let holds_at path fp := file_at w (path_join root path) fp /\ same_file_state expected fp = true in
  let vacant path := missing w (path_join root path) in
  (observe_recovery policy root operation w = (Ok RoNotStarted, w)
     <-> exists fp, holds_at s fp /\ vacant d)
  /\ (forall fp, observe_recovery policy root operation w = (Ok (RoApplied (Some fp)), w)
        <-> holds_at d fp /\ vacant s).
Proof.
  intros Hk Hs Hd He holds_at vacant.
  destruct (observe_file_run root operation w s d expected Hk Hs Hd He) as (r & Hr & Hns & Happ).
  rewrite Hr. unfold holds_at, vacant. split.
  - split; [intros [= Hok]; apply Hns in Hok; naive_solver|].
    intros (fp & [? ?] & ?). rewrite (proj2 Hns); [done|eauto].
  - intros fp. split.
    + intros [= Hok]. apply Happ in Hok as (fp' & [= <-] & ?). naive_solver.
    + intros ([? ?] & ?). rewrite (proj2 (Happ (Some fp))); [done|]. exists fp. naive_solver.
Qed.
End observed.

(** ** The sample tree *)

#[local] Existing Instances sample_tree_fs sample_tree_stable sample_tree_reads.

#[local] Instance sample_tree_stable_reads : StableReads nat.
Proof.
  refine {| seen_fingerprint _ path _ :=
      if is_ok (sample_tree_metadata path) then Ok sample_fingerprint else Err (PeUnsupported []);
    seen_first _ _ := Ok None |}; [done..|].
  intros w path _ fp. cbn. destruct (sample_tree_metadata path) as [m|]; [by exists m|done].
Defined.

Definition sample_tree_move : ExecutionOperation :=
  with_live_fingerprint sample_fingerprint
    (proposed_operation (uid x31) (uid x01) (sample_tree_operation x41 "inbox/a.txt" ["sorted"%string] "a.txt")
       (lit "inbox/a.txt") (lit "sorted/a.txt")).

Lemma observations_agree_witness :
  revalidate_operation sample_policy (bstr "/data") sample_tree_move 0%nat
    = (Ok (Some sample_fingerprint), 0%nat)
  /\ observe_recovery sample_policy (bstr "/data") sample_tree_move 0%nat = (Ok RoNotStarted, 0%nat).
Proof.
  assert (revalidate_operation sample_policy (bstr "/data") sample_tree_move 0%nat
    = (Ok (Some sample_fingerprint), 0%nat)) as H by (vm_compute; reflexivity).
  split; [exact H|].
  exact (proj1 (observations_agree sample_policy (bstr "/data") sample_tree_move 0%nat) _ _ H).
Defined.

Lemma observe_recovery_of_file_witness :
  exists fp, file_at sample_policy 0%nat (bstr "/data/inbox/a.txt") fp
  /\ same_file_state sample_fingerprint fp = true /\ missing 0%nat (bstr "/data/sorted/a.txt").
Proof.
  destruct (observe_recovery_of_file sample_policy (bstr "/data") sample_tree_move 0%nat
    (bstr "inbox/a.txt") (bstr "sorted/a.txt") sample_fingerprint eq_refl eq_refl eq_refl eq_refl)
    as [Hns _].
  assert (observe_recovery sample_policy (bstr "/data") sample_tree_move 0%nat
    = (Ok RoNotStarted, 0%nat)) as H by (vm_compute; reflexivity).
  apply Hns in H as (fp & [Hat Hsame] & Hgone). exists fp. split_and!; [exact Hat|exact Hsame|exact Hgone].
Defined.
