(* ===== verification/Transfer.v ===== *)
(** * Transfers between volumes

    crates/operations/src/transfer.rs: a file goes to another volume by being
    copied, verified and published under its new name, while the original is
    kept in a recovery vault on its own volume.  Every step is preceded by a
    durable intent in the journal. *)

From S2P Require Export Apply.
From S2P Require Import Samples.
#[local] Open Scope Z_scope.

(** ** Plans *)

Record CrossVolumeTransferDraft := {
  td_id : PlanId;
  td_source : PathBuf;
  td_destination : PathBuf;
  td_recovery_vault_path : PathBuf;
  td_destination_temporary_path : PathBuf;
  td_expected_source : FileFingerprint;
  td_created_at_unix_ms : Z
}.

Record CrossVolumeTransferPlan := {
  tp_id : PlanId;
  tp_source : PathBuf;
  tp_destination : PathBuf;
  tp_recovery_vault_path : PathBuf;
  tp_destination_temporary_path : PathBuf;
  tp_expected_source : FileFingerprint;
  tp_digest : bytes32;
  tp_sealed_at_unix_ms : Z
}.

Record TransferApproval := {
  ta_plan_id : PlanId;
  ta_plan_digest : bytes32;
  ta_approved_at_unix_ms : Z
}.

Record RecoveryVaultReceipt := {
  rvr_execution_id : ExecutionId;
  rvr_destination : PathBuf;
  rvr_retained_source : PathBuf;
  rvr_content_digest : bytes32;
  rvr_byte_size : Z
}.

Inductive TransferError :=
  | TeGateDisabled | TeInvalidPlan | TeApprovalMismatch | TeSourceChanged | TeDestinationExists
  | TeRecoveryVaultWrongVolume | TeDestinationVolumeInvalid | TeVerificationFailed
  | TeRecoverableFailure (detail : str) | TeIo (error : io_error)
  | TePlatform (error : PlatformError) | TeJournal (detail : str).

Section plans.
Context `{B3 : Blake3} `{TD : ToVec CrossVolumeTransferDraft}.

(** [CrossVolumeTransferDraft::seal]. *)
Definition seal_transfer (self : CrossVolumeTransferDraft) : res TransferError CrossVolumeTransferPlan :=
  let expected := td_expected_source self in
  reject_if (path_eq (td_source self) (td_destination self)
    || path_eq (td_source self) (td_recovery_vault_path self)
    || path_eq (td_destination self) (td_recovery_vault_path self)
    || negb (opt_path_eq (path_parent (td_destination self))
               (path_parent (td_destination_temporary_path self)))) TeInvalidPlan;;
  reject_if (negb (Z.land (fp_attributes expected) 0x4000 =? 0)
    || negb (ni_link_count (fp_native_identity expected) =? 1)
    || negb (bool_decide (ni_reparse_tag (fp_native_identity expected) = None))) TeInvalidPlan;;
  encoded ← map_err TeJournal (to_vec self);
  Ok {| tp_id := td_id self;
        tp_source := td_source self;
        tp_destination := td_destination self;
        tp_recovery_vault_path := td_recovery_vault_path self;
        tp_destination_temporary_path := td_destination_temporary_path self;
        tp_expected_source := expected;
        tp_digest := blake3_hash encoded;
        tp_sealed_at_unix_ms := td_created_at_unix_ms self |}.

(** The draft a plan was sealed from. *)
Definition transfer_draft (self : CrossVolumeTransferPlan) : CrossVolumeTransferDraft := {|
  td_id := tp_id self;
  td_source := tp_source self;
  td_destination := tp_destination self;
  td_recovery_vault_path := tp_recovery_vault_path self;
  td_destination_temporary_path := tp_destination_temporary_path self;
  td_expected_source := tp_expected_source self;
  td_created_at_unix_ms := tp_sealed_at_unix_ms self
|}.

(** [CrossVolumeTransferPlan::verify_integrity]. *)
Definition verify_transfer (self : CrossVolumeTransferPlan) : res TransferError unit :=
  encoded ← map_err TeJournal (to_vec (transfer_draft self));
  reject_if (negb (bool_decide (blake3_hash encoded = tp_digest self))) TeInvalidPlan.
End plans.

Definition fingerprints_match (expected observed : FileFingerprint) : bool :=
  let e := fp_native_identity expected in
  let o := fp_native_identity observed in
  (fp_byte_size expected =? fp_byte_size observed)
  && bool_decide (fp_content_digest expected = fp_content_digest observed)
  && bool_decide (vi_stable_identifier (ni_volume e) = vi_stable_identifier (ni_volume o))
  && bool_decide (ni_object_key e = ni_object_key o)
  && (ni_link_count o =? 1)
  && bool_decide (ni_reparse_tag o = None).

Definition map_journal_error (error : OperationsError) : TransferError :=
  TeJournal (operations_error_text error).

(** ** The world of a transfer *)

(** What [copy_verified] uses of [std::fs]; the file opened by
    [open_create_new] is named by its path. *)
Class CopyHost (W : Type) : Type := {
  fs_read : PathBuf -> SE W io_error bytes;
  open_create_new : PathBuf -> SE W io_error unit;
  file_write_all : PathBuf -> bytes -> SE W io_error unit;
  file_flush : PathBuf -> SE W io_error unit;
  file_sync_all : PathBuf -> SE W io_error unit
}.

#[export] Instance traced_copy {W} `{CopyHost W} : CopyHost (Traced W) := {
  fs_read path := passing (fs_read path);
  open_create_new path := logged (open_create_new path)
    (fun r => [EffFs (FsCreateFile path) (PeIo <$> error_of r)]);
  file_write_all path data := logged (file_write_all path data)
    (fun r => [EffFs (FsWriteFile path data) (PeIo <$> error_of r)]);
  file_flush path := passing (file_flush path);
  file_sync_all path := passing (file_sync_all path)
}.

(** [CrossVolumeTransferService::new]: whether a transfer was asked for, by a
    feature of the Windows build and an environment variable, does not matter
    as long as the audit is not done. *)
Definition metadata_preservation_audited : bool := false.
Definition new_service (requested : bool) : bool := requested && metadata_preservation_audited.

Section service.
Context {W : Type} `{B3 : Blake3} `{UU : UuidCrate}.
Context `{DJ : DurableJournal W} `{SF : SafeFileOperations W} `{US : UuidSource W}.
Context `{RO : ReadOnlyPlatform W} `{FS : StdFs W} `{CH : CopyHost W}.
Context `{TD : ToVec CrossVolumeTransferDraft}.
Context `{TA : ToVec (CrossVolumeTransferPlan * TransferApproval)}.

Definition path_exists (path : PathBuf) : SE W TransferError bool :=
  r ← se_try (symlink_metadata path);
  mret (is_ok r).

(** The volumes of the three parents. *)
Definition validate_volumes (plan : CrossVolumeTransferPlan) : SE W TransferError unit :=
  source_parent ← se_lift (ok_or (path_parent (tp_source plan)) TeInvalidPlan);
  vault_parent ← se_lift (ok_or (path_parent (tp_recovery_vault_path plan)) TeInvalidPlan);
  destination_parent ← se_lift (ok_or (path_parent (tp_destination plan)) TeInvalidPlan);
  source_volume ← se_map_err TePlatform (inspect_volume source_parent);
  vault_volume ← se_map_err TePlatform (inspect_volume vault_parent);
  destination_volume ← se_map_err TePlatform (inspect_volume destination_parent);
  se_lift (reject_if (existsb (fun volume =>
      negb (vi_local volume) || vi_removable volume
      || negb match vi_filesystem_type volume with
         | Some value => eq_ignore_ascii_case value (lit "NTFS")
         | None => false
         end) [source_volume; vault_volume; destination_volume]) TeDestinationVolumeInvalid);;
  se_lift (reject_if (negb (bool_decide (vi_stable_identifier source_volume
      = vi_stable_identifier vault_volume))) TeRecoveryVaultWrongVolume);;
  se_lift (reject_if (bool_decide (vi_stable_identifier source_volume
      = vi_stable_identifier destination_volume)) TeDestinationVolumeInvalid).

Definition copy_verified (source temporary : PathBuf) (expected_size : Z)
    (expected_digest : bytes32) : SE W TransferError unit :=
  source_bytes ← se_map_err TeIo (fs_read source);
  se_lift (reject_if (negb (zlen source_bytes =? expected_size)
    || negb (bool_decide (blake3_hash source_bytes = expected_digest))) TeSourceChanged);;
  se_map_err TeIo (open_create_new temporary);;
  se_map_err TeIo (file_write_all temporary source_bytes);;
  se_map_err TeIo (file_flush temporary);;
  se_map_err TeIo (file_sync_all temporary);;
  written ← se_map_err TeIo (fs_read temporary);
  se_lift (reject_if (negb (bool_decide (blake3_hash written = expected_digest)))
    TeVerificationFailed).

(** [journal.append(..).map_err(..)?; journal.flush().map_err(..)?]. *)
Definition record_transfer_event (event : OperationJournalEvent) : SE W TransferError unit :=
  se_map_err map_journal_error (journal_append event);;
  se_map_err map_journal_error journal_flush.

(** [append_event], with the new value of [*sequence]. *)
Definition append_event (execution_id : ExecutionId) (sequence : Z)
    (step_id : option OperationStepId) (kind : JournalEventKind) (payload : bytes)
    (previous : option bytes32) (now_unix_ms : Z) : SE W TransferError (bytes32 * Z) :=
  let sequence := u64_saturating_add sequence 1 in
  let event := new_event execution_id sequence step_id kind payload previous now_unix_ms in
  record_transfer_event event;;
  mret (ev_event_digest event, sequence).

Definition append_intent (execution_id : ExecutionId) (sequence : Z) (step_id : OperationStepId)
    (payload : bytes) (previous : option bytes32) (now_unix_ms : Z) :
    SE W TransferError (bytes32 * Z) :=
  append_event execution_id sequence (Some step_id) IntentDurableEvent payload previous now_unix_ms.

(** The request to move a file whose fingerprint is known. *)
Definition request_for (source destination : PathBuf) (fingerprint : FileFingerprint)
    (content_digest : bytes32) : RenameRequest := {|
  rr_source := source;
  rr_destination := destination;
  rr_expected_identity := fp_native_identity fingerprint;
  rr_expected_byte_size := fp_byte_size fingerprint;
  rr_expected_modified_at_ns := fp_modified_at_ns fingerprint;
  rr_expected_attributes := fp_attributes fingerprint;
  rr_expected_content_digest := content_digest;
  rr_maximum_hash_bytes := HARD_MAX_REHASH_BYTES
|}.

(** The guards of [execute]. *)
Definition admit_transfer (enabled : bool) (plan : CrossVolumeTransferPlan)
    (approval : TransferApproval) : SE W TransferError unit :=
  se_lift (reject_if (negb enabled) TeGateDisabled);;
  se_lift (verify_transfer plan);;
  se_lift (reject_if (negb (bool_decide (ta_plan_id approval = tp_id plan))
    || negb (bool_decide (ta_plan_digest approval = tp_digest plan))) TeApprovalMismatch);;
  destination_exists ← path_exists (tp_destination plan);
  temporary_exists ← (if destination_exists : bool then mret true
    else path_exists (tp_destination_temporary_path plan));
  vault_exists ← (if temporary_exists : bool then mret true
    else path_exists (tp_recovery_vault_path plan));
  se_lift (reject_if vault_exists TeDestinationExists);;
  current ← se_map_err TePlatform
    (fingerprint (tp_source plan) true (fp_byte_size (tp_expected_source plan)));
  se_lift (reject_if (negb (fingerprints_match (tp_expected_source plan) current)) TeSourceChanged);;
  validate_volumes plan.

(** The branch taken when the publication fails: the source is put back. *)
Definition restore_source (plan : CrossVolumeTransferPlan) (error : PlatformError) :
    SE W TransferError (bytes32 * Z) :=
  vault_fingerprint ← se_map_err TePlatform
    (fingerprint (tp_recovery_vault_path plan) true (fp_byte_size (tp_expected_source plan)));
  content_digest ← se_lift (ok_or (fp_content_digest vault_fingerprint) TeVerificationFailed);
  rollback ← se_try (rename_same_volume_no_replace
    (request_for (tp_recovery_vault_path plan) (tp_source plan) vault_fingerprint content_digest));
  se_fail (TeRecoverableFailure (lit "publication failed; source rollback result: "
    ++ (if is_ok rollback then lit "restored" else lit "manual review required")
    ++ lit "; cause: " ++ platform_error_text error)).

(** [CrossVolumeTransferService::execute]. *)
Definition execute_transfer (enabled : bool) (plan : CrossVolumeTransferPlan)
    (approval : TransferApproval) (now_unix_ms : Z) : SE W TransferError RecoveryVaultReceipt :=
  let expected := tp_expected_source plan in
  admit_transfer enabled plan approval;;
  execution_id ← new_id;
  copy_step ← new_id;
  vault_step ← new_id;
  publish_step ← new_id;
  approved_payload ← se_lift (map_err TeJournal (to_vec (plan, approval)));
  let approved := new_event execution_id 0 None ApprovedDurable approved_payload None now_unix_ms in
  record_transfer_event approved;;
  '(previous, sequence) ← append_intent execution_id 0 copy_step
    (bstr "copy_to_destination_temporary") (Some (ev_event_digest approved)) now_unix_ms;
  content_digest ← se_lift (ok_or (fp_content_digest expected) TeSourceChanged);
  copy_verified (tp_source plan) (tp_destination_temporary_path plan) (fp_byte_size expected)
    content_digest;;
  '(previous, sequence) ← append_event execution_id sequence (Some copy_step) AppliedObserved
    (bstr "destination_temporary_verified") (Some previous) now_unix_ms;
  '(previous, sequence) ← append_intent execution_id sequence vault_step
    (bstr "rename_source_to_recovery_vault") (Some previous) now_unix_ms;
  se_map_err TePlatform (rename_same_volume_no_replace
    (request_for (tp_source plan) (tp_recovery_vault_path plan) expected content_digest));;
  '(previous, sequence) ← append_event execution_id sequence (Some vault_step) AppliedObserved
    (bstr "source_retained_in_recovery_vault") (Some previous) now_unix_ms;
  '(previous, sequence) ← append_intent execution_id sequence publish_step
    (bstr "publish_verified_destination") (Some previous) now_unix_ms;
  temporary ← se_map_err TePlatform
    (fingerprint (tp_destination_temporary_path plan) true (fp_byte_size expected));
  se_lift (reject_if (negb (bool_decide (fp_content_digest temporary = fp_content_digest expected)))
    TeVerificationFailed);;
  temporary_digest ← se_lift (ok_or (fp_content_digest temporary) TeVerificationFailed);
  published ← se_try (rename_same_volume_no_replace
    (request_for (tp_destination_temporary_path plan) (tp_destination plan) temporary
       temporary_digest));
  '(previous, sequence) ← match published with
    | Err error => restore_source plan error
    | Ok _ => append_event execution_id sequence (Some publish_step) AppliedObserved
        (bstr "destination_published_without_replacement") (Some previous) now_unix_ms
    end;
  let sequence := u64_saturating_add sequence 1 in
  record_transfer_event (new_event execution_id sequence None ExecutionFinished
    (barr (tp_digest plan)) (Some previous) now_unix_ms);;
  mret {| rvr_execution_id := execution_id;
          rvr_destination := tp_destination plan;
          rvr_retained_source := tp_recovery_vault_path plan;
          rvr_content_digest := content_digest;
          rvr_byte_size := fp_byte_size expected |}.
End service.

(** ** The script of a transfer

    What a transfer asks of the journal and of the file system, in order, when
    nothing goes wrong. *)

Record TransferRun := {
  run_execution : ExecutionId;
  run_copy : OperationStepId;
  run_vault : OperationStepId;
  run_publish : OperationStepId;
  run_payload : bytes;
  run_data : bytes;
  run_digest : bytes32;
  run_temporary : FileFingerprint
}.

(** A chain of events, numbered and linked. *)
Fixpoint linked_events `{Blake3} `{UuidCrate} (execution_id : ExecutionId) (now sequence : Z)
    (previous : option bytes32) (l : list (option OperationStepId * JournalEventKind * bytes)) :
    list OperationJournalEvent :=
  match l with
  | [] => []
  | (step_id, kind, payload) :: l =>
      let event := new_event execution_id sequence step_id kind payload previous now in
      event :: linked_events execution_id now (sequence + 1) (Some (ev_event_digest event)) l
  end.

Definition durably (event : OperationJournalEvent) : list Effect :=
  [EffAppend event true; EffFlush true].

Section script.
Context `{B3 : Blake3} `{UU : UuidCrate}.
Variables (plan : CrossVolumeTransferPlan) (now : Z) (run : TransferRun).

Definition transfer_events : list OperationJournalEvent :=
  linked_events (run_execution run) now 0 None
    [(None, ApprovedDurable, run_payload run);
     (Some (run_copy run), IntentDurableEvent, bstr "copy_to_destination_temporary");
     (Some (run_copy run), AppliedObserved, bstr "destination_temporary_verified");
     (Some (run_vault run), IntentDurableEvent, bstr "rename_source_to_recovery_vault");
     (Some (run_vault run), AppliedObserved, bstr "source_retained_in_recovery_vault");
     (Some (run_publish run), IntentDurableEvent, bstr "publish_verified_destination");
     (Some (run_publish run), AppliedObserved, bstr "destination_published_without_replacement");
     (None, ExecutionFinished, barr (tp_digest plan))].

Definition retain_request : RenameRequest :=
  request_for (tp_source plan) (tp_recovery_vault_path plan) (tp_expected_source plan) (run_digest run).
Definition publish_request : RenameRequest :=
  request_for (tp_destination_temporary_path plan) (tp_destination plan) (run_temporary run)
    (run_digest run).

Definition done_op (op : FsOp) : list Effect := [EffFs op None].

(** The mutations between the events. *)
Definition before_publication : list Effect :=
  match transfer_events with
  | [approved; copying; copied; retaining; retained; publishing; _; _] =>
      durably approved ++ durably copying
      ++ done_op (FsCreateFile (tp_destination_temporary_path plan))
      ++ done_op (FsWriteFile (tp_destination_temporary_path plan) (run_data run))
      ++ durably copied ++ durably retaining ++ done_op (FsRename retain_request)
      ++ durably retained ++ durably publishing
  | _ => []
  end.
Definition script : list Effect :=
  before_publication ++ done_op (FsRename publish_request)
  ++ concat (durably <$> drop 6 transfer_events).
End script.

(** An effect that was asked for and failed. *)
Definition failed_version (eff eff' : Effect) : Prop :=
  match eff, eff' with
  | EffAppend e true, EffAppend e' false => e = e'
  | EffFlush true, EffFlush false => True
  | EffFs op None, EffFs op' (Some _) => op = op'
  | _, _ => False
  end.

(** The log of a run that stopped before the end of the script: some of its
    effects, the last one possibly failed. *)
Definition stopped (s log : list Effect) : Prop :=
  (exists post, post <> [] /\ s = log ++ post)
  \/ exists pre eff eff' post, s = pre ++ eff :: post /\ log = pre ++ [eff'] /\ failed_version eff eff'.

Definition copied_faithfully `{Blake3} (plan : CrossVolumeTransferPlan) (run : TransferRun) : Prop :=
  blake3_hash (run_data run) = run_digest run
  /\ zlen (run_data run) = fp_byte_size (tp_expected_source plan)
  /\ fp_content_digest (tp_expected_source plan) = Some (run_digest run)
  /\ fp_content_digest (run_temporary run) = Some (run_digest run).

Definition transfer_outcome `{Blake3} `{UuidCrate} (plan : CrossVolumeTransferPlan) (now : Z)
    (r : res TransferError RecoveryVaultReceipt) (log : list Effect) : Prop :=
  exists run, match r with
  | Ok receipt =>
      log = script plan now run /\ copied_faithfully plan run
      /\ receipt = {| rvr_execution_id := run_execution run; rvr_destination := tp_destination plan;
                      rvr_retained_source := tp_recovery_vault_path plan;
                      rvr_content_digest := run_digest run;
                      rvr_byte_size := fp_byte_size (tp_expected_source plan) |}
  | Err e =>
      stopped (script plan now run) log
      \/ exists error fingerprint digest error',
           log = before_publication plan now run
             ++ [EffFs (FsRename (publish_request plan run)) (Some error);
                 EffFs (FsRename (request_for (tp_recovery_vault_path plan) (tp_source plan)
                   fingerprint digest)) error']
           /\ copied_faithfully plan run /\ exists detail, e = TeRecoverableFailure detail
  end.

Section observed.
Context {W : Type} `{B3 : Blake3} `{UU : UuidCrate}.
Context `{DJ : DurableJournal W} `{SF : SafeFileOperations W} `{US : UuidSource W}.
Context `{RO : ReadOnlyPlatform W} `{FS : StdFs W} `{CH : CopyHost W}.
Context `{TD : ToVec CrossVolumeTransferDraft}.
Context `{TA : ToVec (CrossVolumeTransferPlan * TransferApproval)}.

Notation Post A := (res TransferError A -> list Effect -> Prop).

Lemma record_transfer_wp e log (Q : Post unit) :
  Q (Ok tt) (log ++ durably e) ->
  (forall d, Q (Err d) (log ++ [EffAppend e false])) ->
  (forall d, Q (Err d) (log ++ [EffAppend e true; EffFlush false])) ->
  wp (record_transfer_event (W := Traced W) e) log Q.
Proof.
  intros H1 H2 H3. unfold record_transfer_event.
  apply wp_bind, wp_map_err, wp_logged. intros [[]|d]; cbn [map_err is_ok]; [|apply H2].
  apply wp_map_err, wp_logged. intros [[]|d]; cbn [map_err is_ok]; rewrite <- (assoc_L (++));
    [apply H1|apply H3].
Qed.

Lemma append_event_wp x sequence step kind payload previous now log (Q : Post (bytes32 * Z)) :
  let e := new_event x (u64_saturating_add sequence 1) step kind payload previous now in
  Q (Ok (ev_event_digest e, u64_saturating_add sequence 1)) (log ++ durably e) ->
  (forall d, Q (Err d) (log ++ [EffAppend e false])) ->
  (forall d, Q (Err d) (log ++ [EffAppend e true; EffFlush false])) ->
  wp (append_event (W := Traced W) x sequence step kind payload previous now) log Q.
Proof.
  intros e H1 H2 H3. unfold append_event. by apply wp_bind, record_transfer_wp; [apply wp_ret|..].
Qed.

Lemma copy_verified_wp source temporary size digest log (Q : Post unit) :
  (forall d, Q (Err d) log) ->
  (forall d error, Q (Err d) (log ++ [EffFs (FsCreateFile temporary) (Some error)])) ->
  (forall d error data, Q (Err d) (log ++ [EffFs (FsCreateFile temporary) None;
     EffFs (FsWriteFile temporary data) (Some error)])) ->
  (forall r data, blake3_hash data = digest -> zlen data = size ->
     Q r (log ++ [EffFs (FsCreateFile temporary) None; EffFs (FsWriteFile temporary data) None])) ->
  wp (copy_verified (W := Traced W) source temporary size digest) log Q.
Proof.
  intros H1 H2 H3 H4. unfold copy_verified.
  apply wp_bind, wp_map_err, wp_passing. intros [data|d]; cbn [map_err]; [|apply H1].
  apply wp_reject; intros Hb; [apply H1|].
  apply orb_false_iff in Hb as [Hsize%negb_false_iff%Z.eqb_eq Hdig%negb_false_iff%bool_decide_eq_true].
  apply wp_bind, wp_map_err, wp_logged. intros [[]|d]; cbn [map_err error_of fmap option_fmap option_map];
    [|apply H2].
  apply wp_bind, wp_map_err, wp_logged. intros [[]|d]; cbn [map_err error_of fmap option_fmap option_map];
    rewrite <- (assoc_L (++)); [|apply H3].
  assert (forall r, Q r (log ++ [EffFs (FsCreateFile temporary) None;
    EffFs (FsWriteFile temporary data) None])) as H by (intros r; by apply H4). cbn [app].
  apply wp_bind, wp_map_err, wp_passing. intros [[]|d]; cbn [map_err]; [|apply H].
  apply wp_bind, wp_map_err, wp_passing. intros [[]|d]; cbn [map_err]; [|apply H].
  apply wp_bind, wp_map_err, wp_passing. intros [written|d]; cbn [map_err]; [|apply H].
  apply wp_lift, H.
Qed.

(** Nothing is changed before the guards are passed. *)
Lemma admit_transfer_wp enabled plan approval log :
  wp (admit_transfer (W := Traced W) enabled plan approval) log (fun _ log' => log' = log).
Proof.
  unfold admit_transfer. apply wp_reject; intros _; [done|].
  apply wp_bind, wp_lift. destruct (verify_transfer plan); [|done].
  apply wp_reject; intros _; [done|].
  assert (forall path (Q : Post bool), (forall b, Q (Ok b) log) ->
    wp (path_exists (W := Traced W) path) log Q) as Hex.
  { intros path Q H. unfold path_exists. apply wp_bind, wp_try, wp_passing. intros r. by apply wp_ret. }
  apply wp_bind, Hex. intros b1. apply wp_bind. assert (forall (b : bool) (Q : Post bool) path,
    (forall b, Q (Ok b) log) -> wp (if b then mret true else path_exists (W := Traced W) path) log Q)
    as Hif by (intros [] Q path H; [by apply wp_ret|by apply Hex]).
  apply Hif. intros b2. apply wp_bind, Hif. intros b3. apply wp_reject; intros _; [done|].
  apply wp_bind, wp_map_err, wp_passing. intros [current|d]; cbn [map_err]; [|done].
  apply wp_reject; intros _; [done|]. unfold validate_volumes.
  do 3 (apply wp_bind, wp_lift; destruct (ok_or _ _); [|done]).
  do 3 (apply wp_bind, wp_map_err, wp_passing; intros [?|?]; cbn [map_err]; [|done]).
  do 2 (apply wp_reject; intros _; [done|]). by apply wp_lift.
Qed.

Lemma restore_source_wp plan error log (Q : Post (bytes32 * Z)) :
  (forall d, Q (Err d) log) ->
  (forall fingerprint digest error' detail, Q (Err (TeRecoverableFailure detail))
     (log ++ [EffFs (FsRename (request_for (tp_recovery_vault_path plan) (tp_source plan)
        fingerprint digest)) error'])) ->
  wp (restore_source (W := Traced W) plan error) log Q.
Proof.
  intros H1 H2. unfold restore_source.
  apply wp_bind, wp_map_err, wp_passing. intros [fp|d]; cbn [map_err]; [|apply H1].
  apply wp_bind, wp_lift. destruct (ok_or _ _) as [digest|d]; [|apply H1].
  apply wp_bind, wp_try, wp_logged. intros r. apply wp_fail, H2.
Qed.

(** Closing the cases in which the run stops: after [n] effects of the script,
    or at the [n]-th, which failed. *)
Ltac stop_after run n :=
  match goal with |- transfer_outcome ?plan ?now _ _ =>
    exists run; left; left; exists (drop n (script plan now run)); split; [discriminate|reflexivity]
  end.
Ltac stop_at run n :=
  match goal with |- transfer_outcome ?plan ?now _ _ =>
    exists run; left; right; exists (take n (script plan now run));
    eexists _, _, (drop (S n) (script plan now run)); split; [reflexivity|split; [reflexivity|done]]
  end.

Lemma execute_transfer_wp enabled plan approval now :
  wp (execute_transfer (W := Traced W) enabled plan approval now) [] (transfer_outcome plan now).
Proof.
  set (fp := tp_expected_source plan). set (u := fill 16 x00 : uuid). set (h := fill 32 x00).
  unfold execute_transfer. apply wp_bind. eapply wp_weaken; [apply admit_transfer_wp|].
  intros [[]|d] log ->.
  2: { stop_after (Build_TransferRun u u u u [] [] h fp) 0%nat. }
  assert (forall (B : Type) (k : uuid -> SE (Traced W) TransferError B) log (Q : Post B),
    (forall x, wp (k x) log Q) -> wp (new_id ≫= k) log Q) as Hid.
  { intros B k log Q H. apply wp_bind. intros w. unfold new_id, fresh_uuid, traced_uuids.
    destruct (fresh_uuid w) as [x w1]. cbn. apply H. }
  apply Hid. intros x. apply Hid. intros s1. apply Hid. intros s2. apply Hid. intros s3.
  apply wp_bind, wp_lift. destruct (map_err TeJournal _) as [payload|d].
  2: { stop_after (Build_TransferRun u u u u [] [] h fp) 0%nat. }
  apply wp_bind, record_transfer_wp; cbn [app durably];
    [|intros d; stop_at (Build_TransferRun x s1 s2 s3 payload [] h fp) 0%nat
     |intros d; stop_at (Build_TransferRun x s1 s2 s3 payload [] h fp) 1%nat].
  apply wp_bind, append_event_wp; cbn [app durably];
    [|intros d; stop_at (Build_TransferRun x s1 s2 s3 payload [] h fp) 2%nat
     |intros d; stop_at (Build_TransferRun x s1 s2 s3 payload [] h fp) 3%nat].
  apply wp_bind, wp_lift. destruct (fp_content_digest (tp_expected_source plan)) as [digest|] eqn:Hdig;
    cbn [ok_or]; [|stop_after (Build_TransferRun x s1 s2 s3 payload [] h fp) 4%nat].
  apply wp_bind, copy_verified_wp; cbn [app].
  { intros d. stop_after (Build_TransferRun x s1 s2 s3 payload [] digest fp) 4%nat. }
  { intros d error. stop_at (Build_TransferRun x s1 s2 s3 payload [] digest fp) 4%nat. }
  { intros d error data. stop_at (Build_TransferRun x s1 s2 s3 payload data digest fp) 5%nat. }
  intros r data Hdata Hsize.
  destruct r as [[]|d]; [|stop_after (Build_TransferRun x s1 s2 s3 payload data digest fp) 6%nat].
  set (R := Build_TransferRun x s1 s2 s3 payload data digest).
  apply wp_bind, append_event_wp; cbn [app durably];
    [|intros d; stop_at (R fp) 6%nat|intros d; stop_at (R fp) 7%nat].
  apply wp_bind, append_event_wp; cbn [app durably];
    [|intros d; stop_at (R fp) 8%nat|intros d; stop_at (R fp) 9%nat].
  apply wp_bind, wp_map_err, wp_logged. intros [outcome|error]; cbn [map_err error_of app];
    [|stop_at (R fp) 10%nat].
  apply wp_bind, append_event_wp; cbn [app durably];
    [|intros d; stop_at (R fp) 11%nat|intros d; stop_at (R fp) 12%nat].
  apply wp_bind, append_event_wp; cbn [app durably];
    [|intros d; stop_at (R fp) 13%nat|intros d; stop_at (R fp) 14%nat].
  apply wp_bind, wp_map_err, wp_passing. intros [tmp|d]; cbn [map_err];
    [|stop_after (R fp) 15%nat].
  apply wp_reject; intros Htmp; [stop_after (R fp) 15%nat|].
  apply negb_false_iff, bool_decide_eq_true in Htmp. rewrite Htmp.
  apply wp_bind, wp_lift. cbn [ok_or].
  assert (copied_faithfully plan (R tmp)) as Hcopy by by split_and!.
  apply wp_bind, wp_try, wp_logged. intros [published|error]; cbn [error_of app].
  2: { apply wp_bind, restore_source_wp; cbn [app].
       - intros d. stop_at (R tmp) 15%nat.
       - intros fp' digest' error' detail. exists (R tmp). right.
         exists error, fp', digest', error'. split; [reflexivity|]. by split; [|exists detail]. }
  apply wp_bind, append_event_wp; cbn [app durably];
    [|intros d; stop_at (R tmp) 16%nat|intros d; stop_at (R tmp) 17%nat].
  apply wp_bind, record_transfer_wp; cbn [app durably];
    [|intros d; stop_at (R tmp) 18%nat|intros d; stop_at (R tmp) 19%nat].
  apply wp_ret. exists (R tmp). split; [reflexivity|]. by split.
Qed.

(** A transfer follows its script: it asks for nothing but the effects of the
    script, in their order.  It succeeds exactly at the end of it, with the
    receipt of what was copied, retained and published; when it fails it
    stopped on the way, at most one effect having failed, or the publication
    failed and putting the source back was all that was still asked for. *)
Theorem transfer_follows_script enabled plan approval now (w w' : W) r log :
  execute_transfer (W := Traced W) enabled plan approval now (w, []) = (r, (w', log)) ->
  transfer_outcome plan now r log.
Proof. intros H. pose proof (execute_transfer_wp enabled plan approval now w) as Hw. by rewrite H in Hw. Qed.

(** *** Where the original file is *)

(** A file renamed with success is at its new place. *)
Definition moved (path : PathBuf) (eff : Effect) : PathBuf :=
  match eff with
  | EffFs (FsRename request) None =>
      if path_eq path (rr_source request) then rr_destination request else path
  | _ => path
  end.
Definition whereabouts (path : PathBuf) (log : list Effect) : PathBuf := foldl moved path log.

(** The renames a transfer may do: to the vault, back, and of the copy. *)
Definition transfer_move (plan : CrossVolumeTransferPlan) (eff : Effect) : Prop :=
  match eff with
  | EffFs (FsRename request) None =>
      (rr_source request = tp_source plan /\ rr_destination request = tp_recovery_vault_path plan)
      \/ (rr_source request = tp_recovery_vault_path plan /\ rr_destination request = tp_source plan)
      \/ (rr_source request = tp_destination_temporary_path plan
          /\ rr_destination request = tp_destination plan)
  | EffFs (FsRemoveDirectory _) _ => False
  | EffFs (FsCreateFile path | FsWriteFile path _) _ => path = tp_destination_temporary_path plan
  | _ => True
  end.

Lemma script_moves plan now run : Forall (transfer_move plan) (script plan now run).
Proof.
  cbn. repeat (apply List.Forall_cons; [cbn; tauto|]). apply List.Forall_nil.
Qed.

Lemma stopped_moves plan s log :
  Forall (transfer_move plan) s -> stopped s log -> Forall (transfer_move plan) log.
Proof.
  intros Hs [(post & _ & ->)|(pre & eff & eff' & post & -> & -> & Hf)].
  - by apply Forall_app in Hs as [? _].
  - apply Forall_app in Hs as [? [Heff _]%Forall_cons_iff]. apply Forall_app. split; [done|].
    constructor; [|done]. destruct eff as [? []|[]|[] []], eff' as [? []|[]|[] []]; cbn in *; try done;
      injection Hf; intros; congruence.
Qed.

Lemma outcome_moves plan now r log :
  transfer_outcome plan now r log -> Forall (transfer_move plan) log.
Proof.
  intros [run H]. destruct r as [receipt|e].
  - destruct H as (-> & _). apply script_moves.
  - destruct H as [H|(error & fp & digest & error' & -> & _)];
      [eapply stopped_moves; [apply script_moves|exact H]|].
    cbn. repeat (apply List.Forall_cons; [cbn; tauto|]).
    apply List.Forall_cons; [destruct error'; cbn; tauto|apply List.Forall_nil].
Qed.

Lemma whereabouts_source plan path log :
  path_eq (tp_source plan) (tp_destination_temporary_path plan) = false ->
  path_eq (tp_recovery_vault_path plan) (tp_destination_temporary_path plan) = false ->
  Forall (transfer_move plan) log ->
  path = tp_source plan \/ path = tp_recovery_vault_path plan ->
  whereabouts path log = tp_source plan \/ whereabouts path log = tp_recovery_vault_path plan.
Proof.
  intros H1 H2 Hlog. unfold whereabouts. revert path.
  induction Hlog as [|eff log Heff _ IH]; intros path Hp; [done|]. cbn [foldl]. apply IH.
  destruct eff as [| |[| |request| |] [|]]; cbn [moved]; try done.
  destruct (path_eq path (rr_source request)) eqn:He; [|done].
  destruct Heff as [[_ ->]|[[_ ->]|[Hs _]]]; [by right|by left|].
  rewrite Hs in He. destruct Hp as [->| ->]; congruence.
Qed.

(** C35: The original is never lost: whatever fails and wherever, after every
    effect the file the transfer started from is where it was or in the
    recovery vault, nothing is removed and nothing is written but the copy;
    on success the original is in the vault and the copy at the destination. *)
Theorem transfer_never_loses_source enabled plan approval now (w w' : W) r log pre post :
  execute_transfer (W := Traced W) enabled plan approval now (w, []) = (r, (w', log)) ->
  path_eq (tp_source plan) (tp_destination_temporary_path plan) = false ->
  path_eq (tp_recovery_vault_path plan) (tp_destination_temporary_path plan) = false ->
  log = pre ++ post ->
  (whereabouts (tp_source plan) pre = tp_source plan
   \/ whereabouts (tp_source plan) pre = tp_recovery_vault_path plan)
  /\ Forall (transfer_move plan) log
  /\ (is_ok r = true ->
      whereabouts (tp_source plan) log = tp_recovery_vault_path plan
      /\ (path_eq (tp_destination_temporary_path plan) (tp_source plan) = false ->
          whereabouts (tp_destination_temporary_path plan) log = tp_destination plan)).
Proof.
  intros H H1 H2 Hlog. pose proof (execute_transfer_wp enabled plan approval now w) as Hw.
  rewrite H in Hw. cbn [fst snd] in Hw. pose proof (outcome_moves _ _ _ _ Hw) as Hm. split_and!.
  - rewrite Hlog in Hm. apply Forall_app in Hm as [Hm _]. apply whereabouts_source; auto.
  - done.
  - destruct r as [receipt|]; [|done]. intros _. destruct Hw as (run & -> & _).
    unfold whereabouts. cbn. assert (forall p, path_eq p p = true) as Hrefl.
    { intros p. unfold path_eq. by apply bool_decide_eq_true. }
    rewrite Hrefl. cbn. rewrite H2. split; [done|]. intros H3. rewrite H3. by rewrite Hrefl.
Qed.

(** *** The journal *)

Lemma linked_events_chain x now l :
  forall sequence d, 0 <= sequence -> sequence + zlen l < u64_max ->
  chain (Some (sequence, d)) (linked_events x now (sequence + 1) (Some d) l).
Proof.
  induction l as [|[[step kind] payload] l IH]; intros sequence d H0 Hmax; cbn [linked_events chain]; [done|].
  unfold zlen in *. cbn [length] in Hmax. split.
  - replace (sequence + 1) with (u64_saturating_add sequence 1)
      by (unfold u64_saturating_add; lia). apply extends_new_event.
  - unfold head_of. cbn [ev_sequence new_event]. apply IH; lia.
Qed.

Lemma linked_events_from_zero x now head l :
  zlen l < u64_max - 1 -> chain None (linked_events x now 0 None (head :: l)).
Proof.
  intros Hl. destruct head as [[step kind] payload]. cbn [linked_events chain]. split.
  - unfold extends. by rewrite verify_new_event.
  - apply linked_events_chain; lia.
Qed.

Lemma appended_script plan now run : appended (script plan now run) = transfer_events plan now run.
Proof. reflexivity. Qed.

(** A transfer leaves a well-formed journal: the events that reached it are
    the first ones of one chain of the execution, from the approval with
    sequence zero on, and the chain is finished when the transfer succeeded. *)
Theorem transfer_journal_is_chain enabled plan approval now (w w' : W) r log :
  execute_transfer (W := Traced W) enabled plan approval now (w, []) = (r, (w', log)) ->
  exists run rest, transfer_events plan now run = appended log ++ rest
    /\ chain None (appended log)
    /\ (is_ok r = true -> rest = []).
Proof.
  intros H. pose proof (execute_transfer_wp enabled plan approval now w) as Hw. rewrite H in Hw.
  cbn [fst snd] in Hw. destruct Hw as [run Hw].
  enough (exists rest, transfer_events plan now run = appended log ++ rest
    /\ (is_ok r = true -> rest = [])) as (rest & Hr & Hok).
  { exists run, rest. split_and!; [done| |done].
    assert (chain None (transfer_events plan now run)) as Hc.
    { apply linked_events_from_zero. vm_compute. done. }
    rewrite Hr in Hc. by apply chain_app in Hc as [? _]. }
  rewrite <- appended_script. destruct r as [receipt|e].
  - destruct Hw as (-> & _). exists []. by rewrite app_nil_r.
  - destruct Hw as [[(post & _ & ->)|(pre & eff & eff' & post & -> & -> & Hf)]|(error & fp & dg & er & -> & _)].
    + exists (appended post). split; [apply appended_app|done].
    + exists (appended (eff :: post)). split; [|done]. rewrite appended_app. f_equal.
      rewrite appended_app.
      enough (appended [eff'] = []) as -> by by rewrite app_nil_r.
      destruct eff as [? []|[]|? []], eff' as [? []|[]|? []]; cbn in *; done.
    + exists (drop 6 (transfer_events plan now run)). split; [reflexivity|done].
Qed.
End observed.

(** ** Sealing *)

Section sealing.
Context `{B3 : Blake3} `{TD : ToVec CrossVolumeTransferDraft}.

(** A draft is sealed exactly when source, destination and vault are three
    places, the copy is made next to the destination, and the source is a
    plain file with one name; what is sealed passes the integrity check, and
    a plan that passes it with another content shows a blake3 collision. *)
Theorem seal_transfer_spec draft :
  (is_ok (seal_transfer draft) = true <->
     components (td_source draft) <> components (td_destination draft)
     /\ components (td_source draft) <> components (td_recovery_vault_path draft)
     /\ components (td_destination draft) <> components (td_recovery_vault_path draft)
     /\ option_map components (path_parent (td_destination draft))
        = option_map components (path_parent (td_destination_temporary_path draft))
     /\ Z.land (fp_attributes (td_expected_source draft)) 0x4000 = 0
     /\ ni_link_count (fp_native_identity (td_expected_source draft)) = 1
     /\ ni_reparse_tag (fp_native_identity (td_expected_source draft)) = None
     /\ is_ok (to_vec draft) = true)
  /\ forall plan, seal_transfer draft = Ok plan ->
       transfer_draft plan = draft /\ verify_transfer plan = Ok tt
       /\ forall other l l', tp_digest other = tp_digest plan -> verify_transfer other = Ok tt ->
            to_vec draft = Ok l -> to_vec (transfer_draft other) = Ok l' ->
            l = l' \/ collides blake3_hash l l'.
Proof.
  assert (forall a b, opt_path_eq a b = true <-> option_map components a = option_map components b) as Hopt.
  { intros [a|] [b|]; cbn; try done. unfold path_eq. rewrite bool_decide_eq_true.
    split; [by intros ->|by intros [=]]. }
  split.
  - assert (forall a b, path_eq a b = false <-> components a <> components b) as Hneq
      by (intros a b; apply bool_decide_eq_false).
    rewrite is_ok_true, <- Hopt, <- !Hneq. unfold seal_transfer. split.
    + intros (plan & H).
      apply bind_Ok in H as ([] & H1%reject_if_Ok & H). apply bind_Ok in H as ([] & H2%reject_if_Ok & H).
      apply bind_Ok in H as (l & Hl%map_err_Ok & _).
      rewrite !orb_false_iff, negb_false_iff in H1.
      rewrite !orb_false_iff, !negb_false_iff, bool_decide_eq_true, !Z.eqb_eq in H2.
      rewrite Hl. naive_solver.
    + intros (H1 & H2 & H3 & H4 & H5 & H6 & H7 & (l & Hl)%is_ok_true).
      rewrite H1, H2, H3, H4, H5, H6, H7, Hl. cbn. eauto.
  - intros plan H. unfold seal_transfer in H.
    apply bind_Ok in H as ([] & _ & H). apply bind_Ok in H as ([] & _ & H).
    apply bind_Ok in H as (l & Hl%map_err_Ok & [= <-]).
    match goal with |- ?d = _ /\ _ => assert (d = draft) as Hd by (by destruct draft) end.
    split; [exact Hd|]. unfold verify_transfer. rewrite Hd, Hl. cbn [map_err mbind res_bind].
    split; [by rewrite bool_decide_true|].
    cbn [tp_digest]. intros other l1 l2 Hdig Hv [= <-] Hl2. rewrite Hl2 in Hv. cbn in Hv.
    apply reject_if_Ok, negb_false_iff, bool_decide_eq_true in Hv. apply equal_or_collides. congruence.
Qed.
End sealing.

(** ** The service of the program *)

(** The service the program builds refuses every transfer and touches nothing,
    whatever was asked for: the audit of metadata preservation is not done. *)
Lemma new_service_refuses `{B3 : Blake3} `{UU : UuidCrate} {W : Type}
    `{DJ : DurableJournal W} `{SF : SafeFileOperations W} `{US : UuidSource W}
    `{RO : ReadOnlyPlatform W} `{FS : StdFs W} `{CH : CopyHost W}
    `{TD : ToVec CrossVolumeTransferDraft} `{TA : ToVec (CrossVolumeTransferPlan * TransferApproval)}
    requested plan approval now w :
  execute_transfer (W := W) (new_service requested) plan approval now w = (Err TeGateDisabled, w).
Proof. by destruct requested. Qed.

(** ** Witnesses *)

#[local] Existing Instances sample_uuid sample_uuid_laws sample_blake3.

(** A counter of identifiers, and two volumes on which everything succeeds. *)
#[local] Instance counter_journal : DurableJournal nat := {
  journal_append _ := fun n => (Ok tt, n);
  journal_flush := fun n => (Ok tt, n);
  journal_events _ := fun n => (Ok [], n);
  journal_diagnostics _ := []
}.
#[local] Instance counter_filesystem : SafeFileOperations nat := {
  rename_same_volume_no_replace request :=
    fun n => (Ok {| ro_observed_identity := rr_expected_identity request |}, n);
  create_directory_no_replace _ := fun n => (Ok tt, n);
  remove_directory_if_empty _ := fun n => (Ok tt, n)
}.
#[local] Instance counter_uuids : UuidSource nat := fun n => (fill 16 (byte_of_Z (64 + Z.of_nat n)), S n).

Definition sample_data : bytes := bstr "0123456789".
Definition copied_fingerprint : FileFingerprint := {|
  fp_native_identity := sample_identity;
  fp_byte_size := 10;
  fp_modified_at_ns := Some 1;
  fp_created_at_ns := Some 1;
  fp_attributes := 0;
  fp_quick_digest := None;
  fp_content_digest := Some (blake3_hash sample_data)
|}.
Definition second_volume : VolumeIdentity := {|
  vi_platform := Windows;
  vi_stable_identifier := lit "volume-serial:2";
  vi_filesystem_type := Some (lit "NTFS");
  vi_case_sensitive := false;
  vi_removable := false;
  vi_local := true
|}.
#[local] Instance two_volumes : ReadOnlyPlatform nat := {|
  inspect_volume path := fun n =>
    (Ok (if path_starts_with path (bstr "/c") then sample_volume else second_volume), n);
  fingerprint _ _ _ := fun n => (Ok copied_fingerprint, n);
  fingerprint_streaming _ _ := fun n => (Ok copied_fingerprint, n)
|}.
#[local] Instance absent_places : StdFs nat := {|
  symlink_metadata _ := fun n => (Err (IoError NotFound []), n);
  canonicalize path := fun n => (Ok path, n);
  read_dir_first _ := fun n => (Ok None, n)
|}.
#[local] Instance sample_copy : CopyHost nat := {|
  fs_read _ := fun n => (Ok sample_data, n);
  open_create_new _ := fun n => (Ok tt, n);
  file_write_all _ _ := fun n => (Ok tt, n);
  file_flush _ := fun n => (Ok tt, n);
  file_sync_all _ := fun n => (Ok tt, n)
|}.
#[local] Instance any_transfer_draft : ToVec CrossVolumeTransferDraft := fun d => Ok (td_source d).
#[local] Instance any_transfer_bundle : ToVec (CrossVolumeTransferPlan * TransferApproval) := fun _ => Ok [].

Definition sample_draft_transfer (temporary : String.string) : CrossVolumeTransferDraft := {|
  td_id := uid x01;
  td_source := bstr "/c/docs/a.txt";
  td_destination := bstr "/d/docs/a.txt";
  td_recovery_vault_path := bstr "/c/vault/a.txt";
  td_destination_temporary_path := bstr temporary;
  td_expected_source := copied_fingerprint;
  td_created_at_unix_ms := 1
|}.
Definition sample_transfer : CrossVolumeTransferPlan :=
  match seal_transfer (sample_draft_transfer "/d/docs/a.txt.partial") with
  | Ok plan => plan
  | Err _ => {| tp_id := uid x01; tp_source := []; tp_destination := []; tp_recovery_vault_path := [];
      tp_destination_temporary_path := []; tp_expected_source := copied_fingerprint;
      tp_digest := fill 32 x00; tp_sealed_at_unix_ms := 0 |}
  end.
Definition sample_transfer_approval : TransferApproval := {|
  ta_plan_id := tp_id sample_transfer; ta_plan_digest := tp_digest sample_transfer;
  ta_approved_at_unix_ms := 2 |}.
Definition sample_transfer_run :=
  execute_transfer (W := Traced nat) true sample_transfer sample_transfer_approval 7 (0%nat, []).

Lemma transfer_follows_script_witness :
  match sample_transfer_run with
  | (Ok receipt, (_, log)) => length log = 20%nat /\ transfer_outcome sample_transfer 7 (Ok receipt) log
  | _ => False
  end.
Proof.
  destruct sample_transfer_run as [[receipt|e] [w' log]] eqn:H.
  - split; [|exact (transfer_follows_script true sample_transfer sample_transfer_approval 7 0%nat w'
      (Ok receipt) log H)].
    assert (length (snd (snd sample_transfer_run)) = 20%nat) as Hl by (vm_compute; reflexivity).
    rewrite H in Hl. exact Hl.
  - assert (is_ok (fst sample_transfer_run) = true) as Ho by (vm_compute; reflexivity).
    rewrite H in Ho. discriminate Ho.
Defined.

Lemma transfer_never_loses_source_witness :
  whereabouts (tp_source sample_transfer) (snd (snd sample_transfer_run)) = bstr "/c/vault/a.txt"
  /\ whereabouts (tp_destination_temporary_path sample_transfer) (snd (snd sample_transfer_run))
     = bstr "/d/docs/a.txt".
Proof.
  assert (is_ok (fst sample_transfer_run) = true) as Ho by (vm_compute; reflexivity).
  destruct sample_transfer_run as [r [w' log]] eqn:H. cbn [fst snd] in *.
  destruct (transfer_never_loses_source true sample_transfer sample_transfer_approval 7 0%nat w' r log
    log [] H) as (_ & _ & Hok).
  - vm_compute; reflexivity.
  - vm_compute; reflexivity.
  - symmetry; apply app_nil_r.
  - destruct (Hok Ho) as [H1 H2]. split; [exact H1|]. apply H2. vm_compute; reflexivity.
Defined.

Lemma transfer_journal_is_chain_witness :
  chain None (appended (snd (snd sample_transfer_run)))
  /\ length (appended (snd (snd sample_transfer_run))) = 8%nat.
Proof.
  split; [|vm_compute; reflexivity].
  destruct sample_transfer_run as [r [w' log]] eqn:H. cbn [fst snd].
  destruct (transfer_journal_is_chain true sample_transfer sample_transfer_approval 7 0%nat w' r log H)
    as (run & rest & _ & Hc & _).
  exact Hc.
Defined.

Lemma seal_transfer_spec_witness :
  exists plan, seal_transfer (sample_draft_transfer "/d/docs/a.txt.partial") = Ok plan
    /\ verify_transfer plan = Ok tt.
Proof.
  destruct (seal_transfer (sample_draft_transfer "/d/docs/a.txt.partial")) as [plan|e] eqn:H;
    [|vm_compute in H; discriminate H].
  exists plan. split; [reflexivity|].
  apply (proj2 (seal_transfer_spec (sample_draft_transfer "/d/docs/a.txt.partial")) plan H).
Defined.

(** The temporary file may be the destination itself: such a plan is sealed,
    and then makes the copy at the destination before the source is retained,
    where the publication can only fail. *)
Lemma seal_accepts_temporary_alias :
  is_ok (seal_transfer (sample_draft_transfer "/d/docs/a.txt")) = true.
Proof. by vm_compute. Qed.
