(* ===== verification/ExecManifest.v ===== *)
(** * Manifests of the executor protocol

    crates/ipc-contracts/src/executor_v2/model.rs and mod.rs: the immutable
    envelope that freezes an approved execution, its validation, its
    construction from the stored execution, the consent binding and the
    outcomes of an operation. *)

From S2P Require Export Hex Domain.
From S2P Require Import Samples.
#[local] Open Scope Z_scope.

(** ** mod.rs: bounds *)
Definition PROTOCOL_VERSION : Z := 2.
Definition SCHEMA_VERSION : Z := 2.
Definition MAX_MANIFESTS : Z := 100000.
Definition MAX_FRAME_BYTES : Z := 128 * 1024 * 1024.
Definition MAX_RELATIVE_PATH_BYTES : Z := 4096.
Definition MAX_NATIVE_PATH_BYTES : Z := 65536.
Definition MAX_IDENTITY_BYTES : Z := 4096.
Definition MAX_TEXT_BYTES : Z := 2048.
Definition MAX_ID_BYTES : Z := 128.
Definition MAX_CLOCK_SKEW_MS : Z := 30000.
Definition MAX_SESSION_LIFETIME_MS : Z := 15 * 60 * 1000.
Definition MAX_MESSAGE_LIFETIME_MS : Z := 30000.

Notation FixedBytes32 := bytes32.
Notation HexBytes := bytes.

(** [HexBytes::new]. *)
Definition hex_bytes_new (l : bytes) : res ValidationError HexBytes :=
  reject_if (MAX_NATIVE_PATH_BYTES <? zlen l) (BoundExceeded (lit "hex bytes"));;
  Ok l.

(** ** Field validation *)

Definition validate_string (value : str) (maximum : Z) (label : str) : res ValidationError unit :=
  reject_if (bool_decide (value = []) || (maximum <? len value) || contains 0%N value)
    (InvalidField label).

Definition validate_domain_id `{UuidCrate} (value label : str) : res ValidationError uuid :=
  validate_string value MAX_ID_BYTES label;;
  ok_or (uuid_parse value) (InvalidField label).

(** [split_once('.').map_or(component, |(stem, _)| stem)]. *)
Definition stem_before_dot (component : str) : str :=
  match split_once 46%N component with Some (stem, _) => stem | None => component end.

Definition is_windows_device_component (component : str) : bool :=
  let stem := to_ascii_uppercase (trim_end_matches (fun c => bool_decide (c ∈ [32; 46]%N))
    (stem_before_dot component)) in
  bool_decide (stem ∈ [lit "CON"; lit "PRN"; lit "AUX"; lit "NUL"])
  || match match strip_prefix (lit "COM") stem with
           | Some suffix => Some suffix | None => strip_prefix (lit "LPT") stem end with
     | Some suffix =>
         (len suffix =? 1)
         && match head (utf8 suffix) with
            | Some digit => (49 <=? byte_to_Z digit) && (byte_to_Z digit <=? 57)
            | None => false
            end
     | None => false
     end.

Definition is_separator (c : char) : bool := (c =? 47)%N || (c =? 92)%N.

(** The test on one component of a relative path. *)
Definition bad_component (component : str) : bool :=
  bool_decide (component = [])
  || bool_decide (component ∈ [lit "."; lit ".."])
  || ends_with_any [32; 46]%N component
  || is_windows_device_component component.

Definition validate_relative_path (value : str) : res ValidationError unit :=
  validate_string value MAX_RELATIVE_PATH_BYTES (lit "relative path");;
  reject_if (starts_with_any [47; 92]%N value || ends_with_any [47; 92]%N value
    || contains 58%N value || existsb bad_component (split is_separator value))
    (InvalidField (lit "relative path")).

(** [code.bytes().all(..)]. *)
Definition is_code_byte (b : byte) : bool :=
  let z := byte_to_Z b in
  ((97 <=? z) && (z <=? 122)) || ((48 <=? z) && (z <=? 57)) || (z =? 95).

Definition validate_code_and_detail (code detail : str) : res ValidationError unit :=
  validate_string code 128 (lit "response code");;
  reject_if (negb (forallb is_code_byte (utf8 code))) (InvalidField (lit "response code"));;
  validate_string detail MAX_TEXT_BYTES (lit "response detail").

(** ** Paths, volumes, files *)

Inductive NativePathEncoding := NpeWindowsUtf16Le | NpeUnixBytes.
Inductive PlatformKindManifest := PkmWindows | PkmMacOs | PkmLinux | PkmOther.

Record NativePathManifest := { npm_encoding : NativePathEncoding; npm_bytes : HexBytes }.

Record VolumeIdentityManifest := {
  vim_platform : PlatformKindManifest;
  vim_stable_identifier : str;
  vim_filesystem_type : option str;
  vim_case_sensitive : bool;
  vim_removable : bool;
  vim_local : bool
}.

Record RootBindingManifest := {
  rbm_canonical_path : NativePathManifest;
  rbm_display_path : str;
  rbm_volume : VolumeIdentityManifest
}.

Record SafetyPolicyBindingManifest := {
  spbm_version : str;
  spbm_maximum_rehash_bytes : Z;
  spbm_allow_qualified_case_only_rename : bool;
  spbm_digest : FixedBytes32
}.

Record NativeFileIdentityManifest := {
  nfim_volume : VolumeIdentityManifest;
  nfim_object_key : HexBytes;
  nfim_parent_key : HexBytes;
  nfim_leaf_name : NativePathManifest;
  nfim_link_count : Z;
  nfim_reparse_tag : option Z
}.

Record ExpectedFileStateManifest := {
  efsm_native_identity : NativeFileIdentityManifest;
  efsm_byte_size : Z;
  efsm_modified_at_ns : option Z;
  efsm_attributes : Z;
  efsm_content_digest : FixedBytes32
}.

#[export] Instance NativePathEncoding_eq_dec : EqDecision NativePathEncoding.
Proof. solve_decision. Defined.
#[export] Instance PlatformKindManifest_eq_dec : EqDecision PlatformKindManifest.
Proof. solve_decision. Defined.
#[export] Instance NativePathManifest_eq_dec : EqDecision NativePathManifest.
Proof. solve_decision. Defined.
#[export] Instance VolumeIdentityManifest_eq_dec : EqDecision VolumeIdentityManifest.
Proof. solve_decision. Defined.
#[export] Instance RootBindingManifest_eq_dec : EqDecision RootBindingManifest.
Proof. solve_decision. Defined.
#[export] Instance SafetyPolicyBindingManifest_eq_dec : EqDecision SafetyPolicyBindingManifest.
Proof. solve_decision. Defined.
#[export] Instance NativeFileIdentityManifest_eq_dec : EqDecision NativeFileIdentityManifest.
Proof. solve_decision. Defined.
#[export] Instance ExpectedFileStateManifest_eq_dec : EqDecision ExpectedFileStateManifest.
Proof. solve_decision. Defined.

(** [NativePathManifest::validate]. *)
Definition validate_native_path (self : NativePathManifest) (label : str) :
    res ValidationError unit :=
  reject_if (bool_decide (npm_bytes self = []) || (MAX_NATIVE_PATH_BYTES <? zlen (npm_bytes self)))
    (InvalidField label);;
  reject_if (bool_decide (npm_encoding self = NpeWindowsUtf16Le)
    && negb (zlen (npm_bytes self) mod 2 =? 0)) (InvalidField label).

(** [VolumeIdentityManifest::validate]. *)
Definition validate_volume (self : VolumeIdentityManifest) : res ValidationError unit :=
  validate_string (vim_stable_identifier self) MAX_TEXT_BYTES (lit "volume stable identifier");;
  match vim_filesystem_type self with
  | Some value => validate_string value 128 (lit "filesystem type")
  | None => Ok tt
  end;;
  reject_if (negb (vim_local self) || vim_removable self)
    (InvalidField (lit "root volume eligibility")).

(** [RootBindingManifest::validate]. *)
Definition validate_root_binding (self : RootBindingManifest) : res ValidationError unit :=
  validate_native_path (rbm_canonical_path self) (lit "canonical root");;
  validate_string (rbm_display_path self) MAX_NATIVE_PATH_BYTES (lit "root display path");;
  validate_volume (rbm_volume self).

(** [SafetyPolicyBindingManifest::validate]. *)
Definition validate_safety_policy (self : SafetyPolicyBindingManifest) : res ValidationError unit :=
  validate_string (spbm_version self) MAX_TEXT_BYTES (lit "safety policy version");;
  reject_if (negb (bool_decide (spbm_version self = EXECUTION_SAFETY_POLICY_VERSION))
    || (spbm_maximum_rehash_bytes self =? 0)
    || (MAX_EXECUTION_VERIFICATION_BYTES <? spbm_maximum_rehash_bytes self))
    (InvalidField (lit "safety policy binding")).

(** [NativeFileIdentityManifest::validate]. *)
Definition validate_file_identity (self : NativeFileIdentityManifest)
    (root_volume : VolumeIdentityManifest) : res ValidationError unit :=
  validate_volume (nfim_volume self);;
  reject_if (negb (bool_decide (nfim_volume self = root_volume))
    || bool_decide (nfim_object_key self = [])
    || (MAX_IDENTITY_BYTES <? zlen (nfim_object_key self))
    || (MAX_IDENTITY_BYTES <? zlen (nfim_parent_key self))
    || negb (nfim_link_count self =? 1)
    || bool_decide (is_Some (nfim_reparse_tag self)))
    (InvalidField (lit "expected native identity"));;
  validate_native_path (nfim_leaf_name self) (lit "expected native leaf name").

(** [ExpectedFileStateManifest::validate]. *)
Definition validate_expected_state (self : ExpectedFileStateManifest)
    (root_volume : VolumeIdentityManifest) : res ValidationError unit :=
  validate_file_identity (efsm_native_identity self) root_volume.

(** ** Operations *)

Inductive OperationPrimitiveManifest :=
  | OpmCreateDirectory (destination_relative_path : str)
  | OpmRemoveDirectoryIfEmpty (source_relative_path : str)
  | OpmSameVolumeMove (source_relative_path destination_relative_path
      original_source_relative_path : str) (expected_source : ExpectedFileStateManifest)
  | OpmSameVolumeRename (source_relative_path destination_relative_path
      original_source_relative_path : str) (expected_source : ExpectedFileStateManifest)
  | OpmSameVolumeMoveAndRename (source_relative_path destination_relative_path
      original_source_relative_path : str) (expected_source : ExpectedFileStateManifest)
  | OpmInternalStage (source_relative_path destination_relative_path
      original_source_relative_path : str) (expected_source : ExpectedFileStateManifest).
#[export] Instance OperationPrimitiveManifest_eq_dec : EqDecision OperationPrimitiveManifest.
Proof. solve_decision. Defined.

Definition is_internal_stage (p : OperationPrimitiveManifest) : bool :=
  match p with OpmInternalStage _ _ _ _ => true | _ => false end.

(** [OperationPrimitiveManifest::validate]. *)
Definition validate_primitive (self : OperationPrimitiveManifest)
    (root_volume : VolumeIdentityManifest) : res ValidationError unit :=
  match self with
  | OpmCreateDirectory destination => validate_relative_path destination
  | OpmRemoveDirectoryIfEmpty source => validate_relative_path source
  | OpmSameVolumeMove source destination original expected
  | OpmSameVolumeRename source destination original expected
  | OpmSameVolumeMoveAndRename source destination original expected
  | OpmInternalStage source destination original expected =>
      validate_relative_path source;;
      validate_relative_path destination;;
      validate_relative_path original;;
      reject_if (bool_decide (source = destination))
        (InvalidField (lit "operation source and destination"));;
      reject_if (is_internal_stage self
        && negb (starts_with (lit ".supremacy-staging/") destination))
        (InvalidField (lit "internal staging destination"));;
      validate_expected_state expected root_volume
  end.

Definition permits_rollback (self : OperationPrimitiveManifest) : bool := true.

Record ApprovedOperationManifest := {
  aom_operation_id : str;
  aom_proposal_operation_id : option str;
  aom_sequence : Z;
  aom_dependencies : list str;
  aom_primitive : OperationPrimitiveManifest
}.

Record FrozenPlanManifest := {
  fpm_material_version : Z;
  fpm_plan_id : str;
  fpm_proposal_id : str;
  fpm_proposal_revision_id : str;
  fpm_proposal_revision : Z;
  fpm_source_snapshot_version : str;
  fpm_approved_operation_ids : list str;
  fpm_operation_count : Z;
  fpm_approval_timestamp : str;
  fpm_user_confirmed : bool;
  fpm_digest : FixedBytes32
}.

Record AttestedConsentManifest := {
  acm_issued_at_unix_ms : Z;
  acm_expires_at_unix_ms : Z;
  acm_attested_at_unix_ms : Z;
  acm_consent_nonce : FixedBytes32;
  acm_attestation_mac : FixedBytes32
}.

(** [AttestedConsentManifest::validate]. *)
Definition validate_consent (self : AttestedConsentManifest) : res ValidationError unit :=
  reject_if ((acm_issued_at_unix_ms self <? 0)
    || (acm_attested_at_unix_ms self <? acm_issued_at_unix_ms self)
    || (acm_expires_at_unix_ms self <=? acm_attested_at_unix_ms self))
    (InvalidField (lit "consent time range")).

Record ConsentAttestationBinding := {
  cab_material_version : Z;
  cab_plan_digest : FixedBytes32;
  cab_execution_id : str;
  cab_plan_id : str;
  cab_proposal_id : str;
  cab_proposal_revision_id : str;
  cab_proposal_revision : Z;
  cab_approved_operation_ids : list str;
  cab_approved_operation_count : Z;
  cab_source_snapshot_version : str;
  cab_root_id : str;
  cab_destination_root : RootBindingManifest;
  cab_safety_policy : SafetyPolicyBindingManifest;
  cab_consent_nonce : FixedBytes32;
  cab_issued_at_unix_ms : Z;
  cab_expires_at_unix_ms : Z
}.

Record ImmutableExecutionEnvelope := {
  iee_schema_version : Z;
  iee_execution_id : str;
  iee_root_id : str;
  iee_plan : FrozenPlanManifest;
  iee_root_binding : RootBindingManifest;
  iee_safety_policy_binding : SafetyPolicyBindingManifest;
  iee_consent : AttestedConsentManifest;
  iee_operations : list ApprovedOperationManifest
}.

#[export] Instance ApprovedOperationManifest_eq_dec : EqDecision ApprovedOperationManifest.
Proof. solve_decision. Defined.
#[export] Instance FrozenPlanManifest_eq_dec : EqDecision FrozenPlanManifest.
Proof. solve_decision. Defined.
#[export] Instance AttestedConsentManifest_eq_dec : EqDecision AttestedConsentManifest.
Proof. solve_decision. Defined.
#[export] Instance ConsentAttestationBinding_eq_dec : EqDecision ConsentAttestationBinding.
Proof. solve_decision. Defined.
#[export] Instance ImmutableExecutionEnvelope_eq_dec : EqDecision ImmutableExecutionEnvelope.
Proof. solve_decision. Defined.

(** [ImmutableExecutionEnvelope::operation]. *)
Definition envelope_operation (self : ImmutableExecutionEnvelope) (operation_id : str) :
    option ApprovedOperationManifest :=
  find (fun operation => bool_decide (aom_operation_id operation = operation_id))
    (iee_operations self).

(** [ConsentAttestationBinding::from_envelope]. *)
Definition from_envelope (envelope : ImmutableExecutionEnvelope) : ConsentAttestationBinding := {|
  cab_material_version := fpm_material_version (iee_plan envelope);
  cab_plan_digest := fpm_digest (iee_plan envelope);
  cab_execution_id := iee_execution_id envelope;
  cab_plan_id := fpm_plan_id (iee_plan envelope);
  cab_proposal_id := fpm_proposal_id (iee_plan envelope);
  cab_proposal_revision_id := fpm_proposal_revision_id (iee_plan envelope);
  cab_proposal_revision := fpm_proposal_revision (iee_plan envelope);
  cab_approved_operation_ids := fpm_approved_operation_ids (iee_plan envelope);
  cab_approved_operation_count := fpm_operation_count (iee_plan envelope);
  cab_source_snapshot_version := fpm_source_snapshot_version (iee_plan envelope);
  cab_root_id := iee_root_id envelope;
  cab_destination_root := iee_root_binding envelope;
  cab_safety_policy := iee_safety_policy_binding envelope;
  cab_consent_nonce := acm_consent_nonce (iee_consent envelope);
  cab_issued_at_unix_ms := acm_issued_at_unix_ms (iee_consent envelope);
  cab_expires_at_unix_ms := acm_expires_at_unix_ms (iee_consent envelope)
|}.

Section validation.
Context `{UU : UuidCrate}.

(** ** Validation of the envelope *)

(** The body of the loop over the approved operation ids. *)
Definition check_approved_id (st : gset str * option ProposalItemId) (id : str) :
    res ValidationError (gset str * option ProposalItemId) :=
  let '(ids, previous) := st in
  parsed ← validate_domain_id id (lit "approved operation id");
  reject_if (match previous with Some value => negb (uuid_lt value parsed) | None => false end
    || bool_decide (id ∈ ids)) (DuplicateOrUnordered (lit "approved operation ids"));;
  Ok ({[id]} ∪ ids, Some parsed).

Definition check_approved_ids (ids : list str) : res ValidationError (gset str) :=
  st ← fold_res check_approved_id (∅, None) ids;
  Ok st.1.

(** [ConsentAttestationBinding::validate]. *)
Definition validate_consent_binding (self : ConsentAttestationBinding) :
    res ValidationError unit :=
  validate_domain_id (cab_execution_id self) (lit "execution id");;
  validate_domain_id (cab_plan_id self) (lit "plan id");;
  validate_domain_id (cab_proposal_id self) (lit "proposal id");;
  validate_domain_id (cab_proposal_revision_id self) (lit "proposal revision id");;
  validate_domain_id (cab_source_snapshot_version self) (lit "source snapshot version");;
  validate_domain_id (cab_root_id self) (lit "root id");;
  reject_if (negb (cab_material_version self =? EXECUTION_PLAN_MATERIAL_VERSION)
    || is_zero (cab_plan_digest self)
    || is_zero (cab_consent_nonce self)
    || (cab_issued_at_unix_ms self <? 0)
    || (cab_expires_at_unix_ms self <=? cab_issued_at_unix_ms self)
    || bool_decide (cab_approved_operation_ids self = [])
    || (MAX_MANIFESTS <? zlen (cab_approved_operation_ids self))
    || negb (cab_approved_operation_count self =? zlen (cab_approved_operation_ids self)))
    (InvalidField (lit "consent attestation binding"));;
  check_approved_ids (cab_approved_operation_ids self);;
  validate_root_binding (cab_destination_root self);;
  validate_safety_policy (cab_safety_policy self);;
  reject_if (is_zero (spbm_digest (cab_safety_policy self)))
    (InvalidField (lit "safety policy digest")).

(** The body of the loop over the dependencies of an operation. *)
Definition check_dependency (operation_ids : gset str) (dependencies : gset str)
    (dependency : str) : res ValidationError (gset str) :=
  validate_domain_id dependency (lit "dependency id");;
  reject_if (negb (bool_decide (dependency ∈ operation_ids))
    || bool_decide (dependency ∈ dependencies)) (InvalidField (lit "operation dependency"));;
  Ok ({[dependency]} ∪ dependencies).

(** The sets the loop over the operations maintains. *)
Record Seen := {
  seen_operation_ids : gset str;
  seen_approved : gmap str nat
}.

(** [proposal_operation_id]: within the approved set, and counted. *)
Definition observe_approved (approved_ids : gset str) (observed : gmap str nat)
    (proposal_operation_id : option str) : res ValidationError (gmap str nat) :=
  match proposal_operation_id with
  | None => Ok observed
  | Some id =>
      validate_domain_id id (lit "proposal operation id");;
      reject_if (negb (bool_decide (id ∈ approved_ids)))
        (InvalidField (lit "operation outside approved set"));;
      Ok (<[id := S (default 0%nat (observed !! id))]> observed)
  end.

(** The final [match operation.primitive]. *)
Definition check_primitive_binding (operation : ApprovedOperationManifest) :
    res ValidationError unit :=
  match aom_primitive operation with
  | OpmCreateDirectory _ | OpmInternalStage _ _ _ _ =>
      reject_if (bool_decide (is_Some (aom_proposal_operation_id operation)))
        (InvalidField (lit "internal operation proposal binding"))
  | OpmSameVolumeMove _ _ _ _ | OpmSameVolumeRename _ _ _ _
  | OpmSameVolumeMoveAndRename _ _ _ _ =>
      reject_if (bool_decide (aom_proposal_operation_id operation = None))
        (InvalidField (lit "approved operation proposal binding"))
  | OpmRemoveDirectoryIfEmpty _ => Ok tt
  end.

(** The body of the loop over the operations. *)
Definition check_operation (volume : VolumeIdentityManifest) (approved_ids : gset str)
    (seen : Seen) (entry : nat * ApprovedOperationManifest) : res ValidationError Seen :=
  let '(index, operation) := entry in
  validate_domain_id (aom_operation_id operation) (lit "operation id");;
  expected_sequence ← ok_or (u32_try_from (Z.of_nat index)) (BoundExceeded (lit "operation sequence"));
  reject_if (negb (aom_sequence operation =? expected_sequence)
    || bool_decide (aom_operation_id operation ∈ seen_operation_ids seen))
    (DuplicateOrUnordered (lit "operation manifests"));;
  let operation_ids := {[aom_operation_id operation]} ∪ seen_operation_ids seen in
  reject_if (MAX_MANIFESTS <? zlen (aom_dependencies operation))
    (BoundExceeded (lit "operation dependencies"));;
  fold_res (check_dependency operation_ids) ∅ (aom_dependencies operation);;
  observed ← observe_approved approved_ids (seen_approved seen) (aom_proposal_operation_id operation);
  validate_primitive (aom_primitive operation) volume;;
  check_primitive_binding operation;;
  Ok {| seen_operation_ids := operation_ids; seen_approved := observed |}.

(** [ImmutableExecutionEnvelope::validate]. *)
Definition validate_envelope (self : ImmutableExecutionEnvelope) : res ValidationError unit :=
  let plan := iee_plan self in
  reject_if (negb (iee_schema_version self =? SCHEMA_VERSION)) UnsupportedSchema;;
  validate_domain_id (iee_execution_id self) (lit "execution id");;
  validate_domain_id (iee_root_id self) (lit "root id");;
  validate_domain_id (fpm_plan_id plan) (lit "plan id");;
  validate_domain_id (fpm_proposal_id plan) (lit "proposal id");;
  validate_domain_id (fpm_proposal_revision_id plan) (lit "proposal revision id");;
  validate_domain_id (fpm_source_snapshot_version plan) (lit "source snapshot version");;
  reject_if (negb (fpm_material_version plan =? EXECUTION_PLAN_MATERIAL_VERSION)
    || negb (fpm_user_confirmed plan) || is_zero (fpm_digest plan))
    (InvalidField (lit "approved plan state"));;
  validate_string (fpm_approval_timestamp plan) MAX_TEXT_BYTES (lit "approval timestamp");;
  reject_if (bool_decide (fpm_approved_operation_ids plan = [])
    || (MAX_MANIFESTS <? zlen (fpm_approved_operation_ids plan))
    || bool_decide (iee_operations self = [])
    || (MAX_MANIFESTS <? zlen (iee_operations self))
    || negb (fpm_operation_count plan =? zlen (fpm_approved_operation_ids plan)))
    (BoundExceeded (lit "operation manifests"));;
  approved_ids ← check_approved_ids (fpm_approved_operation_ids plan);
  validate_root_binding (iee_root_binding self);;
  validate_safety_policy (iee_safety_policy_binding self);;
  reject_if (is_zero (spbm_digest (iee_safety_policy_binding self)))
    (InvalidField (lit "safety policy digest"));;
  validate_consent (iee_consent self);;
  seen ← fold_res (check_operation (rbm_volume (iee_root_binding self)) approved_ids)
    {| seen_operation_ids := ∅; seen_approved := ∅ |}
    (imap (fun index operation => (index, operation)) (iee_operations self));
  reject_if (existsb (fun id => negb (bool_decide (seen_approved seen !! id = Some 1%nat)))
    (elements approved_ids)) (InvalidField (lit "exact approved operation set")).

(** ** Authorisations and bindings *)

Inductive OperationDirection := DirForward | DirRollback.

Record CommittedJournalEventBinding := {
  cjeb_database_sequence : Z;
  cjeb_database_event_digest : FixedBytes32;
  cjeb_external_sequence : Z;
  cjeb_external_event_digest : FixedBytes32
}.

(** [CommittedJournalEventBinding::validate]. *)
Definition validate_event_binding (self : CommittedJournalEventBinding) : res ValidationError unit :=
  reject_if (negb (cjeb_database_sequence self =? cjeb_external_sequence self)
    || negb (bool_decide (cjeb_database_event_digest self = cjeb_external_event_digest self))
    || is_zero (cjeb_database_event_digest self))
    (InvalidField (lit "durable journal event binding")).

Inductive RollbackEligibilityState := ResApplied | ResRecovered.

Record RollbackEligibility := {
  re_operation_id : str;
  re_state : RollbackEligibilityState;
  re_applied_event : CommittedJournalEventBinding
}.

(** [RollbackEligibility::validate]. *)
Definition validate_eligibility (self : RollbackEligibility)
    (envelope : ImmutableExecutionEnvelope) : res ValidationError unit :=
  validate_domain_id (re_operation_id self) (lit "rollback operation id");;
  validate_event_binding (re_applied_event self);;
  reject_if (bool_decide (envelope_operation envelope (re_operation_id self) = None))
    (InvalidField (lit "rollback operation outside envelope")).

Inductive SessionAuthorization :=
  | AuthForward
  | AuthRollback (eligible_operations : list RollbackEligibility).

Definition check_eligibility (envelope : ImmutableExecutionEnvelope) (ids : gset str)
    (eligibility : RollbackEligibility) : res ValidationError (gset str) :=
  validate_eligibility eligibility envelope;;
  reject_if (bool_decide (re_operation_id eligibility ∈ ids))
    (DuplicateOrUnordered (lit "rollback eligible operations"));;
  Ok ({[re_operation_id eligibility]} ∪ ids).

(** [SessionAuthorization::validate]. *)
Definition validate_authorization (self : SessionAuthorization)
    (envelope : ImmutableExecutionEnvelope) : res ValidationError unit :=
  match self with
  | AuthForward => Ok tt
  | AuthRollback eligible_operations =>
      reject_if (bool_decide (eligible_operations = [])
        || (MAX_MANIFESTS <? zlen eligible_operations))
        (BoundExceeded (lit "rollback eligible operations"));;
      fold_res (check_eligibility envelope) ∅ eligible_operations;;
      Ok tt
  end.

(** [SessionAuthorization::permits]. *)
Definition permits (self : SessionAuthorization) (operation_id : str)
    (direction : OperationDirection) : bool :=
  match self, direction with
  | AuthForward, DirForward => true
  | AuthRollback eligible_operations, DirRollback =>
      existsb (fun entry => bool_decide (re_operation_id entry = operation_id)) eligible_operations
  | _, _ => false
  end.

Definition rollback_eligible_ids (self : SessionAuthorization) : gset str :=
  match self with
  | AuthForward => ∅
  | AuthRollback eligible_operations => list_to_set (re_operation_id <$> eligible_operations)
  end.

Record OperationBinding := {
  ob_operation_id : str;
  ob_direction : OperationDirection;
  ob_journal_intent : CommittedJournalEventBinding
}.

(** [OperationBinding::validate]. *)
Definition validate_operation_binding (self : OperationBinding) : res ValidationError unit :=
  validate_domain_id (ob_operation_id self) (lit "operation binding");;
  validate_event_binding (ob_journal_intent self).

(** ** Outcomes *)

Inductive ProtocolRefusalCategory := PrcProtocol | PrcAuthentication | PrcReplay.

Record ProtocolRefusal := {
  pref_category : ProtocolRefusalCategory;
  pref_code : str;
  pref_detail : str
}.

Inductive ExecutorErrorClass :=
  | EecSharingViolation | EecLockViolation | EecPermissionDenied | EecDiskFull
  | EecDestinationCollision | EecSourceMissing | EecPathPolicyRefusal | EecPrecondition
  | EecVerificationLimit | EecCancelled | EecUnsupported | EecIo | EecAmbiguousMutationOutcome.

Record ExecutorAttemptAudit := {
  eaa_attempt_count : Z;
  eaa_error_class : option ExecutorErrorClass
}.

(** [ExecutorAttemptAudit::validate]. *)
Definition validate_audit (self : ExecutorAttemptAudit) : res ValidationError unit :=
  reject_if ((eaa_attempt_count self =? 0) || (3 <? eaa_attempt_count self))
    (InvalidField (lit "executor attempt count")).

Inductive ExecutorOutcome :=
  | OutSuccess (applied_at_unix_ms : Z) (observed_state_digest : FixedBytes32)
      (audit : ExecutorAttemptAudit)
  | OutProvenNotApplied (code detail : str) (audit : ExecutorAttemptAudit)
  | OutRecoveryRequired (code detail : str) (audit : ExecutorAttemptAudit)
  | OutProtocolRefusal (refusal : ProtocolRefusal).

(** [ProtocolRefusal::validate]. *)
Definition validate_refusal (self : ProtocolRefusal) : res ValidationError unit :=
  validate_code_and_detail (pref_code self) (pref_detail self).

(** [ExecutorOutcome::validate]. *)
Definition validate_outcome (self : ExecutorOutcome) : res ValidationError unit :=
  match self with
  | OutSuccess applied_at_unix_ms _ audit =>
      if applied_at_unix_ms <? 0 then Err (InvalidField (lit "applied timestamp"))
      else validate_audit audit
  | OutProvenNotApplied code detail audit | OutRecoveryRequired code detail audit =>
      validate_code_and_detail code detail;;
      validate_audit audit
  | OutProtocolRefusal refusal => validate_refusal refusal
  end.
End validation.

#[export] Instance OperationDirection_eq_dec : EqDecision OperationDirection.
Proof. solve_decision. Defined.
#[export] Instance RollbackEligibilityState_eq_dec : EqDecision RollbackEligibilityState.
Proof. solve_decision. Defined.
#[export] Instance ExecutorErrorClass_eq_dec : EqDecision ExecutorErrorClass.
Proof. solve_decision. Defined.
#[export] Instance CommittedJournalEventBinding_eq_dec : EqDecision CommittedJournalEventBinding.
Proof. solve_decision. Defined.
#[export] Instance RollbackEligibility_eq_dec : EqDecision RollbackEligibility.
Proof. solve_decision. Defined.
#[export] Instance SessionAuthorization_eq_dec : EqDecision SessionAuthorization.
Proof. solve_decision. Defined.
#[export] Instance OperationBinding_eq_dec : EqDecision OperationBinding.
Proof. solve_decision. Defined.
#[export] Instance ProtocolRefusalCategory_eq_dec : EqDecision ProtocolRefusalCategory.
Proof. solve_decision. Defined.
#[export] Instance ProtocolRefusal_eq_dec : EqDecision ProtocolRefusal.
Proof. solve_decision. Defined.
#[export] Instance ExecutorAttemptAudit_eq_dec : EqDecision ExecutorAttemptAudit.
Proof. solve_decision. Defined.
#[export] Instance ExecutorOutcome_eq_dec : EqDecision ExecutorOutcome.
Proof. solve_decision. Defined.

(** ** From the stored execution *)

Inductive EnvelopePurpose := PurposeForward | PurposeRollback.
#[export] Instance EnvelopePurpose_eq_dec : EqDecision EnvelopePurpose.
Proof. solve_decision. Defined.

Definition native_path_from_live (value : NativePath) : res ValidationError NativePathManifest :=
  bytes_ ← hex_bytes_new (np_bytes value);
  Ok {| npm_encoding := match np_encoding value with
          | WindowsUtf16Le => NpeWindowsUtf16Le | UnixBytes => NpeUnixBytes end;
        npm_bytes := bytes_ |}.

Definition volume_from_live (value : VolumeIdentity) : VolumeIdentityManifest := {|
  vim_platform := match vi_platform value with
    | Windows => PkmWindows | MacOs => PkmMacOs | Linux => PkmLinux | Other => PkmOther end;
  vim_stable_identifier := vi_stable_identifier value;
  vim_filesystem_type := vi_filesystem_type value;
  vim_case_sensitive := vi_case_sensitive value;
  vim_removable := vi_removable value;
  vim_local := vi_local value
|}.

Definition root_from_live (value : ExecutionRootBinding) : res ValidationError RootBindingManifest :=
  canonical_path ← native_path_from_live (erb_canonical_path value);
  Ok {| rbm_canonical_path := canonical_path;
        rbm_display_path := erb_display_path value;
        rbm_volume := volume_from_live (erb_volume value) |}.

Definition expected_state_from_live (value : FileFingerprint) :
    res ValidationError ExpectedFileStateManifest :=
  modified_at_ns ← match fp_modified_at_ns value with
    | Some ns => t ← ok_or (i64_try_from ns) (InvalidField (lit "modified timestamp")); Ok (Some t)
    | None => Ok None
    end;
  let identity := fp_native_identity value in
  object_key ← hex_bytes_new (ni_object_key identity);
  parent_key ← hex_bytes_new (ni_parent_key identity);
  leaf_name ← native_path_from_live (ni_leaf_name identity);
  content_digest ← ok_or (fp_content_digest value) (InvalidField (lit "content digest"));
  Ok {| efsm_native_identity := {|
          nfim_volume := volume_from_live (ni_volume identity);
          nfim_object_key := object_key;
          nfim_parent_key := parent_key;
          nfim_leaf_name := leaf_name;
          nfim_link_count := ni_link_count identity;
          nfim_reparse_tag := ni_reparse_tag identity |};
        efsm_byte_size := fp_byte_size value;
        efsm_modified_at_ns := modified_at_ns;
        efsm_attributes := fp_attributes value;
        efsm_content_digest := content_digest |}.

(** The states of consent [matches!(.., Attested | Consumed | Expired)]. *)
Definition consent_was_attested (state : ExecutionConsentState) : bool :=
  match state with EcsAttested | EcsConsumed | EcsExpired => true | _ => false end.

Definition consent_from_live (value : ExecutionConsent) (purpose : EnvelopePurpose) :
    res ValidationError AttestedConsentManifest :=
  let state_valid := match purpose with
    | PurposeForward => bool_decide (ec_state value = EcsAttested)
        && bool_decide (ec_consumed_at_unix_ms value = None)
    | PurposeRollback => consent_was_attested (ec_state value)
    end in
  reject_if (negb state_valid || bool_decide (is_Some (ec_invalidated_at_unix_ms value))
    || bool_decide (is_Some (ec_invalidation_reason value)))
    (InvalidField (lit "attested consent state"));;
  issued ← ok_or (ec_issued_at_unix_ms value) (InvalidField (lit "consent issue time"));
  expires ← ok_or (ec_expires_at_unix_ms value) (InvalidField (lit "consent expiry"));
  attested ← ok_or (ec_attested_at_unix_ms value) (InvalidField (lit "consent attestation time"));
  nonce ← ok_or (ec_nonce value) (InvalidField (lit "consent nonce"));
  mac ← ok_or (ec_attestation_mac value) (InvalidField (lit "consent attestation MAC"));
  Ok {| acm_issued_at_unix_ms := issued; acm_expires_at_unix_ms := expires;
        acm_attested_at_unix_ms := attested; acm_consent_nonce := nonce;
        acm_attestation_mac := mac |}.

(** The fingerprint an operation is bound to. *)
Definition bound_fingerprint (operation : ExecutionOperation) (purpose : EnvelopePurpose) :
    option FileFingerprint :=
  match purpose with
  | PurposeForward => eo_live_fingerprint operation
  | PurposeRollback =>
      match eo_post_fingerprint operation with
      | Some fingerprint => Some fingerprint
      | None => eo_live_fingerprint operation
      end
  end.

(** The [match operation.kind] of [operation_from_live]. *)
Definition primitive_from_live (operation : ExecutionOperation) (purpose : EnvelopePurpose) :
    res ValidationError OperationPrimitiveManifest :=
  match eo_kind operation with
  | EokCreateDirectory =>
      reject_if (bool_decide (is_Some (eo_source_relative_path operation))
        || bool_decide (is_Some (eo_live_fingerprint operation))
        || negb (bool_decide (eo_directory_existed_before operation = Some false)))
        (InvalidField (lit "create-directory manifest"));;
      Ok (OpmCreateDirectory (eo_destination_relative_path operation))
  | EokRemoveDirectoryIfEmpty =>
      source ← ok_or (eo_source_relative_path operation)
        (InvalidField (lit "cleanup source directory"));
      reject_if (bool_decide (is_Some (eo_live_fingerprint operation))
        || negb (bool_decide (eo_directory_existed_before operation = Some true)))
        (InvalidField (lit "remove-empty-directory manifest"));;
      Ok (OpmRemoveDirectoryIfEmpty source)
  | EokMove | EokRename | EokMoveAndRename | EokInternalStage =>
      source ← ok_or (eo_source_relative_path operation) (InvalidField (lit "operation source"));
      original ← ok_or (eo_original_source_relative_path operation)
        (InvalidField (lit "original operation source"));
      fingerprint ← ok_or (bound_fingerprint operation purpose)
        (InvalidField (lit "direction-bound source fingerprint"));
      expected ← expected_state_from_live fingerprint;
      let destination := eo_destination_relative_path operation in
      Ok (match eo_kind operation with
          | EokMove => OpmSameVolumeMove source destination original expected
          | EokRename => OpmSameVolumeRename source destination original expected
          | EokMoveAndRename => OpmSameVolumeMoveAndRename source destination original expected
          | _ => OpmInternalStage source destination original expected
          end)
  end.

Section live.
Context `{UU : UuidCrate}.

Definition operation_from_live (purpose : EnvelopePurpose) (operation : ExecutionOperation) :
    res ValidationError ApprovedOperationManifest :=
  reject_if (bool_decide (purpose = PurposeForward)
    && negb (bool_decide (eo_status operation = EosPreflightOk)))
    (InvalidField (lit "live operation is not preflight-approved"));;
  primitive ← primitive_from_live operation purpose;
  Ok {| aom_operation_id := uuid_to_string (eo_id operation);
        aom_proposal_operation_id := uuid_to_string <$> eo_proposal_operation_id operation;
        aom_sequence := eo_sequence operation;
        aom_dependencies := uuid_to_string <$> eo_dependencies operation;
        aom_primitive := primitive |}.

(** The filter on the stored operations. *)
Definition is_enveloped (approved : list ProposalItemId) (operation : ExecutionOperation) : bool :=
  match eo_proposal_operation_id operation with
  | None => true
  | Some id => bool_decide (id ∈ approved)
  end
  && negb (match eo_status operation with EosPlanned | EosBlocked | EosStale => true | _ => false end).

Definition safety_policy_from_live (value : ExecutionSafetyPolicyBinding) :
    res ValidationError SafetyPolicyBindingManifest :=
  digest ← from_hex (espb_digest_hex value);
  Ok {| spbm_version := espb_version value;
        spbm_maximum_rehash_bytes := espb_maximum_rehash_bytes value;
        spbm_allow_qualified_case_only_rename := espb_allow_qualified_case_only_rename value;
        spbm_digest := digest |}.

(** [ImmutableExecutionEnvelope::try_from_execution_detail_for]. *)
Definition try_from_execution_detail_for (detail : ExecutionDetail) (purpose : EnvelopePurpose) :
    res ValidationError ImmutableExecutionEnvelope :=
  let session := ed_session detail in
  let approval := ses_approval session in
  reject_if (negb (bool_decide (ses_id session = aep_execution_id approval))
    || negb (bool_decide (ses_plan_id session = aep_plan_id approval))
    || negb (bool_decide (ses_plan_digest_hex session = aep_digest_hex approval)))
    (InvalidField (lit "live execution state"));;
  match purpose with
  | PurposeForward =>
      reject_if (negb (bool_decide (ses_status session = OesApproved))
        || negb (bool_decide (ec_state (ses_consent session) = EcsAttested)))
        (InvalidField (lit "live execution state"))
  | PurposeRollback =>
      reject_if (negb (consent_was_attested (ec_state (ses_consent session))))
        (InvalidField (lit "stored consent state"))
  end;;
  operations ← collect (operation_from_live purpose)
    (filter (fun operation => is_enveloped (aep_approved_operation_ids approval) operation = true)
      (ed_operations detail));
  approval_timestamp ← ok_or (aep_approval_timestamp approval)
    (InvalidField (lit "approval timestamp"));
  digest ← from_hex (aep_digest_hex approval);
  root_binding ← root_from_live (aep_destination_root approval);
  safety_policy_binding ← safety_policy_from_live (aep_safety_policy approval);
  consent ← consent_from_live (ses_consent session) purpose;
  let envelope := {|
    iee_schema_version := SCHEMA_VERSION;
    iee_execution_id := uuid_to_string (ses_id session);
    iee_root_id := uuid_to_string (ses_root_id session);
    iee_plan := {|
      fpm_material_version := aep_material_version approval;
      fpm_plan_id := uuid_to_string (aep_plan_id approval);
      fpm_proposal_id := uuid_to_string (aep_proposal_id approval);
      fpm_proposal_revision_id := uuid_to_string (aep_proposal_revision_id approval);
      fpm_proposal_revision := aep_proposal_revision approval;
      fpm_source_snapshot_version := uuid_to_string (aep_source_snapshot_version approval);
      fpm_approved_operation_ids := uuid_to_string <$> aep_approved_operation_ids approval;
      fpm_operation_count := aep_operation_count approval;
      fpm_approval_timestamp := approval_timestamp;
      fpm_user_confirmed := aep_user_confirmed approval;
      fpm_digest := digest |};
    iee_root_binding := root_binding;
    iee_safety_policy_binding := safety_policy_binding;
    iee_consent := consent;
    iee_operations := operations |} in
  validate_envelope envelope;;
  Ok envelope.

(** [ConsentAttestationBinding::try_from_execution_detail]. *)
Definition consent_binding_from_detail (detail : ExecutionDetail) (consent_nonce : FixedBytes32)
    (issued_at_unix_ms expires_at_unix_ms : Z) : res ValidationError ConsentAttestationBinding :=
  let session := ed_session detail in
  let approval := ses_approval session in
  plan_digest ← from_hex (aep_digest_hex approval);
  destination_root ← root_from_live (aep_destination_root approval);
  safety_policy ← safety_policy_from_live (aep_safety_policy approval);
  let binding := {|
    cab_material_version := aep_material_version approval;
    cab_plan_digest := plan_digest;
    cab_execution_id := uuid_to_string (ses_id session);
    cab_plan_id := uuid_to_string (aep_plan_id approval);
    cab_proposal_id := uuid_to_string (aep_proposal_id approval);
    cab_proposal_revision_id := uuid_to_string (aep_proposal_revision_id approval);
    cab_proposal_revision := aep_proposal_revision approval;
    cab_approved_operation_ids := uuid_to_string <$> aep_approved_operation_ids approval;
    cab_approved_operation_count := aep_operation_count approval;
    cab_source_snapshot_version := uuid_to_string (aep_source_snapshot_version approval);
    cab_root_id := uuid_to_string (ses_root_id session);
    cab_destination_root := destination_root;
    cab_safety_policy := safety_policy;
    cab_consent_nonce := consent_nonce;
    cab_issued_at_unix_ms := issued_at_unix_ms;
    cab_expires_at_unix_ms := expires_at_unix_ms |} in
  validate_consent_binding binding;;
  Ok binding.
End live.
