(* ===== verification/ExecEnvelope.v ===== *)
(** * What a validated envelope guarantees

    The loops of [ImmutableExecutionEnvelope::validate] against their
    declarative reading, and the correspondence between an envelope, the
    stored execution it was built from and the consent that was attested. *)

From S2P Require Export ExecManifest UnixPath.
From S2P Require Import Samples.
#[local] Open Scope Z_scope.

(** Pairs of indices and elements. *)
Notation indexed l := (imap (fun index x => (index, x)) l).

Lemma indexed_split {A} (l : list A) pre i a post :
  indexed l = pre ++ (i, a) :: post -> i = length pre /\ l = pre.*2 ++ a :: post.*2.
Proof.
  intros H. split.
  - assert (indexed l !! length pre = Some (i, a)) as Hl.
    { rewrite H, lookup_app_r, Nat.sub_diag by done. done. }
    rewrite list_lookup_imap in Hl. destruct (l !! length pre); cbn in Hl; [|done].
    by injection Hl as <- _.
  - assert ((indexed l).*2 = l) as <-.
    { apply list_eq. intros j. rewrite list_lookup_fmap, list_lookup_imap. by destruct (l !! j). }
    by rewrite H, fmap_app.
Qed.

Lemma indexed_app {A} (pre post : list A) a :
  indexed (pre ++ a :: post)
  = indexed pre ++ (length pre, a) :: imap (fun i x => ((S (length pre) + i)%nat, x)) post.
Proof.
  rewrite imap_app. f_equal. cbn. rewrite Nat.add_0_r. f_equal.
  apply imap_ext. intros i x _. cbn. f_equal. lia.
Qed.

Lemma indexed_snd {A} (l : list A) : (indexed l).*2 = l.
Proof. apply list_eq. intros j. rewrite list_lookup_fmap, list_lookup_imap. by destruct (l !! j). Qed.

Section envelope.
Context `{UU : UuidCrate}.

(** ** Approved identifiers *)

(** An identifier is admitted after [pre]: well formed, new, and greater than
    its predecessor. *)
Definition approved_id_ok (pre : list str) (id : str) : Prop :=
  exists u, validate_domain_id id (lit "approved operation id") = Ok u /\ id ∉ pre
    /\ forall v, (last pre ≫= uuid_parse) = Some v -> uuid_lt v u = true.

Definition approved_ids_ok (ids : list str) : Prop :=
  forall pre id post, ids = pre ++ id :: post -> approved_id_ok pre id.

Lemma validate_domain_id_Ok value label u :
  validate_domain_id value label = Ok u ->
  uuid_parse value = Some u /\ validate_string value MAX_ID_BYTES label = Ok tt.
Proof. unfold validate_domain_id. by intros ([] & ? & ?%ok_or_Ok)%bind_Ok. Qed.

Lemma check_approved_id_spec done id st :
  check_approved_id (list_to_set done, last done ≫= uuid_parse) id = Ok st <->
  approved_id_ok done id /\ st = (list_to_set (done ++ [id]), last (done ++ [id]) ≫= uuid_parse).
Proof.
  unfold check_approved_id, approved_id_ok. rewrite last_snoc.
  destruct (validate_domain_id id (lit "approved operation id")) as [u|e] eqn:Hv;
    [|split; [done | by intros [(? & ? & _) _]]].
  pose proof (validate_domain_id_Ok _ _ _ Hv) as [Hu _]. cbn [mbind res_bind option_bind].
  rewrite bind_Ok. setoid_rewrite reject_if_Ok.
  setoid_rewrite orb_false_iff. setoid_rewrite bool_decide_eq_false.
  setoid_rewrite elem_of_list_to_set.
  assert ({[id]} ∪ list_to_set done = list_to_set (C := gset str) (done ++ [id])) as Heq.
  { rewrite list_to_set_app_L. cbn. set_solver. }
  rewrite Heq, Hu. split.
  - intros ([] & [Hp Hn] & [= <-]). split; [|done]. exists u. split_and!; try done.
    intros v Hv'. rewrite Hv' in Hp. by apply negb_false_iff in Hp.
  - intros [(u' & [= <-] & Hn & Hp) ->]. exists tt. split; [|done]. split; [|done].
    destruct (last done ≫= uuid_parse) as [v|]; [|done]. by rewrite (Hp v).
Qed.

Lemma check_approved_ids_spec ids set_ :
  check_approved_ids ids = Ok set_ <-> approved_ids_ok ids /\ set_ = list_to_set ids.
Proof.
  unfold check_approved_ids. rewrite bind_Ok.
  pose proof (fold_res_abs check_approved_id
    (fun done => (list_to_set (C := gset str) done, last done ≫= uuid_parse)) approved_id_ok
    (fun done id st => check_approved_id_spec done id st) ids []) as H.
  cbn [app] in H. change (last [] ≫= uuid_parse) with (@None ProposalItemId) in H.
  change (list_to_set []) with (∅ : gset str) in H. split.
  - intros (st & Hf & [= <-]). apply H in Hf as [Hall ->]. done.
  - intros [Hall ->]. eexists. split; [by apply H|done].
Qed.

(** ** Operations *)

Definition same_proposal (id : str) (operation : ApprovedOperationManifest) : Prop :=
  aom_proposal_operation_id operation = Some id.
#[export] Instance same_proposal_dec id operation : Decision (same_proposal id operation).
Proof. unfold same_proposal. apply _. Defined.

(** How many operations carry a proposal operation id. *)
Definition proposal_count (id : str) (ops : list ApprovedOperationManifest) : nat :=
  length (filter (same_proposal id) ops).

(** An operation is admitted after [pre], at position [index]. *)
Record operation_ok (volume : VolumeIdentityManifest) (approved : list str) (index : nat)
    (pre : list ApprovedOperationManifest) (op : ApprovedOperationManifest) : Prop := {
  oo_id : is_ok (validate_domain_id (aom_operation_id op) (lit "operation id")) = true;
  oo_sequence : aom_sequence op = Z.of_nat index /\ Z.of_nat index <= u32_max;
  oo_new : aom_operation_id op ∉ aom_operation_id <$> pre;
  oo_bound : zlen (aom_dependencies op) <= MAX_MANIFESTS;
  oo_dependencies : NoDup (aom_dependencies op) /\ Forall (fun d =>
    is_ok (validate_domain_id d (lit "dependency id")) = true
    /\ d ∈ aom_operation_id op :: (aom_operation_id <$> pre)) (aom_dependencies op);
  oo_proposal id : aom_proposal_operation_id op = Some id ->
    is_ok (validate_domain_id id (lit "proposal operation id")) = true /\ id ∈ approved;
  oo_primitive : validate_primitive (aom_primitive op) volume = Ok tt;
  oo_binding : check_primitive_binding op = Ok tt
}.

Definition operations_ok (volume : VolumeIdentityManifest) (approved : list str)
    (ops : list ApprovedOperationManifest) : Prop :=
  forall pre op post, ops = pre ++ op :: post -> operation_ok volume approved (length pre) pre op.

Lemma check_dependency_spec (ids : gset str) done d s :
  check_dependency ids (list_to_set done) d = Ok s <->
  (is_ok (validate_domain_id d (lit "dependency id")) = true /\ d ∈ ids /\ d ∉ done)
  /\ s = list_to_set (done ++ [d]).
Proof.
  unfold check_dependency.
  destruct (validate_domain_id d (lit "dependency id")) as [u|e];
    [|split; [done | by intros [(? & _) _]]]. cbn [mbind res_bind is_ok].
  assert ({[d]} ∪ list_to_set done = list_to_set (C := gset str) (done ++ [d])) as ->.
  { rewrite list_to_set_app_L. cbn. set_solver. }
  rewrite bind_Ok. setoid_rewrite reject_if_Ok.
  setoid_rewrite orb_false_iff. setoid_rewrite negb_false_iff.
  setoid_rewrite bool_decide_eq_true. setoid_rewrite bool_decide_eq_false.
  setoid_rewrite elem_of_list_to_set. split.
  - by intros ([] & [? ?] & [= <-]).
  - intros [(_ & ? & ?) ->]. by exists tt.
Qed.

Lemma check_dependencies_spec (ids : gset str) deps s :
  fold_res (check_dependency ids) ∅ deps = Ok s <->
  (NoDup deps /\ Forall (fun d => is_ok (validate_domain_id d (lit "dependency id")) = true
    /\ d ∈ ids) deps) /\ s = list_to_set deps.
Proof.
  rewrite (fold_res_abs (check_dependency ids) (fun done => list_to_set done) _
    (fun done d s => check_dependency_spec ids done d s) deps []). cbn [app].
  enough ((forall pre d post, deps = pre ++ d :: post ->
      is_ok (validate_domain_id d (lit "dependency id")) = true /\ d ∈ ids /\ d ∉ pre) <->
    NoDup deps /\ Forall (fun d => is_ok (validate_domain_id d (lit "dependency id")) = true
      /\ d ∈ ids) deps) as -> by done.
  split.
  - intros H. split.
    + apply NoDup_alt. intros i j d Hi Hj.
      destruct (Nat.lt_trichotomy i j) as [Hlt|[->|Hlt]]; [|done|].
      * exfalso. apply take_drop_middle in Hj as Hd. symmetry in Hd. apply H in Hd as (_ & _ & Hn).
        apply Hn. apply list_elem_of_lookup. exists i. by rewrite lookup_take_lt.
      * exfalso. apply take_drop_middle in Hi as Hd. symmetry in Hd. apply H in Hd as (_ & _ & Hn).
        apply Hn. apply list_elem_of_lookup. exists j. by rewrite lookup_take_lt.
    + apply Forall_forall. intros d Hd. apply list_elem_of_split in Hd as (pre & post & Heq).
      by apply H in Heq as (? & ? & _).
  - intros [Hnd Hall] pre d post ->. apply Forall_app in Hall as [_ [[? ?] _]%Forall_cons_iff].
    split_and!; try done. apply NoDup_app in Hnd as (_ & Hn & _). intros Hd.
    apply (Hn d Hd). left.
Qed.

Definition count_step (m : gmap str nat) (op : ApprovedOperationManifest) : gmap str nat :=
  match aom_proposal_operation_id op with
  | None => m
  | Some id => <[id := S (default 0%nat (m !! id))]> m
  end.
Definition count_map (ops : list ApprovedOperationManifest) : gmap str nat := foldl count_step ∅ ops.

Lemma count_map_snoc l op : count_map (l ++ [op]) = count_step (count_map l) op.
Proof. unfold count_map. by rewrite foldl_app. Qed.

Lemma proposal_count_snoc id l op :
  proposal_count id (l ++ [op]) =
    (proposal_count id l + if decide (same_proposal id op) then 1 else 0)%nat.
Proof. unfold proposal_count. rewrite filter_app, length_app. f_equal. cbn. by case_decide. Qed.

Lemma count_map_lookup l id : default 0%nat (count_map l !! id) = proposal_count id l.
Proof.
  induction l as [|op l IH] using rev_ind; [done|].
  rewrite count_map_snoc, proposal_count_snoc, <- IH. unfold count_step.
  destruct (aom_proposal_operation_id op) as [id'|] eqn:Hp;
    [|rewrite decide_False by (unfold same_proposal; congruence); lia].
  destruct (decide (id' = id)) as [->|Hne].
  - rewrite lookup_insert_eq, decide_True by done. cbn. lia.
  - rewrite lookup_insert_ne, decide_False by (unfold same_proposal; congruence). lia.
Qed.

Lemma count_map_one l id : count_map l !! id = Some 1%nat <-> proposal_count id l = 1%nat.
Proof. rewrite <- count_map_lookup. destruct (count_map l !! id); cbn; split; congruence. Qed.

Definition seen_of (done : list (nat * ApprovedOperationManifest)) : Seen := {|
  seen_operation_ids := list_to_set (aom_operation_id <$> done.*2);
  seen_approved := count_map done.*2
|}.

Lemma observe_approved_spec (approved : list str) ops op m :
  observe_approved (list_to_set approved) (count_map ops) (aom_proposal_operation_id op) = Ok m <->
  (forall id, aom_proposal_operation_id op = Some id ->
     is_ok (validate_domain_id id (lit "proposal operation id")) = true /\ id ∈ approved)
  /\ m = count_map (ops ++ [op]).
Proof.
  rewrite count_map_snoc. unfold observe_approved, count_step.
  destruct (aom_proposal_operation_id op) as [id|];
    [|split; [by intros [= <-] | by intros [_ ->]]].
  destruct (validate_domain_id id (lit "proposal operation id")) as [u|e] eqn:Hv; cbn.
  2: { split; [done|]. intros [H _]. destruct (H id eq_refl) as [Hok _]. by rewrite Hv in Hok. }
  case_bool_decide as Hin; cbn; rewrite elem_of_list_to_set in Hin.
  - split; [intros [= <-]|by intros [_ ->]]. split; [|done]. intros id' [= <-]. by rewrite Hv.
  - split; [done|]. intros [H _]. destruct (H id eq_refl) as [_ ?]. done.
Qed.

Lemma u32_try_from_Some x y : u32_try_from x = Some y <-> y = x /\ 0 <= x <= u32_max.
Proof. unfold u32_try_from. destruct (_ && _) eqn:H; bools; [naive_solver lia|].
  split; [done|]. intros [_ ?]. destruct H; lia.
Qed.

Lemma check_operation_spec volume (approved : list str) done entry s :
  check_operation volume (list_to_set approved) (seen_of done) entry = Ok s <->
  operation_ok volume approved entry.1 done.*2 entry.2 /\ s = seen_of (done ++ [entry]).
Proof.
  destruct entry as [i op]. cbn [fst snd]. unfold check_operation.
  assert ({[aom_operation_id op]} ∪ list_to_set (aom_operation_id <$> done.*2)
    = list_to_set (C := gset str) (aom_operation_id <$> (done ++ [(i, op)]).*2)) as Hids.
  { rewrite !fmap_app, list_to_set_app_L. cbn. set_solver. }
  cbn [seen_operation_ids seen_approved seen_of]. rewrite Hids.
  assert (forall d, d ∈ list_to_set (C := gset str) (aom_operation_id <$> (done ++ [(i, op)]).*2)
    <-> d ∈ aom_operation_id op :: (aom_operation_id <$> done.*2)) as Hmem.
  { intros d. rewrite <- Hids. set_solver. }
  destruct (validate_domain_id (aom_operation_id op) (lit "operation id")) as [u|e] eqn:Hv; cbn.
  2: { split; [done|]. intros [[H _] _]. by rewrite Hv in H. }
  split.
  - intros (j & Hj%ok_or_Ok%u32_try_from_Some & H)%bind_Ok. destruct Hj as [-> Hj].
    apply bind_Ok in H as ([] & H1%reject_if_Ok & H). apply bind_Ok in H as ([] & H2%reject_if_Ok & H).
    apply bind_Ok in H as (deps & Hdeps%check_dependencies_spec & H). destruct Hdeps as [[Hd1 Hd2] _].
    apply bind_Ok in H as (m & Hm%observe_approved_spec & H). destruct Hm as [Hprop ->].
    apply bind_Ok in H as ([] & Hprim & H). apply bind_Ok in H as ([] & Hbind & [= <-]). bools.
    split; [|unfold seen_of; by rewrite !fmap_app]. split; try done; [by rewrite Hv|set_solver|].
    split; [done|]. eapply Forall_impl; [exact Hd2|]. intros d [? Hin]. by rewrite Hmem in Hin.
  - intros [[_ [Hs1 Hs2] Hnew Hb [Hd1 Hd2] Hprop Hprim Hbind] ->].
    apply bind_Ok. exists (Z.of_nat i). split; [apply ok_or_Ok, u32_try_from_Some; lia|].
    rewrite reject_if_bind by (bools; split; [lia|set_solver]).
    rewrite reject_if_bind by (bools; lia).
    apply bind_Ok. eexists. split; [apply check_dependencies_spec; split; [|reflexivity]|].
    { split; [done|]. eapply Forall_impl; [exact Hd2|]. intros d [? Hin]. by rewrite Hmem. }
    apply bind_Ok. eexists. split; [by apply observe_approved_spec|].
    rewrite Hprim. cbn. rewrite Hbind. cbn. unfold seen_of. by rewrite !fmap_app.
Qed.

Lemma check_operations_spec volume (approved : list str) ops s :
  fold_res (check_operation volume (list_to_set approved))
    {| seen_operation_ids := ∅; seen_approved := ∅ |} (indexed ops) = Ok s <->
  operations_ok volume approved ops /\ s = seen_of (indexed ops).
Proof.
  pose proof (fold_res_abs (check_operation volume (list_to_set approved)) seen_of _
    (fun done e s => check_operation_spec volume approved done e s) (indexed ops) [] s) as H.
  cbn [app] in H. change (seen_of []) with {| seen_operation_ids := ∅; seen_approved := ∅ |} in H.
  rewrite H. clear H. f_equiv. split.
  - intros H pre op post ->. specialize (H _ _ _ (indexed_app pre post op)).
    cbn [fst snd] in H. by rewrite indexed_snd in H.
  - intros H pre [i op] post Heq. apply indexed_split in Heq as [-> Heq].
    specialize (H _ _ _ Heq). cbn. by rewrite length_fmap in H.
Qed.

(** ** The whole envelope *)

(** The fields outside the loops. *)
Record header_ok (e : ImmutableExecutionEnvelope) : Prop := {
  ho_schema : iee_schema_version e = SCHEMA_VERSION;
  ho_ids : Forall (fun '(value, label) => is_ok (validate_domain_id value label) = true)
    [(iee_execution_id e, lit "execution id"); (iee_root_id e, lit "root id");
     (fpm_plan_id (iee_plan e), lit "plan id"); (fpm_proposal_id (iee_plan e), lit "proposal id");
     (fpm_proposal_revision_id (iee_plan e), lit "proposal revision id");
     (fpm_source_snapshot_version (iee_plan e), lit "source snapshot version")];
  ho_material : fpm_material_version (iee_plan e) = EXECUTION_PLAN_MATERIAL_VERSION;
  ho_confirmed : fpm_user_confirmed (iee_plan e) = true;
  ho_digest : is_zero (fpm_digest (iee_plan e)) = false;
  ho_timestamp : validate_string (fpm_approval_timestamp (iee_plan e)) MAX_TEXT_BYTES
    (lit "approval timestamp") = Ok tt;
  ho_approved : fpm_approved_operation_ids (iee_plan e) <> []
    /\ zlen (fpm_approved_operation_ids (iee_plan e)) <= MAX_MANIFESTS
    /\ fpm_operation_count (iee_plan e) = zlen (fpm_approved_operation_ids (iee_plan e));
  ho_operations : iee_operations e <> [] /\ zlen (iee_operations e) <= MAX_MANIFESTS;
  ho_root : validate_root_binding (iee_root_binding e) = Ok tt;
  ho_policy : validate_safety_policy (iee_safety_policy_binding e) = Ok tt;
  ho_policy_digest : is_zero (spbm_digest (iee_safety_policy_binding e)) = false;
  ho_consent : validate_consent (iee_consent e) = Ok tt
}.

(** Every approved identifier is carried by exactly one operation. *)
Definition exactly_covered (approved : list str) (ops : list ApprovedOperationManifest) : Prop :=
  forall id, id ∈ approved -> proposal_count id ops = 1%nat.

Definition envelope_ok (e : ImmutableExecutionEnvelope) : Prop :=
  header_ok e
  /\ approved_ids_ok (fpm_approved_operation_ids (iee_plan e))
  /\ operations_ok (rbm_volume (iee_root_binding e)) (fpm_approved_operation_ids (iee_plan e))
       (iee_operations e)
  /\ exactly_covered (fpm_approved_operation_ids (iee_plan e)) (iee_operations e).

Lemma uncovered_false (approved : list str) (m : gmap str nat) :
  existsb (fun id => negb (bool_decide (m !! id = Some 1%nat)))
    (elements (list_to_set (C := gset str) approved)) = false <->
  forall id, id ∈ approved -> m !! id = Some 1%nat.
Proof.
  rewrite <- not_true_iff_false, existsb_exists. split.
  - intros H id Hid. destruct (decide (m !! id = Some 1%nat)) as [|Hne]; [done|].
    exfalso. apply H. exists id. rewrite bool_decide_false by done. split; [|done].
    by apply list_elem_of_In, elem_of_elements, elem_of_list_to_set.
  - intros H (id & Hid%list_elem_of_In & Hb). apply elem_of_elements, elem_of_list_to_set in Hid.
    by rewrite bool_decide_true in Hb by by apply H.
Qed.

Lemma validate_envelope_spec e : validate_envelope e = Ok tt <-> envelope_ok e.
Proof.
  unfold validate_envelope. split.
  - intros H. repeat match type of H with (_ ≫= _ = Ok _) =>
      let x := fresh "x" in let E := fresh "E" in
      apply bind_Ok in H as (x & E & H) end.
    repeat match goal with E : reject_if _ _ = Ok _ |- _ => apply reject_if_Ok in E end.
    repeat match goal with x : unit |- _ => destruct x end.
    repeat match goal with
    | E : check_approved_ids _ = Ok _ |- _ => apply check_approved_ids_spec in E as [? ->]
    | E : fold_res (check_operation _ _) _ _ = Ok _ |- _ => apply check_operations_spec in E as [? ->]
    end.
    rewrite uncovered_false in H. bools.
    repeat match goal with E : validate_domain_id _ _ = Ok _ |- _ =>
      apply (f_equal is_ok) in E; cbn [is_ok] in E end.
    split; [|split_and!; try done].
    + split; try done. repeat constructor; done.
    + intros id Hid. apply H in Hid. cbn in Hid. rewrite indexed_snd in Hid. by apply count_map_one.
  - intros ([] & Ha & Ho & Hc). repeat match goal with H : Forall _ (_ :: _) |- _ =>
      apply Forall_cons_iff in H as [? H] end.
    repeat match goal with H : is_ok _ = true |- _ => apply is_ok_true in H as [? ->] end.
    cbn [mbind res_bind].
    repeat match goal with H : _ /\ _ |- _ => destruct H end.
    repeat match goal with
    | |- context [reject_if ?b ?err ≫= ?k] =>
        rewrite (reject_if_bind b err k) by (bools; split_and?; first [done | lia])
    | H : ?m = Ok tt |- context [?m ≫= _] => rewrite H; cbn [mbind res_bind]
    end.
    rewrite (proj2 (check_approved_ids_spec _ _) (conj Ha eq_refl)). cbn [mbind res_bind].
    repeat match goal with
    | |- context [reject_if ?b ?err ≫= ?k] =>
        rewrite (reject_if_bind b err k) by (bools; split_and?; first [done | lia])
    | H : ?m = Ok tt |- context [?m ≫= _] => rewrite H; cbn [mbind res_bind]
    end.
    rewrite (proj2 (check_operations_spec _ _ _ _) (conj Ho eq_refl)). cbn [mbind res_bind].
    apply reject_if_Ok, uncovered_false. intros id Hid. cbn. rewrite indexed_snd.
    by apply count_map_one, Hc.
Qed.

(** ** Properties *)

(** [validate] of the envelope accepts exactly the well-formed envelopes:
    schema and material version, parsable identifiers, confirmed plan, valid
    root, policy and consent; approved identifiers strictly increasing; each
    operation at its sequence number with a fresh identifier, distinct known
    dependencies, a valid primitive inside the root volume and a proposal
    binding that fits its kind; and every approved identifier carried by
    exactly one operation. *)
Theorem validate_envelope_iff e : validate_envelope e = Ok tt <-> envelope_ok e.
Proof. apply validate_envelope_spec. Qed.

Lemma validated_operation e i op :
  envelope_ok e -> iee_operations e !! i = Some op ->
  operation_ok (rbm_volume (iee_root_binding e)) (fpm_approved_operation_ids (iee_plan e)) i
    (take i (iee_operations e)) op.
Proof.
  intros (_ & _ & Ho & _) Hi. pose proof (take_drop_middle _ _ _ Hi) as Hs. symmetry in Hs.
  apply Ho in Hs. rewrite length_take in Hs. apply lookup_lt_Some in Hi.
  by rewrite Nat.min_l in Hs by lia.
Qed.

Lemma validated_ids_nodup e : envelope_ok e -> NoDup (aom_operation_id <$> iee_operations e).
Proof.
  intros He. apply NoDup_alt. intros i j x Hi Hj.
  rewrite list_lookup_fmap in Hi, Hj.
  apply fmap_Some in Hi as (a & Ha & ->), Hj as (b & Hb & Hab).
  destruct (Nat.lt_trichotomy i j) as [Hlt|[->|Hlt]]; [|done|]; exfalso.
  - destruct (validated_operation e j b He Hb) as [_ _ Hnew _ _ _ _ _]. apply Hnew.
    rewrite <- Hab. apply list_elem_of_fmap_2, list_elem_of_lookup. exists i. by rewrite lookup_take_lt.
  - destruct (validated_operation e i a He Ha) as [_ _ Hnew _ _ _ _ _]. apply Hnew.
    rewrite Hab. apply list_elem_of_fmap_2, list_elem_of_lookup. exists j. by rewrite lookup_take_lt.
Qed.

(** [operation] finds the operations of a validated envelope by their id. *)
Lemma envelope_operation_Some e id op :
  envelope_operation e id = Some op -> op ∈ iee_operations e /\ aom_operation_id op = id.
Proof.
  intros [Hin Hb]%find_some. bools. split; [by apply list_elem_of_In|done].
Qed.

Lemma envelope_operation_complete e op :
  envelope_ok e -> op ∈ iee_operations e -> envelope_operation e (aom_operation_id op) = Some op.
Proof.
  intros He [i Hi]%list_elem_of_lookup.
  destruct (envelope_operation e (aom_operation_id op)) as [op'|] eqn:Hf.
  - apply envelope_operation_Some in Hf as [[j Hj]%list_elem_of_lookup Hid]. f_equal.
    enough (i = j) by congruence.
    apply (proj1 (NoDup_alt _) (validated_ids_nodup e He) i j (aom_operation_id op)).
    + by rewrite list_lookup_fmap, Hi.
    + rewrite list_lookup_fmap, Hj. cbn. by rewrite Hid.
  - exfalso. assert (In op (iee_operations e)) as Hin
      by (apply list_elem_of_In, list_elem_of_lookup; by exists i).
    pose proof (find_none _ _ Hf op Hin) as Hno. by apply bool_decide_eq_false in Hno.
Qed.

(** C25: In a validated envelope the operations are numbered by position, have
    distinct identifiers by which they are found, and depend only on
    operations that come earlier (or on themselves, which the check does not
    exclude); the approved proposal items and the operations that carry one
    correspond one to one. *)
Theorem validated_envelope_guarantees e :
  validate_envelope e = Ok tt ->
  NoDup (aom_operation_id <$> iee_operations e)
  /\ (forall i op, iee_operations e !! i = Some op -> aom_sequence op = Z.of_nat i
       /\ envelope_operation e (aom_operation_id op) = Some op
       /\ Forall (fun d => exists j dep, (j <= i)%nat /\ iee_operations e !! j = Some dep
            /\ aom_operation_id dep = d) (aom_dependencies op)
       /\ forall id, aom_proposal_operation_id op = Some id ->
            id ∈ fpm_approved_operation_ids (iee_plan e))
  /\ forall id, id ∈ fpm_approved_operation_ids (iee_plan e) ->
       exists op, filter (same_proposal id) (iee_operations e) = [op].
Proof.
  intros He%validate_envelope_spec. split_and!.
  - by apply validated_ids_nodup.
  - intros i op Hi. destruct (validated_operation e i op He Hi) as [_ [Hs _] _ _ [_ Hd] Hp _ _].
    split_and!; [done | by apply envelope_operation_complete, list_elem_of_lookup; eauto | |].
    + eapply Forall_impl; [exact Hd|]. intros d [_ [->|Hin]%elem_of_cons]; [by exists i, op|].
      apply list_elem_of_fmap in Hin as (dep & -> & [j Hj]%list_elem_of_lookup).
      apply lookup_take_Some in Hj as [Hj Hlt]. exists j, dep. split_and!; [lia|done..].
    + intros id Hid. by apply Hp.
  - intros id Hid. destruct He as (_ & _ & _ & Hc). specialize (Hc id Hid).
    unfold proposal_count in Hc. destruct (filter _ _) as [|op [|]]; try done. by exists op.
Qed.

(** ** From the stored execution *)

Lemma from_detail_Ok detail purpose e :
  try_from_execution_detail_for detail purpose = Ok e ->
  validate_envelope e = Ok tt
  /\ collect (operation_from_live purpose) (filter (fun operation =>
       is_enveloped (aep_approved_operation_ids (ses_approval (ed_session detail))) operation = true)
       (ed_operations detail)) = Ok (iee_operations e)
  /\ consent_from_live (ses_consent (ed_session detail)) purpose = Ok (iee_consent e)
  /\ match purpose with
     | PurposeForward => ses_status (ed_session detail) = OesApproved
         /\ ec_state (ses_consent (ed_session detail)) = EcsAttested
     | PurposeRollback => consent_was_attested (ec_state (ses_consent (ed_session detail))) = true
     end.
Proof.
  unfold try_from_execution_detail_for. intros H.
  apply bind_Ok in H as ([] & _ & H). apply bind_Ok in H as (u & Hp & H).
  repeat match type of H with (_ ≫= _ = Ok _) =>
    let x := fresh "x" in let E := fresh "E" in apply bind_Ok in H as (x & E & H) end.
  injection H as <-. destruct x5. split_and!; try done.
  destruct purpose; apply reject_if_Ok in Hp; by bools.
Qed.

(** Only approved and checked work enters a forward envelope: it is built
    from an approved execution whose consent is attested, unconsumed and not
    invalidated, and each of its operations is a stored operation that passed
    its preflight, carries its identifier, sequence and dependencies, and is
    either internal or for an approved proposal item. *)
Theorem forward_envelope_from_detail detail e :
  try_from_execution_detail_for detail PurposeForward = Ok e ->
  validate_envelope e = Ok tt
  /\ ses_status (ed_session detail) = OesApproved
  /\ ec_state (ses_consent (ed_session detail)) = EcsAttested
  /\ ec_consumed_at_unix_ms (ses_consent (ed_session detail)) = None
  /\ ec_invalidated_at_unix_ms (ses_consent (ed_session detail)) = None
  /\ Forall (fun op => exists stored, stored ∈ ed_operations detail
       /\ eo_status stored = EosPreflightOk
       /\ aom_operation_id op = uuid_to_string (eo_id stored)
       /\ aom_sequence op = eo_sequence stored
       /\ aom_dependencies op = uuid_to_string <$> eo_dependencies stored
       /\ primitive_from_live stored PurposeForward = Ok (aom_primitive op)
       /\ forall id, eo_proposal_operation_id stored = Some id ->
            id ∈ aep_approved_operation_ids (ses_approval (ed_session detail)))
       (iee_operations e).
Proof.
  intros (Hv & Hops & Hcons & Hst & Hcs)%from_detail_Ok.
  unfold consent_from_live in Hcons. apply bind_Ok in Hcons as (u & Hc%reject_if_Ok & _).
  split_and!; try done.
  - bools. by destruct (ec_consumed_at_unix_ms _).
  - bools. destruct (ec_invalidated_at_unix_ms _); [|done]. exfalso. eauto.
  - apply collect_Forall2 in Hops. apply Forall_forall. intros op Hop.
    apply list_elem_of_lookup in Hop as [i Hi].
    destruct (Forall2_lookup_r _ _ _ _ _ Hops Hi) as (stored & Hs & Hlive).
    assert (stored ∈ filter (fun operation => is_enveloped
      (aep_approved_operation_ids (ses_approval (ed_session detail))) operation = true)
      (ed_operations detail)) as [Henv Hin]%list_elem_of_filter by (apply list_elem_of_lookup; eauto).
    unfold operation_from_live in Hlive. apply bind_Ok in Hlive as (v & Hpre%reject_if_Ok & Hlive).
    apply bind_Ok in Hlive as (prim & Hprim & [= <-]). exists stored.
    rewrite bool_decide_true in Hpre by done. cbn in Hpre.
    apply negb_false_iff, bool_decide_eq_true in Hpre.
    split_and!; try done.
    intros id Hid. unfold is_enveloped in Henv. rewrite Hid in Henv. by bools.
Qed.

(** What was consented to is what is executed: the consent binding computed
    from the stored execution, with the nonce and the times of its consent,
    is exactly the binding the executor recomputes from the envelope, so an
    attestation over the one is an attestation over the other. *)
Theorem consent_binding_agrees detail purpose e nonce issued expires binding :
  try_from_execution_detail_for detail purpose = Ok e ->
  ec_nonce (ses_consent (ed_session detail)) = Some nonce ->
  ec_issued_at_unix_ms (ses_consent (ed_session detail)) = Some issued ->
  ec_expires_at_unix_ms (ses_consent (ed_session detail)) = Some expires ->
  consent_binding_from_detail detail nonce issued expires = Ok binding ->
  from_envelope e = binding.
Proof.
  unfold try_from_execution_detail_for, consent_binding_from_detail.
  intros H Hn Hi Hx Hb. apply bind_Ok in H as ([] & _ & H). apply bind_Ok in H as (u & _ & H).
  apply bind_Ok in H as (ops & _ & H). apply bind_Ok in H as (ts & _ & H).
  apply bind_Ok in H as (d & Hd & H), Hb as (d' & Hd' & Hb).
  apply bind_Ok in H as (r & Hr & H), Hb as (r' & Hr' & Hb).
  apply bind_Ok in H as (p & Hp & H), Hb as (p' & Hp' & Hb).
  apply bind_Ok in H as (c & Hc & H), Hb as (v & _ & [= <-]).
  apply bind_Ok in H as (v' & _ & [= <-]).
  unfold consent_from_live in Hc. apply bind_Ok in Hc as (w & _ & Hc).
  rewrite Hn, Hi, Hx in Hc. cbn [ok_or mbind res_bind] in Hc.
  apply bind_Ok in Hc as (a & _ & Hc). apply bind_Ok in Hc as (m & _ & [= <-]).
  unfold from_envelope. cbn. congruence.
Qed.
End envelope.

(** ** Witnesses *)

#[local] Existing Instances sample_uuid sample_uuid_laws.

Definition sample_stored_operation (dependencies : list OperationStepId) : ExecutionOperation := {|
  eo_id := uid x41; eo_execution_id := uid x40; eo_proposal_operation_id := Some (uid x31);
  eo_kind := EokMove; eo_source_relative_path := Some (lit "a.txt");
  eo_destination_relative_path := lit "Clients/a.txt";
  eo_original_source_relative_path := Some (lit "a.txt");
  eo_expected_source_hash := None; eo_expected_source_size := None;
  eo_expected_source_modified_at := None; eo_live_fingerprint := Some sample_fingerprint;
  eo_post_fingerprint := None; eo_preconditions := []; eo_dependencies := dependencies;
  eo_sequence := 0; eo_status := EosPreflightOk; eo_directory_existed_before := None;
  eo_reason := None; eo_error_code := None; eo_error_message := None; eo_started_at := None;
  eo_completed_at := None; eo_rolled_back_at := None
|}.

Definition sample_execution_plan : ApprovedExecutionPlan := {|
  aep_material_version := 2; aep_execution_id := uid x40; aep_plan_id := uid x42;
  aep_proposal_id := uid x03; aep_proposal_revision_id := uid x43; aep_proposal_revision := 1;
  aep_source_snapshot_version := uid x04; aep_approved_operation_ids := [uid x31];
  aep_operation_count := 1;
  aep_destination_root := {| erb_canonical_path := native "/data"; erb_display_path := lit "/data";
    erb_volume := sample_volume |};
  aep_safety_policy := {| espb_version := EXECUTION_SAFETY_POLICY_VERSION;
    espb_maximum_rehash_bytes := 1048576; espb_allow_qualified_case_only_rename := false;
    espb_digest_hex := to_hex (fill 32 x02) |};
  aep_approval_timestamp := Some (lit "2025-01-01T00:00:00Z"); aep_user_confirmed := true;
  aep_digest_hex := to_hex (fill 32 x01)
|}.

Definition sample_consent : ExecutionConsent := {|
  ec_state := EcsAttested; ec_issued_at_unix_ms := Some 1000;
  ec_expires_at_unix_ms := Some 900000; ec_attested_at_unix_ms := Some 2000;
  ec_consumed_at_unix_ms := None; ec_invalidated_at_unix_ms := None;
  ec_invalidation_reason := None; ec_nonce := Some (fill 32 x03);
  ec_attestation_mac := Some (fill 32 x04)
|}.

Definition sample_detail (dependencies : list OperationStepId) : ExecutionDetail := {|
  ed_session := {|
    ses_id := uid x40; ses_plan_id := uid x42; ses_proposal_id := uid x03;
    ses_proposal_revision_id := uid x43; ses_proposal_revision := 1; ses_workspace_id := uid x02;
    ses_root_id := uid x0a; ses_source_scan_id := uid x04; ses_status := OesApproved;
    ses_recovery_state := ErsRecoveryNotRequired; ses_plan_digest_hex := to_hex (fill 32 x01);
    ses_approval := sample_execution_plan; ses_consent := sample_consent;
    ses_summary := {| es_affected_files := 1; es_folders_to_create := 0; es_files_to_move := 1;
      es_files_to_rename := 0; es_files_unchanged := 0; es_conflicts := 0; es_needs_review := 0;
      es_preflight_ok := 1; es_applied := 0; es_blocked := 0; es_skipped := 0; es_failed := 0;
      es_rolled_back := 0; es_rollback_blocked := 0; es_rollback_failed := 0 |};
    ses_current_operation := None; ses_rollback_available := false;
    ses_confirmation_phrase_required := false; ses_created_at := lit "2025-01-01T00:00:00Z";
    ses_approved_at := None; ses_started_at := None; ses_completed_at := None;
    ses_rolled_back_at := None; ses_error := None |};
  ed_operations := [sample_stored_operation dependencies]
|}.

Definition sample_envelope : ImmutableExecutionEnvelope :=
  match try_from_execution_detail_for (sample_detail []) PurposeForward with
  | Ok e => e
  | Err _ => {| iee_schema_version := 0; iee_execution_id := []; iee_root_id := [];
      iee_plan := {| fpm_material_version := 0; fpm_plan_id := []; fpm_proposal_id := [];
        fpm_proposal_revision_id := []; fpm_proposal_revision := 0;
        fpm_source_snapshot_version := []; fpm_approved_operation_ids := [];
        fpm_operation_count := 0; fpm_approval_timestamp := []; fpm_user_confirmed := false;
        fpm_digest := fill 32 x00 |};
      iee_root_binding := {| rbm_canonical_path := {| npm_encoding := NpeUnixBytes; npm_bytes := [] |};
        rbm_display_path := []; rbm_volume := volume_from_live sample_volume |};
      iee_safety_policy_binding := {| spbm_version := []; spbm_maximum_rehash_bytes := 0;
        spbm_allow_qualified_case_only_rename := false; spbm_digest := fill 32 x00 |};
      iee_consent := {| acm_issued_at_unix_ms := 0; acm_expires_at_unix_ms := 0;
        acm_attested_at_unix_ms := 0; acm_consent_nonce := fill 32 x00;
        acm_attestation_mac := fill 32 x00 |};
      iee_operations := [] |}
  end.

Lemma sample_envelope_built :
  try_from_execution_detail_for (sample_detail []) PurposeForward = Ok sample_envelope.
Proof. vm_compute. reflexivity. Qed.

Lemma sample_envelope_valid : validate_envelope sample_envelope = Ok tt.
Proof. vm_compute. reflexivity. Qed.

Lemma validated_envelope_guarantees_witness :
  length (iee_operations sample_envelope) = 1%nat
  /\ NoDup (aom_operation_id <$> iee_operations sample_envelope).
Proof.
  split; [vm_compute; reflexivity|].
  exact (proj1 (validated_envelope_guarantees sample_envelope sample_envelope_valid)).
Defined.

Lemma forward_envelope_from_detail_witness :
  ec_consumed_at_unix_ms (ses_consent (ed_session (sample_detail []))) = None.
Proof.
  exact (proj1 (proj2 (proj2 (proj2 (forward_envelope_from_detail (sample_detail [])
    sample_envelope sample_envelope_built))))).
Defined.

Lemma consent_binding_agrees_witness :
  match consent_binding_from_detail (sample_detail []) (fill 32 x03) 1000 900000 with
  | Ok binding => from_envelope sample_envelope = binding
  | Err _ => False
  end.
Proof.
  destruct (consent_binding_from_detail (sample_detail []) (fill 32 x03) 1000 900000)
    as [binding|e] eqn:H.
  - exact (consent_binding_agrees (sample_detail []) PurposeForward sample_envelope (fill 32 x03)
      1000 900000 binding sample_envelope_built eq_refl eq_refl eq_refl H).
  - vm_compute in H. discriminate H.
Defined.

(** An operation that depends on itself passes the validation: its identifier
    is inserted before its dependencies are looked up. *)
Lemma self_dependency_accepted :
  match try_from_execution_detail_for (sample_detail [uid x41]) PurposeForward with
  | Ok e => validate_envelope e = Ok tt
      /\ (aom_dependencies <$> iee_operations e) = [[uuid_to_string (uid x41)]]
      /\ (aom_operation_id <$> iee_operations e) = [uuid_to_string (uid x41)]
  | Err _ => False
  end.
Proof. vm_compute. split_and!; reflexivity. Qed.
