(* ===== verification/ExecAuth.v ===== *)
(** * Authentication of the executor protocol

    crates/ipc-contracts/src/executor_v2/auth.rs: every message carries a
    keyed blake3 MAC over the serialisation of its other fields, under a
    domain string of its own.  A message struct and its [..MacMaterial] have
    the same fields in the same order, so a message is modelled as its
    material together with the MAC. *)

From S2P Require Export ExecManifest.
From S2P Require Import Samples ExecEnvelope.
#[local] Open Scope Z_scope.

(** ** mod.rs: MAC domains *)
Definition mac_domain (name : String.string) : bytes :=
  bstr "com.workingname.operation-executor/v2/" ++ bstr name ++ [x00].
Definition HELLO_MAC_DOMAIN : bytes := mac_domain "hello-mac".
Definition OPEN_SESSION_MAC_DOMAIN : bytes := mac_domain "open-session-mac".
Definition SESSION_KEY_DOMAIN : bytes := mac_domain "session-key".
Definition CONSENT_KEY_DOMAIN : bytes := mac_domain "consent-authority-key".
Definition CONSENT_ATTESTATION_MAC_DOMAIN : bytes := mac_domain "consent-attestation-mac".
Definition SESSION_OPENED_MAC_DOMAIN : bytes := mac_domain "session-opened-mac".
Definition REQUEST_MAC_DOMAIN : bytes := mac_domain "request-mac".
Definition RESPONSE_MAC_DOMAIN : bytes := mac_domain "response-mac".
Definition REFUSAL_MAC_DOMAIN : bytes := mac_domain "handshake-refusal-mac".

(** ** Errors *)

Inductive AuthenticationError :=
  | AeUnsupportedVersion | AeInvalidMac | AeInvalidBinding | AeSequenceMismatch | AeNonceReplay
  | AeStaleOrInvalidTime | AeSerialization | AeValidation (error : ValidationError).

Definition refusal_category (self : AuthenticationError) : ProtocolRefusalCategory :=
  match self with
  | AeInvalidMac => PrcAuthentication
  | AeSequenceMismatch | AeNonceReplay => PrcReplay
  | AeUnsupportedVersion | AeInvalidBinding | AeStaleOrInvalidTime | AeSerialization
  | AeValidation _ => PrcProtocol
  end.

Definition refusal_code (self : AuthenticationError) : str :=
  match self with
  | AeUnsupportedVersion => lit "unsupported_protocol"
  | AeInvalidMac => lit "authentication_failed"
  | AeInvalidBinding => lit "binding_mismatch"
  | AeSequenceMismatch => lit "sequence_replay"
  | AeNonceReplay => lit "message_nonce_replay"
  | AeStaleOrInvalidTime => lit "stale_or_invalid_time"
  | AeSerialization => lit "protocol_serialization_failed"
  | AeValidation _ => lit "protocol_validation_failed"
  end.

(** ** Messages *)

Record HelloMacMaterial := {
  hello_protocol_version : Z;
  hello_schema_version : Z;
  hello_worker_pid : Z;
  hello_worker_nonce : FixedBytes32;
  hello_issued_at_unix_ms : Z
}.
Record Hello := { hello_material :> HelloMacMaterial; hello_mac : FixedBytes32 }.

Record OpenSessionMacMaterial := {
  os_protocol_version : Z;
  os_schema_version : Z;
  os_child_pid : Z;
  os_coordinator_pid : Z;
  os_worker_nonce : FixedBytes32;
  os_coordinator_nonce : FixedBytes32;
  os_session_id : FixedBytes32;
  os_execution_id : str;
  os_plan_id : str;
  os_plan_digest : FixedBytes32;
  os_issued_at_unix_ms : Z;
  os_expires_at_unix_ms : Z;
  os_authorization : SessionAuthorization;
  os_envelope : ImmutableExecutionEnvelope
}.
Record OpenSession := { os_material :> OpenSessionMacMaterial; os_mac : FixedBytes32 }.

Record SessionOpenedMacMaterial := {
  so_protocol_version : Z;
  so_schema_version : Z;
  so_session_id : FixedBytes32;
  so_worker_pid : Z;
  so_coordinator_pid : Z;
  so_worker_nonce : FixedBytes32;
  so_coordinator_nonce : FixedBytes32;
  so_response_nonce : FixedBytes32;
  so_issued_at_unix_ms : Z
}.
Record SessionOpened := { so_material :> SessionOpenedMacMaterial; so_mac : FixedBytes32 }.

Record SessionKeyMaterial := {
  skm_protocol_version : Z;
  skm_schema_version : Z;
  skm_worker_pid : Z;
  skm_coordinator_pid : Z;
  skm_worker_nonce : FixedBytes32;
  skm_coordinator_nonce : FixedBytes32;
  skm_session_id : FixedBytes32;
  skm_execution_id : str;
  skm_plan_id : str;
  skm_plan_digest : FixedBytes32;
  skm_authorization : SessionAuthorization
}.

Record OperationRequestMacMaterial := {
  rq_protocol_version : Z;
  rq_schema_version : Z;
  rq_session_id : FixedBytes32;
  rq_sequence : Z;
  rq_message_nonce : FixedBytes32;
  rq_sent_at_unix_ms : Z;
  rq_expires_at_unix_ms : Z;
  rq_execution_id : str;
  rq_plan_id : str;
  rq_plan_digest : FixedBytes32;
  rq_operation : OperationBinding
}.
Record AuthenticatedOperationRequest := {
  rq_material :> OperationRequestMacMaterial; rq_mac : FixedBytes32 }.

Record OperationResponseMacMaterial := {
  rs_protocol_version : Z;
  rs_schema_version : Z;
  rs_session_id : FixedBytes32;
  rs_sequence : Z;
  rs_message_nonce : FixedBytes32;
  rs_sent_at_unix_ms : Z;
  rs_expires_at_unix_ms : Z;
  rs_execution_id : str;
  rs_plan_id : str;
  rs_plan_digest : FixedBytes32;
  rs_operation : OperationBinding;
  rs_outcome : ExecutorOutcome
}.
Record AuthenticatedOperationResponse := {
  rs_material :> OperationResponseMacMaterial; rs_mac : FixedBytes32 }.

Record HandshakeRefusalMacMaterial := {
  hr_protocol_version : Z;
  hr_schema_version : Z;
  hr_worker_pid : Z;
  hr_worker_nonce : FixedBytes32;
  hr_response_nonce : FixedBytes32;
  hr_issued_at_unix_ms : Z;
  hr_refusal : ProtocolRefusal
}.
Record HandshakeRefusal := { hr_material :> HandshakeRefusalMacMaterial; hr_mac : FixedBytes32 }.

(** serde_json on everything that is authenticated. *)
Class AuthSerde : Type := {
  as_hello :: ToVec HelloMacMaterial;
  as_open :: ToVec OpenSessionMacMaterial;
  as_opened :: ToVec SessionOpenedMacMaterial;
  as_key :: ToVec SessionKeyMaterial;
  as_request :: ToVec OperationRequestMacMaterial;
  as_response :: ToVec OperationResponseMacMaterial;
  as_refusal :: ToVec HandshakeRefusalMacMaterial;
  as_consent :: ToVec ConsentAttestationBinding
}.

Notation SessionKey := bytes32.

(** ** Times *)

Definition within_clock_window (value now window : Z) : bool :=
  (i64_saturating_sub now window <=? value) && (value <=? i64_saturating_add now window).

Definition is_forward (authorization : SessionAuthorization) : bool :=
  match authorization with AuthForward => true | AuthRollback _ => false end.

Definition validate_session_time (issued_at expires_at : Z) (authorization : SessionAuthorization)
    (envelope : ImmutableExecutionEnvelope) (now : Z) : res AuthenticationError unit :=
  reject_if ((issued_at <? 0)
    || (expires_at <=? issued_at)
    || (MAX_SESSION_LIFETIME_MS <? i64_saturating_sub expires_at issued_at)
    || negb (within_clock_window issued_at now MAX_CLOCK_SKEW_MS)
    || (expires_at <=? now)
    || is_forward authorization
       && (acm_expires_at_unix_ms (iee_consent envelope) <? expires_at))
    AeStaleOrInvalidTime.

Definition validate_message_time (sent_at expires_at session_expires_at now : Z) :
    res AuthenticationError unit :=
  reject_if ((sent_at <? 0)
    || (expires_at <=? sent_at)
    || (session_expires_at <? expires_at)
    || (MAX_MESSAGE_LIFETIME_MS <? i64_saturating_sub expires_at sent_at)
    || negb (within_clock_window sent_at now MAX_CLOCK_SKEW_MS)
    || (expires_at <=? now))
    AeStaleOrInvalidTime.

Definition require_versions (protocol_version schema_version : Z) : res AuthenticationError unit :=
  if (protocol_version =? PROTOCOL_VERSION) && (schema_version =? SCHEMA_VERSION) then Ok tt
  else Err AeUnsupportedVersion.

Definition require_mac (expected presented : FixedBytes32) : res AuthenticationError unit :=
  if bool_decide (expected = presented) then Ok tt else Err AeInvalidMac.

(** [?] on a [ValidationError]. *)
Definition checked {A} (m : res ValidationError A) : res AuthenticationError A :=
  map_err AeValidation m.

Section auth.
Context `{B3 : Blake3} `{UU : UuidCrate} `{SD : AuthSerde}.

Definition keyed_mac {A} `{ToVec A} (domain : bytes) (key : bytes32) (material : A) :
    res AuthenticationError FixedBytes32 :=
  encoded ← map_err (fun _ => AeSerialization) (to_vec material);
  Ok (blake3_keyed key (domain ++ encoded)).

(** ** Consent *)

Definition derive_consent_authority_key (root_authority_key : bytes32) : bytes32 :=
  blake3_keyed root_authority_key CONSENT_KEY_DOMAIN.

Definition sign_consent_attestation (binding : ConsentAttestationBinding)
    (consent_authority_key : bytes32) : res AuthenticationError FixedBytes32 :=
  checked (validate_consent_binding binding);;
  keyed_mac CONSENT_ATTESTATION_MAC_DOMAIN consent_authority_key binding.

Definition verify_envelope_consent (envelope : ImmutableExecutionEnvelope)
    (root_authority_key : bytes32) (now : Z) (require_unexpired : bool) :
    res AuthenticationError unit :=
  let binding := from_envelope envelope in
  checked (validate_consent_binding binding);;
  let consent_key := derive_consent_authority_key root_authority_key in
  expected ← sign_consent_attestation binding consent_key;
  require_mac expected (acm_attestation_mac (iee_consent envelope));;
  reject_if ((acm_attested_at_unix_ms (iee_consent envelope)
      <? acm_issued_at_unix_ms (iee_consent envelope))
    || require_unexpired && (acm_expires_at_unix_ms (iee_consent envelope) <=? now))
    AeStaleOrInvalidTime.

(** ** Hello *)

Definition hello_signed (worker_pid : Z) (worker_nonce : FixedBytes32) (issued_at : Z)
    (root_authority_key : bytes32) : res AuthenticationError Hello :=
  reject_if ((worker_pid =? 0) || is_zero worker_nonce || (issued_at <? 0)) AeInvalidBinding;;
  let material := {|
    hello_protocol_version := PROTOCOL_VERSION;
    hello_schema_version := SCHEMA_VERSION;
    hello_worker_pid := worker_pid;
    hello_worker_nonce := worker_nonce;
    hello_issued_at_unix_ms := issued_at |} in
  mac ← keyed_mac HELLO_MAC_DOMAIN root_authority_key material;
  Ok {| hello_material := material; hello_mac := mac |}.

Definition hello_verify (self : Hello) (root_authority_key : bytes32) (now : Z) :
    res AuthenticationError unit :=
  require_versions (hello_protocol_version self) (hello_schema_version self);;
  reject_if ((hello_worker_pid self =? 0) || is_zero (hello_worker_nonce self)
    || negb (within_clock_window (hello_issued_at_unix_ms self) now MAX_CLOCK_SKEW_MS))
    AeStaleOrInvalidTime;;
  expected ← keyed_mac HELLO_MAC_DOMAIN root_authority_key (hello_material self);
  require_mac expected (hello_mac self).

(** ** OpenSession *)

Definition open_session_signed (child_pid coordinator_pid : Z)
    (worker_nonce coordinator_nonce session_id : FixedBytes32) (issued_at expires_at : Z)
    (authorization : SessionAuthorization) (envelope : ImmutableExecutionEnvelope)
    (root_authority_key : bytes32) : res AuthenticationError OpenSession :=
  checked (validate_envelope envelope);;
  checked (validate_authorization authorization envelope);;
  reject_if ((child_pid =? 0) || (coordinator_pid =? 0) || is_zero worker_nonce
    || is_zero coordinator_nonce || is_zero session_id) AeInvalidBinding;;
  validate_session_time issued_at expires_at authorization envelope issued_at;;
  verify_envelope_consent envelope root_authority_key issued_at (is_forward authorization);;
  let material := {|
    os_protocol_version := PROTOCOL_VERSION;
    os_schema_version := SCHEMA_VERSION;
    os_child_pid := child_pid;
    os_coordinator_pid := coordinator_pid;
    os_worker_nonce := worker_nonce;
    os_coordinator_nonce := coordinator_nonce;
    os_session_id := session_id;
    os_execution_id := iee_execution_id envelope;
    os_plan_id := fpm_plan_id (iee_plan envelope);
    os_plan_digest := fpm_digest (iee_plan envelope);
    os_issued_at_unix_ms := issued_at;
    os_expires_at_unix_ms := expires_at;
    os_authorization := authorization;
    os_envelope := envelope |} in
  mac ← keyed_mac OPEN_SESSION_MAC_DOMAIN root_authority_key material;
  Ok {| os_material := material; os_mac := mac |}.

Definition open_session_verify (self : OpenSession) (hello : Hello) (root_authority_key : bytes32)
    (now : Z) : res AuthenticationError unit :=
  require_versions (os_protocol_version self) (os_schema_version self);;
  expected ← keyed_mac OPEN_SESSION_MAC_DOMAIN root_authority_key (os_material self);
  require_mac expected (os_mac self);;
  checked (validate_envelope (os_envelope self));;
  checked (validate_authorization (os_authorization self) (os_envelope self));;
  reject_if ((os_child_pid self =? 0)
    || (os_coordinator_pid self =? 0)
    || is_zero (os_worker_nonce self)
    || is_zero (os_coordinator_nonce self)
    || is_zero (os_session_id self)
    || negb (os_child_pid self =? hello_worker_pid hello)
    || negb (bool_decide (os_worker_nonce self = hello_worker_nonce hello))
    || negb (bool_decide (os_execution_id self = iee_execution_id (os_envelope self)))
    || negb (bool_decide (os_plan_id self = fpm_plan_id (iee_plan (os_envelope self))))
    || negb (bool_decide (os_plan_digest self = fpm_digest (iee_plan (os_envelope self)))))
    AeInvalidBinding;;
  validate_session_time (os_issued_at_unix_ms self) (os_expires_at_unix_ms self)
    (os_authorization self) (os_envelope self) now;;
  verify_envelope_consent (os_envelope self) root_authority_key now
    (is_forward (os_authorization self)).

(** ** SessionOpened *)

Definition session_opened_signed (open_session : OpenSession) (response_nonce : FixedBytes32)
    (issued_at : Z) (session_key : SessionKey) : res AuthenticationError SessionOpened :=
  reject_if (is_zero response_nonce || (issued_at <? 0)) AeInvalidBinding;;
  let material := {|
    so_protocol_version := PROTOCOL_VERSION;
    so_schema_version := SCHEMA_VERSION;
    so_session_id := os_session_id open_session;
    so_worker_pid := os_child_pid open_session;
    so_coordinator_pid := os_coordinator_pid open_session;
    so_worker_nonce := os_worker_nonce open_session;
    so_coordinator_nonce := os_coordinator_nonce open_session;
    so_response_nonce := response_nonce;
    so_issued_at_unix_ms := issued_at |} in
  mac ← keyed_mac SESSION_OPENED_MAC_DOMAIN session_key material;
  Ok {| so_material := material; so_mac := mac |}.

Definition session_opened_verify (self : SessionOpened) (open_session : OpenSession)
    (session_key : SessionKey) (now : Z) : res AuthenticationError unit :=
  require_versions (so_protocol_version self) (so_schema_version self);;
  expected ← keyed_mac SESSION_OPENED_MAC_DOMAIN session_key (so_material self);
  require_mac expected (so_mac self);;
  reject_if (negb (bool_decide (so_session_id self = os_session_id open_session))
    || negb (so_worker_pid self =? os_child_pid open_session)
    || negb (so_coordinator_pid self =? os_coordinator_pid open_session)
    || negb (bool_decide (so_worker_nonce self = os_worker_nonce open_session))
    || negb (bool_decide (so_coordinator_nonce self = os_coordinator_nonce open_session))
    || is_zero (so_response_nonce self)
    || negb (within_clock_window (so_issued_at_unix_ms self) now MAX_CLOCK_SKEW_MS)
    || (os_expires_at_unix_ms open_session <=? now)) AeInvalidBinding.

(** The material [derive_session_key] authenticates. *)
Definition session_key_material (hello : Hello) (open_session : OpenSession) :
    SessionKeyMaterial := {|
    skm_protocol_version := PROTOCOL_VERSION;
    skm_schema_version := SCHEMA_VERSION;
    skm_worker_pid := hello_worker_pid hello;
    skm_coordinator_pid := os_coordinator_pid open_session;
    skm_worker_nonce := hello_worker_nonce hello;
    skm_coordinator_nonce := os_coordinator_nonce open_session;
    skm_session_id := os_session_id open_session;
    skm_execution_id := os_execution_id open_session;
    skm_plan_id := os_plan_id open_session;
    skm_plan_digest := os_plan_digest open_session;
    skm_authorization := os_authorization open_session |}.

Definition derive_session_key (root_authority_key : bytes32) (hello : Hello)
    (open_session : OpenSession) : res AuthenticationError SessionKey :=
  keyed_mac SESSION_KEY_DOMAIN root_authority_key (session_key_material hello open_session).

(** ** Requests *)

Definition request_signed (open_session : OpenSession) (sequence : Z)
    (message_nonce : FixedBytes32) (sent_at expires_at : Z) (operation : OperationBinding)
    (session_key : SessionKey) : res AuthenticationError AuthenticatedOperationRequest :=
  checked (validate_operation_binding operation);;
  reject_if ((sequence =? 0) || is_zero message_nonce) AeInvalidBinding;;
  validate_message_time sent_at expires_at (os_expires_at_unix_ms open_session) sent_at;;
  let material := {|
    rq_protocol_version := PROTOCOL_VERSION;
    rq_schema_version := SCHEMA_VERSION;
    rq_session_id := os_session_id open_session;
    rq_sequence := sequence;
    rq_message_nonce := message_nonce;
    rq_sent_at_unix_ms := sent_at;
    rq_expires_at_unix_ms := expires_at;
    rq_execution_id := os_execution_id open_session;
    rq_plan_id := os_plan_id open_session;
    rq_plan_digest := os_plan_digest open_session;
    rq_operation := operation |} in
  mac ← keyed_mac REQUEST_MAC_DOMAIN session_key material;
  Ok {| rq_material := material; rq_mac := mac |}.

Definition request_verify (self : AuthenticatedOperationRequest) (open_session : OpenSession)
    (expected_sequence : Z) (session_key : SessionKey) (now : Z) : res AuthenticationError unit :=
  require_versions (rq_protocol_version self) (rq_schema_version self);;
  expected ← keyed_mac REQUEST_MAC_DOMAIN session_key (rq_material self);
  require_mac expected (rq_mac self);;
  checked (validate_operation_binding (rq_operation self));;
  reject_if ((rq_sequence self =? 0)
    || is_zero (rq_message_nonce self)
    || negb (bool_decide (rq_session_id self = os_session_id open_session))
    || negb (bool_decide (rq_execution_id self = os_execution_id open_session))
    || negb (bool_decide (rq_plan_id self = os_plan_id open_session))
    || negb (bool_decide (rq_plan_digest self = os_plan_digest open_session))) AeInvalidBinding;;
  reject_if (negb (rq_sequence self =? expected_sequence)) AeSequenceMismatch;;
  validate_message_time (rq_sent_at_unix_ms self) (rq_expires_at_unix_ms self)
    (os_expires_at_unix_ms open_session) now.

(** ** Responses *)

Definition response_signed (open_session : OpenSession) (sequence : Z)
    (message_nonce : FixedBytes32) (sent_at expires_at : Z) (operation : OperationBinding)
    (outcome : ExecutorOutcome) (session_key : SessionKey) :
    res AuthenticationError AuthenticatedOperationResponse :=
  checked (validate_operation_binding operation);;
  checked (validate_outcome outcome);;
  reject_if ((sequence =? 0) || is_zero message_nonce) AeInvalidBinding;;
  validate_message_time sent_at expires_at (os_expires_at_unix_ms open_session) sent_at;;
  let material := {|
    rs_protocol_version := PROTOCOL_VERSION;
    rs_schema_version := SCHEMA_VERSION;
    rs_session_id := os_session_id open_session;
    rs_sequence := sequence;
    rs_message_nonce := message_nonce;
    rs_sent_at_unix_ms := sent_at;
    rs_expires_at_unix_ms := expires_at;
    rs_execution_id := os_execution_id open_session;
    rs_plan_id := os_plan_id open_session;
    rs_plan_digest := os_plan_digest open_session;
    rs_operation := operation;
    rs_outcome := outcome |} in
  mac ← keyed_mac RESPONSE_MAC_DOMAIN session_key material;
  Ok {| rs_material := material; rs_mac := mac |}.

Definition response_verify (self : AuthenticatedOperationResponse) (open_session : OpenSession)
    (expected_sequence : Z) (expected_operation : OperationBinding) (session_key : SessionKey)
    (now : Z) : res AuthenticationError unit :=
  require_versions (rs_protocol_version self) (rs_schema_version self);;
  expected ← keyed_mac RESPONSE_MAC_DOMAIN session_key (rs_material self);
  require_mac expected (rs_mac self);;
  checked (validate_operation_binding (rs_operation self));;
  checked (validate_outcome (rs_outcome self));;
  reject_if ((rs_sequence self =? 0)
    || is_zero (rs_message_nonce self)
    || negb (bool_decide (rs_session_id self = os_session_id open_session))
    || negb (bool_decide (rs_execution_id self = os_execution_id open_session))
    || negb (bool_decide (rs_plan_id self = os_plan_id open_session))
    || negb (bool_decide (rs_plan_digest self = os_plan_digest open_session))
    || negb (bool_decide (rs_operation self = expected_operation))) AeInvalidBinding;;
  reject_if (negb (rs_sequence self =? expected_sequence)) AeSequenceMismatch;;
  validate_message_time (rs_sent_at_unix_ms self) (rs_expires_at_unix_ms self)
    (os_expires_at_unix_ms open_session) now.

Record CoordinatorResponseVerifier := {
  crv_next_sequence : Z;
  crv_seen_nonces : gset FixedBytes32
}.

Definition crv_new : CoordinatorResponseVerifier :=
  {| crv_next_sequence := 1; crv_seen_nonces := ∅ |}.

(** [CoordinatorResponseVerifier::verify_next], on [&mut self]. *)
Definition verify_next (response : AuthenticatedOperationResponse) (open_session : OpenSession)
    (expected_operation : OperationBinding) (session_key : SessionKey) (now : Z) :
    SE CoordinatorResponseVerifier AuthenticationError ExecutorOutcome := fun self =>
  match response_verify response open_session (crv_next_sequence self) expected_operation
          session_key now with
  | Err e => (Err e, self)
  | Ok _ =>
      if bool_decide (rs_message_nonce response ∈ crv_seen_nonces self) then
        (Err AeNonceReplay, self)
      else
        let seen := {[rs_message_nonce response]} ∪ crv_seen_nonces self in
        match u64_checked_add (crv_next_sequence self) 1 with
        | Some next => (Ok (rs_outcome response),
            {| crv_next_sequence := next; crv_seen_nonces := seen |})
        | None => (Err AeSequenceMismatch,
            {| crv_next_sequence := crv_next_sequence self; crv_seen_nonces := seen |})
        end
  end.

(** ** Refusals of the handshake *)

Definition handshake_refusal_signed (hello : Hello) (response_nonce : FixedBytes32)
    (issued_at : Z) (refusal : ProtocolRefusal) (root_authority_key : bytes32) :
    res AuthenticationError HandshakeRefusal :=
  checked (validate_refusal refusal);;
  reject_if (is_zero response_nonce || (issued_at <? 0)) AeInvalidBinding;;
  let material := {|
    hr_protocol_version := PROTOCOL_VERSION;
    hr_schema_version := SCHEMA_VERSION;
    hr_worker_pid := hello_worker_pid hello;
    hr_worker_nonce := hello_worker_nonce hello;
    hr_response_nonce := response_nonce;
    hr_issued_at_unix_ms := issued_at;
    hr_refusal := refusal |} in
  mac ← keyed_mac REFUSAL_MAC_DOMAIN root_authority_key material;
  Ok {| hr_material := material; hr_mac := mac |}.

Definition handshake_refusal_verify (self : HandshakeRefusal) (hello : Hello)
    (root_authority_key : bytes32) (now : Z) : res AuthenticationError unit :=
  require_versions (hr_protocol_version self) (hr_schema_version self);;
  expected ← keyed_mac REFUSAL_MAC_DOMAIN root_authority_key (hr_material self);
  require_mac expected (hr_mac self);;
  checked (validate_refusal (hr_refusal self));;
  reject_if (is_zero (hr_response_nonce self)
    || negb (hr_worker_pid self =? hello_worker_pid hello)
    || negb (bool_decide (hr_worker_nonce self = hello_worker_nonce hello))) AeInvalidBinding;;
  reject_if (negb (within_clock_window (hr_issued_at_unix_ms self) now MAX_CLOCK_SKEW_MS))
    AeStaleOrInvalidTime.

(** ** Completeness: what is signed verifies *)

Lemma require_versions_ok : require_versions PROTOCOL_VERSION SCHEMA_VERSION = Ok tt.
Proof. reflexivity. Qed.

Lemma require_mac_refl mac : require_mac mac mac = Ok tt.
Proof. unfold require_mac. by rewrite bool_decide_true. Qed.

Lemma require_mac_Ok expected presented u :
  require_mac expected presented = Ok u <-> expected = presented.
Proof. unfold require_mac. destruct u. case_bool_decide; split; congruence. Qed.

Lemma require_versions_Ok p s u :
  require_versions p s = Ok u <-> p = PROTOCOL_VERSION /\ s = SCHEMA_VERSION.
Proof.
  unfold require_versions. destruct u. destruct (_ && _) eqn:H; bools; split; try done; lia.
Qed.

Lemma keyed_mac_Ok {A} `{ToVec A} domain key (material : A) mac :
  keyed_mac domain key material = Ok mac <->
  exists l, to_vec material = Ok l /\ mac = blake3_keyed key (domain ++ l).
Proof.
  unfold keyed_mac. rewrite bind_Ok. setoid_rewrite map_err_Ok.
  split; intros (l & Hl & Hm); exists l; split; congruence.
Qed.

Lemma validate_message_time_Ok sent_at expires_at session_expires_at now u :
  validate_message_time sent_at expires_at session_expires_at now = Ok u <->
  0 <= sent_at < expires_at /\ expires_at <= session_expires_at
  /\ i64_saturating_sub expires_at sent_at <= MAX_MESSAGE_LIFETIME_MS
  /\ within_clock_window sent_at now MAX_CLOCK_SKEW_MS = true /\ now < expires_at.
Proof.
  unfold validate_message_time. rewrite reject_if_Ok. autorewrite with bools.
  intuition lia.
Qed.

(** A message checked at its own sending time is in time at every later clock
    within the skew and before its expiry. *)
Lemma validate_message_time_later sent_at expires_at session_expires_at u now :
  validate_message_time sent_at expires_at session_expires_at sent_at = Ok u ->
  within_clock_window sent_at now MAX_CLOCK_SKEW_MS = true -> now < expires_at ->
  validate_message_time sent_at expires_at session_expires_at now = Ok tt.
Proof. rewrite !validate_message_time_Ok. tauto. Qed.

Lemma validate_session_time_Ok issued_at expires_at authorization envelope now u :
  validate_session_time issued_at expires_at authorization envelope now = Ok u <->
  0 <= issued_at < expires_at
  /\ i64_saturating_sub expires_at issued_at <= MAX_SESSION_LIFETIME_MS
  /\ within_clock_window issued_at now MAX_CLOCK_SKEW_MS = true /\ now < expires_at
  /\ (is_forward authorization = true ->
      expires_at <= acm_expires_at_unix_ms (iee_consent envelope)).
Proof.
  unfold validate_session_time. rewrite reject_if_Ok. autorewrite with bools.
  destruct (is_forward authorization); intuition (first [lia | discriminate | auto]).
Qed.

(** The attestation part of [verify_envelope_consent] does not depend on the
    clock. *)
Lemma verify_envelope_consent_Ok envelope key now unexpired u :
  verify_envelope_consent envelope key now unexpired = Ok u <->
  validate_consent_binding (from_envelope envelope) = Ok tt
  /\ keyed_mac CONSENT_ATTESTATION_MAC_DOMAIN (derive_consent_authority_key key)
       (from_envelope envelope) = Ok (acm_attestation_mac (iee_consent envelope))
  /\ acm_issued_at_unix_ms (iee_consent envelope)
       <= acm_attested_at_unix_ms (iee_consent envelope)
  /\ (unexpired = true -> now < acm_expires_at_unix_ms (iee_consent envelope)).
Proof.
  unfold verify_envelope_consent, sign_consent_attestation, checked. cbv zeta. split.
  - intros ([] & Hv%map_err_Ok & (mac & ([] & _ & Hm)%bind_Ok &
      ([] & <-%require_mac_Ok & Hr%reject_if_Ok)%bind_Ok)%bind_Ok)%bind_Ok.
    apply orb_false_iff in Hr as [Hi%Z.ltb_ge He%andb_false_iff].
    split_and!; try done. intros ->. destruct He as [|He%Z.leb_gt]; done.
  - intros (Hv & Hm & Hi & He). rewrite Hv. cbn [map_err mbind res_bind]. rewrite Hm.
    cbn [mbind res_bind]. rewrite require_mac_refl. destruct u. apply reject_if_false.
    apply orb_false_iff. split; [by apply Z.ltb_ge|]. destruct unexpired; [|done].
    by apply Z.leb_gt, He.
Qed.

(** A session the coordinator signed in answer to a worker's [Hello] is
    accepted by that worker at every clock within the allowed skew and before
    the session expires: no check of [OpenSession::verify] is stricter than
    those of [OpenSession::signed]. *)
Theorem signed_session_is_accepted (hello : Hello) coordinator_pid coordinator_nonce session_id issued_at
    expires_at authorization envelope key open_session now :
  open_session_signed (hello_worker_pid hello) coordinator_pid (hello_worker_nonce hello)
    coordinator_nonce session_id issued_at expires_at authorization envelope key
    = Ok open_session ->
  within_clock_window issued_at now MAX_CLOCK_SKEW_MS = true -> now < expires_at ->
  open_session_verify open_session hello key now = Ok tt.
Proof.
  intros (u1 & Hv & (u2 & Ha & (u3 & Hz%reject_if_Ok & (u4 & Ht & (u5 & Hc &
    (mac & Hm & [= <-])%bind_Ok)%bind_Ok)%bind_Ok)%bind_Ok)%bind_Ok)%bind_Ok Hw Hnow.
  destruct u1, u2. unfold open_session_verify.
  cbn [os_material os_mac os_protocol_version os_schema_version os_envelope os_authorization
    os_child_pid os_coordinator_pid os_worker_nonce os_coordinator_nonce os_session_id
    os_execution_id os_plan_id os_plan_digest os_issued_at_unix_ms os_expires_at_unix_ms].
  rewrite require_versions_ok, Hm, Hv, Ha. cbn [mbind res_bind]. rewrite require_mac_refl.
  cbn [mbind res_bind]. rewrite !bool_decide_true, Z.eqb_refl by done. cbn [negb].
  rewrite !orb_false_r, Hz. cbn [reject_if mbind res_bind].
  apply validate_session_time_Ok in Ht as (Hi & Hl & _ & _ & Hf).
  rewrite (proj2 (validate_session_time_Ok _ _ _ _ _ tt)) by (split_and!; done || lia).
  apply verify_envelope_consent_Ok in Hc as (Hcv & Hcm & Hca & _).
  apply verify_envelope_consent_Ok. split_and!; try done. intros Hfw. specialize (Hf Hfw). lia.
Qed.

(** A request signed for a session is accepted under the session key at its
    own sequence number, at every clock within the skew and before it
    expires. *)
Theorem signed_request_is_accepted (open_session : OpenSession) sequence nonce sent_at expires_at operation key
    request now :
  request_signed open_session sequence nonce sent_at expires_at operation key = Ok request ->
  within_clock_window sent_at now MAX_CLOCK_SKEW_MS = true -> now < expires_at ->
  request_verify request open_session sequence key now = Ok tt.
Proof.
  intros ([] & Hv & (u3 & Hz%reject_if_Ok & (u4 & Ht & (mac & Hm & [= <-])%bind_Ok)%bind_Ok)
    %bind_Ok)%bind_Ok Hw Hnow. unfold request_verify.
  cbn [rq_material rq_mac rq_protocol_version rq_schema_version rq_session_id rq_sequence
    rq_message_nonce rq_sent_at_unix_ms rq_expires_at_unix_ms rq_execution_id rq_plan_id
    rq_plan_digest rq_operation].
  rewrite require_versions_ok, Hm, Hv. cbn [mbind res_bind]. rewrite require_mac_refl.
  cbn [mbind res_bind]. rewrite !bool_decide_true, Z.eqb_refl by done. cbn [negb].
  rewrite !orb_false_r, Hz. cbn [reject_if mbind res_bind].
  by eapply validate_message_time_later.
Qed.

Lemma signed_response_verifies (open_session : OpenSession) sequence nonce sent_at expires_at operation outcome
    key response now :
  response_signed open_session sequence nonce sent_at expires_at operation outcome key
    = Ok response ->
  within_clock_window sent_at now MAX_CLOCK_SKEW_MS = true -> now < expires_at ->
  response_verify response open_session sequence operation key now = Ok tt
  /\ rs_message_nonce response = nonce /\ rs_outcome response = outcome.
Proof.
  intros ([] & Hv & ([] & Ho & (u3 & Hz%reject_if_Ok & (u4 & Ht &
    (mac & Hm & [= <-])%bind_Ok)%bind_Ok)%bind_Ok)%bind_Ok)%bind_Ok Hw Hnow.
  split; [|done]. unfold response_verify.
  cbn [rs_material rs_mac rs_protocol_version rs_schema_version rs_session_id rs_sequence
    rs_message_nonce rs_sent_at_unix_ms rs_expires_at_unix_ms rs_execution_id rs_plan_id
    rs_plan_digest rs_operation rs_outcome].
  rewrite require_versions_ok, Hm, Hv, Ho. cbn [mbind res_bind]. rewrite require_mac_refl.
  cbn [mbind res_bind]. rewrite !bool_decide_true, Z.eqb_refl by done. cbn [negb].
  rewrite !orb_false_r, Hz. cbn [reject_if mbind res_bind].
  by eapply validate_message_time_later.
Qed.

(** The worker's signed answer to the pending operation, with a fresh nonce
    and the sequence number the coordinator expects, is accepted in time: the
    coordinator obtains the outcome and moves to the next sequence number. *)
Theorem signed_response_is_accepted (open_session : OpenSession) verifier nonce sent_at expires_at operation
    outcome key response now :
  response_signed open_session (crv_next_sequence verifier) nonce sent_at expires_at operation
    outcome key = Ok response ->
  within_clock_window sent_at now MAX_CLOCK_SKEW_MS = true -> now < expires_at ->
  nonce ∉ crv_seen_nonces verifier -> crv_next_sequence verifier < u64_max ->
  verify_next response open_session operation key now verifier =
    (Ok outcome, {| crv_next_sequence := crv_next_sequence verifier + 1;
                    crv_seen_nonces := {[nonce]} ∪ crv_seen_nonces verifier |}).
Proof.
  intros Hs Hw Hnow Hn Hu.
  destruct (signed_response_verifies _ _ _ _ _ _ _ _ _ _ Hs Hw Hnow) as (Hv & <- & <-).
  unfold verify_next. rewrite Hv, bool_decide_false by done. cbv zeta.
  unfold u64_checked_add. by rewrite (proj2 (Z.leb_le _ _)) by lia.
Qed.

(** ** Soundness: what is accepted is authentic, bound and in order *)

(** A request is accepted exactly when it speaks this protocol version,
    carries the MAC of its own fields under the session key, names a
    well-formed operation, this session, execution and plan, the expected
    non-zero sequence number and a non-zero nonce, and is in time. *)
Theorem request_verify_iff (request : AuthenticatedOperationRequest)
    (open_session : OpenSession) sequence key now :
  request_verify request open_session sequence key now = Ok tt <->
  (rq_protocol_version request = PROTOCOL_VERSION /\ rq_schema_version request = SCHEMA_VERSION)
  /\ keyed_mac REQUEST_MAC_DOMAIN key (rq_material request) = Ok (rq_mac request)
  /\ validate_operation_binding (rq_operation request) = Ok tt
  /\ rq_sequence request = sequence /\ sequence <> 0
  /\ is_zero (rq_message_nonce request) = false
  /\ rq_session_id request = os_session_id open_session
  /\ rq_execution_id request = os_execution_id open_session
  /\ rq_plan_id request = os_plan_id open_session
  /\ rq_plan_digest request = os_plan_digest open_session
  /\ 0 <= rq_sent_at_unix_ms request < rq_expires_at_unix_ms request
  /\ rq_expires_at_unix_ms request <= os_expires_at_unix_ms open_session
  /\ i64_saturating_sub (rq_expires_at_unix_ms request) (rq_sent_at_unix_ms request)
       <= MAX_MESSAGE_LIFETIME_MS
  /\ within_clock_window (rq_sent_at_unix_ms request) now MAX_CLOCK_SKEW_MS = true
  /\ now < rq_expires_at_unix_ms request.
Proof.
  rewrite <- (validate_message_time_Ok _ _ _ _ tt). unfold request_verify. split.
  - intros (u & Hv%require_versions_Ok & (mac & Hm & (u2 & <-%require_mac_Ok & ([] & Ho%map_err_Ok
      & (u4 & Hz%reject_if_Ok & (u5 & Hs%reject_if_Ok & Ht)%bind_Ok)%bind_Ok)%bind_Ok)%bind_Ok)
      %bind_Ok)%bind_Ok. bools. naive_solver.
  - intros ([-> ->] & Hm & Ho & <- & Hs & Hn & -> & -> & -> & -> & Ht).
    rewrite require_versions_ok, Hm, Ho. cbn [mbind res_bind checked map_err].
    rewrite require_mac_refl, Hn, (proj2 (Z.eqb_neq _ _) Hs), Z.eqb_refl. cbn [mbind res_bind].
    by rewrite !bool_decide_true.
Qed.

(** The domain strings are prefix-free: each ends in its only zero byte. *)
Lemma mac_domain_app_inj n n' l l' :
  x00 ∉ bstr n -> x00 ∉ bstr n' ->
  mac_domain n ++ l = mac_domain n' ++ l' -> bstr n = bstr n' /\ l = l'.
Proof.
  unfold mac_domain. rewrite <- !(assoc_L (++)). intros Hn Hn' H.
  apply app_inv_head in H. revert Hn Hn' H. generalize (bstr n) as a, (bstr n') as b.
  intros a. induction a as [|c a IH]; intros [|d b]; cbn; intros Hn Hn'.
  - by intros [= ->].
  - intros [= <- _]. set_solver.
  - intros [= -> _]. set_solver.
  - intros [= -> H]. destruct (IH b) as [-> ->]; [set_solver..|done|done].
Qed.

Definition mac_names : list String.string :=
  ["hello-mac"; "open-session-mac"; "session-key"; "consent-authority-key";
   "consent-attestation-mac"; "session-opened-mac"; "request-mac"; "response-mac";
   "handshake-refusal-mac"]%string.

Lemma mac_names_have_no_zero n : n ∈ mac_names -> x00 ∉ bstr n.
Proof.
  intros Hn. assert (Forall (fun n => bool_decide (x00 ∉ bstr n) = true) mac_names) as H
    by (vm_compute; repeat constructor).
  rewrite Forall_forall in H. by apply H, bool_decide_eq_true in Hn.
Qed.

(** Equal MACs under one key: the same domain and the same encoding, or the
    two authenticated strings collide. *)
Lemma keyed_mac_binds n n' key l l' :
  n ∈ mac_names -> n' ∈ mac_names ->
  blake3_keyed key (mac_domain n ++ l) = blake3_keyed key (mac_domain n' ++ l') ->
  (bstr n = bstr n' /\ l = l')
  \/ collides (blake3_keyed key) (mac_domain n ++ l) (mac_domain n' ++ l').
Proof.
  intros Hn Hn' [He|Hc]%equal_or_collides; [left | by right].
  by apply mac_domain_app_inj in He; [|apply mac_names_have_no_zero..].
Qed.

(** Domain separation: a MAC made for one kind of message is never valid
    for another kind under the same key, unless the two authenticated strings
    collide under keyed blake3.  A request cannot be replayed as a response,
    nor a session key be presented as a MAC. *)
Theorem mac_domains_separate {A B} `{ToVec A, ToVec B} n n' key (a : A) (b : B) mac :
  n ∈ mac_names -> n' ∈ mac_names -> n <> n' ->
  keyed_mac (mac_domain n) key a = Ok mac -> keyed_mac (mac_domain n') key b = Ok mac ->
  exists l k, to_vec a = Ok l /\ to_vec b = Ok k
    /\ collides (blake3_keyed key) (mac_domain n ++ l) (mac_domain n' ++ k).
Proof.
  intros Hn Hn' Hne (l & Hl & ->)%keyed_mac_Ok (k & Hk & Hm)%keyed_mac_Ok.
  exists l, k. split_and!; [done..|]. destruct (keyed_mac_binds n n' key l k) as [[Hb _]|]; [done..| |done].
  exfalso. apply Hne. unfold mac_names in Hn, Hn'.
  repeat (apply elem_of_cons in Hn as [->|Hn]); [..|by apply elem_of_nil in Hn].
  all: repeat (apply elem_of_cons in Hn' as [->|Hn']); [..|by apply elem_of_nil in Hn'].
  all: done.
Qed.

(** The same domain: the MAC determines what was authenticated. *)
Lemma keyed_mac_material {A} `{TV : ToVec A} `{FS : FromSlice A} `{RT : !SerdeRoundtrip A}
    n key (a b : A) mac :
  n ∈ mac_names ->
  keyed_mac (mac_domain n) key a = Ok mac -> keyed_mac (mac_domain n) key b = Ok mac ->
  a = b \/ exists l k, to_vec a = Ok l /\ to_vec b = Ok k
             /\ collides (blake3_keyed key) (mac_domain n ++ l) (mac_domain n ++ k).
Proof.
  intros Hn (l & Hl & ->)%keyed_mac_Ok (k & Hk & Hm)%keyed_mac_Ok.
  destruct (keyed_mac_binds n n key l k) as [[_ <-]|Hc]; [done..| |].
  - left. apply from_slice_to_vec in Hl, Hk. congruence.
  - right. by exists l, k.
Qed.

(** The session key belongs to one handshake: two handshakes that derive
    the same key have the same worker and coordinator processes, nonces,
    session, execution, plan digest and authorization, unless their key
    materials collide under keyed blake3. *)
Theorem session_key_binds_handshake `{FS : FromSlice SessionKeyMaterial}
    `{RT : !SerdeRoundtrip SessionKeyMaterial}
    root (hello hello' : Hello) (open_session open_session' : OpenSession) key :
  derive_session_key root hello open_session = Ok key ->
  derive_session_key root hello' open_session' = Ok key ->
  (hello_worker_pid hello = hello_worker_pid hello'
   /\ hello_worker_nonce hello = hello_worker_nonce hello'
   /\ os_coordinator_pid open_session = os_coordinator_pid open_session'
   /\ os_coordinator_nonce open_session = os_coordinator_nonce open_session'
   /\ os_session_id open_session = os_session_id open_session'
   /\ os_execution_id open_session = os_execution_id open_session'
   /\ os_plan_id open_session = os_plan_id open_session'
   /\ os_plan_digest open_session = os_plan_digest open_session'
   /\ os_authorization open_session = os_authorization open_session')
  \/ exists l k, to_vec (session_key_material hello open_session) = Ok l
       /\ to_vec (session_key_material hello' open_session') = Ok k
       /\ collides (blake3_keyed root) (SESSION_KEY_DOMAIN ++ l) (SESSION_KEY_DOMAIN ++ k).
Proof.
  intros H1 H2. assert ("session-key"%string ∈ mac_names) as Hn by (unfold mac_names; set_solver).
  destruct (keyed_mac_material _ _ _ _ _ Hn H1 H2) as [He|Hc]; [left | by right].
  injection He as ?????????. done.
Qed.

(** The coordinator's attestation binds the consent: two envelopes whose
    consent verifies with one attestation MAC have the same consent binding,
    unless the two serialised bindings collide under keyed blake3.  An
    attestation cannot be moved to another plan, scope or expiry. *)
Theorem attestation_binds_consent `{FS : FromSlice ConsentAttestationBinding}
    `{RT : !SerdeRoundtrip ConsentAttestationBinding} envelope envelope' root now now' u u' :
  verify_envelope_consent envelope root now u = Ok tt ->
  verify_envelope_consent envelope' root now' u' = Ok tt ->
  acm_attestation_mac (iee_consent envelope) = acm_attestation_mac (iee_consent envelope') ->
  from_envelope envelope = from_envelope envelope'
  \/ exists l k, to_vec (from_envelope envelope) = Ok l /\ to_vec (from_envelope envelope') = Ok k
       /\ collides (blake3_keyed (derive_consent_authority_key root))
            (CONSENT_ATTESTATION_MAC_DOMAIN ++ l) (CONSENT_ATTESTATION_MAC_DOMAIN ++ k).
Proof.
  intros (_ & Hm & _)%verify_envelope_consent_Ok (_ & Hm' & _)%verify_envelope_consent_Ok Hmac.
  rewrite Hmac in Hm. refine (keyed_mac_material _ _ _ _ _ _ Hm Hm').
  unfold mac_names. set_solver.
Qed.

(** ** Runs of the response verifier *)

(** One call of [verify_next]. *)
Record VerifyCall := {
  vc_response : AuthenticatedOperationResponse;
  vc_open_session : OpenSession;
  vc_operation : OperationBinding;
  vc_key : SessionKey;
  vc_now : Z
}.

Definition verify_call (call : VerifyCall) :
    SE CoordinatorResponseVerifier AuthenticationError ExecutorOutcome :=
  verify_next (vc_response call) (vc_open_session call) (vc_operation call) (vc_key call)
    (vc_now call).

(** Calls in any order, on any responses: the accepted ones and the final
    state.  A refused call does not stop the caller from trying again. *)
Fixpoint run_calls (self : CoordinatorResponseVerifier) (calls : list VerifyCall) :
    list VerifyCall * CoordinatorResponseVerifier :=
  match calls with
  | [] => ([], self)
  | call :: calls =>
      let '(r, self') := verify_call call self in
      let '(accepted, final) := run_calls self' calls in
      (if is_ok r then call :: accepted else accepted, final)
  end.

Lemma verify_call_Ok call self outcome self' :
  verify_call call self = (Ok outcome, self') <->
  response_verify (vc_response call) (vc_open_session call) (crv_next_sequence self)
    (vc_operation call) (vc_key call) (vc_now call) = Ok tt
  /\ rs_message_nonce (vc_response call) ∉ crv_seen_nonces self
  /\ crv_next_sequence self + 1 <= u64_max
  /\ outcome = rs_outcome (vc_response call)
  /\ self' = {| crv_next_sequence := crv_next_sequence self + 1;
                crv_seen_nonces := {[rs_message_nonce (vc_response call)]}
                  ∪ crv_seen_nonces self |}.
Proof.
  unfold verify_call, verify_next, u64_checked_add. cbv zeta.
  destruct (response_verify _ _ _ _ _ _) as [[]|]; [|naive_solver].
  case_bool_decide; [naive_solver|]. destruct (_ <=? _) eqn:Hle; bools; naive_solver lia.
Qed.

(** A refused call never moves to another sequence number and never forgets a
    nonce. *)
Lemma verify_call_Err call self e self' :
  verify_call call self = (Err e, self') ->
  crv_next_sequence self' = crv_next_sequence self
  /\ crv_seen_nonces self ⊆ crv_seen_nonces self'.
Proof.
  unfold verify_call, verify_next. cbv zeta.
  destruct (response_verify _ _ _ _ _ _) as [[]|]; [|intros [= _ <-]; done].
  case_bool_decide; [intros [= _ <-]; done|].
  destruct (u64_checked_add _ _); [done|]. intros [= _ <-]. cbn. set_solver.
Qed.

Lemma run_calls_spec calls : forall self accepted final,
  run_calls self calls = (accepted, final) ->
  (forall i call, accepted !! i = Some call ->
    response_verify (vc_response call) (vc_open_session call)
      (crv_next_sequence self + Z.of_nat i) (vc_operation call) (vc_key call) (vc_now call) = Ok tt
    /\ rs_message_nonce (vc_response call) ∉ crv_seen_nonces self)
  /\ NoDup ((fun call => rs_message_nonce (vc_response call)) <$> accepted).
Proof.
  induction calls as [|call calls IH]; intros self accepted final; cbn [run_calls].
  { intros [= <- <-]. split; [by intros ? ?|constructor]. }
  destruct (verify_call call self) as [r self1] eqn:Hc.
  destruct (run_calls self1 calls) as [acc fin] eqn:Hr. intros [= <- <-].
  destruct (IH _ _ _ Hr) as [Hall Hnd]. destruct r as [outcome|e]; cbn [is_ok].
  - apply verify_call_Ok in Hc as (Hv & Hn & _ & _ & ->). cbn in Hall. split.
    + intros [|i] c; cbn; [intros [= <-]; by rewrite Z.add_0_r|]. intros [Hv' Hn']%Hall.
      replace (crv_next_sequence self + Z.of_nat (S i)) with (crv_next_sequence self + 1 + Z.of_nat i)
        by lia. split; [done | set_solver].
    + rewrite fmap_cons. constructor; [|done].
      intros (c & Hnc & [i Hi]%list_elem_of_lookup)%list_elem_of_fmap.
      apply Hall in Hi as [_ Hi]. rewrite <- Hnc in Hi. set_solver.
  - apply verify_call_Err in Hc as [Hs Hn]. rewrite Hs in Hall. split; [|done].
    intros i c [? ?]%Hall. split; [done | set_solver].
Qed.

(** What an accepted response is: it speaks this protocol version, carries the
    keyed blake3 MAC of its own fields under the session key, has the given
    sequence number, answers the operation that was asked in the session,
    execution and plan of the opened session, and is in time. *)
Lemma response_verify_Ok (response : AuthenticatedOperationResponse)
    (open_session : OpenSession) sequence operation key now :
  response_verify response open_session sequence operation key now = Ok tt ->
  (rs_protocol_version response = PROTOCOL_VERSION /\ rs_schema_version response = SCHEMA_VERSION)
  /\ (exists encoded, to_vec (rs_material response) = Ok encoded
      /\ rs_mac response = blake3_keyed key (RESPONSE_MAC_DOMAIN ++ encoded))
  /\ rs_sequence response = sequence
  /\ rs_operation response = operation
  /\ rs_session_id response = os_session_id open_session
  /\ rs_execution_id response = os_execution_id open_session
  /\ rs_plan_id response = os_plan_id open_session
  /\ rs_plan_digest response = os_plan_digest open_session
  /\ 0 <= rs_sent_at_unix_ms response < rs_expires_at_unix_ms response
  /\ now < rs_expires_at_unix_ms response <= os_expires_at_unix_ms open_session
  /\ i64_saturating_sub now 30000 <= rs_sent_at_unix_ms response <= i64_saturating_add now 30000
  /\ i64_saturating_sub (rs_expires_at_unix_ms response) (rs_sent_at_unix_ms response) <= 30000
  /\ match rs_outcome response with
     | OutSuccess applied_at _ audit => 0 <= applied_at
         /\ eaa_attempt_count audit <> 0 /\ eaa_attempt_count audit <= 3
     | OutProvenNotApplied _ _ audit | OutRecoveryRequired _ _ audit =>
         eaa_attempt_count audit <> 0 /\ eaa_attempt_count audit <= 3
     | OutProtocolRefusal _ => True
     end.
Proof.
  intros (u & Hv%require_versions_Ok & (mac & Hm%keyed_mac_Ok & (u2 & <-%require_mac_Ok &
    ([] & Ho%map_err_Ok & (u3 & Hout%map_err_Ok & (u4 & Hz%reject_if_Ok &
    (u5 & Hs%reject_if_Ok & Ht%validate_message_time_Ok)%bind_Ok)%bind_Ok)%bind_Ok)%bind_Ok)
    %bind_Ok)%bind_Ok)%bind_Ok.
  unfold within_clock_window, MAX_CLOCK_SKEW_MS, MAX_MESSAGE_LIFETIME_MS in Ht.
  assert (match rs_outcome response with
     | OutSuccess applied_at _ audit => 0 <= applied_at
         /\ eaa_attempt_count audit <> 0 /\ eaa_attempt_count audit <= 3
     | OutProvenNotApplied _ _ audit | OutRecoveryRequired _ _ audit =>
         eaa_attempt_count audit <> 0 /\ eaa_attempt_count audit <= 3
     | OutProtocolRefusal _ => True
     end) as Haudit.
  { destruct (rs_outcome response); cbn [validate_outcome] in Hout; [| | |done].
    - destruct (_ <? 0) eqn:Hn; [done|]. apply reject_if_Ok in Hout. bools. lia.
    - apply bind_Ok in Hout as (? & _ & Hout%reject_if_Ok). bools. lia.
    - apply bind_Ok in Hout as (? & _ & Hout%reject_if_Ok). bools. lia. }
  bools. naive_solver lia.
Qed.

(** C26: No replay, no reordering, no gap, no forgery: whatever responses a
    coordinator feeds to a fresh verifier, and in whatever order, the accepted
    ones carry the sequence numbers 1, 2, 3, ... in the order of acceptance and
    pairwise distinct nonces, each is the keyed blake3 MAC of its own fields
    under the session key, answers the operation that was asked in the session,
    execution and plan of the opened session, and was sent within half a minute
    of the clock, for at most half a minute and not beyond the session. *)
Theorem accepted_responses_in_order calls accepted final :
  run_calls crv_new calls = (accepted, final) ->
  NoDup ((fun call => rs_message_nonce (vc_response call)) <$> accepted)
  /\ (forall i call, accepted !! i = Some call ->
    let response := vc_response call in
    let open_session := vc_open_session call in
    (rs_protocol_version response = 2 /\ rs_schema_version response = 2)
    /\ (exists encoded, to_vec (rs_material response) = Ok encoded
        /\ rs_mac response = blake3_keyed (vc_key call) (RESPONSE_MAC_DOMAIN ++ encoded))
    /\ rs_sequence response = 1 + Z.of_nat i
    /\ rs_operation response = vc_operation call
    /\ rs_session_id response = os_session_id open_session
    /\ rs_execution_id response = os_execution_id open_session
    /\ rs_plan_id response = os_plan_id open_session
    /\ rs_plan_digest response = os_plan_digest open_session
    /\ 0 <= rs_sent_at_unix_ms response < rs_expires_at_unix_ms response
    /\ vc_now call < rs_expires_at_unix_ms response <= os_expires_at_unix_ms open_session
    /\ i64_saturating_sub (vc_now call) 30000 <= rs_sent_at_unix_ms response
         <= i64_saturating_add (vc_now call) 30000
    /\ i64_saturating_sub (rs_expires_at_unix_ms response) (rs_sent_at_unix_ms response) <= 30000
    /\ match rs_outcome response with
       | OutSuccess applied_at _ audit => 0 <= applied_at
           /\ eaa_attempt_count audit <> 0 /\ eaa_attempt_count audit <= 3
       | OutProvenNotApplied _ _ audit | OutRecoveryRequired _ _ audit =>
           eaa_attempt_count audit <> 0 /\ eaa_attempt_count audit <= 3
       | OutProtocolRefusal _ => True
       end).
Proof.
  intros H. destruct (run_calls_spec _ _ _ _ H) as [Hall Hnd]. split; [done|].
  intros i call Hi. apply Hall in Hi as [Hv _]. by apply response_verify_Ok in Hv.
Qed.
End auth.

(** ** Witnesses *)

#[local] Existing Instances sample_uuid sample_blake3.

#[export] Instance SessionKeyMaterial_eq_dec : EqDecision SessionKeyMaterial.
Proof. solve_decision. Defined.

Definition sample_key : bytes32 := fill 32 x21.

(** The sample envelope with the attestation of the coordinator. *)
Definition sample_binding : ConsentAttestationBinding := from_envelope sample_envelope.

Definition sample_attestation : FixedBytes32 :=
  blake3_keyed (derive_consent_authority_key sample_key)
    (CONSENT_ATTESTATION_MAC_DOMAIN ++ [x7b; x7d]).

Definition sample_attested : ImmutableExecutionEnvelope := {|
  iee_schema_version := iee_schema_version sample_envelope;
  iee_execution_id := iee_execution_id sample_envelope;
  iee_root_id := iee_root_id sample_envelope;
  iee_plan := iee_plan sample_envelope;
  iee_root_binding := iee_root_binding sample_envelope;
  iee_safety_policy_binding := iee_safety_policy_binding sample_envelope;
  iee_consent := {|
    acm_issued_at_unix_ms := acm_issued_at_unix_ms (iee_consent sample_envelope);
    acm_expires_at_unix_ms := acm_expires_at_unix_ms (iee_consent sample_envelope);
    acm_attested_at_unix_ms := acm_attested_at_unix_ms (iee_consent sample_envelope);
    acm_consent_nonce := acm_consent_nonce (iee_consent sample_envelope);
    acm_attestation_mac := sample_attestation |};
  iee_operations := iee_operations sample_envelope
|}.

Definition sample_session_key_material : SessionKeyMaterial := {|
  skm_protocol_version := 2; skm_schema_version := 2; skm_worker_pid := 10;
  skm_coordinator_pid := 20; skm_worker_nonce := fill 32 x51; skm_coordinator_nonce := fill 32 x52;
  skm_session_id := fill 32 x53; skm_execution_id := iee_execution_id sample_attested;
  skm_plan_id := fpm_plan_id (iee_plan sample_attested);
  skm_plan_digest := fpm_digest (iee_plan sample_attested); skm_authorization := AuthForward
|}.

(** A serialiser that tells sequence numbers apart, and knows one consent and
    one key material. *)
#[local] Instance sample_auth_serde : AuthSerde := {|
  as_hello _ := Ok [x7b; x7d];
  as_open _ := Ok [x7b; x7d];
  as_opened _ := Ok [x7b; x7d];
  as_key := single_to_vec sample_session_key_material;
  as_request r := Ok (le_bytes 8 (rq_sequence r));
  as_response r := Ok (le_bytes 8 (rs_sequence r));
  as_refusal _ := Ok [x7b; x7d];
  as_consent := single_to_vec sample_binding
|}.

(** The value of a computation that succeeds. *)
Definition the {E A} (m : res E A) (default : A) : A :=
  match m with Ok a => a | Err _ => default end.

Definition sample_hello : Hello :=
  the (hello_signed 10 (fill 32 x51) 5000 sample_key)
    {| hello_material := {| hello_protocol_version := 0; hello_schema_version := 0;
         hello_worker_pid := 0; hello_worker_nonce := fill 32 x00; hello_issued_at_unix_ms := 0 |};
       hello_mac := fill 32 x00 |}.

Definition sample_signed_session : res AuthenticationError OpenSession :=
  open_session_signed (hello_worker_pid sample_hello) 20 (hello_worker_nonce sample_hello)
    (fill 32 x52) (fill 32 x53) 5000 600000 AuthForward sample_attested sample_key.

Definition sample_session : OpenSession :=
  the sample_signed_session
    {| os_material := {| os_protocol_version := 0; os_schema_version := 0; os_child_pid := 0;
         os_coordinator_pid := 0; os_worker_nonce := fill 32 x00;
         os_coordinator_nonce := fill 32 x00; os_session_id := fill 32 x00; os_execution_id := [];
         os_plan_id := []; os_plan_digest := fill 32 x00; os_issued_at_unix_ms := 0;
         os_expires_at_unix_ms := 0; os_authorization := AuthForward;
         os_envelope := sample_attested |};
       os_mac := fill 32 x00 |}.

Lemma sample_session_signed : sample_signed_session = Ok sample_session.
Proof. vm_compute. reflexivity. Qed.

Lemma signed_session_is_accepted_witness :
  open_session_verify sample_session sample_hello sample_key 6000 = Ok tt.
Proof.
  exact (signed_session_is_accepted sample_hello 20 (fill 32 x52) (fill 32 x53) 5000 600000
    AuthForward sample_attested sample_key sample_session 6000 sample_session_signed
    eq_refl eq_refl).
Defined.

Definition sample_operation : OperationBinding := {|
  ob_operation_id := uuid_to_string (uid x41);
  ob_direction := DirForward;
  ob_journal_intent := {| cjeb_database_sequence := 3; cjeb_database_event_digest := fill 32 x61;
    cjeb_external_sequence := 3; cjeb_external_event_digest := fill 32 x61 |}
|}.

Definition sample_session_key : SessionKey := fill 32 x71.

Definition sample_signed_request : res AuthenticationError AuthenticatedOperationRequest :=
  request_signed sample_session 1 (fill 32 x54) 7000 8000 sample_operation sample_session_key.

Definition sample_outcome : ExecutorOutcome :=
  OutSuccess 7200 (fill 32 x63) {| eaa_attempt_count := 1; eaa_error_class := None |}.

Definition sample_signed_response (sequence : Z) (nonce : byte) :
    res AuthenticationError AuthenticatedOperationResponse :=
  response_signed sample_session sequence (fill 32 nonce) 7000 8000 sample_operation
    sample_outcome sample_session_key.

Lemma signed_request_is_accepted_witness :
  match sample_signed_request with
  | Ok request => request_verify request sample_session 1 sample_session_key 7500 = Ok tt
  | Err _ => False
  end.
Proof.
  destruct sample_signed_request as [request|e] eqn:H; [|vm_compute in H; discriminate H].
  exact (signed_request_is_accepted sample_session 1 (fill 32 x54) 7000 8000 sample_operation
    sample_session_key request 7500 H eq_refl eq_refl).
Defined.

Lemma signed_response_is_accepted_witness :
  match sample_signed_response 1 x55 with
  | Ok response =>
      fst (verify_next response sample_session sample_operation sample_session_key 7500 crv_new)
        = Ok sample_outcome
  | Err _ => False
  end.
Proof.
  destruct (sample_signed_response 1 x55) as [response|e] eqn:H; [|vm_compute in H; discriminate H].
  exact (f_equal fst (signed_response_is_accepted sample_session crv_new (fill 32 x55) 7000 8000
    sample_operation sample_outcome sample_session_key response 7500 H eq_refl eq_refl
    (not_elem_of_empty _) eq_refl)).
Defined.

(** Two accepted answers; a replay and an answer out of order are refused. *)
Definition sample_calls : list VerifyCall :=
  match sample_signed_response 1 x55, sample_signed_response 2 x56 with
  | Ok first, Ok second =>
      let call response := {| vc_response := response; vc_open_session := sample_session;
        vc_operation := sample_operation; vc_key := sample_session_key; vc_now := 7500 |} in
      [call second; call first; call first; call second]
  | _, _ => []
  end.

Lemma accepted_responses_in_order_witness :
  (fun call => rs_sequence (vc_response call)) <$> fst (run_calls crv_new sample_calls) = [1; 2]
  /\ NoDup ((fun call => rs_message_nonce (vc_response call))
       <$> fst (run_calls crv_new sample_calls)).
Proof.
  split; [vm_compute; reflexivity|].
  exact (proj1 (accepted_responses_in_order sample_calls _ _ (surjective_pairing _))).
Defined.

Lemma attestation_binds_consent_witness :
  verify_envelope_consent sample_attested sample_key 6000 true = Ok tt
  /\ (from_envelope sample_attested = from_envelope sample_attested
      \/ exists l k, to_vec (from_envelope sample_attested) = Ok l
           /\ to_vec (from_envelope sample_attested) = Ok k
           /\ collides (blake3_keyed (derive_consent_authority_key sample_key))
                (CONSENT_ATTESTATION_MAC_DOMAIN ++ l) (CONSENT_ATTESTATION_MAC_DOMAIN ++ k)).
Proof.
  assert (verify_envelope_consent sample_attested sample_key 6000 true = Ok tt) as H
    by (vm_compute; reflexivity).
  split; [exact H|].
  exact (attestation_binds_consent (FS := single_from_slice sample_binding)
    (RT := single_roundtrip sample_binding) sample_attested sample_attested sample_key 6000 6000
    true true H H eq_refl).
Defined.

Lemma session_key_binds_handshake_witness :
  is_ok (derive_session_key sample_key sample_hello sample_session) = true
  /\ hello_worker_pid sample_hello = 10.
Proof.
  destruct (derive_session_key sample_key sample_hello sample_session) as [key|e] eqn:H;
    [|vm_compute in H; discriminate H].
  split; [reflexivity|].
  destruct (session_key_binds_handshake (SD := sample_auth_serde) (FS := single_from_slice sample_session_key_material)
    (RT := single_roundtrip sample_session_key_material) sample_key sample_hello sample_hello
    sample_session sample_session key H H) as [[Hpid _]|(l & k & Hl & Hk & Hne & _)].
  - vm_compute. reflexivity.
  - destruct Hne. congruence.
Defined.

(** A hash under which everything collides. *)
Definition constant_blake3 : Blake3 :=
  {| blake3_hash _ := fill 32 x00; blake3_keyed _ _ := fill 32 x00 |}.

Lemma mac_domains_separate_witness :
  exists l k, collides (@blake3_keyed constant_blake3 sample_key)
    (mac_domain "request-mac" ++ l) (mac_domain "response-mac" ++ k).
Proof.
  assert ("request-mac"%string ∈ mac_names) as H1 by (vm_compute; by repeat constructor).
  assert ("response-mac"%string ∈ mac_names) as H2 by (vm_compute; by repeat constructor).
  assert ("request-mac"%string <> "response-mac"%string) as H3 by done.
  pose (TV := (fun _ => Ok []) : ToVec nat).
  destruct (@mac_domains_separate constant_blake3 nat nat TV TV "request-mac" "response-mac"
    sample_key 0%nat 0%nat (fill 32 x00) H1 H2 H3 eq_refl eq_refl) as (l & k & _ & _ & Hc).
  by exists l, k.
Defined.
