(* ===== verification/ExecClient.v ===== *)
(** * Identities of executor sessions and requests

    crates/application/src/approved_executor.rs and the records of
    crates/domain/src/execution.rs it fills: how a request gets an identity
    before it is dispatched, and how a response is bound to it. *)

From S2P Require Export Planning ExecManifest Json.
#[local] Open Scope Z_scope.

Record ExecutorSessionIdentity := {
  esi_session_id : str;
  esi_execution_id : ExecutionId;
  esi_plan_id : PlanId;
  esi_plan_digest_hex : str;
  esi_purpose : ExecutorSessionPurpose;
  esi_coordinator_pid : Z;
  esi_child_pid : option Z;
  esi_worker_nonce_hash_hex : str;
  esi_coordinator_nonce_hash_hex : str;
  esi_response_nonce_hash_hex : option str;
  esi_opened_at_unix_ms : Z
}.

Record ExecutorRequestIdentity := {
  eri_request_id : str;
  eri_session_id : str;
  eri_execution_id : ExecutionId;
  eri_operation_id : OperationStepId;
  eri_direction : ExecutorRequestDirection;
  eri_request_sequence : Z;
  eri_request_nonce : bytes32;
  eri_request_digest_hex : str
}.

(** [ExecutorSessionFact] has the fields of the identity. *)
Notation ExecutorSessionFact := ExecutorSessionIdentity.

Record ExecutorRequestFact := {
  erf_request_id : str;
  erf_session_id : str;
  erf_operation_id : OperationStepId;
  erf_direction : ExecutorRequestDirection;
  erf_request_sequence : Z;
  erf_request_nonce_hash_hex : str;
  erf_request_digest_hex : str;
  erf_intent_event_sequence : Z;
  erf_intent_event_digest_hex : str;
  erf_state : ExecutorRequestState;
  erf_response_digest_hex : option str;
  erf_outcome_class : option str;
  erf_attempt_count : option Z;
  erf_error_class : option str
}.

Inductive ExecutionFailureCategory := EfcIsolated | EfcDependency | EfcCritical.
Definition failure_category_name (self : ExecutionFailureCategory) : str :=
  match self with
  | EfcIsolated => lit "isolated_failure"
  | EfcDependency => lit "dependency_failure"
  | EfcCritical => lit "critical_execution_failure"
  end.

Record ExecutorDispatchResult := {
  edr_outcome : ExecutorOutcome;
  edr_response_digest_hex : str
}.

#[export] Instance ExecutorSessionPurpose_eq_dec : EqDecision ExecutorSessionPurpose.
Proof. solve_decision. Defined.
#[export] Instance ExecutorRequestDirection_eq_dec : EqDecision ExecutorRequestDirection.
Proof. solve_decision. Defined.
#[export] Instance ExecutorSessionIdentity_eq_dec : EqDecision ExecutorSessionIdentity.
Proof. solve_decision. Defined.
#[export] Instance ExecutorRequestIdentity_eq_dec : EqDecision ExecutorRequestIdentity.
Proof. solve_decision. Defined.

(** ** What is hashed *)

Record CanonicalRequestMaterial := {
  crm_material_version : Z;
  crm_session_id : str;
  crm_execution_id : ExecutionId;
  crm_plan_id : PlanId;
  crm_plan_digest_hex : str;
  crm_operation_id : OperationStepId;
  crm_direction : ExecutorRequestDirection;
  crm_request_sequence : Z;
  crm_request_id : str;
  crm_request_nonce : bytes32
}.
#[export] Instance CanonicalRequestMaterial_eq_dec : EqDecision CanonicalRequestMaterial.
Proof. solve_decision. Defined.

Record CanonicalResponseMaterial := {
  cresp_material_version : Z;
  cresp_request_id : str;
  cresp_request_digest_hex : str;
  cresp_outcome : ExecutorOutcome
}.

(** [getrandom::fill] on 32 bytes, and the process and its clock. *)
Class ClientHost (W : Type) : Type := {
  fill_random : SE W str bytes32;
  process_id : Z;
  (* milliseconds since 1970, or the text of the error before *)
  system_millis : W -> res str Z * W
}.

Definition NONCE_HASH_DOMAIN : bytes := bstr "com.workingname.operation-executor/nonce-hash/v1" ++ [x00].
Definition REQUEST_ID_DOMAIN : bytes := bstr "com.workingname.operation-executor/request-id/v1" ++ [x00].

Section client.
Context `{B3 : Blake3} `{BH : Blake3Hex} `{UU : UuidCrate}.
Context `{TR : ToVec CanonicalRequestMaterial} `{TP : ToVec CanonicalResponseMaterial}.

Definition executor_nonce_hash (nonce : bytes32) : str :=
  hash_to_hex (blake3_hash (NONCE_HASH_DOMAIN ++ barr nonce)).

Definition request_id_input (session_id : str) (request_sequence : Z) (request_nonce : bytes32) :
    bytes :=
  REQUEST_ID_DOMAIN ++ utf8 session_id ++ le_bytes 8 request_sequence ++ barr request_nonce.

Definition request_id (session : ExecutorSessionIdentity) (request_sequence : Z)
    (request_nonce : bytes32) : str :=
  hash_to_hex (blake3_hash (request_id_input (esi_session_id session) request_sequence request_nonce)).

Definition request_direction (direction : OperationDirection) : ExecutorRequestDirection :=
  match direction with DirForward => ErdForward | DirRollback => ErdRollback end.

Definition request_material (session : ExecutorSessionIdentity) (operation_id : OperationStepId)
    (direction : ExecutorRequestDirection) (request_sequence : Z) (request_nonce : bytes32) :
    CanonicalRequestMaterial := {|
  crm_material_version := 1;
  crm_session_id := esi_session_id session;
  crm_execution_id := esi_execution_id session;
  crm_plan_id := esi_plan_id session;
  crm_plan_digest_hex := esi_plan_digest_hex session;
  crm_operation_id := operation_id;
  crm_direction := direction;
  crm_request_sequence := request_sequence;
  crm_request_id := request_id session request_sequence request_nonce;
  crm_request_nonce := request_nonce
|}.

Definition prepare_executor_request_identity (session : ExecutorSessionIdentity)
    (operation_id : OperationStepId) (direction : OperationDirection) (request_sequence : Z)
    (request_nonce : bytes32) : res ApprovedExecutorError ExecutorRequestIdentity :=
  reject_if ((request_sequence =? 0) || is_zero request_nonce)
    (AxAmbiguous (lit "executor request identity is invalid"));;
  let direction := request_direction direction in
  encoded ← map_err (fun _ => AxAmbiguous (lit "request serialization failed"))
    (to_vec (request_material session operation_id direction request_sequence request_nonce));
  Ok {| eri_request_id := request_id session request_sequence request_nonce;
        eri_session_id := esi_session_id session;
        eri_execution_id := esi_execution_id session;
        eri_operation_id := operation_id;
        eri_direction := direction;
        eri_request_sequence := request_sequence;
        eri_request_nonce := request_nonce;
        eri_request_digest_hex := hash_to_hex (blake3_hash encoded) |}.

Definition executor_response_digest (request : ExecutorRequestIdentity) (outcome : ExecutorOutcome) :
    res ApprovedExecutorError str :=
  encoded ← map_err (fun _ => AxAmbiguous (lit "response serialization failed"))
    (to_vec {| cresp_material_version := 1;
               cresp_request_id := eri_request_id request;
               cresp_request_digest_hex := eri_request_digest_hex request;
               cresp_outcome := outcome |});
  Ok (hash_to_hex (blake3_hash encoded)).

Context {W : Type} `{CH : ClientHost W}.

(** [fresh_bytes]: the loop draws again when all bytes are zero; [draws] bounds
    the draws. *)
Fixpoint fresh_bytes (draws : nat) : SE W (Abrupt ApprovedExecutorError) bytes32 :=
  match draws with
  | O => se_fail Panicked
  | S draws =>
      drawn ← se_map_err (fun text => Failed (AxUnavailable text)) fill_random;
      if negb (is_zero drawn) then mret drawn else fresh_bytes draws
  end.

Definition client_now_unix_ms : SE W (Abrupt ApprovedExecutorError) Z := fun w =>
  let '(millis, w') := system_millis w in
  (millis ← map_err (fun text => Failed (AxUnavailable text)) millis;
   ok_or (i64_try_from millis)
     (Failed (AxUnavailable (lit "out of range integral type conversion attempted"))), w').

Definition synthetic_executor_session_identity (draws : nat)
    (envelope : ImmutableExecutionEnvelope) (authorization : SessionAuthorization) :
    SE W (Abrupt ApprovedExecutorError) ExecutorSessionIdentity :=
  session_nonce ← fresh_bytes draws;
  worker_nonce ← fresh_bytes draws;
  coordinator_nonce ← fresh_bytes draws;
  execution_id ← se_lift (ok_or (uuid_parse (iee_execution_id envelope))
    (Failed (AxUnavailable (lit "invalid execution id"))));
  plan_id ← se_lift (ok_or (uuid_parse (fpm_plan_id (iee_plan envelope)))
    (Failed (AxUnavailable (lit "invalid plan id"))));
  opened_at ← client_now_unix_ms;
  mret {| esi_session_id := encode_hex (barr session_nonce);
          esi_execution_id := execution_id;
          esi_plan_id := plan_id;
          esi_plan_digest_hex := encode_hex (barr (fpm_digest (iee_plan envelope)));
          esi_purpose := match authorization with
            | AuthForward => EspForward
            | AuthRollback _ => EspRollback
            end;
          esi_coordinator_pid := process_id;
          esi_child_pid := None;
          esi_worker_nonce_hash_hex := executor_nonce_hash worker_nonce;
          esi_coordinator_nonce_hash_hex := executor_nonce_hash coordinator_nonce;
          esi_response_nonce_hash_hex := None;
          esi_opened_at_unix_ms := opened_at |}.

(** ** Properties *)

(** A drawn nonce is never zero, and the first draw that is not zero is taken. *)
Lemma fresh_bytes_not_zero draws : returns (fresh_bytes draws) (fun drawn => is_zero drawn = false).
Proof.
  induction draws as [|draws IH]; cbn [fresh_bytes]; [apply returns_fail|].
  eapply returns_bind; [apply returns_any|]. intros drawn _.
  destruct (is_zero drawn) eqn:Hz; cbn [negb]; [done|by apply returns_ret].
Qed.
End client.
