(* ===== verification/Tables.v ===== *)
(** * The tables of an execution

    migrations/0008, 0011, 0014, 0015 and 0018: the rows of the tables that
    crates/persistence/src/execution.rs reads and writes, the constraints of
    the schema, and the statements and transactions built from them.

    A table is the list of its rows in the order they were inserted.  A column
    holds the value its text stands for: the columns of states are the
    enumerations whose names Columns.v shows to be read back, identifiers and
    digests are what their hexadecimal text decodes to, and a JSON column is
    the value serde_json writes there, whose text only matters for its length.
    A statement that would break a constraint fails and changes nothing. *)

From S2P Require Export Columns Json ExecClient.
#[local] Open Scope Z_scope.

(** ** Rows *)

Record SessionPlan := {
  spl_plan_id : PlanId;
  spl_proposal_id : ProposalId;
  spl_proposal_revision_id : OrganizationRevisionId;
  spl_proposal_revision : Z;
  spl_workspace_id : WorkspaceId;
  spl_root_id : RootId;
  spl_source_scan_id : ScanId;
  spl_plan_digest : str;
  spl_approved_operation_count : Z;
  spl_affected_file_count : Z;
  spl_folder_count : Z;
  spl_move_count : Z;
  spl_rename_count : Z;
  spl_unchanged_count : Z;
  spl_conflict_count : Z;
  spl_needs_review_count : Z;
  spl_preflight_ok_count : Z;
  spl_confirmation_phrase_required : bool;
  spl_created_at : str
}.

Record SessionCounts := {
  sct_blocked : Z; sct_skipped : Z; sct_applied : Z; sct_failed : Z;
  sct_rolled_back : Z; sct_rollback_blocked : Z; sct_rollback_failed : Z
}.

Record SessionControl := {
  scl_user_confirmed : bool;
  scl_rollback_available : bool;
  scl_pause_requested : bool;
  scl_cancel_requested : bool;
  scl_current_operation : option str;
  scl_approved_at : option str;
  scl_started_at : option str;
  scl_completed_at : option str;
  scl_rolled_back_at : option str;
  scl_error_message : option str
}.

(** [local_execution_sessions] *)
Record SessionRow := {
  ssr_id : ExecutionId;
  ssr_plan : SessionPlan;
  ssr_status : OrganizationExecutionStatus;
  ssr_recovery_state : ExecutionRecoveryState;
  ssr_counts : SessionCounts;
  ssr_control : SessionControl;
  ssr_journal_sequence : Z;
  ssr_journal_chain_head : option bytes32
}.

(** [local_execution_approval_snapshots] *)
Record SnapshotRow := {
  snr_execution_id : ExecutionId;
  snr_plan_id : PlanId;
  snr_proposal_id : ProposalId;
  snr_proposal_revision_id : OrganizationRevisionId;
  snr_proposal_revision : Z;
  snr_source_snapshot_version : ScanId;
  snr_approved_operation_ids : list ProposalItemId;
  snr_operation_count : Z;
  snr_user_confirmed : bool;
  snr_frozen_at : str;
  snr_approved_at : option str;
  snr_snapshot_digest : str
}.

(** [local_execution_consents] *)
Record ConsentRow := {
  cnr_execution_id : ExecutionId;
  cnr_material_version : Z;
  cnr_consent : ExecutionConsent;
  cnr_safety_policy : ExecutionSafetyPolicyBinding;
  cnr_destination_root : ExecutionRootBinding;
  cnr_state_changed_at_unix_ms : Z
}.

(** [local_execution_operations]: a row has the fields of the operation. *)
Notation OperationRow := ExecutionOperation.

(** [local_execution_journal] *)
Record JournalRow := {
  jnr_execution_id : ExecutionId;
  jnr_sequence_number : Z;
  jnr_operation_id : option OperationStepId;
  jnr_event_kind : JournalEventKind;
  jnr_canonical_data : str;
  jnr_payload_digest : bytes32;
  jnr_previous_entry_digest : option bytes32;
  jnr_entry_digest : bytes32;
  jnr_occurred_at_unix_ms : Z;
  jnr_created_at : str
}.

(** [local_executor_sessions] *)
Notation ExecutorSessionRow := ExecutorSessionIdentity.

(** [local_executor_requests] *)
Record RequestRow := {
  rqr_request : ExecutorRequestIdentity;
  rqr_intent_event_sequence : Z;
  rqr_intent_event_digest : bytes32;
  rqr_state : ExecutorRequestState;
  rqr_response_digest : option str;
  rqr_outcome_class : option str;
  rqr_attempt_count : option Z;
  rqr_error_class : option str;
  rqr_prepared_at : str;
  rqr_response_recorded_at : option str;
  rqr_proof_recorded_at : option str
}.

(** [local_execution_rollback_records] *)
Record RollbackRow := {
  rbr_execution_id : ExecutionId;
  rbr_operation_id : OperationStepId;
  rbr_rollback_order : Z;
  rbr_source_relative_path : str;
  rbr_destination_relative_path : str;
  rbr_expected_fingerprint : option FileFingerprint;
  rbr_prepared_at : str
}.

(** [local_execution_recovery] *)
Record RecoveryRow := {
  rcr_execution_id : ExecutionId;
  rcr_recovery_state : ExecutionRecoveryState;
  rcr_not_started_count : Z;
  rcr_applied_count : Z;
  rcr_ambiguous_count : Z;
  rcr_details : str;
  rcr_assessed_at : str;
  rcr_resolved_at : option str
}.

(** [local_execution_errors] *)
Record ErrorRow := {
  err_id : uuid;
  err_execution_id : ExecutionId;
  err_operation_id : option OperationStepId;
  err_category : str;
  err_code : str;
  err_user_message : str;
  err_technical_details : option str;
  err_created_at : str
}.

(** [local_execution_retention] *)
Record RetentionRow := {
  rtn_execution_id : ExecutionId;
  rtn_finalized_at : option str;
  rtn_journal_retention_reason : str;
  rtn_rollback_retention_reason : str;
  rtn_minimum_retain_until : option str;
  rtn_active_recovery : bool;
  rtn_rollback_eligible : bool;
  rtn_cleanup_eligible_at : option str;
  rtn_cleanup_eligibility_reason : str;
  rtn_updated_at : str
}.

(** What the other modules of the crate write and this one only reads. *)
Record ProposalRow := {
  ppr_id : ProposalId;
  ppr_status : str;
  ppr_current_revision_id : OrganizationRevisionId
}.
Record RevisionRow := { rvr_id : OrganizationRevisionId; rvr_revision_number : Z }.
Record ProposalOperationRow := {
  por_id : ProposalItemId;
  por_revision_id : OrganizationRevisionId;
  por_operation_kind : str;
  por_source_relative_path : str;
  por_proposed_destination : list str;
  por_proposed_name : str;
  por_user_override : bool
}.

Record Db := {
  db_sessions : list SessionRow;
  db_snapshots : list SnapshotRow;
  db_consents : list ConsentRow;
  db_operations : list OperationRow;
  db_journal : list JournalRow;
  db_executor_sessions : list ExecutorSessionRow;
  db_requests : list RequestRow;
  db_rollback_records : list RollbackRow;
  db_recovery : list RecoveryRow;
  db_errors : list ErrorRow;
  db_retention : list RetentionRow;
  db_proposals : list ProposalRow;
  db_revisions : list RevisionRow;
  db_proposal_operations : list ProposalOperationRow;
  db_workspaces : list WorkspaceId;
  db_roots : list RootId;
  db_scans : list ScanId
}.

(** ** Constraints *)

(** The text serde_json writes for a value. *)
Class JsonText (A : Type) : Type := json_text : A -> option str.

Definition within (low high : Z) (text : str) : bool := (low <=? zlen text) && (zlen text <=? high).
Definition every {A} (ok : A -> bool) (value : option A) : bool :=
  match value with Some a => ok a | None => true end.
Definition unique {A} `{EqDecision A} (keys : list A) : bool := bool_decide (NoDup keys).
Definition known {A} `{EqDecision A} (key : A) (keys : list A) : bool := bool_decide (key ∈ keys).
Definition json_within {A} `{JsonText A} (high : Z) (value : A) : bool :=
  match json_text value with Some text => zlen text <=? high | None => false end.

Definition session_check (row : SessionRow) : bool :=
  let plan := ssr_plan row in
  let control := ssr_control row in
  (0 <? spl_proposal_revision plan) && within 64 64 (spl_plan_digest plan)
  && forallb (Z.leb 0) [spl_approved_operation_count plan; spl_affected_file_count plan;
       spl_folder_count plan; spl_move_count plan; spl_rename_count plan; spl_unchanged_count plan;
       spl_conflict_count plan; spl_needs_review_count plan; spl_preflight_ok_count plan;
       sct_blocked (ssr_counts row); sct_skipped (ssr_counts row); sct_applied (ssr_counts row);
       sct_failed (ssr_counts row); sct_rolled_back (ssr_counts row);
       sct_rollback_blocked (ssr_counts row); sct_rollback_failed (ssr_counts row)]
  && (-1 <=? ssr_journal_sequence row)
  && (bool_decide (scl_approved_at control = None) || scl_user_confirmed control)
  && every (within 0 4096) (scl_current_operation control)
  && every (within 0 2048) (scl_error_message control).

(** The states of an execution that is not over. *)
Definition active_status (status : OrganizationExecutionStatus) : bool :=
  bool_decide (status ∈ [OesPrepared; OesAwaitingConfirmation; OesApproved; OesRunning; OesPaused;
    OesRecoveryRequired; OesRecoveryAvailable; OesRecoveryAmbiguous; OesRollingBack]).

Definition snapshot_check `{JsonText (list ProposalItemId)} (row : SnapshotRow) : bool :=
  (0 <? snr_proposal_revision row) && (0 <=? snr_operation_count row)
  && within 64 64 (snr_snapshot_digest row)
  && json_within 16777216 (snr_approved_operation_ids row)
  && (bool_decide (snr_approved_at row = None) || snr_user_confirmed row).

(** The challenge is complete or absent, and so is the attestation. *)
Definition challenge_check (consent : ExecutionConsent) : bool :=
  match ec_issued_at_unix_ms consent, ec_expires_at_unix_ms consent, ec_nonce consent with
  | None, None, None => true
  | Some issued, Some expires, Some _ => issued <? expires
  | _, _, _ => false
  end.
Definition attestation_check (consent : ExecutionConsent) : bool :=
  match ec_attested_at_unix_ms consent, ec_attestation_mac consent with
  | None, None => true
  | Some attested, Some _ =>
      match ec_issued_at_unix_ms consent, ec_expires_at_unix_ms consent with
      | Some issued, Some expires => (issued <=? attested) && (attested <=? expires)
      | _, _ => false
      end
  | _, _ => false
  end.
Definition consent_state_check (consent : ExecutionConsent) : bool :=
  let absent (value : option Z) := bool_decide (value = None) in
  let issued := negb (absent (ec_issued_at_unix_ms consent)) in
  let attested := negb (absent (ec_attested_at_unix_ms consent)) in
  match ec_state consent with
  | EcsPending => negb attested && absent (ec_consumed_at_unix_ms consent)
      && absent (ec_invalidated_at_unix_ms consent)
  | EcsAttested => issued && attested && absent (ec_consumed_at_unix_ms consent)
      && absent (ec_invalidated_at_unix_ms consent)
  | EcsConsumed => issued
      && match ec_attested_at_unix_ms consent, ec_consumed_at_unix_ms consent with
         | Some attested, Some consumed => attested <=? consumed
         | _, _ => false
         end
      && absent (ec_invalidated_at_unix_ms consent)
  | EcsExpired => issued && absent (ec_consumed_at_unix_ms consent)
      && absent (ec_invalidated_at_unix_ms consent)
  | EcsInvalidated => absent (ec_consumed_at_unix_ms consent)
      && negb (absent (ec_invalidated_at_unix_ms consent))
      && negb (bool_decide (ec_invalidation_reason consent = None))
  end.

Definition consent_check `{JsonText VolumeIdentity} (row : ConsentRow) : bool :=
  let policy := cnr_safety_policy row in
  let root := cnr_destination_root row in
  (0 <? cnr_material_version row)
  && within 1 64 (espb_version policy) && within 64 64 (espb_digest_hex policy)
  && (0 <? espb_maximum_rehash_bytes policy)
  && (espb_maximum_rehash_bytes policy <=? MAX_EXECUTION_VERIFICATION_BYTES)
  && (1 <=? zlen (np_bytes (erb_canonical_path root)))
  && (zlen (np_bytes (erb_canonical_path root)) <=? 32768)
  && within 1 4096 (erb_display_path root) && json_within 4096 (erb_volume root)
  && every (within 0 256) (ec_invalidation_reason (cnr_consent row))
  && challenge_check (cnr_consent row) && attestation_check (cnr_consent row)
  && consent_state_check (cnr_consent row).

Definition operation_check `{JsonText FileFingerprint} `{JsonText (list str)}
    `{JsonText (list OperationStepId)} (row : OperationRow) : bool :=
  every (Z.leb 0) (eo_expected_source_size row) && (0 <=? eo_sequence row)
  && every (within 1 4096) (eo_source_relative_path row)
  && within 1 4096 (eo_destination_relative_path row)
  && every (within 1 4096) (eo_original_source_relative_path row)
  && every (within 64 64) (eo_expected_source_hash row)
  && every (json_within 32768) (eo_live_fingerprint row)
  && every (json_within 32768) (eo_post_fingerprint row)
  && json_within 32768 (eo_preconditions row) && json_within 32768 (eo_dependencies row)
  && every (within 0 1024) (eo_reason row) && every (within 0 128) (eo_error_code row)
  && every (within 0 2048) (eo_error_message row).

Definition journal_check (row : JournalRow) : bool :=
  (0 <=? jnr_sequence_number row) && within 0 16777216 (jnr_canonical_data row).

Definition executor_session_check (row : ExecutorSessionRow) : bool :=
  within 64 64 (esi_session_id row) && within 64 64 (esi_plan_digest_hex row)
  && (0 <? esi_coordinator_pid row) && every (Z.ltb 0) (esi_child_pid row)
  && within 64 64 (esi_worker_nonce_hash_hex row)
  && within 64 64 (esi_coordinator_nonce_hash_hex row)
  && every (within 64 64) (esi_response_nonce_hash_hex row) && (0 <=? esi_opened_at_unix_ms row).

Definition OUTCOME_CLASSES : list str :=
  [lit "success"; lit "proven_not_applied"; lit "recovery_required"; lit "protocol_refusal";
   lit "transport_ambiguous"].

Definition request_check (row : RequestRow) : bool :=
  let request := rqr_request row in
  let responded := negb (bool_decide (rqr_response_digest row = None)) in
  let recorded := negb (bool_decide (rqr_response_recorded_at row = None)) in
  within 64 64 (eri_request_id request) && (0 <? eri_request_sequence request)
  && within 64 64 (eri_request_digest_hex request) && (0 <=? rqr_intent_event_sequence row)
  && every (within 64 64) (rqr_response_digest row)
  && every (fun class => known class OUTCOME_CLASSES) (rqr_outcome_class row)
  && every (fun count => (1 <=? count) && (count <=? 3)) (rqr_attempt_count row)
  && every (within 1 128) (rqr_error_class row)
  && (negb (bool_decide (rqr_state row = IntentDurable)) || negb responded && negb recorded)
  && Bool.eqb responded recorded.

Definition rollback_check `{JsonText FileFingerprint} (row : RollbackRow) : bool :=
  (0 <=? rbr_rollback_order row) && within 1 4096 (rbr_source_relative_path row)
  && within 1 4096 (rbr_destination_relative_path row)
  && every (json_within 32768) (rbr_expected_fingerprint row).

Definition recovery_check (row : RecoveryRow) : bool :=
  (0 <=? rcr_not_started_count row) && (0 <=? rcr_applied_count row)
  && (0 <=? rcr_ambiguous_count row) && within 0 1048576 (rcr_details row).

Definition error_check (row : ErrorRow) : bool :=
  within 1 128 (err_code row) && within 1 1024 (err_user_message row)
  && every (within 0 8192) (err_technical_details row).

Definition retention_check (row : RetentionRow) : bool :=
  within 1 256 (rtn_journal_retention_reason row) && within 1 256 (rtn_rollback_retention_reason row)
  && within 1 256 (rtn_cleanup_eligibility_reason row)
  && (negb (rtn_active_recovery row)
      || bool_decide (rtn_cleanup_eligible_at row = None) && negb (rtn_rollback_eligible row)).

(** Keys, unique indexes and references of the schema. *)
Definition keys_check (db : Db) : bool :=
  unique (ssr_id <$> db_sessions db)
  && unique ((fun row => spl_plan_id (ssr_plan row)) <$> db_sessions db)
  && (length (filter (fun row => active_status (ssr_status row) = true) (db_sessions db)) <=? 1)%nat
  && unique (snr_execution_id <$> db_snapshots db) && unique (snr_plan_id <$> db_snapshots db)
  && unique (cnr_execution_id <$> db_consents db)
  && unique (eo_id <$> db_operations db)
  && unique ((fun row => (eo_execution_id row, eo_sequence row)) <$> db_operations db)
  && unique (omap (fun row => id ← eo_proposal_operation_id row;
       if bool_decide (eo_kind row = EokInternalStage) then None else Some (eo_execution_id row, id))
       (db_operations db))
  && unique ((fun row => (jnr_execution_id row, jnr_sequence_number row)) <$> db_journal db)
  && unique (esi_session_id <$> db_executor_sessions db)
  && unique ((fun row => eri_request_id (rqr_request row)) <$> db_requests db)
  && unique ((fun row => (eri_session_id (rqr_request row), eri_request_sequence (rqr_request row)))
       <$> db_requests db)
  && unique ((fun row => (eri_session_id (rqr_request row), eri_request_nonce (rqr_request row)))
       <$> db_requests db)
  && unique ((fun row => (rbr_execution_id row, rbr_operation_id row)) <$> db_rollback_records db)
  && unique ((fun row => (rbr_execution_id row, rbr_rollback_order row)) <$> db_rollback_records db)
  && unique (rcr_execution_id <$> db_recovery db) && unique (err_id <$> db_errors db)
  && unique (rtn_execution_id <$> db_retention db).

Definition references_check (db : Db) : bool :=
  let executions := ssr_id <$> db_sessions db in
  let operations := eo_id <$> db_operations db in
  let proposals := ppr_id <$> db_proposals db in
  let revisions := rvr_id <$> db_revisions db in
  forallb (fun row =>
    let plan := ssr_plan row in
    known (spl_proposal_id plan) proposals && known (spl_proposal_revision_id plan) revisions
    && known (spl_workspace_id plan) (db_workspaces db) && known (spl_root_id plan) (db_roots db)
    && known (spl_source_scan_id plan) (db_scans db)) (db_sessions db)
  && forallb (fun row => known (snr_execution_id row) executions
       && known (snr_proposal_id row) proposals && known (snr_proposal_revision_id row) revisions
       && known (snr_source_snapshot_version row) (db_scans db)) (db_snapshots db)
  && forallb (fun row => known (cnr_execution_id row) executions) (db_consents db)
  && forallb (fun row => known (eo_execution_id row) executions
       && every (fun id => known id (por_id <$> db_proposal_operations db))
            (eo_proposal_operation_id row)) (db_operations db)
  && forallb (fun row => known (jnr_execution_id row) executions
       && every (fun id => known id operations) (jnr_operation_id row)) (db_journal db)
  && forallb (fun row => known (esi_execution_id row) executions) (db_executor_sessions db)
  && forallb (fun row =>
       let request := rqr_request row in
       known (eri_session_id request, eri_execution_id request)
         ((fun row => (esi_session_id row, esi_execution_id row)) <$> db_executor_sessions db)
       && known (eri_execution_id request, eri_operation_id request)
            ((fun row => (eo_execution_id row, eo_id row)) <$> db_operations db)
       && known (eri_execution_id request, rqr_intent_event_sequence row)
            ((fun row => (jnr_execution_id row, jnr_sequence_number row)) <$> db_journal db))
       (db_requests db)
  && forallb (fun row => known (rbr_execution_id row) executions
       && known (rbr_operation_id row) operations) (db_rollback_records db)
  && forallb (fun row => known (rcr_execution_id row) executions) (db_recovery db)
  && forallb (fun row => known (err_execution_id row) executions
       && every (fun id => known id operations) (err_operation_id row)) (db_errors db)
  && forallb (fun row => known (rtn_execution_id row) executions) (db_retention db).

(** The trigger [local_executor_request_state_one_way]. *)
Definition one_way (old new : ExecutorRequestState) : bool :=
  match old, new with
  | IntentDurable, (AcknowledgedSuccess | ProvenNotApplied | RecoveryRequired | ProvenNotStarted
      | ProvenApplied | Ambiguous) => true
  | AcknowledgedSuccess, (ProvenApplied | RecoveryRequired | Ambiguous) => true
  | RecoveryRequired, (ProvenNotStarted | ProvenApplied | Ambiguous) => true
  | ProvenNotApplied, (RecoveryRequired | ProvenNotStarted) => true
  | (ProvenNotApplied | ProvenNotStarted | ProvenApplied), Ambiguous => true
  | _, _ => false
  end.

(** ** One table of the database *)

Definition with_sessions (rows : list SessionRow) (db : Db) : Db := {|
  db_sessions := rows; db_snapshots := db_snapshots db; db_consents := db_consents db;
  db_operations := db_operations db; db_journal := db_journal db;
  db_executor_sessions := db_executor_sessions db; db_requests := db_requests db;
  db_rollback_records := db_rollback_records db; db_recovery := db_recovery db;
  db_errors := db_errors db; db_retention := db_retention db; db_proposals := db_proposals db;
  db_revisions := db_revisions db; db_proposal_operations := db_proposal_operations db;
  db_workspaces := db_workspaces db; db_roots := db_roots db; db_scans := db_scans db |}.
Definition with_snapshots (rows : list SnapshotRow) (db : Db) : Db := {|
  db_sessions := db_sessions db; db_snapshots := rows; db_consents := db_consents db;
  db_operations := db_operations db; db_journal := db_journal db;
  db_executor_sessions := db_executor_sessions db; db_requests := db_requests db;
  db_rollback_records := db_rollback_records db; db_recovery := db_recovery db;
  db_errors := db_errors db; db_retention := db_retention db; db_proposals := db_proposals db;
  db_revisions := db_revisions db; db_proposal_operations := db_proposal_operations db;
  db_workspaces := db_workspaces db; db_roots := db_roots db; db_scans := db_scans db |}.
Definition with_consents (rows : list ConsentRow) (db : Db) : Db := {|
  db_sessions := db_sessions db; db_snapshots := db_snapshots db; db_consents := rows;
  db_operations := db_operations db; db_journal := db_journal db;
  db_executor_sessions := db_executor_sessions db; db_requests := db_requests db;
  db_rollback_records := db_rollback_records db; db_recovery := db_recovery db;
  db_errors := db_errors db; db_retention := db_retention db; db_proposals := db_proposals db;
  db_revisions := db_revisions db; db_proposal_operations := db_proposal_operations db;
  db_workspaces := db_workspaces db; db_roots := db_roots db; db_scans := db_scans db |}.
Definition with_operations (rows : list OperationRow) (db : Db) : Db := {|
  db_sessions := db_sessions db; db_snapshots := db_snapshots db; db_consents := db_consents db;
  db_operations := rows; db_journal := db_journal db;
  db_executor_sessions := db_executor_sessions db; db_requests := db_requests db;
  db_rollback_records := db_rollback_records db; db_recovery := db_recovery db;
  db_errors := db_errors db; db_retention := db_retention db; db_proposals := db_proposals db;
  db_revisions := db_revisions db; db_proposal_operations := db_proposal_operations db;
  db_workspaces := db_workspaces db; db_roots := db_roots db; db_scans := db_scans db |}.
Definition with_journal (rows : list JournalRow) (db : Db) : Db := {|
  db_sessions := db_sessions db; db_snapshots := db_snapshots db; db_consents := db_consents db;
  db_operations := db_operations db; db_journal := rows;
  db_executor_sessions := db_executor_sessions db; db_requests := db_requests db;
  db_rollback_records := db_rollback_records db; db_recovery := db_recovery db;
  db_errors := db_errors db; db_retention := db_retention db; db_proposals := db_proposals db;
  db_revisions := db_revisions db; db_proposal_operations := db_proposal_operations db;
  db_workspaces := db_workspaces db; db_roots := db_roots db; db_scans := db_scans db |}.
Definition with_executor_sessions (rows : list ExecutorSessionRow) (db : Db) : Db := {|
  db_sessions := db_sessions db; db_snapshots := db_snapshots db; db_consents := db_consents db;
  db_operations := db_operations db; db_journal := db_journal db; db_executor_sessions := rows;
  db_requests := db_requests db; db_rollback_records := db_rollback_records db;
  db_recovery := db_recovery db; db_errors := db_errors db; db_retention := db_retention db;
  db_proposals := db_proposals db; db_revisions := db_revisions db;
  db_proposal_operations := db_proposal_operations db; db_workspaces := db_workspaces db;
  db_roots := db_roots db; db_scans := db_scans db |}.
Definition with_requests (rows : list RequestRow) (db : Db) : Db := {|
  db_sessions := db_sessions db; db_snapshots := db_snapshots db; db_consents := db_consents db;
  db_operations := db_operations db; db_journal := db_journal db;
  db_executor_sessions := db_executor_sessions db; db_requests := rows;
  db_rollback_records := db_rollback_records db; db_recovery := db_recovery db;
  db_errors := db_errors db; db_retention := db_retention db; db_proposals := db_proposals db;
  db_revisions := db_revisions db; db_proposal_operations := db_proposal_operations db;
  db_workspaces := db_workspaces db; db_roots := db_roots db; db_scans := db_scans db |}.
Definition with_rollback_records (rows : list RollbackRow) (db : Db) : Db := {|
  db_sessions := db_sessions db; db_snapshots := db_snapshots db; db_consents := db_consents db;
  db_operations := db_operations db; db_journal := db_journal db;
  db_executor_sessions := db_executor_sessions db; db_requests := db_requests db;
  db_rollback_records := rows; db_recovery := db_recovery db; db_errors := db_errors db;
  db_retention := db_retention db; db_proposals := db_proposals db;
  db_revisions := db_revisions db; db_proposal_operations := db_proposal_operations db;
  db_workspaces := db_workspaces db; db_roots := db_roots db; db_scans := db_scans db |}.
Definition with_recovery (rows : list RecoveryRow) (db : Db) : Db := {|
  db_sessions := db_sessions db; db_snapshots := db_snapshots db; db_consents := db_consents db;
  db_operations := db_operations db; db_journal := db_journal db;
  db_executor_sessions := db_executor_sessions db; db_requests := db_requests db;
  db_rollback_records := db_rollback_records db; db_recovery := rows; db_errors := db_errors db;
  db_retention := db_retention db; db_proposals := db_proposals db;
  db_revisions := db_revisions db; db_proposal_operations := db_proposal_operations db;
  db_workspaces := db_workspaces db; db_roots := db_roots db; db_scans := db_scans db |}.
Definition with_errors (rows : list ErrorRow) (db : Db) : Db := {|
  db_sessions := db_sessions db; db_snapshots := db_snapshots db; db_consents := db_consents db;
  db_operations := db_operations db; db_journal := db_journal db;
  db_executor_sessions := db_executor_sessions db; db_requests := db_requests db;
  db_rollback_records := db_rollback_records db; db_recovery := db_recovery db;
  db_errors := rows; db_retention := db_retention db; db_proposals := db_proposals db;
  db_revisions := db_revisions db; db_proposal_operations := db_proposal_operations db;
  db_workspaces := db_workspaces db; db_roots := db_roots db; db_scans := db_scans db |}.
Definition with_retention (rows : list RetentionRow) (db : Db) : Db := {|
  db_sessions := db_sessions db; db_snapshots := db_snapshots db; db_consents := db_consents db;
  db_operations := db_operations db; db_journal := db_journal db;
  db_executor_sessions := db_executor_sessions db; db_requests := db_requests db;
  db_rollback_records := db_rollback_records db; db_recovery := db_recovery db;
  db_errors := db_errors db; db_retention := rows; db_proposals := db_proposals db;
  db_revisions := db_revisions db; db_proposal_operations := db_proposal_operations db;
  db_workspaces := db_workspaces db; db_roots := db_roots db; db_scans := db_scans db |}.

(** ** Statements *)

(** What SQLite may answer to a statement apart from its rows: an error of its
    own ([engine_error]), the texts of a broken constraint, of a missing row and
    of a NULL column; and the dates its [strftime] computes. *)
Class SqlEngine : Type := {
  engine_error : Db -> option PersistenceError;
  constraint_failed : str;
  no_rows : str;
  invalid_column_type : str;
  (* strftime('%Y-%m-%dT%H:%M:%fZ', julianday(text) + 30) *)
  thirty_days_after : str -> option str;
  (* Uuid::now_v7 *)
  new_error_id : Db -> uuid
}.

Section statements.
Context `{EN : SqlEngine} `{JT1 : JsonText (list ProposalItemId)} `{JT2 : JsonText VolumeIdentity}.
Context `{JT3 : JsonText FileFingerprint} `{JT4 : JsonText (list str)}.

Definition rows_check (db : Db) : bool :=
  forallb session_check (db_sessions db) && forallb snapshot_check (db_snapshots db)
  && forallb consent_check (db_consents db) && forallb operation_check (db_operations db)
  && forallb journal_check (db_journal db)
  && forallb executor_session_check (db_executor_sessions db)
  && forallb request_check (db_requests db) && forallb rollback_check (db_rollback_records db)
  && forallb recovery_check (db_recovery db) && forallb error_check (db_errors db)
  && forallb retention_check (db_retention db).

Definition schema_check (db : Db) : bool := rows_check db && keys_check db && references_check db.

Notation Sql A := (SE Db PersistenceError A).

(** The engine answers, or not: [lock], a query, [commit]. *)
Definition engine : Sql unit := fun db =>
  match engine_error db with Some error => (Err error, db) | None => (Ok tt, db) end.

Definition query {A} (f : Db -> A) : Sql A := engine;; ((fun db => (Ok (f db), db)) : Sql A).

(** A statement with the number of rows it changes. *)
Definition execute_sql (f : Db -> Z * Db) : Sql Z :=
  engine;;
  ((fun db => let '(changed, db') := f db in
     if schema_check db' then (Ok changed, db') else (Err (PrSql constraint_failed), db)) : Sql Z).

Definition query_row {A} (f : Db -> option A) : Sql A :=
  found ← query f;
  se_lift (ok_or found PrNotFound).
(** [query_row] without [optional]. *)
Definition query_present {A} (f : Db -> option A) : Sql A :=
  found ← query f;
  se_lift (ok_or found (PrSql no_rows)).

(** [unchecked_transaction], the statements, and [commit]; an error rolls back. *)
Definition transaction {A} (body : Sql A) : Sql A := fun db =>
  match (engine;; value ← body; engine;; mret value) db with
  | (Ok value, db') => (Ok value, db')
  | (Err error, _) => (Err error, db)
  end.

(** A transaction that is dropped without [commit]. *)
Definition abandoned {A} (body : Sql A) : Sql A := fun db => (fst ((engine;; body) db), db).

Definition require_one (changed : Z) : Sql unit :=
  se_lift (reject_if (negb (changed =? 1)) InvalidExecution).

(** The rows of a table after [UPDATE .. SET .. WHERE], and how many changed. *)
Definition updated {R} (where_ : R -> bool) (set_ : R -> R) (rows : list R) : list R :=
  (fun row => if where_ row then set_ row else row) <$> rows.
Definition count_rows {R} (where_ : R -> bool) (rows : list R) : Z :=
  zlen (filter (fun row => where_ row = true) rows).

(** [UPDATE] and [INSERT] of a table. *)
Definition update_sql {R} (table : Db -> list R) (with_table : list R -> Db -> Db)
    (where_ : R -> bool) (set_ : R -> R) : Sql Z :=
  execute_sql (fun db =>
    (count_rows where_ (table db), with_table (updated where_ set_ (table db)) db)).
Definition insert_sql {R} (table : Db -> list R) (with_table : list R -> Db -> Db) (row : R) :
    Sql Z :=
  execute_sql (fun db => (1, with_table (table db ++ [row]) db)).

Definition update_sessions := update_sql db_sessions with_sessions.
Definition update_snapshots := update_sql db_snapshots with_snapshots.
Definition update_consents := update_sql db_consents with_consents.
Definition update_operations := update_sql db_operations with_operations.
Definition update_recovery := update_sql db_recovery with_recovery.
Definition update_retention := update_sql db_retention with_retention.

(** An update of requests runs the trigger on each row whose state changes. *)
Definition update_requests (where_ : RequestRow -> bool) (set_ : RequestRow -> RequestRow) : Sql Z :=
  engine;;
  stopped ← query (fun db => existsb (fun row => where_ row
    && negb (bool_decide (rqr_state (set_ row) = rqr_state row))
    && negb (one_way (rqr_state row) (rqr_state (set_ row)))) (db_requests db));
  if (stopped : bool) then se_fail (PrSql constraint_failed)
  else update_sql db_requests with_requests where_ set_.
End statements.
