(* ===== verification/Store.v ===== *)
(** * The database of executions

    crates/persistence/src/execution.rs, first half: storing a prepared
    execution, the consent of an execution, its control flags, and reading the
    stored execution back. *)

From S2P Require Export Tables Planning.
#[local] Open Scope Z_scope.

#[export] Instance ExecutionConsent_eq_dec : EqDecision ExecutionConsent.
Proof. solve_decision. Defined.

Definition to_sql_u64 (value : Z) : res PersistenceError Z :=
  ok_or (i64_try_from value) PrNumericOverflow.
Definition from_sql_u64 (value : Z) : res PersistenceError Z :=
  ok_or (u64_try_from value) PrNumericOverflow.
Definition sql_u32 (value : Z) : res PersistenceError Z :=
  ok_or (u32_try_from value) PrNumericOverflow.

(** ** Rows of a session *)

Definition with_status (status : OrganizationExecutionStatus) (control : SessionControl)
    (row : SessionRow) : SessionRow := {|
  ssr_id := ssr_id row; ssr_plan := ssr_plan row; ssr_status := status;
  ssr_recovery_state := ssr_recovery_state row; ssr_counts := ssr_counts row;
  ssr_control := control; ssr_journal_sequence := ssr_journal_sequence row;
  ssr_journal_chain_head := ssr_journal_chain_head row |}.

Definition with_recovery_state (status : OrganizationExecutionStatus)
    (recovery_state : ExecutionRecoveryState) (control : SessionControl) (row : SessionRow) :
    SessionRow := {|
  ssr_id := ssr_id row; ssr_plan := ssr_plan row; ssr_status := status;
  ssr_recovery_state := recovery_state; ssr_counts := ssr_counts row; ssr_control := control;
  ssr_journal_sequence := ssr_journal_sequence row;
  ssr_journal_chain_head := ssr_journal_chain_head row |}.

Definition with_confirmation (confirmed : bool) (approved_at : option str) (control : SessionControl) :
    SessionControl := {|
  scl_user_confirmed := confirmed; scl_rollback_available := scl_rollback_available control;
  scl_pause_requested := scl_pause_requested control;
  scl_cancel_requested := scl_cancel_requested control;
  scl_current_operation := scl_current_operation control; scl_approved_at := approved_at;
  scl_started_at := scl_started_at control; scl_completed_at := scl_completed_at control;
  scl_rolled_back_at := scl_rolled_back_at control; scl_error_message := scl_error_message control |}.

Definition with_flags (pause cancel : bool) (control : SessionControl) : SessionControl := {|
  scl_user_confirmed := scl_user_confirmed control;
  scl_rollback_available := scl_rollback_available control;
  scl_pause_requested := pause; scl_cancel_requested := cancel;
  scl_current_operation := scl_current_operation control; scl_approved_at := scl_approved_at control;
  scl_started_at := scl_started_at control; scl_completed_at := scl_completed_at control;
  scl_rolled_back_at := scl_rolled_back_at control; scl_error_message := scl_error_message control |}.

Definition with_snapshot_confirmation (confirmed : bool) (approved_at : option str)
    (row : SnapshotRow) : SnapshotRow := {|
  snr_execution_id := snr_execution_id row; snr_plan_id := snr_plan_id row;
  snr_proposal_id := snr_proposal_id row; snr_proposal_revision_id := snr_proposal_revision_id row;
  snr_proposal_revision := snr_proposal_revision row;
  snr_source_snapshot_version := snr_source_snapshot_version row;
  snr_approved_operation_ids := snr_approved_operation_ids row;
  snr_operation_count := snr_operation_count row; snr_user_confirmed := confirmed;
  snr_frozen_at := snr_frozen_at row; snr_approved_at := approved_at;
  snr_snapshot_digest := snr_snapshot_digest row |}.

Definition with_consent (consent : ExecutionConsent) (changed_at : Z) (row : ConsentRow) :
    ConsentRow := {|
  cnr_execution_id := cnr_execution_id row; cnr_material_version := cnr_material_version row;
  cnr_consent := consent; cnr_safety_policy := cnr_safety_policy row;
  cnr_destination_root := cnr_destination_root row; cnr_state_changed_at_unix_ms := changed_at |}.

Section store.
Context `{EN : SqlEngine} `{JT1 : JsonText (list ProposalItemId)} `{JT2 : JsonText VolumeIdentity}.
Context `{JT3 : JsonText FileFingerprint} `{JT4 : JsonText (list str)} `{UC : UnicodeCase}.
Notation Sql A := (SE Db PersistenceError A).
Notation invalid := InvalidExecution.

(** ** Reading an execution *)

Definition validate_stored_consent (row : ConsentRow) : res PersistenceError unit :=
  let consent := cnr_consent row in
  let root := cnr_destination_root row in
  let policy := cnr_safety_policy row in
  let some {A} (value : option A) := match value with Some _ => true | None => false end in
  let challenge_complete := some (ec_issued_at_unix_ms consent)
    && some (ec_expires_at_unix_ms consent) && some (ec_nonce consent) in
  let challenge_empty := negb (some (ec_issued_at_unix_ms consent))
    && negb (some (ec_expires_at_unix_ms consent)) && negb (some (ec_nonce consent)) in
  reject_if ((cnr_material_version row =? 0)
    || bool_decide (np_bytes (erb_canonical_path root) = [])
    || bool_decide (erb_display_path root = []) || bool_decide (espb_version policy = [])
    || negb (len (espb_digest_hex policy) =? 64) || (espb_maximum_rehash_bytes policy =? 0)
    || (MAX_EXECUTION_VERIFICATION_BYTES <? espb_maximum_rehash_bytes policy)
    || negb challenge_complete && negb challenge_empty
    || match ec_expires_at_unix_ms consent, ec_issued_at_unix_ms consent with
       | Some expires, Some issued => expires <=? issued
       | _, _ => false
       end
    || negb (Bool.eqb (some (ec_attested_at_unix_ms consent)) (some (ec_attestation_mac consent))))
    invalid;;
  let attested := some (ec_attested_at_unix_ms consent) in
  let consumed := some (ec_consumed_at_unix_ms consent) in
  let invalidated := some (ec_invalidated_at_unix_ms consent) in
  reject_if match ec_state consent with
    | EcsPending => attested || consumed || invalidated
    | EcsAttested => negb challenge_complete || negb attested || consumed || invalidated
    | EcsConsumed => negb challenge_complete || negb attested || negb consumed || invalidated
    | EcsExpired => negb challenge_complete || consumed || invalidated
    | EcsInvalidated =>
        negb invalidated || negb (some (ec_invalidation_reason consent)) || consumed
    end invalid.

Definition consent_from_connection (x : ExecutionId) : Sql ConsentRow :=
  row ← query_row (fun db => find (fun row => bool_decide (cnr_execution_id row = x))
    (db_consents db));
  se_lift (from_sql_u64 (espb_maximum_rehash_bytes (cnr_safety_policy row));;
    sql_u32 (cnr_material_version row);;
    validate_stored_consent row);;
  mret row.

Definition approval_from_connection (x : ExecutionId) (stored : ConsentRow) :
    Sql ApprovedExecutionPlan :=
  row ← query_row (fun db => find (fun row => bool_decide (snr_execution_id row = x))
    (db_snapshots db));
  revision ← se_lift (sql_u32 (snr_proposal_revision row));
  operation_count ← se_lift (from_sql_u64 (snr_operation_count row));
  mret {| aep_material_version := cnr_material_version stored;
          aep_execution_id := x;
          aep_plan_id := snr_plan_id row;
          aep_proposal_id := snr_proposal_id row;
          aep_proposal_revision_id := snr_proposal_revision_id row;
          aep_proposal_revision := revision;
          aep_source_snapshot_version := snr_source_snapshot_version row;
          aep_approved_operation_ids := snr_approved_operation_ids row;
          aep_operation_count := operation_count;
          aep_destination_root := cnr_destination_root stored;
          aep_safety_policy := cnr_safety_policy stored;
          aep_approval_timestamp := snr_approved_at row;
          aep_user_confirmed := snr_user_confirmed row;
          aep_digest_hex := snr_snapshot_digest row |}.

Definition summary_of_row (row : SessionRow) : res PersistenceError ExecutionSummary :=
  let plan := ssr_plan row in
  let counts := ssr_counts row in
  affected ← from_sql_u64 (spl_affected_file_count plan);
  folders ← from_sql_u64 (spl_folder_count plan);
  moves ← from_sql_u64 (spl_move_count plan);
  renames ← from_sql_u64 (spl_rename_count plan);
  unchanged ← from_sql_u64 (spl_unchanged_count plan);
  conflicts ← from_sql_u64 (spl_conflict_count plan);
  needs_review ← from_sql_u64 (spl_needs_review_count plan);
  preflight_ok ← from_sql_u64 (spl_preflight_ok_count plan);
  applied ← from_sql_u64 (sct_applied counts);
  blocked ← from_sql_u64 (sct_blocked counts);
  skipped ← from_sql_u64 (sct_skipped counts);
  failed ← from_sql_u64 (sct_failed counts);
  rolled_back ← from_sql_u64 (sct_rolled_back counts);
  rollback_blocked ← from_sql_u64 (sct_rollback_blocked counts);
  rollback_failed ← from_sql_u64 (sct_rollback_failed counts);
  Ok {| es_affected_files := affected; es_folders_to_create := folders; es_files_to_move := moves;
        es_files_to_rename := renames; es_files_unchanged := unchanged; es_conflicts := conflicts;
        es_needs_review := needs_review; es_preflight_ok := preflight_ok; es_applied := applied;
        es_blocked := blocked; es_skipped := skipped; es_failed := failed;
        es_rolled_back := rolled_back; es_rollback_blocked := rollback_blocked;
        es_rollback_failed := rollback_failed |}.

Definition execution_session_from_connection (x : ExecutionId) : Sql ExecutionSession :=
  row ← query_row (fun db => find (fun row => bool_decide (ssr_id row = x)) (db_sessions db));
  stored_consent ← consent_from_connection x;
  approval ← approval_from_connection x stored_consent;
  let plan := ssr_plan row in
  let control := ssr_control row in
  revision ← se_lift (sql_u32 (spl_proposal_revision plan));
  summary ← se_lift (summary_of_row row);
  mret {| ses_id := x;
          ses_plan_id := spl_plan_id plan;
          ses_proposal_id := spl_proposal_id plan;
          ses_proposal_revision_id := spl_proposal_revision_id plan;
          ses_proposal_revision := revision;
          ses_workspace_id := spl_workspace_id plan;
          ses_root_id := spl_root_id plan;
          ses_source_scan_id := spl_source_scan_id plan;
          ses_status := ssr_status row;
          ses_recovery_state := ssr_recovery_state row;
          ses_plan_digest_hex := spl_plan_digest plan;
          ses_approval := approval;
          ses_consent := cnr_consent stored_consent;
          ses_summary := summary;
          ses_current_operation := scl_current_operation control;
          ses_rollback_available := scl_rollback_available control;
          ses_confirmation_phrase_required := spl_confirmation_phrase_required plan;
          ses_created_at := spl_created_at plan;
          ses_approved_at := scl_approved_at control;
          ses_started_at := scl_started_at control;
          ses_completed_at := scl_completed_at control;
          ses_rolled_back_at := scl_rolled_back_at control;
          ses_error := scl_error_message control |}.

(** The numbers of a row are read back into the operation. *)
Definition operation_of_row (row : OperationRow) : res PersistenceError ExecutionOperation :=
  (match eo_expected_source_size row with
   | Some size => from_sql_u64 size;; Ok tt
   | None => Ok tt
   end);;
  sql_u32 (eo_sequence row);;
  Ok row.

Definition execution_operations_from_connection (x : ExecutionId) : Sql (list ExecutionOperation) :=
  rows ← query (fun db => sort_by (fun a b => eo_sequence a <=? eo_sequence b)
    (filter (fun row => eo_execution_id row = x) (db_operations db)));
  se_lift (collect operation_of_row rows).

Definition stored_execution_detail (x : ExecutionId) : Sql ExecutionDetail :=
  session ← execution_session_from_connection x;
  operations ← execution_operations_from_connection x;
  mret {| ed_session := session; ed_operations := operations |}.

(** ** Storing a prepared execution *)

Definition validate_prepared_execution (detail : ExecutionDetail) : res PersistenceError unit :=
  let session := ed_session detail in
  let approval := ses_approval session in
  let root := aep_destination_root approval in
  let differs {A} `{EqDecision A} (a b : A) := negb (bool_decide (a = b)) in
  reject_if (differs (ses_status session) OesAwaitingConfirmation
    || differs (ses_recovery_state session) ErsRecoveryNotRequired
    || differs (ses_consent session) ExecutionConsent_pending
    || differs (aep_material_version approval) EXECUTION_PLAN_MATERIAL_VERSION
    || differs (aep_execution_id approval) (ses_id session)
    || differs (aep_plan_id approval) (ses_plan_id session)
    || differs (aep_proposal_id approval) (ses_proposal_id session)
    || differs (aep_proposal_revision_id approval) (ses_proposal_revision_id session)
    || differs (aep_proposal_revision approval) (ses_proposal_revision session)
    || differs (aep_source_snapshot_version approval) (ses_source_scan_id session)
    || aep_user_confirmed approval
    || negb (len (ses_plan_digest_hex session) =? 64)
    || differs (aep_digest_hex approval) (ses_plan_digest_hex session)
    || bool_decide (espb_version (aep_safety_policy approval) = [])
    || (64 <? len (espb_version (aep_safety_policy approval)))
    || negb (len (espb_digest_hex (aep_safety_policy approval)) =? 64)
    || bool_decide (np_bytes (erb_canonical_path root) = [])
    || bool_decide (erb_display_path root = []) || (4096 <? len (erb_display_path root))
    || bool_decide (ed_operations detail = [])) invalid;;
  let ids := aep_approved_operation_ids approval in
  let approved : gset uuid := list_to_set ids in
  approved_count ← ok_or (u64_try_from (Z.of_nat (size approved))) PrNumericOverflow;
  reject_if (negb (Z.of_nat (size approved) =? zlen ids)
    || negb (approved_count =? aep_operation_count approval)
    || negb (aep_operation_count approval =? es_preflight_ok (ses_summary session))) invalid;;
  let planned : gset uuid := list_to_set (omap (fun operation =>
    if bool_decide (eo_status operation = EosPreflightOk)
      && negb (bool_decide (eo_kind operation = EokInternalStage))
    then eo_proposal_operation_id operation else None) (ed_operations detail)) in
  reject_if (negb (bool_decide (approved = planned))) invalid;;
  reject_if (existsb (fun '(index, operation) =>
      differs (eo_execution_id operation) (ses_id session)
      || negb (eo_sequence operation =? Z.of_nat index))
    (imap pair (ed_operations detail))) invalid.

(** [source.replace('\\', "/")] *)
Definition forward_slashes (text : str) : str :=
  (fun c => if (c =? 92)%N then 47%N else c) <$> text.

Definition approvable_operation (stored : ProposalOperationRow) : bool :=
  let kind := por_operation_kind stored in
  if bool_decide (kind ∈ [lit "move_proposal"; lit "rename_proposal"]) then true
  else if negb (bool_decide (kind = lit "keep_in_place")) then false
  else
    let destination := join [47%N] (por_proposed_destination stored ++ [por_proposed_name stored]) in
    let source := forward_slashes (por_source_relative_path stored) in
    negb (bool_decide (source = destination))
    && bool_decide (to_lowercase source = to_lowercase destination) && por_user_override stored.

Definition validate_approved_operation (session : ExecutionSession) (operation_id : ProposalItemId) :
    Sql unit :=
  stored ← query (fun db => find (fun row => bool_decide (por_id row = operation_id)
    && bool_decide (por_revision_id row = ses_proposal_revision_id session))
    (db_proposal_operations db));
  se_lift (reject_if (negb (from_option approvable_operation false stored)) invalid).

Definition validate_approved_proposal (detail : ExecutionDetail) : Sql unit :=
  let session := ed_session detail in
  found ← query_row (fun db =>
    proposal ← find (fun row => bool_decide (ppr_id row = ses_proposal_id session))
      (db_proposals db);
    Some (proposal, find (fun row => bool_decide (rvr_id row = ppr_current_revision_id proposal))
      (db_revisions db)));
  let '(proposal, current) := found in
  revision ← se_lift (ok_or current (PrSql invalid_column_type));
  se_lift (
    reject_if (negb (bool_decide (ppr_status proposal = lit "approved_for_future_apply"))
      || negb (bool_decide (ppr_current_revision_id proposal = ses_proposal_revision_id session)))
      invalid;;
    number ← sql_u32 (rvr_revision_number revision);
    reject_if (negb (number =? ses_proposal_revision session)) invalid);;
  fold_se (fun _ id => validate_approved_operation session id) tt
    (aep_approved_operation_ids (ses_approval session)).

Definition session_row (session : ExecutionSession) : res PersistenceError SessionRow :=
  let summary := ses_summary session in
  operation_count ← to_sql_u64 (aep_operation_count (ses_approval session));
  affected ← to_sql_u64 (es_affected_files summary);
  folders ← to_sql_u64 (es_folders_to_create summary);
  moves ← to_sql_u64 (es_files_to_move summary);
  renames ← to_sql_u64 (es_files_to_rename summary);
  unchanged ← to_sql_u64 (es_files_unchanged summary);
  conflicts ← to_sql_u64 (es_conflicts summary);
  needs_review ← to_sql_u64 (es_needs_review summary);
  preflight_ok ← to_sql_u64 (es_preflight_ok summary);
  blocked ← to_sql_u64 (es_blocked summary);
  skipped ← to_sql_u64 (es_skipped summary);
  applied ← to_sql_u64 (es_applied summary);
  failed ← to_sql_u64 (es_failed summary);
  rolled_back ← to_sql_u64 (es_rolled_back summary);
  rollback_blocked ← to_sql_u64 (es_rollback_blocked summary);
  rollback_failed ← to_sql_u64 (es_rollback_failed summary);
  Ok {| ssr_id := ses_id session;
        ssr_plan := {|
          spl_plan_id := ses_plan_id session; spl_proposal_id := ses_proposal_id session;
          spl_proposal_revision_id := ses_proposal_revision_id session;
          spl_proposal_revision := ses_proposal_revision session;
          spl_workspace_id := ses_workspace_id session; spl_root_id := ses_root_id session;
          spl_source_scan_id := ses_source_scan_id session;
          spl_plan_digest := ses_plan_digest_hex session;
          spl_approved_operation_count := operation_count; spl_affected_file_count := affected;
          spl_folder_count := folders; spl_move_count := moves; spl_rename_count := renames;
          spl_unchanged_count := unchanged; spl_conflict_count := conflicts;
          spl_needs_review_count := needs_review; spl_preflight_ok_count := preflight_ok;
          spl_confirmation_phrase_required := ses_confirmation_phrase_required session;
          spl_created_at := ses_created_at session |};
        ssr_status := ses_status session;
        ssr_recovery_state := ses_recovery_state session;
        ssr_counts := {|
          sct_blocked := blocked; sct_skipped := skipped; sct_applied := applied;
          sct_failed := failed; sct_rolled_back := rolled_back;
          sct_rollback_blocked := rollback_blocked; sct_rollback_failed := rollback_failed |};
        ssr_control := {|
          scl_user_confirmed := aep_user_confirmed (ses_approval session);
          scl_rollback_available := ses_rollback_available session;
          scl_pause_requested := false; scl_cancel_requested := false;
          scl_current_operation := ses_current_operation session;
          scl_approved_at := ses_approved_at session; scl_started_at := ses_started_at session;
          scl_completed_at := ses_completed_at session;
          scl_rolled_back_at := ses_rolled_back_at session;
          scl_error_message := ses_error session |};
        ssr_journal_sequence := -1;
        ssr_journal_chain_head := None |}.

Definition insert_execution_session (session : ExecutionSession) : Sql Z :=
  row ← se_lift (session_row session);
  insert_sql db_sessions with_sessions row.

(** [serde_json::to_string(..).map_err(|_| InvalidExecution)?] *)
Definition json_written {A} `{JsonText A} (value : A) : res PersistenceError unit :=
  ok_or (json_text value) invalid;; Ok tt.

Definition insert_approval_snapshot (approval : ApprovedExecutionPlan) (frozen_at : str) : Sql Z :=
  se_lift (json_written (aep_approved_operation_ids approval));;
  operation_count ← se_lift (to_sql_u64 (aep_operation_count approval));
  insert_sql db_snapshots with_snapshots {|
    snr_execution_id := aep_execution_id approval; snr_plan_id := aep_plan_id approval;
    snr_proposal_id := aep_proposal_id approval;
    snr_proposal_revision_id := aep_proposal_revision_id approval;
    snr_proposal_revision := aep_proposal_revision approval;
    snr_source_snapshot_version := aep_source_snapshot_version approval;
    snr_approved_operation_ids := aep_approved_operation_ids approval;
    snr_operation_count := operation_count; snr_user_confirmed := aep_user_confirmed approval;
    snr_frozen_at := frozen_at; snr_approved_at := aep_approval_timestamp approval;
    snr_snapshot_digest := aep_digest_hex approval |}.

Definition insert_execution_consent (session : ExecutionSession) : Sql Z :=
  let approval := ses_approval session in
  se_lift (json_written (erb_volume (aep_destination_root approval)));;
  se_lift (to_sql_u64 (espb_maximum_rehash_bytes (aep_safety_policy approval)));;
  insert_sql db_consents with_consents {|
    cnr_execution_id := ses_id session; cnr_material_version := aep_material_version approval;
    cnr_consent := ExecutionConsent_pending; cnr_safety_policy := aep_safety_policy approval;
    cnr_destination_root := aep_destination_root approval; cnr_state_changed_at_unix_ms := 0 |}.

(** The columns of an insert leave the fingerprint after the mutation empty. *)
Definition inserted_operation (operation : ExecutionOperation) : OperationRow := {|
  eo_id := eo_id operation; eo_execution_id := eo_execution_id operation;
  eo_proposal_operation_id := eo_proposal_operation_id operation; eo_kind := eo_kind operation;
  eo_source_relative_path := eo_source_relative_path operation;
  eo_destination_relative_path := eo_destination_relative_path operation;
  eo_original_source_relative_path := eo_original_source_relative_path operation;
  eo_expected_source_hash := eo_expected_source_hash operation;
  eo_expected_source_size := eo_expected_source_size operation;
  eo_expected_source_modified_at := eo_expected_source_modified_at operation;
  eo_live_fingerprint := eo_live_fingerprint operation; eo_post_fingerprint := None;
  eo_preconditions := eo_preconditions operation; eo_dependencies := eo_dependencies operation;
  eo_sequence := eo_sequence operation; eo_status := eo_status operation;
  eo_directory_existed_before := eo_directory_existed_before operation;
  eo_reason := eo_reason operation; eo_error_code := eo_error_code operation;
  eo_error_message := eo_error_message operation; eo_started_at := eo_started_at operation;
  eo_completed_at := eo_completed_at operation; eo_rolled_back_at := eo_rolled_back_at operation |}.

Definition insert_execution_operation (operation : ExecutionOperation) : Sql Z :=
  se_lift (match eo_live_fingerprint operation with
    | Some fingerprint => json_written fingerprint
    | None => Ok tt
    end);;
  se_lift (json_written (eo_preconditions operation));;
  se_lift (json_written (eo_dependencies operation));;
  se_lift (match eo_expected_source_size operation with
    | Some size => to_sql_u64 size;; Ok tt
    | None => Ok tt
    end);;
  insert_sql db_operations with_operations (inserted_operation operation).

Definition insert_execution_retention (session : ExecutionSession) : Sql Z :=
  insert_sql db_retention with_retention {|
    rtn_execution_id := ses_id session; rtn_finalized_at := None;
    rtn_journal_retention_reason := lit "execution_not_finalized";
    rtn_rollback_retention_reason := lit "no_applied_operations";
    rtn_minimum_retain_until := None; rtn_active_recovery := false; rtn_rollback_eligible := false;
    rtn_cleanup_eligible_at := None;
    rtn_cleanup_eligibility_reason := lit "execution_not_finalized";
    rtn_updated_at := ses_created_at session |}.

Definition persist_prepared_execution (detail : ExecutionDetail) : Sql unit :=
  let session := ed_session detail in
  se_lift (validate_prepared_execution detail);;
  transaction (
    validate_approved_proposal detail;;
    insert_execution_session session;;
    insert_approval_snapshot (ses_approval session) (ses_created_at session);;
    insert_execution_consent session;;
    fold_se (fun _ operation => insert_execution_operation operation;; mret tt) tt
      (ed_operations detail);;
    insert_execution_retention session;;
    mret tt).
End store.
