(* ===== verification/ConsentStore.v ===== *)
(** * The consent and the control of a stored execution

    crates/persistence/src/execution.rs: the operations that move the consent
    of an execution, the ones that select executions, and the flags that pause
    or cancel one. *)

From S2P Require Export Store.
#[local] Open Scope Z_scope.

(** The consent after each [UPDATE]. *)
Definition issued_consent (nonce : bytes32) (issued_at expires_at : Z) : ExecutionConsent := {|
  ec_state := EcsPending; ec_issued_at_unix_ms := Some issued_at;
  ec_expires_at_unix_ms := Some expires_at; ec_attested_at_unix_ms := None;
  ec_consumed_at_unix_ms := None; ec_invalidated_at_unix_ms := None;
  ec_invalidation_reason := None; ec_nonce := Some nonce; ec_attestation_mac := None |}.
Definition attested_consent (mac : bytes32) (attested_at : Z) (consent : ExecutionConsent) :
    ExecutionConsent := {|
  ec_state := EcsAttested; ec_issued_at_unix_ms := ec_issued_at_unix_ms consent;
  ec_expires_at_unix_ms := ec_expires_at_unix_ms consent;
  ec_attested_at_unix_ms := Some attested_at;
  ec_consumed_at_unix_ms := ec_consumed_at_unix_ms consent;
  ec_invalidated_at_unix_ms := ec_invalidated_at_unix_ms consent;
  ec_invalidation_reason := ec_invalidation_reason consent; ec_nonce := ec_nonce consent;
  ec_attestation_mac := Some mac |}.
Definition cleared_consent (consent : ExecutionConsent) : ExecutionConsent := {|
  ec_state := ec_state consent; ec_issued_at_unix_ms := None; ec_expires_at_unix_ms := None;
  ec_attested_at_unix_ms := ec_attested_at_unix_ms consent;
  ec_consumed_at_unix_ms := ec_consumed_at_unix_ms consent;
  ec_invalidated_at_unix_ms := ec_invalidated_at_unix_ms consent;
  ec_invalidation_reason := ec_invalidation_reason consent; ec_nonce := None;
  ec_attestation_mac := ec_attestation_mac consent |}.
Definition expired_consent (consent : ExecutionConsent) : ExecutionConsent := {|
  ec_state := EcsExpired; ec_issued_at_unix_ms := ec_issued_at_unix_ms consent;
  ec_expires_at_unix_ms := ec_expires_at_unix_ms consent;
  ec_attested_at_unix_ms := ec_attested_at_unix_ms consent;
  ec_consumed_at_unix_ms := ec_consumed_at_unix_ms consent;
  ec_invalidated_at_unix_ms := ec_invalidated_at_unix_ms consent;
  ec_invalidation_reason := ec_invalidation_reason consent; ec_nonce := ec_nonce consent;
  ec_attestation_mac := ec_attestation_mac consent |}.
Definition invalidated_consent (reason : str) (now : Z) (consent : ExecutionConsent) :
    ExecutionConsent := {|
  ec_state := EcsInvalidated; ec_issued_at_unix_ms := ec_issued_at_unix_ms consent;
  ec_expires_at_unix_ms := ec_expires_at_unix_ms consent;
  ec_attested_at_unix_ms := ec_attested_at_unix_ms consent;
  ec_consumed_at_unix_ms := ec_consumed_at_unix_ms consent;
  ec_invalidated_at_unix_ms := Some now; ec_invalidation_reason := Some reason;
  ec_nonce := ec_nonce consent; ec_attestation_mac := ec_attestation_mac consent |}.
Definition consumed_consent (consumed_at : Z) (consent : ExecutionConsent) : ExecutionConsent := {|
  ec_state := EcsConsumed; ec_issued_at_unix_ms := ec_issued_at_unix_ms consent;
  ec_expires_at_unix_ms := ec_expires_at_unix_ms consent;
  ec_attested_at_unix_ms := ec_attested_at_unix_ms consent;
  ec_consumed_at_unix_ms := Some consumed_at;
  ec_invalidated_at_unix_ms := ec_invalidated_at_unix_ms consent;
  ec_invalidation_reason := ec_invalidation_reason consent; ec_nonce := ec_nonce consent;
  ec_attestation_mac := ec_attestation_mac consent |}.

(** The rows a statement is about. *)
Definition consent_of (x : ExecutionId) (states : list ExecutionConsentState) (row : ConsentRow) :
    bool :=
  bool_decide (cnr_execution_id row = x) && bool_decide (ec_state (cnr_consent row) ∈ states).
Definition session_in (x : ExecutionId) (states : list OrganizationExecutionStatus)
    (row : SessionRow) : bool :=
  bool_decide (ssr_id row = x) && bool_decide (ssr_status row ∈ states).
Definition challenge_of (nonce : bytes32) (issued_at expires_at : Z) (row : ConsentRow) : bool :=
  let consent := cnr_consent row in
  bool_decide (ec_nonce consent = Some nonce)
  && bool_decide (ec_issued_at_unix_ms consent = Some issued_at)
  && bool_decide (ec_expires_at_unix_ms consent = Some expires_at).

Definition set_consent (set_ : ExecutionConsent -> ExecutionConsent) (changed_at : Z)
    (row : ConsentRow) : ConsentRow :=
  with_consent (set_ (cnr_consent row)) changed_at row.

(** [COALESCE(started_at, ?2)]. *)
Definition coalesce {A} (value : option A) (default : A) : option A :=
  match value with Some a => Some a | None => Some default end.

Definition with_started (at_ : str) (control : SessionControl) : SessionControl := {|
  scl_user_confirmed := scl_user_confirmed control;
  scl_rollback_available := scl_rollback_available control;
  scl_pause_requested := scl_pause_requested control;
  scl_cancel_requested := scl_cancel_requested control;
  scl_current_operation := scl_current_operation control; scl_approved_at := scl_approved_at control;
  scl_started_at := coalesce (scl_started_at control) at_;
  scl_completed_at := scl_completed_at control;
  scl_rolled_back_at := scl_rolled_back_at control; scl_error_message := scl_error_message control |}.
Definition with_failure (current : option str) (message : str) (control : SessionControl) :
    SessionControl := {|
  scl_user_confirmed := scl_user_confirmed control;
  scl_rollback_available := scl_rollback_available control;
  scl_pause_requested := scl_pause_requested control;
  scl_cancel_requested := scl_cancel_requested control;
  scl_current_operation := current; scl_approved_at := scl_approved_at control;
  scl_started_at := scl_started_at control; scl_completed_at := scl_completed_at control;
  scl_rolled_back_at := scl_rolled_back_at control; scl_error_message := Some message |}.

Definition INTERRUPTED : str := lit "Execution was interrupted before a durable terminal state.".

Section consents.
Context `{EN : SqlEngine} `{JT1 : JsonText (list ProposalItemId)} `{JT2 : JsonText VolumeIdentity}.
Context `{JT3 : JsonText FileFingerprint} `{JT4 : JsonText (list str)}.
Notation Sql A := (SE Db PersistenceError A).
Notation invalid := InvalidExecution.

(** ** The consent *)

Definition reset_legacy_execution_approval (x : ExecutionId) : Sql unit :=
  session_changed ← update_sessions (session_in x [OesAwaitingConfirmation; OesApproved])
    (fun row => with_status OesAwaitingConfirmation
      (with_confirmation false None (ssr_control row)) row);
  snapshot_changed ← update_snapshots (fun row => bool_decide (snr_execution_id row = x))
    (with_snapshot_confirmation false None);
  se_lift (reject_if (negb (session_changed =? 1) || negb (snapshot_changed =? 1)) invalid).

Definition issue_execution_consent_challenge (x : ExecutionId) (nonce : bytes32)
    (issued_at expires_at : Z) : Sql ExecutionDetail :=
  se_lift (reject_if (expires_at <=? issued_at) invalid);;
  transaction (
    changed ← update_consents (fun row => consent_of x [EcsPending; EcsExpired] row
        && (cnr_material_version row =? EXECUTION_PLAN_MATERIAL_VERSION))
      (set_consent (fun _ => issued_consent nonce issued_at expires_at) issued_at);
    require_one changed;;
    session_changed ← update_sessions (fun row => session_in x [OesAwaitingConfirmation] row
        && (0 <? spl_preflight_ok_count (ssr_plan row)))
      (fun row => with_status OesAwaitingConfirmation
        (with_confirmation false None (ssr_control row)) row);
    snapshot_changed ← update_snapshots (fun row => bool_decide (snr_execution_id row = x))
      (with_snapshot_confirmation false None);
    se_lift (reject_if (negb (session_changed =? 1) || negb (snapshot_changed =? 1)) invalid));;
  stored_execution_detail x.

Definition attest_execution_consent (x : ExecutionId) (nonce : bytes32) (issued_at expires_at : Z)
    (attestation_mac : bytes32) (attested_at : Z) : Sql ExecutionDetail :=
  transaction (
    changed ← update_consents (fun row => consent_of x [EcsPending] row
        && challenge_of nonce issued_at expires_at row
        && (issued_at <=? attested_at) && (attested_at <=? expires_at)
        && bool_decide (ec_attestation_mac (cnr_consent row) = None))
      (set_consent (attested_consent attestation_mac attested_at) attested_at);
    require_one changed;;
    session_changed ← update_sessions (fun row => session_in x [OesAwaitingConfirmation] row
        && (0 <? spl_preflight_ok_count (ssr_plan row))
        && negb (scl_user_confirmed (ssr_control row)))
      (fun row => with_status OesApproved
        (with_confirmation true (Some (dec attested_at)) (ssr_control row)) row);
    snapshot_changed ← update_snapshots (fun row => bool_decide (snr_execution_id row = x)
        && negb (snr_user_confirmed row))
      (with_snapshot_confirmation true (Some (dec attested_at)));
    se_lift (reject_if (negb (session_changed =? 1) || negb (snapshot_changed =? 1)) invalid));;
  stored_execution_detail x.

(** The transaction is dropped without a commit. *)
Definition clear_execution_consent_challenge (x : ExecutionId) (nonce : bytes32)
    (issued_at expires_at now : Z) : Sql bool :=
  abandoned (
    changed ← update_consents (fun row => consent_of x [EcsPending] row
        && challenge_of nonce issued_at expires_at row
        && bool_decide (ec_attestation_mac (cnr_consent row) = None))
      (set_consent cleared_consent now);
    mret (changed =? 1)).

Definition expire_execution_consent (x : ExecutionId) (now : Z) : Sql bool :=
  transaction (
    changed ← update_consents (fun row => consent_of x [EcsPending; EcsAttested] row
        && match ec_expires_at_unix_ms (cnr_consent row) with
           | Some expires => expires <=? now
           | None => false
           end)
      (set_consent expired_consent now);
    (if changed =? 1 then reset_legacy_execution_approval x else mret tt);;
    mret (changed =? 1)).

Definition invalidate_execution_consent (x : ExecutionId) (reason : str) (now : Z) : Sql bool :=
  let reason := take 256 reason in
  se_lift (reject_if (bool_decide (reason = [])) invalid);;
  transaction (
    changed ← update_consents (consent_of x [EcsPending; EcsAttested; EcsExpired])
      (set_consent (invalidated_consent reason now) now);
    (if changed =? 1 then reset_legacy_execution_approval x else mret tt);;
    mret (changed =? 1)).

Definition consume_execution_consent (x : ExecutionId) (nonce : bytes32) (issued_at expires_at : Z)
    (attestation_mac : bytes32) (consumed_at : Z) : Sql ExecutionDetail :=
  transaction (
    changed ← update_consents (fun row => consent_of x [EcsAttested] row
        && challenge_of nonce issued_at expires_at row
        && bool_decide (ec_attestation_mac (cnr_consent row) = Some attestation_mac)
        && (consumed_at <=? expires_at))
      (set_consent (consumed_consent consumed_at) consumed_at);
    require_one changed;;
    session_changed ← update_sessions (session_in x [OesApproved])
      (fun row => with_status OesRunning (with_started (dec consumed_at) (ssr_control row)) row);
    require_one session_changed);;
  stored_execution_detail x.

(** ** Which executions there are *)

Definition blocking_execution_exists : Sql bool :=
  count ← query (fun db => count_rows (fun row => active_status (ssr_status row)) (db_sessions db));
  mret (0 <? count).

Definition execution_proposal_approval_is_current (x : ExecutionId) : Sql bool :=
  query (fun db => existsb (fun row =>
    let plan := ssr_plan row in
    bool_decide (ssr_id row = x)
    && existsb (fun proposal =>
         bool_decide (ppr_id proposal = spl_proposal_id plan)
         && bool_decide (ppr_status proposal = lit "approved_for_future_apply")
         && bool_decide (ppr_current_revision_id proposal = spl_proposal_revision_id plan)
         && existsb (fun revision =>
              bool_decide (rvr_id revision = ppr_current_revision_id proposal)
              && (rvr_revision_number revision =? spl_proposal_revision plan)) (db_revisions db))
         (db_proposals db)) (db_sessions db)).

Definition created_before (a b : SessionRow) : bool :=
  str_leb (spl_created_at (ssr_plan a)) (spl_created_at (ssr_plan b)).

Definition recovery_execution_ids : Sql (list ExecutionId) :=
  query (fun db => ssr_id <$> sort_by created_before
    (filter (fun row => ssr_status row ∈ [OesRunning; OesRollingBack; OesRecoveryRequired;
      OesRecoveryAvailable; OesRecoveryAmbiguous]) (db_sessions db))).

(** [LIMIT ?2] of the newest ones. *)
Definition execution_history (workspace_id : WorkspaceId) (limit : Z) : Sql (list ExecutionSession) :=
  ids ← query (fun db => take (Z.to_nat (Z.max 1 (Z.min limit 100)))
    (ssr_id <$> sort_by (fun a b => created_before b a)
      (filter (fun row => spl_workspace_id (ssr_plan row) = workspace_id) (db_sessions db))));
  fold_se (fun output x => session ← execution_session_from_connection x; mret (output ++ [session]))
    [] ids.

(** ** Interruptions and control *)

Definition mark_interrupted_executions_for_recovery : Sql Z :=
  update_sessions (fun row => bool_decide (ssr_status row ∈ [OesRunning; OesRollingBack]))
    (fun row =>
      let control := ssr_control row in
      with_recovery_state OesRecoveryRequired ErsRecoveryRequired
        (with_failure (scl_current_operation control)
           (default INTERRUPTED (scl_error_message control)) control) row).

Definition mark_execution_recovery_required (x : ExecutionId) (message : str) : Sql bool :=
  changed ← update_sessions (session_in x [OesRunning; OesRollingBack])
    (fun row => with_recovery_state OesRecoveryRequired ErsRecoveryRequired
      (with_failure None (take 2048 message) (ssr_control row)) row);
  mret (changed =? 1).

Definition set_execution_control (x : ExecutionId) (pause cancel : bool) : Sql bool :=
  changed ← update_sessions (session_in x [OesRunning])
    (fun row =>
      let control := ssr_control row in
      with_status (ssr_status row)
        (with_flags (pause || scl_pause_requested control) (cancel || scl_cancel_requested control)
           control) row);
  mret (changed =? 1).

Definition request_execution_pause (x : ExecutionId) : Sql bool := set_execution_control x true false.
Definition request_execution_cancel (x : ExecutionId) : Sql bool := set_execution_control x false true.

Definition execution_control (x : ExecutionId) : Sql (bool * bool) :=
  query_row (fun db => row ← find (fun row => bool_decide (ssr_id row = x)) (db_sessions db);
    Some (scl_pause_requested (ssr_control row), scl_cancel_requested (ssr_control row))).

Definition clear_execution_pause (x : ExecutionId) : Sql unit :=
  changed ← update_sessions (session_in x [OesPaused])
    (fun row => with_status (ssr_status row)
      (with_flags false (scl_cancel_requested (ssr_control row)) (ssr_control row)) row);
  require_one changed.
End consents.
