(* ===== verification/EventStore.v ===== *)
(** * The journal and the requests of a stored execution

    crates/persistence/src/execution.rs: storing an event with what follows
    from it in one transaction, the sessions and the requests of the executor,
    the journal read back, and the records derived from the state. *)

From S2P Require Export ConsentStore.
#[local] Open Scope Z_scope.

Definition encode_digest (value : bytes32) : str := encode_hex (barr value).

(** [status IN ('completed', .., 'rollback_partial')]. *)
Definition TERMINAL : list OrganizationExecutionStatus :=
  [OesCompleted; OesPartial; OesFailed; OesCancelled; OesRolledBack; OesRollbackPartial].

(** ** Updated rows *)

Definition counted_kind (operation : OperationRow) : bool :=
  negb (bool_decide (eo_kind operation ∈ [EokCreateDirectory; EokRemoveDirectoryIfEmpty;
    EokInternalStage])).

Definition refreshed_counts (x : ExecutionId) (operations : list OperationRow) : SessionCounts :=
  let mine states (counted : OperationRow -> bool) := count_rows (fun operation =>
    bool_decide (eo_execution_id operation = x) && bool_decide (eo_status operation ∈ states)
    && counted operation) operations in
  let every _ := true in
  {| sct_blocked := mine [EosBlocked; EosStale] every;
     sct_skipped := mine [EosSkipped] every;
     sct_applied := mine [EosApplied; EosRecovered] counted_kind;
     sct_failed := mine [EosFailed] every;
     sct_rolled_back := mine [EosRolledBack] counted_kind;
     sct_rollback_blocked := mine [EosRollbackBlocked] every;
     sct_rollback_failed := mine [EosRollbackFailed] every |}.

Definition some_applied (x : ExecutionId) (operations : list OperationRow) : bool :=
  existsb (fun operation => bool_decide (eo_execution_id operation = x)
    && bool_decide (eo_status operation ∈ [EosApplied; EosRecovered])) operations.

Definition with_counts (counts : SessionCounts) (available : bool) (row : SessionRow) : SessionRow :=
  let control := ssr_control row in {|
  ssr_id := ssr_id row; ssr_plan := ssr_plan row; ssr_status := ssr_status row;
  ssr_recovery_state := ssr_recovery_state row; ssr_counts := counts;
  ssr_control := {|
    scl_user_confirmed := scl_user_confirmed control; scl_rollback_available := available;
    scl_pause_requested := scl_pause_requested control;
    scl_cancel_requested := scl_cancel_requested control;
    scl_current_operation := scl_current_operation control;
    scl_approved_at := scl_approved_at control; scl_started_at := scl_started_at control;
    scl_completed_at := scl_completed_at control; scl_rolled_back_at := scl_rolled_back_at control;
    scl_error_message := scl_error_message control |};
  ssr_journal_sequence := ssr_journal_sequence row;
  ssr_journal_chain_head := ssr_journal_chain_head row |}.

(** A session after an event: [?4] is [status], [?5] the error and [?7] the
    time; [current] is the path of the operation of the event. *)
Definition advanced_control (status : option OrganizationExecutionStatus)
    (step : option OperationStepId) (current : option str) (error_message : option str)
    (created_at : str) (control : SessionControl) : SessionControl :=
  let among states := match status with Some s => bool_decide (s ∈ states) | None => false end in {|
  scl_user_confirmed := scl_user_confirmed control;
  scl_rollback_available := scl_rollback_available control;
  scl_pause_requested := scl_pause_requested control;
  scl_cancel_requested := scl_cancel_requested control;
  scl_current_operation :=
    if among [OesRunning] && negb (bool_decide (step = None)) then current
    else if among [OesCompleted; OesPartial; OesFailed; OesCancelled; OesPaused; OesRecoveryRequired;
                OesRecoveryAvailable; OesRecoveryAmbiguous; OesRolledBack; OesRollbackPartial]
    then None else scl_current_operation control;
  scl_approved_at := scl_approved_at control;
  scl_started_at := if among [OesRunning] then coalesce (scl_started_at control) created_at
                    else scl_started_at control;
  scl_completed_at := if among [OesCompleted; OesPartial; OesFailed; OesCancelled]
                      then Some created_at else scl_completed_at control;
  scl_rolled_back_at := if among [OesRolledBack; OesRollbackPartial] then Some created_at
                        else scl_rolled_back_at control;
  scl_error_message := match error_message with
                       | Some message => Some message
                       | None => scl_error_message control
                       end |}.

Definition advanced_session (event : OperationJournalEvent)
    (status : option OrganizationExecutionStatus) (current error_message : option str)
    (created_at : str) (row : SessionRow) : SessionRow := {|
  ssr_id := ssr_id row; ssr_plan := ssr_plan row;
  ssr_status := default (ssr_status row) status;
  ssr_recovery_state :=
    match status with
    | Some s => if bool_decide (s ∈ TERMINAL) then ErsRecoveryNotRequired else ssr_recovery_state row
    | None => ssr_recovery_state row
    end;
  ssr_counts := ssr_counts row;
  ssr_control := advanced_control status (ev_step_id event) current error_message created_at
    (ssr_control row);
  ssr_journal_sequence := ev_sequence event;
  ssr_journal_chain_head := Some (ev_event_digest event) |}.

Definition or_else {A} (new old : option A) : option A :=
  match new with Some a => Some a | None => old end.

Definition advanced_operation (status : option ExecutionOperationStatus)
    (post : option FileFingerprint) (error_code error_message : option str) (created_at : str)
    (row : OperationRow) : OperationRow :=
  let among states := match status with Some s => bool_decide (s ∈ states) | None => false end in {|
  eo_id := eo_id row; eo_execution_id := eo_execution_id row;
  eo_proposal_operation_id := eo_proposal_operation_id row; eo_kind := eo_kind row;
  eo_source_relative_path := eo_source_relative_path row;
  eo_destination_relative_path := eo_destination_relative_path row;
  eo_original_source_relative_path := eo_original_source_relative_path row;
  eo_expected_source_hash := eo_expected_source_hash row;
  eo_expected_source_size := eo_expected_source_size row;
  eo_expected_source_modified_at := eo_expected_source_modified_at row;
  eo_live_fingerprint := eo_live_fingerprint row;
  eo_post_fingerprint := or_else post (eo_post_fingerprint row);
  eo_preconditions := eo_preconditions row; eo_dependencies := eo_dependencies row;
  eo_sequence := eo_sequence row; eo_status := default (eo_status row) status;
  eo_directory_existed_before := eo_directory_existed_before row; eo_reason := eo_reason row;
  eo_error_code := or_else error_code (eo_error_code row);
  eo_error_message := or_else error_message (eo_error_message row);
  eo_started_at := if among [EosRunning; EosRollingBack] then coalesce (eo_started_at row) created_at
                   else eo_started_at row;
  eo_completed_at := if among [EosApplied; EosFailed; EosSkipped; EosRecovered] then Some created_at
                     else eo_completed_at row;
  eo_rolled_back_at := if among [EosRolledBack] then Some created_at else eo_rolled_back_at row |}.

Definition resolved_recovery (created_at : str) (row : RecoveryRow) : RecoveryRow := {|
  rcr_execution_id := rcr_execution_id row; rcr_recovery_state := ErsRecoveryNotRequired;
  rcr_not_started_count := rcr_not_started_count row; rcr_applied_count := rcr_applied_count row;
  rcr_ambiguous_count := rcr_ambiguous_count row; rcr_details := rcr_details row;
  rcr_assessed_at := rcr_assessed_at row; rcr_resolved_at := Some created_at |}.

Definition with_request_state (state : ExecutorRequestState) (proof_recorded_at : option str)
    (row : RequestRow) : RequestRow := {|
  rqr_request := rqr_request row; rqr_intent_event_sequence := rqr_intent_event_sequence row;
  rqr_intent_event_digest := rqr_intent_event_digest row; rqr_state := state;
  rqr_response_digest := rqr_response_digest row; rqr_outcome_class := rqr_outcome_class row;
  rqr_attempt_count := rqr_attempt_count row; rqr_error_class := rqr_error_class row;
  rqr_prepared_at := rqr_prepared_at row; rqr_response_recorded_at := rqr_response_recorded_at row;
  rqr_proof_recorded_at := proof_recorded_at |}.

Definition with_response (state : ExecutorRequestState) (response_digest outcome_class : str)
    (attempt_count : option Z) (error_class : option str) (recorded_at : str) (row : RequestRow) :
    RequestRow := {|
  rqr_request := rqr_request row; rqr_intent_event_sequence := rqr_intent_event_sequence row;
  rqr_intent_event_digest := rqr_intent_event_digest row; rqr_state := state;
  rqr_response_digest := Some response_digest; rqr_outcome_class := Some outcome_class;
  rqr_attempt_count := attempt_count; rqr_error_class := error_class;
  rqr_prepared_at := rqr_prepared_at row; rqr_response_recorded_at := Some recorded_at;
  rqr_proof_recorded_at := rqr_proof_recorded_at row |}.

Definition new_request (request : ExecutorRequestIdentity) (event : OperationJournalEvent)
    (created_at : str) : RequestRow := {|
  rqr_request := request; rqr_intent_event_sequence := ev_sequence event;
  rqr_intent_event_digest := ev_event_digest event; rqr_state := IntentDurable;
  rqr_response_digest := None; rqr_outcome_class := None; rqr_attempt_count := None;
  rqr_error_class := None; rqr_prepared_at := created_at; rqr_response_recorded_at := None;
  rqr_proof_recorded_at := None |}.

Definition journal_row (event : OperationJournalEvent) (canonical_data created_at : str) :
    JournalRow := {|
  jnr_execution_id := ev_execution_id event; jnr_sequence_number := ev_sequence event;
  jnr_operation_id := ev_step_id event; jnr_event_kind := ev_kind event;
  jnr_canonical_data := canonical_data; jnr_payload_digest := ev_payload_digest event;
  jnr_previous_entry_digest := ev_previous_event_digest event;
  jnr_entry_digest := ev_event_digest event;
  jnr_occurred_at_unix_ms := ev_occurred_at_unix_ms event; jnr_created_at := created_at |}.

Definition event_of_row (row : JournalRow) : res PersistenceError OperationJournalEvent :=
  sequence ← ok_or (u64_try_from (jnr_sequence_number row)) PrNumericOverflow;
  Ok {| ev_execution_id := jnr_execution_id row; ev_sequence := sequence;
        ev_step_id := jnr_operation_id row; ev_kind := jnr_event_kind row;
        ev_payload := utf8 (jnr_canonical_data row); ev_payload_digest := jnr_payload_digest row;
        ev_previous_event_digest := jnr_previous_entry_digest row;
        ev_event_digest := jnr_entry_digest row;
        ev_occurred_at_unix_ms := jnr_occurred_at_unix_ms row |}.

Section events.
Context `{EN : SqlEngine} `{JT1 : JsonText (list ProposalItemId)} `{JT2 : JsonText VolumeIdentity}.
Context `{JT3 : JsonText FileFingerprint} `{JT4 : JsonText (list str)}.
Context `{B3 : Blake3} `{BH : Blake3Hex} `{UU : UuidCrate} `{JC : JsonCrate}.
Notation Sql A := (SE Db PersistenceError A).
Notation invalid := InvalidExecution.

(** ** Derived records *)

Definition insert_rollback_record (x : ExecutionId) (operation_id : OperationStepId)
    (prepared_at : str) : Sql Z :=
  execute_sql (fun db =>
    match find (fun row => bool_decide (eo_execution_id row = x)
        && bool_decide (eo_id row = operation_id)) (db_operations db) with
    | None => (0, db)
    | Some operation =>
        let db' := with_rollback_records (db_rollback_records db ++ [{|
          rbr_execution_id := x; rbr_operation_id := operation_id;
          rbr_rollback_order := eo_sequence operation;
          rbr_source_relative_path := eo_destination_relative_path operation;
          rbr_destination_relative_path :=
            default (eo_destination_relative_path operation) (eo_source_relative_path operation);
          rbr_expected_fingerprint := eo_post_fingerprint operation;
          rbr_prepared_at := prepared_at |}]) db in
        (* INSERT OR IGNORE *)
        if rows_check db' && keys_check db' then (1, db') else (0, db)
    end).

Definition refresh_execution_counts (x : ExecutionId) : Sql Z :=
  execute_sql (fun db =>
    let operations := db_operations db in
    let where_ row := bool_decide (ssr_id row = x) in
    let available row :=
      negb (bool_decide (ssr_status row ∈ [OesRolledBack; OesRollbackPartial; OesRecoveryAmbiguous]))
      && some_applied x operations in
    (count_rows where_ (db_sessions db),
     with_sessions (updated where_ (fun row =>
       with_counts (refreshed_counts x operations) (available row) row) (db_sessions db)) db)).

(** The columns read the row as it was before the statement. *)
Definition refreshed_retention (session : option SessionRow) (updated_at : str)
    (row : RetentionRow) : RetentionRow :=
  let holds (p : SessionRow -> bool) := match session with Some s => p s | None => false end in
  let over := holds (fun s => bool_decide (ssr_status s ∈ TERMINAL)) in
  let recovering := holds (fun s => bool_decide (ssr_recovery_state s
    ∈ [ErsRecoveryRequired; ErsRecoveryAmbiguous])) in
  let available := holds (fun s => scl_rollback_available (ssr_control s)) in
  let finalized := negb (bool_decide (rtn_finalized_at row = None)) in
  let retain_until := or_else (rtn_minimum_retain_until row) (thirty_days_after updated_at) in {|
  rtn_execution_id := rtn_execution_id row;
  rtn_finalized_at := if over then coalesce (rtn_finalized_at row) updated_at
                      else rtn_finalized_at row;
  rtn_journal_retention_reason :=
    if recovering then lit "recovery_evidence_required"
    else if available then lit "rollback_evidence_required" else lit "execution_audit_history";
  rtn_rollback_retention_reason :=
    if available then lit "verified_applied_operations" else lit "no_rollback_eligible_operations";
  rtn_minimum_retain_until := if over then retain_until else rtn_minimum_retain_until row;
  rtn_active_recovery := recovering;
  rtn_rollback_eligible := negb recovering && available;
  rtn_cleanup_eligible_at :=
    if recovering then None else if available then None
    else if finalized then retain_until else None;
  rtn_cleanup_eligibility_reason :=
    if recovering then lit "active_recovery_blocks_cleanup"
    else if available then lit "rollback_eligibility_blocks_cleanup"
    else if negb finalized then lit "execution_not_finalized"
    else lit "eligible_after_minimum_retention";
  rtn_updated_at := updated_at |}.

Definition session_row_of (x : ExecutionId) (db : Db) : option SessionRow :=
  find (fun row => bool_decide (ssr_id row = x)) (db_sessions db).

Definition refresh_execution_retention (x : ExecutionId) (updated_at : str) : Sql Z :=
  execute_sql (fun db =>
    let where_ row := bool_decide (rtn_execution_id row = x) in
    (count_rows where_ (db_retention db),
     with_retention (updated where_ (refreshed_retention (session_row_of x db) updated_at)
       (db_retention db)) db)).

Definition execution_retention_metadata (x : ExecutionId) : Sql RetentionRow :=
  query_row (fun db => find (fun row => bool_decide (rtn_execution_id row = x)) (db_retention db)).

(** ** The states of a request *)

Definition request_of (request_id : str) (row : RequestRow) : bool :=
  bool_decide (eri_request_id (rqr_request row) = request_id).

Definition executor_request_state (request_id : str) : Sql ExecutorRequestState :=
  query_row (fun db => rqr_state <$> find (request_of request_id) (db_requests db)).

Definition transition_executor_request_state (request_id : str) (next : ExecutorRequestState)
    (recorded_at : str) (proof : bool) : Sql unit :=
  current ← executor_request_state request_id;
  se_lift (reject_if (negb (may_transition_to current next)) invalid);;
  changed ← update_requests
    (fun row => request_of request_id row && bool_decide (rqr_state row = current))
    (fun row => with_request_state next
      (if proof then coalesce (rqr_proof_recorded_at row) recorded_at
       else rqr_proof_recorded_at row) row);
  require_one changed.

Definition transition_executor_request_proof (request_id : str) (proof_state : ExecutorRequestState)
    (recorded_at : str) : Sql unit :=
  se_lift (reject_if (negb (bool_decide (proof_state ∈
    [ProvenNotStarted; ProvenApplied; Ambiguous; RecoveryRequired]))) invalid);;
  transaction (transition_executor_request_state request_id proof_state recorded_at true).

Definition record_executor_response (request_id response_digest_hex outcome_class : str)
    (attempt_count : option Z) (error_class : option str) (state : ExecutorRequestState)
    (recorded_at : str) : Sql unit :=
  se_lift (reject_if (negb (len request_id =? 64) || negb (len response_digest_hex =? 64)
    || negb (known outcome_class OUTCOME_CLASSES)
    || match attempt_count with Some value => negb ((1 <=? value) && (value <=? 3)) | None => false end
    || match error_class with
       | Some value => bool_decide (value = []) || (128 <? len value)
       | None => false
       end
    || negb (bool_decide (state ∈ [AcknowledgedSuccess; ProvenNotApplied; RecoveryRequired])))
    invalid);;
  transaction (
    current ← executor_request_state request_id;
    se_lift (reject_if (negb (may_transition_to current state)) invalid);;
    changed ← update_requests
      (fun row => request_of request_id row && bool_decide (rqr_state row = current)
         && bool_decide (rqr_response_digest row = None))
      (with_response state response_digest_hex outcome_class attempt_count error_class recorded_at);
    require_one changed).

(** ** Storing an event *)

(** The intent names the request its payload describes. *)
Definition intent_matches (event : OperationJournalEvent) (request : ExecutorRequestIdentity) : bool :=
  bool_decide (eri_execution_id request = ev_execution_id event)
  && bool_decide (ev_step_id event = Some (eri_operation_id request))
  && bool_decide (ev_kind event ∈ [IntentDurableEvent; RollbackIntent])
  && (len (eri_request_id request) =? 64) && (len (eri_session_id request) =? 64)
  && (len (eri_request_digest_hex request) =? 64)
  && negb (eri_request_sequence request =? 0)
  && negb (forallb (fun b => Byte.eqb b x00) (barr (eri_request_nonce request))).

Definition payload_matches (request : ExecutorRequestIdentity) (stored : Value) : bool :=
  bool_decide ((get "request_id" stored ≫= as_str) = Some (eri_request_id request))
  && bool_decide ((get "session_id" stored ≫= as_str) = Some (eri_session_id request))
  && bool_decide ((get "request_sequence" stored ≫= as_u64) = Some (eri_request_sequence request))
  && bool_decide ((get "request_digest" stored ≫= as_str) = Some (eri_request_digest_hex request)).

Definition same_slot (request : ExecutorRequestIdentity) (row : RequestRow) : bool :=
  bool_decide (eri_execution_id (rqr_request row) = eri_execution_id request)
  && bool_decide (eri_operation_id (rqr_request row) = eri_operation_id request)
  && bool_decide (eri_direction (rqr_request row) = eri_direction request).

(** [ExecutorRequestDirection] and [ExecutorSessionPurpose] share their names. *)
Definition purpose_of (direction : ExecutorRequestDirection) (purpose : ExecutorSessionPurpose) : bool :=
  bool_decide (session_purpose_name purpose = request_direction_name direction).

Definition store_intent (event : OperationJournalEvent) (canonical_data created_at : str)
    (request : ExecutorRequestIdentity) : Sql unit :=
  se_lift (reject_if (negb (intent_matches event request)) invalid);;
  payload ← se_lift (ok_or (value_from_slice (utf8 canonical_data)) invalid);
  stored ← se_lift (ok_or (get "executor_request" payload) invalid);
  se_lift (reject_if (negb (payload_matches request stored)) invalid);;
  purpose ← query_present (fun db => esi_purpose <$> find (fun row =>
      bool_decide (esi_session_id row = eri_session_id request)
      && bool_decide (esi_execution_id row = eri_execution_id request)) (db_executor_sessions db));
  se_lift (reject_if (negb (purpose_of (eri_direction request) purpose)) invalid);;
  prior ← query (fun db => rqr_state <$> filter (fun row => same_slot request row = true)
    (db_requests db));
  se_lift (reject_if (negb (bool_decide (prior = []))
      && bool_decide (eri_direction request = ErdForward)
      || existsb (fun state => negb (bool_decide (state ∈ [ProvenNotApplied; ProvenNotStarted])))
           prior) invalid);;
  se_lift (to_sql_u64 (eri_request_sequence request));;
  se_lift (to_sql_u64 (ev_sequence event));;
  insert_sql db_requests (fun rows db => with_requests rows db) (new_request request event created_at);;
  mret tt.

Definition update_event_operation (event : OperationJournalEvent) (step : OperationStepId)
    (status : option ExecutionOperationStatus) (post : option FileFingerprint)
    (error_code error_message : option str) (created_at : str) : Sql unit :=
  se_lift (match post with Some fingerprint => json_written fingerprint | None => Ok tt end);;
  changed ← update_operations (fun row => bool_decide (eo_execution_id row = ev_execution_id event)
      && bool_decide (eo_id row = step))
    (advanced_operation status post error_code error_message created_at);
  require_one changed;;
  match status with
  | Some (EosApplied | EosRecovered) =>
      insert_rollback_record (ev_execution_id event) step created_at;; mret tt
  | _ => mret tt
  end.

Definition update_event_session (event : OperationJournalEvent)
    (status : option OrganizationExecutionStatus) (error_message : option str) (created_at : str) :
    Sql unit :=
  execute_sql (fun db =>
    let current := step ← ev_step_id event;
      eo_destination_relative_path <$> find (fun row =>
        bool_decide (eo_execution_id row = ev_execution_id event) && bool_decide (eo_id row = step))
        (db_operations db) in
    let where_ row := bool_decide (ssr_id row = ev_execution_id event) in
    (count_rows where_ (db_sessions db),
     with_sessions (updated where_
       (advanced_session event status current error_message created_at) (db_sessions db)) db));;
  match status with
  | Some s =>
      if bool_decide (s ∈ TERMINAL) then
        update_recovery (fun row => bool_decide (rcr_execution_id row = ev_execution_id event))
          (resolved_recovery created_at);;
        mret tt
      else mret tt
  | None => mret tt
  end.

Definition persist_execution_event_inner (event : OperationJournalEvent) (canonical_data : str)
    (operation_status : option ExecutionOperationStatus)
    (session_status : option OrganizationExecutionStatus) (post : option FileFingerprint)
    (error_code error_message : option str) (created_at : str)
    (request_intent : option ExecutorRequestIdentity)
    (request_proof : option (str * ExecutorRequestState)) : Sql unit :=
  se_lift (reject_if (bool_decide (value_from_slice (utf8 canonical_data) = None)
    || negb (bool_decide (ev_payload event = utf8 canonical_data))
    || negb (bool_decide (ev_payload_digest event = blake3_hash (utf8 canonical_data)))) invalid);;
  transaction (
    session ← query_present (session_row_of (ev_execution_id event));
    sequence ← se_lift (to_sql_u64 (ev_sequence event));
    se_lift (reject_if
      (negb (sequence =? i64_saturating_add (ssr_journal_sequence session) 1)
       || negb (verify_event event (ssr_journal_chain_head session))) invalid);;
    insert_sql db_journal with_journal (journal_row event canonical_data created_at);;
    match request_intent with
    | Some request => store_intent event canonical_data created_at request
    | None => mret tt
    end;;
    update_event_session event session_status error_message created_at;;
    match ev_step_id event with
    | Some step => update_event_operation event step operation_status post error_code error_message
        created_at
    | None => mret tt
    end;;
    refresh_execution_counts (ev_execution_id event);;
    match request_proof with
    | Some (request_id, proof_state) =>
        transition_executor_request_state request_id proof_state created_at true
    | None => mret tt
    end;;
    refresh_execution_retention (ev_execution_id event) created_at;;
    mret tt).

Definition persist_execution_event (event : OperationJournalEvent) (canonical_data : str)
    (operation_status : option ExecutionOperationStatus)
    (session_status : option OrganizationExecutionStatus) (post : option FileFingerprint)
    (error_code error_message : option str) (created_at : str) : Sql unit :=
  persist_execution_event_inner event canonical_data operation_status session_status post
    error_code error_message created_at None None.

Definition persist_executor_request_intent (event : OperationJournalEvent) (canonical_data : str)
    (operation_status : ExecutionOperationStatus) (session_status : OrganizationExecutionStatus)
    (request : ExecutorRequestIdentity) (created_at : str) : Sql unit :=
  persist_execution_event_inner event canonical_data (Some operation_status) (Some session_status)
    None None None created_at (Some request) None.

Definition persist_execution_event_with_request_proof (event : OperationJournalEvent)
    (canonical_data : str) (operation_status : option ExecutionOperationStatus)
    (session_status : option OrganizationExecutionStatus) (post : option FileFingerprint)
    (error_code error_message : option str) (created_at request_id : str)
    (proof_state : ExecutorRequestState) : Sql unit :=
  persist_execution_event_inner event canonical_data operation_status session_status post
    error_code error_message created_at None (Some (request_id, proof_state)).

(** ** Sessions and requests of the executor *)

Definition persist_executor_session (identity : ExecutorSessionIdentity) : Sql unit :=
  se_lift (reject_if (negb (len (esi_session_id identity) =? 64)
    || negb (len (esi_plan_digest_hex identity) =? 64) || (esi_coordinator_pid identity =? 0)
    || bool_decide (esi_child_pid identity = Some 0)
    || negb (len (esi_worker_nonce_hash_hex identity) =? 64)
    || negb (len (esi_coordinator_nonce_hash_hex identity) =? 64)
    || match esi_response_nonce_hash_hex identity with
       | Some value => negb (len value =? 64)
       | None => false
       end
    || (esi_opened_at_unix_ms identity <? 0)) invalid);;
  changed ← execute_sql (fun db =>
    if existsb (fun row => bool_decide (ssr_id row = esi_execution_id identity)
         && bool_decide (spl_plan_id (ssr_plan row) = esi_plan_id identity)
         && bool_decide (spl_plan_digest (ssr_plan row) = esi_plan_digest_hex identity))
         (db_sessions db)
    then (1, with_executor_sessions (db_executor_sessions db ++ [identity]) db) else (0, db));
  require_one changed.

Definition lexicographic {A} (before : A -> A -> bool) (then_ : A -> A -> bool) (a b : A) : bool :=
  before a b && (negb (before b a) || then_ a b).

Definition session_fact (row : ExecutorSessionRow) : res PersistenceError ExecutorSessionFact :=
  sql_u32 (esi_coordinator_pid row);;
  match esi_child_pid row with Some pid => sql_u32 pid;; Ok row | None => Ok row end.

Definition executor_session_facts (x : ExecutionId) : Sql (list ExecutorSessionFact) :=
  rows ← query (fun db => sort_by (lexicographic
      (fun a b => esi_opened_at_unix_ms a <=? esi_opened_at_unix_ms b)
      (fun a b => str_leb (esi_session_id a) (esi_session_id b)))
    (filter (fun row => esi_execution_id row = x) (db_executor_sessions db)));
  se_lift (collect session_fact rows).

Definition request_fact (row : RequestRow) : res PersistenceError ExecutorRequestFact :=
  let request := rqr_request row in
  sequence ← from_sql_u64 (eri_request_sequence request);
  intent_sequence ← from_sql_u64 (rqr_intent_event_sequence row);
  attempts ← match rqr_attempt_count row with
             | Some count => if (0 <=? count) && (count <=? u8_max) then Ok (Some count)
                             else Err PrNumericOverflow
             | None => Ok None
             end;
  Ok {| erf_request_id := eri_request_id request; erf_session_id := eri_session_id request;
        erf_operation_id := eri_operation_id request; erf_direction := eri_direction request;
        erf_request_sequence := sequence;
        erf_request_nonce_hash_hex := executor_nonce_hash (eri_request_nonce request);
        erf_request_digest_hex := eri_request_digest_hex request;
        erf_intent_event_sequence := intent_sequence;
        erf_intent_event_digest_hex := encode_digest (rqr_intent_event_digest row);
        erf_state := rqr_state row; erf_response_digest_hex := rqr_response_digest row;
        erf_outcome_class := rqr_outcome_class row; erf_attempt_count := attempts;
        erf_error_class := rqr_error_class row |}.

Definition executor_request_facts (x : ExecutionId) : Sql (list ExecutorRequestFact) :=
  rows ← query (fun db => sort_by (lexicographic
      (fun a b => rqr_intent_event_sequence a <=? rqr_intent_event_sequence b)
      (fun a b => str_leb (eri_request_id (rqr_request a)) (eri_request_id (rqr_request b))))
    (filter (fun row => eri_execution_id (rqr_request row) = x) (db_requests db)));
  se_lift (collect request_fact rows).

(** ** The journal read back *)

Definition execution_ids_with_journal : Sql (list ExecutionId) :=
  query (fun db => ssr_id <$> sort_by (lexicographic created_before
      (fun a b => bytes_leb (barr (ssr_id a)) (barr (ssr_id b))))
    (filter (fun row => 0 <= ssr_journal_sequence row) (db_sessions db))).

Definition execution_journal_events (x : ExecutionId) : Sql (list OperationJournalEvent) :=
  rows ← query (fun db => sort_by (fun a b => jnr_sequence_number a <=? jnr_sequence_number b)
    (filter (fun row => jnr_execution_id row = x) (db_journal db)));
  se_lift (collect event_of_row rows).

(** The loop of [validate_execution_journal]: the digest the chain ends in. *)
Fixpoint walk_chain (index : Z) (previous : option bytes32) (events : list OperationJournalEvent) :
    option (option bytes32) :=
  match events with
  | [] => Some previous
  | event :: events =>
      if negb (ev_sequence event =? index) || negb (verify_event event previous) then None
      else walk_chain (index + 1) (Some (ev_event_digest event)) events
  end.

Definition validate_execution_journal (x : ExecutionId) : Sql bool :=
  events ← execution_journal_events x;
  match walk_chain 0 None events with
  | None => mret false
  | Some previous =>
      stored ← query_row (fun db => ssr_journal_chain_head <$> session_row_of x db);
      mret (bool_decide (stored = previous))
  end.

(** ** Recovery, errors and cancellation *)

Definition recovery_status (state : ExecutionRecoveryState) : OrganizationExecutionStatus :=
  match state with
  | ErsRecoveryNotRequired => OesPaused
  | ErsRecoveryAvailable => OesRecoveryAvailable
  | ErsRecoveryRequired => OesRecoveryRequired
  | ErsRecoveryAmbiguous => OesRecoveryAmbiguous
  end.

(** [INSERT .. ON CONFLICT(execution_id) DO UPDATE]. *)
Definition upsert_recovery (row : RecoveryRow) (rows : list RecoveryRow) : list RecoveryRow :=
  let mine old := bool_decide (rcr_execution_id old = rcr_execution_id row) in
  if existsb mine rows then updated mine (fun _ => row) rows else rows ++ [row].

Definition persist_recovery_assessment (x : ExecutionId) (state : ExecutionRecoveryState)
    (not_started applied ambiguous : Z) (details assessed_at : str) : Sql unit :=
  se_lift (reject_if (bool_decide (value_from_slice (utf8 details) = None)) invalid);;
  transaction (
    not_started ← se_lift (to_sql_u64 not_started);
    applied ← se_lift (to_sql_u64 applied);
    ambiguous ← se_lift (to_sql_u64 ambiguous);
    execute_sql (fun db => (1, with_recovery (upsert_recovery {|
      rcr_execution_id := x; rcr_recovery_state := state; rcr_not_started_count := not_started;
      rcr_applied_count := applied; rcr_ambiguous_count := ambiguous; rcr_details := details;
      rcr_assessed_at := assessed_at; rcr_resolved_at := None |} (db_recovery db)) db));;
    update_sessions (fun row => bool_decide (ssr_id row = x))
      (fun row => with_recovery_state (recovery_status state) state (ssr_control row) row);;
    refresh_execution_counts x;;
    refresh_execution_retention x assessed_at;;
    mret tt).

Definition add_execution_error (x : ExecutionId) (operation_id : option OperationStepId)
    (category : ExecutionFailureCategory) (code user_message : str) (technical_details : option str)
    (created_at : str) : Sql unit :=
  execute_sql (fun db => (1, with_errors (db_errors db ++ [{|
    err_id := new_error_id db; err_execution_id := x; err_operation_id := operation_id;
    err_category := failure_category_name category; err_code := code;
    err_user_message := user_message; err_technical_details := technical_details;
    err_created_at := created_at |}]) db));;
  mret tt.

Definition cancelled_control (completed_at : str) (control : SessionControl) : SessionControl := {|
  scl_user_confirmed := scl_user_confirmed control; scl_rollback_available := false;
  scl_pause_requested := scl_pause_requested control; scl_cancel_requested := true;
  scl_current_operation := scl_current_operation control;
  scl_approved_at := scl_approved_at control; scl_started_at := scl_started_at control;
  scl_completed_at := Some completed_at; scl_rolled_back_at := scl_rolled_back_at control;
  scl_error_message := scl_error_message control |}.

Definition cancel_unstarted_execution (x : ExecutionId) (completed_at : str) : Sql bool :=
  transaction (
    changed ← execute_sql (fun db =>
      let where_ row := session_in x [OesAwaitingConfirmation; OesApproved; OesPaused] row
        && (sct_applied (ssr_counts row) =? 0)
        && negb (existsb (fun operation => bool_decide (eo_execution_id operation = x)
             && bool_decide (eo_status operation ∈ [EosRunning; EosApplied; EosRecovered]))
             (db_operations db)) in
      (count_rows where_ (db_sessions db),
       with_sessions (updated where_ (fun row => with_status OesCancelled
         (cancelled_control completed_at (ssr_control row)) row) (db_sessions db)) db));
    (if changed =? 1 then refresh_execution_retention x completed_at;; mret tt else mret tt);;
    mret (changed =? 1)).
End events.
