(* ===== verification/StoreSteps.v ===== *)
(** * What the operations of the store leave alone

    The calls that change the database of executions, any sequence of them, and
    the part of the database each one cannot touch. *)

From S2P Require Export EventStore.
#[local] Open Scope Z_scope.

(** ** Calls *)

Inductive StoreCall :=
  | ScPrepare (detail : ExecutionDetail)
  | ScIssue (x : ExecutionId) (nonce : bytes32) (issued_at expires_at : Z)
  | ScAttest (x : ExecutionId) (nonce : bytes32) (issued_at expires_at : Z) (mac : bytes32)
      (attested_at : Z)
  | ScClear (x : ExecutionId) (nonce : bytes32) (issued_at expires_at now : Z)
  | ScExpire (x : ExecutionId) (now : Z)
  | ScInvalidate (x : ExecutionId) (reason : str) (now : Z)
  | ScConsume (x : ExecutionId) (nonce : bytes32) (issued_at expires_at : Z) (mac : bytes32)
      (consumed_at : Z)
  | ScInterrupted
  | ScRecoveryRequired (x : ExecutionId) (message : str)
  | ScControl (x : ExecutionId) (pause cancel : bool)
  | ScClearPause (x : ExecutionId)
  | ScCancelUnstarted (x : ExecutionId) (completed_at : str)
  (* the three ways an event is stored *)
  | ScEvent (event : OperationJournalEvent) (canonical_data : str)
      (operation_status : option ExecutionOperationStatus)
      (session_status : option OrganizationExecutionStatus) (post : option FileFingerprint)
      (error_code error_message : option str) (created_at : str)
      (request_intent : option ExecutorRequestIdentity)
      (request_proof : option (str * ExecutorRequestState))
  | ScSession (identity : ExecutorSessionIdentity)
  | ScResponse (request_id response_digest outcome_class : str) (attempt_count : option Z)
      (error_class : option str) (state : ExecutorRequestState) (recorded_at : str)
  | ScProof (request_id : str) (proof_state : ExecutorRequestState) (recorded_at : str)
  | ScAssessment (x : ExecutionId) (state : ExecutionRecoveryState)
      (not_started applied ambiguous : Z) (details assessed_at : str)
  | ScError (x : ExecutionId) (operation_id : option OperationStepId)
      (category : ExecutionFailureCategory) (code user_message : str)
      (technical_details : option str) (created_at : str).

Section calls.
Context `{EN : SqlEngine} `{JT1 : JsonText (list ProposalItemId)} `{JT2 : JsonText VolumeIdentity}.
Context `{JT3 : JsonText FileFingerprint} `{JT4 : JsonText (list str)} `{UC : UnicodeCase}.
Context `{B3 : Blake3} `{UU : UuidCrate} `{JC : JsonCrate}.
Notation Sql A := (SE Db PersistenceError A).

Definition forget {A} (m : Sql A) : Sql unit := m;; mret tt.

Definition perform (call : StoreCall) : Sql unit :=
  match call with
  | ScPrepare detail => persist_prepared_execution detail
  | ScIssue x nonce issued expires => forget (issue_execution_consent_challenge x nonce issued expires)
  | ScAttest x nonce issued expires mac at_ =>
      forget (attest_execution_consent x nonce issued expires mac at_)
  | ScClear x nonce issued expires now =>
      forget (clear_execution_consent_challenge x nonce issued expires now)
  | ScExpire x now => forget (expire_execution_consent x now)
  | ScInvalidate x reason now => forget (invalidate_execution_consent x reason now)
  | ScConsume x nonce issued expires mac at_ =>
      forget (consume_execution_consent x nonce issued expires mac at_)
  | ScInterrupted => forget mark_interrupted_executions_for_recovery
  | ScRecoveryRequired x message => forget (mark_execution_recovery_required x message)
  | ScControl x pause cancel => forget (set_execution_control x pause cancel)
  | ScClearPause x => clear_execution_pause x
  | ScCancelUnstarted x at_ => forget (cancel_unstarted_execution x at_)
  | ScEvent event data operation session post code message at_ intent proof =>
      persist_execution_event_inner event data operation session post code message at_ intent proof
  | ScSession identity => persist_executor_session identity
  | ScResponse request digest class count error state at_ =>
      record_executor_response request digest class count error state at_
  | ScProof request state at_ => transition_executor_request_proof request state at_
  | ScAssessment x state a b c details at_ => persist_recovery_assessment x state a b c details at_
  | ScError x operation category code message details at_ =>
      add_execution_error x operation category code message details at_
  end.

(** Any sequence of calls, the failed ones included: those that succeeded, and
    the database they leave. *)
Fixpoint perform_all (calls : list StoreCall) (db : Db) : list StoreCall * Db :=
  match calls with
  | [] => ([], db)
  | call :: calls =>
      let '(r, db1) := perform call db in
      let '(done, db2) := perform_all calls db1 in
      (if is_ok r then call :: done else done, db2)
  end.

(** ** Relations between the databases before and after a call *)

Section steps.
Context (R : Db -> Db -> Prop) `{PO : !PreOrder R}.

Definition steps {A} (m : Sql A) : Prop := forall db, R db (snd (m db)).

Lemma steps_bind {A B} (m : Sql A) (k : A -> Sql B) :
  steps m -> (forall a, steps (k a)) -> steps (m ≫= k).
Proof.
  intros Hm Hk db. specialize (Hm db). cbv [mbind se_bind].
  destruct (m db) as [[a|e] db1]; [|done]. etrans; [exact Hm|apply Hk].
Qed.
Lemma steps_ret {A} (a : A) : steps (mret a).
Proof. intros db. reflexivity. Qed.
Lemma steps_lift {A} (m : res PersistenceError A) : steps (se_lift m).
Proof. intros db. reflexivity. Qed.
Lemma steps_fail {A} (e : PersistenceError) : steps (A := A) (se_fail e).
Proof. intros db. reflexivity. Qed.
Lemma steps_engine : steps engine.
Proof. intros db. unfold engine. by destruct (engine_error db). Qed.
Lemma steps_query {A} (f : Db -> A) : steps (query f).
Proof. apply steps_bind; [apply steps_engine|]. intros _ db. reflexivity. Qed.
Lemma steps_query_row {A} (f : Db -> option A) : steps (query_row f).
Proof. apply steps_bind; [apply steps_query|]. intros. apply steps_lift. Qed.
Lemma steps_query_present {A} (f : Db -> option A) : steps (query_present f).
Proof. apply steps_bind; [apply steps_query|]. intros. apply steps_lift. Qed.
Lemma steps_require_one changed : steps (require_one changed).
Proof. apply steps_lift. Qed.
Lemma steps_transaction {A} (m : Sql A) : steps m -> steps (transaction m).
Proof.
  intros Hm db. unfold transaction.
  assert (steps (engine;; value ← m; engine;; mret value)) as H.
  { apply steps_bind; [apply steps_engine|]. intros _. apply steps_bind; [done|]. intros value.
    apply steps_bind; [apply steps_engine|]. intros _. apply steps_ret. }
  specialize (H db). by destruct ((engine;; value ← m; engine;; mret value) db) as [[] ].
Qed.
Lemma steps_abandoned {A} (m : Sql A) : steps (abandoned m).
Proof. intros db. reflexivity. Qed.
Lemma steps_fold {A S} (f : S -> A -> Sql S) l s :
  (forall s a, steps (f s a)) -> steps (fold_se f s l).
Proof.
  intros Hf. revert s. induction l as [|a l IH]; intros s; cbn; [apply steps_ret|].
  apply steps_bind; auto.
Qed.
Lemma steps_execute (f : Db -> Z * Db) :
  (forall db, schema_check (snd (f db)) = true -> R db (snd (f db))) -> steps (execute_sql f).
Proof.
  intros Hf. apply steps_bind; [apply steps_engine|]. intros _ db. specialize (Hf db).
  destruct (f db) as [changed db']. cbn in *. by destruct (schema_check db'); cbn; auto.
Qed.
Lemma steps_perform_all calls db :
  (forall call, call ∈ calls -> steps (perform call)) -> R db (snd (perform_all calls db)).
Proof.
  revert db. induction calls as [|call calls IH]; intros db H; cbn; [done|].
  pose proof (H call ltac:(by left) db) as H1. destruct (perform call db) as [r db1].
  specialize (IH db1 (fun c Hc => H c ltac:(by right))).
  destruct (perform_all calls db1) as [done_ db2]. cbn in *. by etrans.
Qed.
End steps.
End calls.

(** Goes through a body; the statements that change a table are left. *)
Ltac steps_step :=
  match goal with
  | |- steps _ (if ?b then _ else _) => destruct b
  | |- steps _ (match ?o with Some _ => _ | None => _ end) => destruct o
  | |- steps _ (match ?o with pair _ _ => _ end) => destruct o
  | |- steps _ (match ?s with _ => _ end) =>
      match type of s with ExecutionOperationStatus => destruct s end
  | |- steps _ (_ ≫= _) => apply steps_bind; [apply _| |intros]
  | _ => first [apply steps_ret; apply _ | apply steps_lift; apply _ | apply steps_fail; apply _
      | apply steps_query; apply _ | apply steps_query_row; apply _
      | apply steps_query_present; apply _ | apply steps_engine; apply _
      | apply steps_require_one; apply _
      | apply steps_transaction; [apply _|] | apply steps_abandoned; apply _
      | apply steps_fold; [apply _|intros] | apply steps_execute; [apply _|intros] ]
  end.
Ltac steps_walk := repeat steps_step.

(** ** The parts of the database a call keeps *)

Definition kept {V} (view : Db -> V) (db db' : Db) : Prop := view db' = view db.
#[export] Instance kept_preorder {V} (view : Db -> V) : PreOrder (kept view).
Proof. split; [done|]. intros a b c H1 H2. unfold kept in *. by rewrite H2. Qed.

Lemma updated_view {R V} (view : R -> V) (where_ : R -> bool) (set_ : R -> R) rows :
  (forall row, where_ row = true -> view (set_ row) = view row) ->
  view <$> updated where_ set_ rows = view <$> rows.
Proof.
  intros H. unfold updated. rewrite <- list_fmap_compose. apply list_fmap_ext.
  intros i row _. cbn. destruct (where_ row) eqn:Hw; [by apply H|done].
Qed.

(** The head of each chain, as the sessions hold it. *)
Definition chain_column (row : SessionRow) : ExecutionId * Z * option bytes32 :=
  (ssr_id row, ssr_journal_sequence row, ssr_journal_chain_head row).
Definition journal_view (db : Db) : list (ExecutionId * Z * option bytes32) * list JournalRow :=
  (chain_column <$> db_sessions db, db_journal db).

(** Closes [kept view db db'] for a statement on rows whose [view] stays. *)
Ltac kept_view :=
  unfold kept, journal_view; repeat case_match; cbn; first [done | by rewrite updated_view].

Section kept.
Context `{EN : SqlEngine} `{JT1 : JsonText (list ProposalItemId)} `{JT2 : JsonText VolumeIdentity}.
Context `{JT3 : JsonText FileFingerprint} `{JT4 : JsonText (list str)} `{UC : UnicodeCase}.
Context `{B3 : Blake3} `{UU : UuidCrate} `{JC : JsonCrate}.

(** Reading an execution writes nothing. *)
Lemma steps_detail (R : Db -> Db -> Prop) `{PO : !PreOrder R} x : steps R (stored_execution_detail x).
Proof.
  unfold stored_execution_detail, execution_session_from_connection, consent_from_connection,
    approval_from_connection, execution_operations_from_connection. steps_walk.
Qed.

Definition plain_call (call : StoreCall) : bool :=
  match call with ScPrepare _ | ScEvent _ _ _ _ _ _ _ _ _ _ => false | _ => true end.

Ltac walk_call := cbn [perform]; unfold forget; unfold
    persist_execution_event_inner, persist_prepared_execution, validate_approved_proposal, validate_approved_operation,
    insert_execution_session, insert_approval_snapshot, insert_execution_consent,
    insert_execution_operation, insert_execution_retention,
    issue_execution_consent_challenge, attest_execution_consent, clear_execution_consent_challenge,
    expire_execution_consent, invalidate_execution_consent, consume_execution_consent,
    reset_legacy_execution_approval, mark_interrupted_executions_for_recovery,
    mark_execution_recovery_required, set_execution_control, clear_execution_pause,
    cancel_unstarted_execution, persist_executor_session, record_executor_response,
    transition_executor_request_proof, transition_executor_request_state, executor_request_state,
    store_intent, update_event_session, update_event_operation,
    insert_rollback_record,
    persist_recovery_assessment, add_execution_error, refresh_execution_counts,
    refresh_execution_retention, update_requests; steps_walk;
    try (apply steps_detail; apply _).

Lemma plain_call_keeps_journal call :
  plain_call call = true -> steps (kept journal_view) (perform call).
Proof. destruct call; try done; intros _; walk_call; kept_view. Qed.

(** The calls that touch the requests, and the ones that touch the consents. *)
Definition request_call (call : StoreCall) : bool :=
  match call with
  | ScEvent _ _ _ _ _ _ _ _ _ _ | ScResponse _ _ _ _ _ _ _ | ScProof _ _ _ => true
  | _ => false
  end.
Definition consent_call (call : StoreCall) : bool :=
  match call with
  | ScPrepare _ | ScIssue _ _ _ _ | ScAttest _ _ _ _ _ _ | ScExpire _ _ | ScInvalidate _ _ _
  | ScConsume _ _ _ _ _ _ => true
  | _ => false
  end.

Lemma other_call_keeps_requests call :
  request_call call = false -> steps (kept db_requests) (perform call).
Proof. destruct call; try done; intros _; walk_call; kept_view. Qed.

Lemma other_call_keeps_consents call :
  consent_call call = false -> steps (kept db_consents) (perform call).
Proof. destruct call; try done; intros _; walk_call; kept_view. Qed.
End kept.
