(* ===== verification/StoreJournal.v ===== *)
(** * The stored journal is always a valid chain

    Whatever calls are made of the database, the events of an execution are
    stored in order, chained from the first one to the head its session holds,
    and [validate_execution_journal] accepts them. *)

From S2P Require Export StoreSteps.
#[local] Open Scope Z_scope.

(** ** Sorting what is sorted *)

Lemma insert_by_head {A} (le : A -> A -> bool) a l :
  Forall (fun b => le a b = true) l -> insert_by le a l = a :: l.
Proof. destruct 1 as [|b l Hb _]; [done|]. cbn. by rewrite Hb. Qed.

Lemma sort_by_id {A} (le : A -> A -> bool) l :
  StronglySorted (fun a b => le a b = true) l -> sort_by le l = l.
Proof.
  induction 1 as [|a l _ IH Ha]; [done|]. cbn. change (foldr (insert_by le) [] l) with (sort_by le l).
  rewrite IH. by apply insert_by_head.
Qed.

Lemma NoDup_key {A K} (key : A -> K) l a b :
  NoDup (key <$> l) -> a ∈ l -> b ∈ l -> key a = key b -> a = b.
Proof.
  intros Hnd (i & Hi)%list_elem_of_lookup (j & Hj)%list_elem_of_lookup Hab.
  assert (i = j) as <-; [|congruence].
  apply (NoDup_lookup _ i j (key a) Hnd); rewrite list_lookup_fmap; [by rewrite Hi|].
  by rewrite Hj, Hab.
Qed.

(** ** The chains of a database *)

(** [event_of_row] of a row whose sequence number is in range. *)
Definition stored_event (row : JournalRow) : OperationJournalEvent := {|
  ev_execution_id := jnr_execution_id row; ev_sequence := jnr_sequence_number row;
  ev_step_id := jnr_operation_id row; ev_kind := jnr_event_kind row;
  ev_payload := utf8 (jnr_canonical_data row); ev_payload_digest := jnr_payload_digest row;
  ev_previous_event_digest := jnr_previous_entry_digest row;
  ev_event_digest := jnr_entry_digest row;
  ev_occurred_at_unix_ms := jnr_occurred_at_unix_ms row |}.

Definition rows_of (x : ExecutionId) (rows : list JournalRow) : list JournalRow :=
  filter (fun row => jnr_execution_id row = x) rows.
Definition stored_events (x : ExecutionId) (db : Db) : list OperationJournalEvent :=
  stored_event <$> rows_of x (db_journal db).

Section journal.
Context `{EN : SqlEngine} `{JT1 : JsonText (list ProposalItemId)} `{JT2 : JsonText VolumeIdentity}.
Context `{JT3 : JsonText FileFingerprint} `{JT4 : JsonText (list str)} `{UC : UnicodeCase}.
Context `{B3 : Blake3} `{UU : UuidCrate} `{JC : JsonCrate}.

Definition column_id (column : ExecutionId * Z * option bytes32) : ExecutionId := column.1.1.

(** Each session holds the last number and digest of its chain. *)
Definition chained (rows : list JournalRow) (column : ExecutionId * Z * option bytes32) : Prop :=
  let '(x, sequence, head) := column in
  let events := stored_event <$> rows_of x rows in
  walk_chain 0 None events = Some head /\ sequence = zlen events - 1.

Definition journaled_view
    (view : list (ExecutionId * Z * option bytes32) * list JournalRow) : Prop :=
  NoDup (column_id <$> view.1)
  /\ Forall (chained view.2) view.1
  /\ Forall (fun row => jnr_execution_id row ∈ column_id <$> view.1) view.2
  /\ Forall (fun row => is_i64 (jnr_sequence_number row)) view.2.

Definition journaled (db : Db) : Prop := journaled_view (journal_view db).

(** ** Chains *)

Lemma walk_chain_app index previous events more :
  walk_chain index previous (events ++ more)
  = walk_chain index previous events ≫= fun head => walk_chain (index + zlen events) head more.
Proof.
  revert index previous. induction events as [|event events IH]; intros index previous.
  - cbn. by rewrite Z.add_0_r.
  - cbn [app walk_chain]. destruct (_ || _); [done|]. rewrite IH.
    replace (index + zlen (event :: events)) with (index + 1 + zlen events)
      by (unfold zlen; cbn; lia).
    done.
Qed.

Lemma walk_chain_numbered index previous events head :
  walk_chain index previous events = Some head ->
  forall i event, events !! i = Some event -> ev_sequence event = index + Z.of_nat i.
Proof.
  revert index previous. induction events as [|event events IH]; intros index previous H i e; [done|].
  cbn in H. destruct (_ || _) eqn:Hg; [done|]. apply orb_false_iff in Hg as [Hs%negb_false_iff _].
  apply Z.eqb_eq in Hs. destruct i as [|i]; cbn; [intros [= <-]; lia|].
  intros Hi. rewrite (IH _ _ H i e Hi). lia.
Qed.

Lemma event_of_stored row :
  is_u64 (jnr_sequence_number row) -> event_of_row row = Ok (stored_event row).
Proof.
  intros [? ?]. unfold event_of_row, u64_try_from, u64_max in *.
  by rewrite (proj2 (Z.leb_le _ _)), (proj2 (Z.leb_le _ _)).
Qed.

(** ** What a stored event changes *)

Lemma execute_sql_Ok (f : Db -> Z * Db) db n db' :
  execute_sql f db = (Ok n, db') -> f db = (n, db') /\ schema_check db' = true.
Proof.
  intros (u & db1 & He & H)%se_bind_Ok. unfold engine in He.
  destruct (engine_error db); [discriminate|]. injection He as _ <-.
  destruct (f db) as [changed db2]. destruct (schema_check db2) eqn:Hs; [|discriminate].
  by injection H as <- <-.
Qed.

Lemma engine_Ok db u db' : engine db = (Ok u, db') -> db' = db.
Proof. unfold engine. destruct (engine_error db); [discriminate|]. by intros [= _ <-]. Qed.

Lemma transaction_cases {A} (m : SE Db PersistenceError A) db r db' :
  transaction m db = (r, db') ->
  db' = db /\ is_ok r = false \/ m db = (r, db') /\ is_ok r = true.
Proof.
  unfold transaction. destruct ((engine;; value ← m; engine;; mret value) db) as [[a|e] db1] eqn:H.
  - intros [= <- <-]. right. split; [|done].
    apply se_bind_Ok in H as (u & db2 & He%engine_Ok & H). subst db2.
    apply se_bind_Ok in H as (a' & db2 & Hm & H).
    apply se_bind_Ok in H as (u' & db3 & He%engine_Ok & H). subst db3. by injection H as <- <-.
  - intros [= <- <-]. by left.
Qed.

Lemma steps_run (R : Db -> Db -> Prop) {A} (m : SE Db PersistenceError A) db r db' :
  steps R m -> m db = (r, db') -> R db db'.
Proof. intros H Hm. specialize (H db). by rewrite Hm in H. Qed.

Lemma query_present_Ok {A} (f : Db -> option A) db a db' :
  query_present f db = (Ok a, db') -> f db = Some a /\ db' = db.
Proof.
  intros (o & db1 & (u & db2 & He%engine_Ok & Hq)%se_bind_Ok & Hl)%se_bind_Ok. subst db2.
  injection Hq as <- <-. injection Hl as Hl <-. by apply ok_or_Ok in Hl.
Qed.

Lemma se_lift_Ok {A} (m : res PersistenceError A) (db : Db) a db' :
  se_lift m db = (Ok a, db') -> m = Ok a /\ db' = db.
Proof. by intros [= -> ->]. Qed.

Lemma to_sql_u64_Ok value n : to_sql_u64 value = Ok n -> n = value /\ is_i64 value.
Proof.
  unfold to_sql_u64, i64_try_from. intros H%ok_or_Ok.
  destruct (_ && _) eqn:E; [|done]. injection H as <-. unfold is_i64. by rewrite andb_true_iff, !Z.leb_le in E.
Qed.

Definition advanced_column (event : OperationJournalEvent)
    (column : ExecutionId * Z * option bytes32) : ExecutionId * Z * option bytes32 :=
  let '(x, sequence, head) := column in
  if bool_decide (x = ev_execution_id event)
  then (x, ev_sequence event, Some (ev_event_digest event)) else (x, sequence, head).

Lemma update_event_session_Ok event status message created_at db db' :
  update_event_session event status message created_at db = (Ok tt, db') ->
  journal_view db' = (advanced_column event <$> (journal_view db).1, db_journal db).
Proof.
  intros (n & db1 & [H _]%execute_sql_Ok & Hrest)%se_bind_Ok. injection H as _ <-.
  match type of Hrest with _ ?d = _ => set (db1 := d) in Hrest end.
  assert (journal_view db' = journal_view db1) as ->.
  { revert Hrest. match goal with |- ?m _ = _ -> _ => assert (steps (kept journal_view) m) as Hk end.
    { destruct status as [s|]; [destruct (bool_decide _)|]; steps_walk; kept_view. }
    intros Hrest. exact (steps_run _ _ _ _ _ Hk Hrest). }
  unfold journal_view, db1. cbn. f_equal. unfold updated. rewrite <- !list_fmap_compose.
  apply list_fmap_ext. intros i row _. cbn. by case_bool_decide.
Qed.

Lemma store_intent_keeps event data created_at request :
  steps (kept journal_view) (store_intent event data created_at request).
Proof. unfold store_intent. steps_walk; kept_view. Qed.

Lemma update_event_operation_keeps event step status post code message created_at :
  steps (kept journal_view)
    (update_event_operation event step status post code message created_at).
Proof. unfold update_event_operation, insert_rollback_record. steps_walk; kept_view. Qed.

Lemma refresh_counts_keeps x : steps (kept journal_view) (refresh_execution_counts x).
Proof. unfold refresh_execution_counts. steps_walk; kept_view. Qed.
Lemma refresh_retention_keeps x at_ : steps (kept journal_view) (refresh_execution_retention x at_).
Proof. unfold refresh_execution_retention. steps_walk; kept_view. Qed.
Lemma transition_keeps request_id next at_ proof :
  steps (kept journal_view) (transition_executor_request_state request_id next at_ proof).
Proof.
  unfold transition_executor_request_state, executor_request_state, update_requests.
  steps_walk; kept_view.
Qed.

(** What a successful call stored. *)
Lemma event_stored event data operation session post code message created_at intent proof db db' :
  persist_execution_event_inner event data operation session post code message created_at intent
    proof db = (Ok tt, db') ->
  ev_payload event = utf8 data /\
  exists row, session_row_of (ev_execution_id event) db = Some row
    /\ is_i64 (ev_sequence event)
    /\ ev_sequence event = i64_saturating_add (ssr_journal_sequence row) 1
    /\ verify_event event (ssr_journal_chain_head row) = true
    /\ keys_check (with_journal (db_journal db ++ [journal_row event data created_at]) db) = true
    /\ journal_view db' = (advanced_column event <$> (journal_view db).1,
                           db_journal db ++ [journal_row event data created_at]).
Proof.
  unfold persist_execution_event_inner.
  intros ([] & db1 & [Hguard ->]%se_lift_Ok & Hrun)%se_bind_Ok.
  apply reject_if_Ok in Hguard.  autorewrite with bools in Hguard.
  split; [naive_solver|]. apply transaction_cases in Hrun as [[_ ?]|[Hrun _]]; [done|].
  apply se_bind_Ok in Hrun as (row & db1 & [Hrow ->]%query_present_Ok & Hrun).
  apply se_bind_Ok in Hrun as (sequence & db1 & [Hseq ->]%se_lift_Ok & Hrun).
  apply se_bind_Ok in Hrun as ([] & db1 & [Hok ->]%se_lift_Ok & Hrun).
  apply se_bind_Ok in Hrun as (n & db1 & [Hins Hs]%execute_sql_Ok & Hrun). injection Hins as _ <-.
  apply reject_if_Ok in Hok. autorewrite with bools in Hok.
  apply to_sql_u64_Ok in Hseq as [-> Hi].
  match type of Hrun with _ ?d = _ => set (db1 := d) in Hrun end.
  apply se_bind_Ok in Hrun as (u1 & db2 & Hintent & Hrun).
  assert (journal_view db2 = journal_view db1) as E1.
  { refine (steps_run (kept journal_view) _ _ _ _ _ Hintent).
    destruct intent; [apply store_intent_keeps|steps_walk]. }
  apply se_bind_Ok in Hrun as ([] & db3 & Hsession%update_event_session_Ok & Hrun).
  apply se_bind_Ok in Hrun as (u3 & db4 & Hstep & Hrun).
  assert (journal_view db4 = journal_view db3) as E3.
  { refine (steps_run (kept journal_view) _ _ _ _ _ Hstep).
    destruct (ev_step_id event); [apply update_event_operation_keeps|steps_walk]. }
  apply se_bind_Ok in Hrun as (u4 & db5 & Hcounts & Hrun).
  assert (journal_view db5 = journal_view db4) as E4
    by exact (steps_run _ _ _ _ _ (refresh_counts_keeps _) Hcounts).
  apply se_bind_Ok in Hrun as (u5 & db6 & Hproof & Hrun).
  assert (journal_view db6 = journal_view db5) as E5.
  { refine (steps_run (kept journal_view) _ _ _ _ _ Hproof).
    destruct proof as [[? ?]|]; [apply transition_keeps|steps_walk]. }
  apply se_bind_Ok in Hrun as (u6 & db7 & Hretention & [= <-]).
  assert (journal_view db7 = journal_view db6) as E6
    by exact (steps_run _ _ _ _ _ (refresh_retention_keeps _ _) Hretention).
  exists row. destruct Hok as [Hok1 Hok2]. repeat split; try done; try apply Hi.
  - unfold schema_check in Hs. autorewrite with bools in Hs. naive_solver.
  - rewrite E6, E5, E4, E3, Hsession, E1.
    assert (db_journal db2 = db_journal db1) as -> by exact (f_equal snd E1). done.
Qed.

Lemma rows_of_app x rows row :
  rows_of x (rows ++ [row])
  = rows_of x rows ++ (if bool_decide (jnr_execution_id row = x) then [row] else []).
Proof.
  unfold rows_of. rewrite filter_app. f_equal. case_bool_decide as H.
  - by rewrite filter_cons_True.
  - by rewrite filter_cons_False.
Qed.

Lemma stored_journal_row event data created_at :
  ev_payload event = utf8 data -> stored_event (journal_row event data created_at) = event.
Proof. intros H. destruct event; cbn in *. unfold stored_event, journal_row. cbn. by rewrite H. Qed.

Lemma session_column x db row :
  session_row_of x db = Some row ->
  (x, ssr_journal_sequence row, ssr_journal_chain_head row) ∈ (journal_view db).1.
Proof.
  intros [Hin Hx%bool_decide_eq_true]%find_some. cbn. apply list_elem_of_fmap. exists row.
  split; [by unfold chain_column; rewrite Hx|]. by apply list_elem_of_In.
Qed.

Lemma keys_check_journal db :
  keys_check db = true ->
  NoDup ((fun row => (jnr_execution_id row, jnr_sequence_number row)) <$> db_journal db).
Proof. unfold keys_check, unique. intros H. bools. done. Qed.

(** The last row of a chain has the number its session holds. *)
Lemma chain_last rows x sequence head :
  chained rows (x, sequence, head) -> 0 <= sequence ->
  exists row, row ∈ rows /\ jnr_execution_id row = x /\ jnr_sequence_number row = sequence.
Proof.
  intros [Hw Hs] Hpos. set (n := Nat.pred (length (rows_of x rows))).
  unfold zlen in Hs. rewrite length_fmap in Hs.
  destruct (lookup_lt_is_Some_2 (rows_of x rows) n) as [row Hrow]; [lia|].
  pose proof (walk_chain_numbered _ _ _ _ Hw n (stored_event row)) as Hn.
  rewrite list_lookup_fmap, Hrow in Hn. specialize (Hn eq_refl). cbn in Hn.
  apply list_elem_of_lookup_2 in Hrow. unfold rows_of in Hrow.
  apply list_elem_of_filter in Hrow as [Hx Hin].
  exists row. repeat split; [done|done|]. lia.
Qed.

(** The next number is that of the next row. *)
Lemma next_sequence db row event data created_at :
  journaled db -> session_row_of (ev_execution_id event) db = Some row ->
  ev_sequence event = i64_saturating_add (ssr_journal_sequence row) 1 ->
  keys_check (with_journal (db_journal db ++ [journal_row event data created_at]) db) = true ->
  ev_sequence event = zlen (stored_events (ev_execution_id event) db).
Proof.
  intros (_ & Hc & _ & Hi) Hrow Hseq Hkeys%keys_check_journal.
  apply session_column in Hrow. rewrite Forall_forall in Hc. pose proof (Hc _ Hrow) as Hch.
  assert (ssr_journal_sequence row = zlen (stored_events (ev_execution_id event) db) - 1) as Hs
    by apply Hch.
  destruct (decide (0 <= ssr_journal_sequence row)) as [Hpos|Hneg].
  - destruct (chain_last _ _ _ _ Hch Hpos) as (last & Hin & Hx & Hn).
    rewrite Forall_forall in Hi. pose proof (Hi _ Hin) as [_ Hmax]. rewrite Hn in Hmax.
    destruct (decide (ssr_journal_sequence row = i64_max)) as [Heq|Hne].
    + exfalso. cbn in Hkeys. rewrite fmap_app in Hkeys. apply NoDup_app in Hkeys as (_ & Hd & _).
      apply (Hd (ev_execution_id event, i64_max)).
      * apply list_elem_of_fmap. exists last. rewrite Hx, Hn. by rewrite Heq.
      * apply list_elem_of_singleton. unfold journal_row. cbn. f_equal.
        rewrite Hseq, Heq. done.
    + unfold i64_saturating_add, i64_min, i64_max in *. lia.
  - pose proof (zlen_nonneg (stored_events (ev_execution_id event) db)).
    unfold i64_saturating_add, i64_min, i64_max in *. lia.
Qed.

Lemma advanced_ids event (columns : list (ExecutionId * Z * option bytes32)) :
  column_id <$> (advanced_column event <$> columns)
  = column_id <$> columns.
Proof.
  rewrite <- list_fmap_compose. apply list_fmap_ext. intros i [[x s] h] _. cbn. by case_bool_decide.
Qed.

Lemma rows_of_none x rows : Forall (fun row => jnr_execution_id row <> x) rows -> rows_of x rows = [].
Proof. induction 1; [done|]. unfold rows_of. by rewrite filter_cons_False. Qed.

(** A stored event goes at the end of the chain of its execution. *)
Lemma event_keeps_journaled event data operation session post code message created_at intent proof
    db db' :
  journaled db ->
  persist_execution_event_inner event data operation session post code message created_at intent
    proof db = (Ok tt, db') ->
  journaled db'
  /\ forall x, stored_events x db' = stored_events x db
       ++ (if bool_decide (ev_execution_id event = x) then [event] else []).
Proof.
  intros HJ (Hpayload & row & Hrow & Hi64 & Hseq & Hverify & Hkeys & Hview)%event_stored.
  pose proof (next_sequence _ _ _ _ _ HJ Hrow Hseq Hkeys) as Hnext.
  pose proof (session_column _ _ _ Hrow) as Hcol.
  assert (db_journal db' = db_journal db ++ [journal_row event data created_at]) as Hj
    by exact (f_equal snd Hview).
  assert (forall x, stored_events x db' = stored_events x db
       ++ (if bool_decide (ev_execution_id event = x) then [event] else [])) as Hevents.
  { intros x. unfold stored_events. rewrite Hj, rows_of_app, fmap_app. f_equal. cbn.
    case_bool_decide; cbn; [by rewrite stored_journal_row|done]. }
  split; [|done]. destruct HJ as (Hnd & Hc & Hin & Hi). unfold journaled. rewrite Hview.
  unfold journaled_view. cbn [fst snd]. rewrite advanced_ids. repeat split.
  - done.
  - apply Forall_fmap, Forall_forall. intros [[x s] h] Hx. cbn.
    rewrite Forall_forall in Hc. pose proof (Hc _ Hx) as [Hw Hs].
    change (stored_event <$> rows_of x (journal_view db).2) with (stored_events x db) in Hw, Hs.
    specialize (Hevents x). unfold stored_events in Hevents at 1. rewrite Hj in Hevents.
    destruct (decide (x = ev_execution_id event)) as [->|Hne].
    + rewrite bool_decide_eq_true_2 in Hevents |- * by done. cbn. rewrite Hevents.
      assert ((ev_execution_id event, s, h) = (ev_execution_id event, ssr_journal_sequence row,
        ssr_journal_chain_head row)) as [= -> ->] by by apply (NoDup_key column_id (journal_view db).1).
      rewrite walk_chain_app, Hw. cbn. rewrite Hnext, Z.eqb_refl, Hverify.
      split; [done|]. unfold zlen. rewrite length_app. cbn. lia.
    + rewrite (bool_decide_eq_false_2 (x = _)) by done.
      rewrite bool_decide_eq_false_2 in Hevents by congruence. cbn. rewrite Hevents, app_nil_r. by split.
  - apply Forall_app. split; [done|]. constructor; [|done]. cbn.
    apply list_elem_of_fmap. eexists. split; [|exact Hcol]. done.
  - apply Forall_app. split; [done|]. by constructor.
Qed.

(** ** What a prepared execution changes *)

Lemma insert_sql_Ok {R} (table : Db -> list R) with_table row db n db' :
  insert_sql table with_table row db = (Ok n, db') ->
  db' = with_table (table db ++ [row]) db /\ schema_check db' = true.
Proof. intros [[= _ <-] H]%execute_sql_Ok. done. Qed.

Lemma session_row_columns session row :
  session_row session = Ok row -> chain_column row = (ses_id session, -1, None).
Proof. unfold session_row. intros H. inv_ok. done. Qed.

Lemma schema_sessions db : schema_check db = true -> NoDup (ssr_id <$> db_sessions db).
Proof. unfold schema_check, keys_check, unique. intros H. bools. done. Qed.

Lemma prepared_view detail db db' :
  persist_prepared_execution detail db = (Ok tt, db') ->
  journal_view db'
    = ((journal_view db).1 ++ [(ses_id (ed_session detail), -1, None)], db_journal db)
  /\ NoDup (column_id <$> (journal_view db').1).
Proof.
  unfold persist_prepared_execution.
  intros ([] & db1 & [_ ->]%se_lift_Ok & Hrun)%se_bind_Ok.
  apply transaction_cases in Hrun as [[_ ?]|[Hrun _]]; [done|].
  apply se_bind_Ok in Hrun as (u & db1 & Happroved & Hrun).
  assert (journal_view db1 = journal_view db) as E1.
  { refine (steps_run (kept journal_view) _ _ _ _ _ Happroved).
    unfold validate_approved_proposal, validate_approved_operation. steps_walk. }
  apply se_bind_Ok in Hrun as (n & db2 & Hsession & Hrun).
  apply se_bind_Ok in Hsession as (row & db3 & [Hrow ->]%se_lift_Ok & [-> Hs]%insert_sql_Ok).
  match type of Hs with schema_check ?d = _ => set (db2 := d) in * end.
  assert (journal_view db' = journal_view db2) as E2.
  { refine (steps_run (kept journal_view) _ _ _ _ _ Hrun). clear Hrun.
    unfold insert_approval_snapshot, insert_execution_consent, insert_execution_operation,
      insert_execution_retention. steps_walk; kept_view. }
  assert (journal_view db2
    = ((journal_view db).1 ++ [(ses_id (ed_session detail), -1, None)], db_journal db)) as E.
  { rewrite <- E1. unfold journal_view, db2. cbn. rewrite fmap_app. cbn.
    rewrite (session_row_columns _ _ Hrow). by injection E1 as _ ->. }
  split; [by rewrite E2|]. rewrite E2. apply schema_sessions in Hs.
  unfold journal_view. cbn [fst]. rewrite <- list_fmap_compose. exact Hs.
Qed.

Lemma prepared_keeps_journaled detail db db' :
  journaled db -> persist_prepared_execution detail db = (Ok tt, db') -> journaled db'.
Proof.
  intros (Hnd & Hc & Hin & Hi) [Hview Hnd']%prepared_view. unfold journaled in *.
  rewrite Hview in *. cbn [fst] in Hnd'. unfold journaled_view. cbn [fst snd]. repeat split.
  - done.
  - apply Forall_app. split; [done|]. constructor; [|done]. cbn.
    assert (rows_of (ses_id (ed_session detail)) (db_journal db) = []) as ->; [|done].
    apply rows_of_none. eapply Forall_impl; [exact Hin|]. intros row Hrow Hx. cbv beta in Hrow. rewrite Hx in Hrow.
    rewrite fmap_app in Hnd'. apply NoDup_app in Hnd' as (_ & Hd & _).
    apply (Hd _ Hrow). by left.
  - eapply Forall_impl; [exact Hin|]. intros row Hrow. cbv beta. rewrite fmap_app. apply elem_of_app. by left.
  - done.
Qed.

(** ** Any sequence of calls *)

(** The events of an execution that the successful calls stored. *)
Definition events_stored (x : ExecutionId) (done : list StoreCall) : list OperationJournalEvent :=
  omap (fun call => match call with
    | ScEvent event _ _ _ _ _ _ _ _ _ =>
        if bool_decide (ev_execution_id event = x) then Some event else None
    | _ => None
    end) done.

Lemma perform_prepare_unless_Ok detail db db' e :
  persist_prepared_execution detail db = (Err e, db') -> db' = db.
Proof.
  unfold persist_prepared_execution.
  intros [[= _ <-]|(u & db1 & [_ ->]%se_lift_Ok & Hrun)]%se_bind_Err; [done|].
  apply transaction_cases in Hrun as [[? _]|[_ ?]]; done.
Qed.

Lemma perform_event_unless_Ok event data operation session post code message created_at intent proof
    db db' e :
  persist_execution_event_inner event data operation session post code message created_at intent
    proof db = (Err e, db') -> db' = db.
Proof.
  unfold persist_execution_event_inner.
  intros [[= _ <-]|(u & db1 & [_ ->]%se_lift_Ok & Hrun)]%se_bind_Err; [done|].
  apply transaction_cases in Hrun as [[? _]|[_ ?]]; done.
Qed.

Lemma stored_events_kept x db db' : journal_view db' = journal_view db ->
  stored_events x db' = stored_events x db.
Proof. intros H. unfold stored_events. by rewrite (f_equal snd H : db_journal db' = db_journal db). Qed.

Lemma perform_keeps_journaled call db r db' :
  perform call db = (r, db') -> journaled db ->
  journaled db' /\ forall x, stored_events x db'
    = stored_events x db ++ events_stored x (if is_ok r then [call] else []).
Proof.
  intros Hrun HJ. destruct (plain_call call) eqn:Hplain.
  - pose proof (steps_run _ _ _ _ _ (plain_call_keeps_journal call Hplain) Hrun) as Hk.
    unfold kept in Hk. split; [by unfold journaled; rewrite Hk|]. intros x.
    rewrite (stored_events_kept _ _ _ Hk). destruct call, (is_ok r); try done; by rewrite app_nil_r.
  - destruct call; try done; cbn [perform] in Hrun.
    + destruct r as [[]|e].
      * split; [by eapply prepared_keeps_journaled|]. intros x. apply prepared_view in Hrun as [Hv _].
        unfold stored_events. rewrite (f_equal snd Hv : db_journal db' = db_journal db).
        by rewrite app_nil_r.
      * apply perform_prepare_unless_Ok in Hrun as ->. split; [done|]. intros. by rewrite app_nil_r.
    + destruct r as [[]|e].
      * apply event_keeps_journaled in Hrun as [? He]; [|done]. split; [done|]. intros x.
        rewrite He. cbn. by case_bool_decide.
      * apply perform_event_unless_Ok in Hrun as ->. split; [done|]. intros. by rewrite app_nil_r.
Qed.

Lemma perform_all_keeps_journaled calls db done_ db' :
  perform_all calls db = (done_, db') -> journaled db ->
  journaled db' /\ forall x, stored_events x db' = stored_events x db ++ events_stored x done_.
Proof.
  revert db done_. induction calls as [|call calls IH]; intros db done_; cbn.
  { intros [= <- <-] ?. split; [done|]. intros. by rewrite app_nil_r. }
  destruct (perform call db) as [r db1] eqn:Hcall.
  destruct (perform_all calls db1) as [done1 db2] eqn:Hrest. intros [= <- <-] HJ.
  destruct (perform_keeps_journaled _ _ _ _ Hcall HJ) as [HJ1 H1].
  destruct (IH _ _ Hrest HJ1) as [HJ2 H2]. split; [done|]. intros x. rewrite H2, H1, <- app_assoc.
  f_equal. destruct (is_ok r); [|done]. unfold events_stored. by rewrite <- omap_app.
Qed.

(** ** Reading the journal back *)

Lemma walk_chain_sorted events index previous head :
  walk_chain index previous events = Some head ->
  StronglySorted (fun a b => ev_sequence a <= ev_sequence b) events.
Proof.
  revert index previous. induction events as [|event events IH]; intros index previous H; [constructor|].
  pose proof (walk_chain_numbered _ _ _ _ H) as Hn. cbn in H. destruct (_ || _); [done|].
  constructor; [by eapply IH|]. apply Forall_forall. intros e (i & Hi)%list_elem_of_lookup.
  pose proof (Hn 0%nat event eq_refl). pose proof (Hn (S i) e Hi). lia.
Qed.

Lemma query_answers {A} (f : Db -> A) db :
  engine_error db = None -> query f db = (Ok (f db), db).
Proof. intros H. unfold query. cbv [mbind se_bind]. unfold engine. by rewrite H. Qed.

Lemma collect_events rows :
  Forall (fun row => is_u64 (jnr_sequence_number row)) rows ->
  collect event_of_row rows = Ok (stored_event <$> rows).
Proof.
  induction 1 as [|row rows Hrow _ IH]; [done|]. cbn [collect]. rewrite event_of_stored by done.
  cbn. by rewrite IH.
Qed.

Lemma chain_in_range x rows head :
  walk_chain 0 None (stored_event <$> rows_of x rows) = Some head ->
  Forall (fun row => is_i64 (jnr_sequence_number row)) rows ->
  Forall (fun row => is_u64 (jnr_sequence_number row)) (rows_of x rows).
Proof.
  intros Hw Hi. apply Forall_forall. intros row Hrow.
  apply list_elem_of_lookup in Hrow as (i & Hrow).
  pose proof (walk_chain_numbered _ _ _ _ Hw i (stored_event row)) as Hn.
  rewrite list_lookup_fmap, Hrow in Hn. specialize (Hn eq_refl). cbn in Hn.
  apply list_elem_of_lookup_2, list_elem_of_filter in Hrow as [_ Hin].
  rewrite Forall_forall in Hi. pose proof (Hi _ Hin) as [_ Hmax].
  unfold is_u64, i64_max, u64_max in *. lia.
Qed.

Lemma session_present x db :
  x ∈ ssr_id <$> db_sessions db -> exists row, session_row_of x db = Some row.
Proof.
  intros (row & -> & Hin)%list_elem_of_fmap. unfold session_row_of.
  destruct (find _ _) as [found|] eqn:Hf; [by exists found|].
  apply list_elem_of_In in Hin. pose proof (find_none _ _ Hf _ Hin) as Hx. cbn in Hx.
  by rewrite bool_decide_eq_true_2 in Hx.
Qed.

Lemma journal_read x db :
  journaled db -> engine_error db = None -> x ∈ ssr_id <$> db_sessions db ->
  execution_journal_events x db = (Ok (stored_events x db), db)
  /\ exists row, session_row_of x db = Some row
       /\ walk_chain 0 None (stored_events x db) = Some (ssr_journal_chain_head row).
Proof.
  intros (Hnd & Hc & Hin & Hi) Hengine (row & Hrow)%session_present.
  pose proof (session_column _ _ _ Hrow) as Hcol. rewrite Forall_forall in Hc.
  destruct (Hc _ Hcol) as [Hw _]. split; [|by exists row].
  unfold execution_journal_events. cbv [mbind se_bind]. rewrite query_answers by done.
  assert (sort_by (fun a b => jnr_sequence_number a <=? jnr_sequence_number b)
    (rows_of x (db_journal db)) = rows_of x (db_journal db)) as Hsort.
  { apply sort_by_id. apply walk_chain_sorted in Hw.
    change (journal_view db).2 with (db_journal db) in Hw.
    induction (rows_of x (db_journal db)) as [|r rows IH]; [constructor|].
    cbn in Hw. inversion Hw as [|? ? Hs Hf]; subst. constructor; [by apply IH|].
    apply Forall_forall. intros r' Hr'. rewrite Forall_forall in Hf. apply Z.leb_le.
    apply (Hf (stored_event r')). by apply list_elem_of_fmap_2. }
  unfold rows_of in Hsort. rewrite Hsort. unfold se_lift. f_equal.
  apply collect_events. by eapply chain_in_range.
Qed.

Lemma journal_validates x db :
  journaled db -> engine_error db = None -> x ∈ ssr_id <$> db_sessions db ->
  validate_execution_journal x db = (Ok true, db).
Proof.
  intros HJ Hengine Hx. destruct (journal_read x db HJ Hengine Hx) as (Hread & row & Hrow & Hw).
  unfold validate_execution_journal. cbv [mbind se_bind]. rewrite Hread, Hw.
  unfold query_row. cbv [mbind se_bind]. rewrite query_answers by done. cbn. rewrite Hrow. cbn.
  by rewrite bool_decide_eq_true_2.
Qed.

(** C11: Whatever calls are made of a new database, in any order and with any
    failures, the events of an execution are read back exactly as the successful
    calls stored them, and the journal of every execution validates: numbered
    from zero without a gap, each event bound to the one before it and the last
    one to the head the session holds. *)
Theorem stored_journal_is_valid calls db done_ db' x :
  db_sessions db = [] -> db_journal db = [] -> perform_all calls db = (done_, db') ->
  engine_error db' = None -> x ∈ ssr_id <$> db_sessions db' ->
  execution_journal_events x db' = (Ok (events_stored x done_), db')
  /\ validate_execution_journal x db' = (Ok true, db').
Proof.
  intros Hs Hj Hrun Hengine Hx.
  assert (journaled db) as HJ.
  { unfold journaled, journal_view. rewrite Hs, Hj. repeat split; constructor. }
  destruct (perform_all_keeps_journaled _ _ _ _ Hrun HJ) as [HJ' He].
  split; [|by apply journal_validates]. destruct (journal_read x db' HJ' Hengine Hx) as [-> _].
  rewrite He. unfold stored_events. by rewrite Hj.
Qed.
End journal.
