(* ===== verification/StoreRequests.v ===== *)
(** * The stored requests of the executor

    What any sequence of calls can do to the requests: their states only
    advance, a response is recorded once, none is forgotten, and an operation
    is asked for forward at most once. *)

From S2P Require Export StoreJournal.
#[local] Open Scope Z_scope.

(** The trigger of the schema and the guard of the code agree. *)
Lemma one_way_iff s t : one_way s t = true <-> s <> t /\ request_step s t.
Proof. destruct s, t; vm_compute; naive_solver. Qed.

(** The answer to a request, as its row holds it. *)
Definition response_of (row : RequestRow) :
    option str * option str * option Z * option str * option str :=
  (rqr_response_digest row, rqr_outcome_class row, rqr_attempt_count row, rqr_error_class row,
   rqr_response_recorded_at row).

Record advanced (old new : RequestRow) : Prop := {
  adv_request : rqr_request new = rqr_request old;
  adv_intent : rqr_intent_event_sequence new = rqr_intent_event_sequence old
    /\ rqr_intent_event_digest new = rqr_intent_event_digest old;
  adv_state : rtc request_step (rqr_state old) (rqr_state new);
  adv_response : rqr_response_digest old <> None -> response_of new = response_of old
}.

#[export] Instance advanced_preorder : PreOrder advanced.
Proof.
  split.
  - intros row. by split.
  - intros a b c [R1 [I1 J1] S1 P1] [R2 [I2 J2] S2 P2]. split.
    + by rewrite R2.
    + by rewrite I2, J2.
    + by transitivity (rqr_state b).
    + intros Ha. rewrite P2, P1; [done..|]. specialize (P1 Ha). by injection P1 as -> _ _ _ _.
Qed.

(** Rows are kept in place, and new ones come after them. *)
Definition requests_advance (db db' : Db) : Prop :=
  exists old added, db_requests db' = old ++ added /\ Forall2 advanced (db_requests db) old.

#[export] Instance requests_advance_preorder : PreOrder requests_advance.
Proof.
  split.
  - intros db. exists (db_requests db), []. rewrite app_nil_r. split; [done|].
    by apply Forall_Forall2_diag, Forall_true.
  - intros a b c (old & added & Hb & H1) (old' & added' & Hc & H2). rewrite Hb in H2.
    apply Forall2_app_inv_l in H2 as (l & k & Hl & Hk & ->).
    exists l, (k ++ added'). rewrite Hc, app_assoc. split; [done|].
    by transitivity old.
Qed.

Lemma kept_advance db db' : kept db_requests db db' -> requests_advance db db'.
Proof. unfold kept. intros H. exists (db_requests db), []. rewrite app_nil_r. split; [done|].
  by apply Forall_Forall2_diag, Forall_true. Qed.

Section requests.
Context `{EN : SqlEngine} `{JT1 : JsonText (list ProposalItemId)} `{JT2 : JsonText VolumeIdentity}.
Context `{JT3 : JsonText FileFingerprint} `{JT4 : JsonText (list str)} `{UC : UnicodeCase}.
Context `{B3 : Blake3} `{UU : UuidCrate} `{JC : JsonCrate}.

(** An update of requests that changes nothing but the state and, where there
    is none, the response. *)
Lemma steps_update_requests where_ set_ :
  (forall row, rqr_request (set_ row) = rqr_request row
     /\ rqr_intent_event_sequence (set_ row) = rqr_intent_event_sequence row
     /\ rqr_intent_event_digest (set_ row) = rqr_intent_event_digest row) ->
  (forall row, where_ row = true -> rqr_response_digest row <> None ->
     response_of (set_ row) = response_of row) ->
  steps requests_advance (update_requests where_ set_).
Proof.
  intros Hset Hresp db. unfold update_requests. cbv [mbind se_bind]. unfold engine.
  destruct (engine_error db) eqn:He; [reflexivity|].
  rewrite query_answers by done. destruct (existsb _ _) eqn:Hstop; [reflexivity|].
  unfold update_sql, execute_sql. cbv [mbind se_bind]. unfold engine. rewrite He.
  destruct (schema_check _); [|reflexivity].
  exists (updated where_ set_ (db_requests db)), []. cbn. split; [by rewrite app_nil_r|].
  unfold updated. apply Forall2_fmap_r, Forall_Forall2_diag, Forall_forall. intros row Hrow.
  change (advanced row (if where_ row then set_ row else row)).
  destruct (where_ row) eqn:Hw; [|reflexivity]. destruct (Hset row) as (H1 & H2 & H3).
  split; [done|done| |by apply Hresp].
  destruct (decide (rqr_state (set_ row) = rqr_state row)) as [->|Hne]; [done|].
  apply rtc_once. apply one_way_iff.
  destruct (one_way (rqr_state row) (rqr_state (set_ row))) eqn:Ho; [done|exfalso].
  assert (existsb (fun row => where_ row
    && negb (bool_decide (rqr_state (set_ row) = rqr_state row))
    && negb (one_way (rqr_state row) (rqr_state (set_ row)))) (db_requests db) = true) as Ht.
  { apply existsb_exists. exists row. split; [by apply list_elem_of_In|].
    by rewrite Hw, bool_decide_eq_false_2, Ho. }
  congruence.
Qed.

Lemma transition_advances request_id next at_ proof :
  steps requests_advance (transition_executor_request_state request_id next at_ proof).
Proof.
  unfold transition_executor_request_state, executor_request_state. steps_walk.
  by apply steps_update_requests.
Qed.

Lemma store_intent_advances event data created_at request :
  steps requests_advance (store_intent event data created_at request).
Proof.
  unfold store_intent. steps_walk. eexists _, [_]. split; [done|].
  by apply Forall_Forall2_diag, Forall_true.
Qed.

Lemma perform_advances call : steps requests_advance (perform call).
Proof.
  destruct (request_call call) eqn:Hcall.
  - destruct call; try done; cbn [perform]; unfold persist_execution_event_inner,
      update_event_session, update_event_operation, insert_rollback_record,
      refresh_execution_counts, refresh_execution_retention, record_executor_response,
      transition_executor_request_proof, executor_request_state; steps_walk;
    first [ apply transition_advances | apply store_intent_advances
      | apply steps_update_requests; [done|intros row Hw Hr; bools; done]
      | apply kept_advance; kept_view ].
  - intros db. apply kept_advance. by apply other_call_keeps_requests.
Qed.

(** C14: Whatever calls are made of the database, no request of the executor is
    forgotten or exchanged: what was asked and the event that recorded it stay,
    its state only advances as [may_transition_to] allows, and once a response
    is recorded it is never replaced.  The requests added meanwhile come after. *)
Theorem stored_requests_only_advance calls db :
  exists old added, db_requests (snd (perform_all calls db)) = old ++ added
    /\ Forall2 advanced (db_requests db) old.
Proof.
  apply (steps_perform_all requests_advance). intros call _. apply perform_advances.
Qed.

(** ** Requests that were asked for *)

Definition asked_requests (db : Db) : list ExecutorRequestIdentity := rqr_request <$> db_requests db.

(** The requests whose intents the successful calls recorded. *)
Definition intents_stored (done : list StoreCall) : list ExecutorRequestIdentity :=
  omap (fun call => match call with
    | ScEvent _ _ _ _ _ _ _ _ intent _ => intent
    | _ => None
    end) done.

(** The operation a request moves forward. *)
Definition forward_slot (request : ExecutorRequestIdentity) :
    option (ExecutionId * OperationStepId) :=
  if bool_decide (eri_direction request = ErdForward)
  then Some (eri_execution_id request, eri_operation_id request) else None.

Lemma update_requests_keeps_asked where_ set_ :
  (forall row, rqr_request (set_ row) = rqr_request row) ->
  steps (kept asked_requests) (update_requests where_ set_).
Proof.
  intros Hset. unfold update_requests. steps_walk. unfold kept, asked_requests. cbn. by rewrite updated_view.
Qed.

(** What must hold for an intent to be recorded: the event is an intent of the
    operation of the request, its payload names the request, the session was
    opened for that execution and direction, and the operation was not asked for
    before, except for rollbacks that are proven to have changed nothing. *)
Record intent_allowed (event : OperationJournalEvent) (data : str)
    (request : ExecutorRequestIdentity) (db : Db) : Prop := {
  ia_execution : eri_execution_id request = ev_execution_id event;
  ia_operation : ev_step_id event = Some (eri_operation_id request);
  ia_kind : ev_kind event = IntentDurableEvent \/ ev_kind event = RollbackIntent;
  ia_sequence : eri_request_sequence request <> 0;
  ia_nonce : exists b, b ∈ barr (eri_request_nonce request) /\ b <> x00;
  ia_payload : exists payload stored, value_from_slice (utf8 data) = Some payload
    /\ get "executor_request" payload = Some stored
    /\ (get "request_id" stored ≫= as_str) = Some (eri_request_id request)
    /\ (get "session_id" stored ≫= as_str) = Some (eri_session_id request)
    /\ (get "request_sequence" stored ≫= as_u64) = Some (eri_request_sequence request)
    /\ (get "request_digest" stored ≫= as_str) = Some (eri_request_digest_hex request);
  ia_session : exists session, session ∈ db_executor_sessions db
    /\ esi_session_id session = eri_session_id request
    /\ esi_execution_id session = eri_execution_id request
    /\ (esi_purpose session = EspForward <-> eri_direction request = ErdForward);
  ia_prior : forall row, row ∈ db_requests db ->
    eri_execution_id (rqr_request row) = eri_execution_id request ->
    eri_operation_id (rqr_request row) = eri_operation_id request ->
    eri_direction (rqr_request row) = eri_direction request ->
    eri_direction request = ErdRollback
    /\ rqr_state row ∈ [ProvenNotApplied; ProvenNotStarted]
}.

Lemma query_Ok {A} (f : Db -> A) db a db' : query f db = (Ok a, db') -> a = f db /\ db' = db.
Proof. intros (u & db1 & He%engine_Ok & [= <- <-])%se_bind_Ok. by subst. Qed.

Lemma nonzero_byte (l : bytes) :
  forallb (fun b => Byte.eqb b x00) l = false -> exists b, b ∈ l /\ b <> x00.
Proof.
  induction l as [|b l IH]; [done|]. cbn. intros [Hb|H]%andb_false_iff.
  - exists b. split; [by left|]. intros ->. done.
  - destruct (IH H) as (b' & ? & ?). exists b'. split; [by right|done].
Qed.

Lemma purpose_of_true direction purpose :
  purpose_of direction purpose = true -> (purpose = EspForward <-> direction = ErdForward).
Proof. by destruct direction, purpose. Qed.

Lemma store_intent_Ok event data created_at request db db' :
  store_intent event data created_at request db = (Ok tt, db') ->
  intent_allowed event data request db
  /\ db' = with_requests (db_requests db ++ [new_request request event created_at]) db
  /\ schema_check db' = true.
Proof.
  unfold store_intent.
  intros ([] & db1 & [Hm%reject_if_Ok ->]%se_lift_Ok & Hrun)%se_bind_Ok.
  apply se_bind_Ok in Hrun as (payload & db1 & [Hp%ok_or_Ok ->]%se_lift_Ok & Hrun).
  apply se_bind_Ok in Hrun as (stored & db1 & [Hs%ok_or_Ok ->]%se_lift_Ok & Hrun).
  apply se_bind_Ok in Hrun as ([] & db1 & [Hpm%reject_if_Ok ->]%se_lift_Ok & Hrun).
  apply se_bind_Ok in Hrun as (purpose & db1 & [Hpu ->]%query_present_Ok & Hrun).
  apply se_bind_Ok in Hrun as ([] & db1 & [Hpo%reject_if_Ok ->]%se_lift_Ok & Hrun).
  apply se_bind_Ok in Hrun as (prior & db1 & [Hprior ->]%query_Ok & Hrun).
  apply se_bind_Ok in Hrun as ([] & db1 & [Hr%reject_if_Ok ->]%se_lift_Ok & Hrun).
  apply se_bind_Ok in Hrun as (n & db1 & [_ ->]%se_lift_Ok & Hrun).
  apply se_bind_Ok in Hrun as (n' & db1 & [_ ->]%se_lift_Ok & Hrun).
  apply se_bind_Ok in Hrun as (n'' & db1 & Hins & [= <-]).
  apply insert_sql_Ok in Hins as [-> Hschema].
  rewrite negb_false_iff in Hm, Hpm, Hpo. split; [|done].
  apply orb_false_iff in Hr as [Hfw He].
  unfold intent_matches in Hm. unfold payload_matches in Hpm. bools. split; try done.
  - set_solver.
  - apply nonzero_byte. done.
  - by exists payload, stored.
  - apply fmap_Some in Hpu as (session & Hf & ->). apply find_some in Hf as [Hin Hb]. bools.
    exists session. split; [by apply list_elem_of_In|]. split; [done|]. split; [done|].
    by apply purpose_of_true.
  - intros row Hrow Hx Ho Hd.
    assert (rqr_state row ∈ prior) as Hin.
    { rewrite Hprior. apply list_elem_of_fmap. exists row. split; [done|].
      apply list_elem_of_filter. split; [|done]. unfold same_slot.
      by rewrite !bool_decide_eq_true_2. }
    split.
    + destruct (eri_direction request) eqn:Hd'; [|done]. exfalso.
      destruct Hfw as [Hfw|Hfw]; [|done]. rewrite Hfw in Hin. by apply elem_of_nil in Hin.
    + destruct (decide (rqr_state row ∈ [ProvenNotApplied; ProvenNotStarted])) as [|Hn]; [done|exfalso].
      assert (existsb (fun state => negb (bool_decide (state ∈ [ProvenNotApplied; ProvenNotStarted])))
        prior = true) as Ht.
      { apply existsb_exists. eexists. split; [by apply list_elem_of_In|].
        by rewrite bool_decide_eq_false_2. }
      congruence.
Qed.

Lemma transition_keeps_asked request_id next at_ proof :
  steps (kept asked_requests) (transition_executor_request_state request_id next at_ proof).
Proof.
  unfold transition_executor_request_state, executor_request_state. steps_walk.
  by apply update_requests_keeps_asked.
Qed.

(** A stored event asks for the request it was stored with. *)
Lemma event_asks event data operation session post code message created_at intent proof db db' :
  persist_execution_event_inner event data operation session post code message created_at intent
    proof db = (Ok tt, db') ->
  asked_requests db' = asked_requests db ++ option_list intent
  /\ forall request, intent = Some request -> intent_allowed event data request db.
Proof.
  unfold persist_execution_event_inner.
  intros ([] & db1 & [_ ->]%se_lift_Ok & Hrun)%se_bind_Ok.
  apply transaction_cases in Hrun as [[_ ?]|[Hrun _]]; [done|].
  apply se_bind_Ok in Hrun as (row & db1 & [_ ->]%query_present_Ok & Hrun).
  apply se_bind_Ok in Hrun as (sequence & db1 & [_ ->]%se_lift_Ok & Hrun).
  apply se_bind_Ok in Hrun as ([] & db1 & [_ ->]%se_lift_Ok & Hrun).
  apply se_bind_Ok in Hrun as (n & db1 & [-> _]%insert_sql_Ok & Hrun).
  match type of Hrun with _ ?d = _ => set (db1 := d) in Hrun end.
  apply se_bind_Ok in Hrun as ([] & db2 & Hintent & Hrun).
  assert (asked_requests db' = asked_requests db2) as ->.
  { refine (steps_run (kept asked_requests) _ _ _ _ _ Hrun).
    unfold update_event_session, update_event_operation, insert_rollback_record,
      refresh_execution_counts, refresh_execution_retention, asked_requests. steps_walk;
      first [apply transition_keeps_asked | kept_view]. }
  destruct intent as [request|].
  - apply store_intent_Ok in Hintent as (Ha & -> & _). split.
    + unfold asked_requests. cbn. by rewrite fmap_app.
    + intros ? [= <-]. by destruct Ha.
  - injection Hintent as <-. split; [by rewrite app_nil_r|done].
Qed.

Definition event_call (call : StoreCall) : bool :=
  match call with ScEvent _ _ _ _ _ _ _ _ _ _ => true | _ => false end.

Lemma plain_call_keeps_asked call :
  event_call call = false ->
  steps (kept asked_requests) (perform call).
Proof.
  destruct call; try done; intros _.
  all: lazymatch goal with
    | |- steps _ (perform (ScResponse _ _ _ _ _ _ _)) =>
        cbn [perform]; unfold record_executor_response, executor_request_state; steps_walk;
        by apply update_requests_keeps_asked
    | |- steps _ (perform (ScProof _ _ _)) =>
        cbn [perform]; unfold transition_executor_request_proof; steps_walk;
        apply transition_keeps_asked
    | |- steps _ (perform ?c) =>
        intros db; unfold kept, asked_requests; by rewrite (other_call_keeps_requests c eq_refl db)
    end.
Qed.

Lemma asked_disjoint event data request db :
  intent_allowed event data request db ->
  forall slot, forward_slot request = Some slot -> slot ∉ omap forward_slot (asked_requests db).
Proof.
  intros [_ _ _ _ _ _ _ Hprior] slot Hslot Hin.
  apply list_elem_of_omap in Hin as (other & Hin & Hother). unfold asked_requests in Hin.
  apply list_elem_of_fmap in Hin as (row & -> & Hrow). unfold forward_slot in *.
  case_bool_decide as Hd; [|done]. case_bool_decide as Hd'; [|done].
  injection Hslot as <-. injection Hother as H1 H2.
  destruct (Hprior row Hrow) as [Hr _]; congruence.
Qed.

Lemma perform_asks call db r db' :
  perform call db = (r, db') -> NoDup (omap forward_slot (asked_requests db)) ->
  NoDup (omap forward_slot (asked_requests db'))
  /\ asked_requests db' = asked_requests db ++ intents_stored (if is_ok r then [call] else []).
Proof.
  intros Hrun Hnd.
  assert (asked_requests db' = asked_requests db ++ intents_stored (if is_ok r then [call] else []) /\
    forall request, request ∈ intents_stored (if is_ok r then [call] else []) ->
      intents_stored (if is_ok r then [call] else []) = [request] /\
      forall slot, forward_slot request = Some slot -> slot ∉ omap forward_slot (asked_requests db))
    as [-> Hnew].
  { destruct (event_call call) eqn:Hplain; [|rewrite (steps_run _ _ _ _ _ (plain_call_keeps_asked call Hplain) Hrun);
      destruct call, (is_ok r); try done; cbn; rewrite app_nil_r; (split; [done|]);
        by intros ? ?%elem_of_nil].
    - destruct call; try done. cbn [perform] in Hrun. destruct r as [[]|e].
      + apply event_asks in Hrun as [-> Ha]. destruct request_intent as [request|]; cbn.
        * split; [done|]. intros other ->%list_elem_of_singleton. split; [done|].
          by eapply asked_disjoint, Ha.
        * split; [done|]. by intros ? ?%elem_of_nil.
      + apply perform_event_unless_Ok in Hrun as ->. cbn. rewrite app_nil_r. split; [done|].
        by intros ? ?%elem_of_nil. }
  split; [|done]. destruct (intents_stored _) as [|request rest] eqn:E; [by rewrite app_nil_r|].
  destruct (Hnew request) as [[= ->] Hd]; [by left|]. rewrite omap_app. cbn.
  destruct (forward_slot request) as [slot|]; [|by rewrite app_nil_r].
  apply NoDup_app. split; [done|]. split; [|apply NoDup_singleton].
  intros other Hin ->%list_elem_of_singleton. by apply (Hd slot).
Qed.

Lemma perform_all_asks calls db done_ db' :
  perform_all calls db = (done_, db') -> NoDup (omap forward_slot (asked_requests db)) ->
  NoDup (omap forward_slot (asked_requests db'))
  /\ asked_requests db' = asked_requests db ++ intents_stored done_.
Proof.
  revert db done_. induction calls as [|call calls IH]; intros db done_; cbn.
  { intros [= <- <-] Hnd. by rewrite app_nil_r. }
  destruct (perform call db) as [r db1] eqn:Hcall.
  destruct (perform_all calls db1) as [done1 db2] eqn:Hrest. intros [= <- <-] Hnd.
  destruct (perform_asks _ _ _ _ Hcall Hnd) as [Hnd1 H1].
  destruct (IH _ _ Hrest Hnd1) as [Hnd2 H2]. split; [done|].
  rewrite H2, H1, <- app_assoc. f_equal. unfold intents_stored.
  destruct (is_ok r); [|done]. by rewrite <- omap_app.
Qed.

(** C12: Whatever calls are made of a database without requests, in any order and
    with any failures, at most one request to move an operation forward is ever
    recorded: across every run of the coordinator, each operation of an
    execution is asked of the executor forward at most once. *)
Theorem forward_asked_once calls db done_ db' :
  db_requests db = [] -> perform_all calls db = (done_, db') ->
  NoDup (omap forward_slot (intents_stored done_)).
Proof.
  intros Hnone Hrun. destruct (perform_all_asks _ _ _ _ Hrun) as [H1 H2].
  { unfold asked_requests. rewrite Hnone. constructor. }
  unfold asked_requests in H2. rewrite Hnone in H2. cbn in H2. by rewrite <- H2.
Qed.

(** C15: An intent is recorded only for the request its payload describes, in a
    session of the execution opened for that direction, and only when the
    operation was never asked for in that direction, or, for a rollback, when
    every request before is proven to have changed nothing. *)
Theorem recorded_intent_is_allowed event data operation_status session_status request created_at
    db db' :
  persist_executor_request_intent event data operation_status session_status request created_at db
    = (Ok tt, db') ->
  intent_allowed event data request db
  /\ asked_requests db' = asked_requests db ++ [request].
Proof. intros [H1 H2]%event_asks. split; [by apply H2|done]. Qed.
End requests.
