(* ===== verification/StoreConsents.v ===== *)
(** * The stored consents

    The changes each call makes to the consent of an execution, and what any
    sequence of calls can therefore not do: a consent is consumed at most once,
    and only after its challenge was issued and attested. *)

From S2P Require Export StoreRequests.
#[local] Open Scope Z_scope.

(** What a call makes of the consent of an execution. *)
Inductive consent_step : StoreCall -> ConsentRow -> ConsentRow -> Prop :=
  | cs_issue row nonce issued_at expires_at :
      ec_state (cnr_consent row) ∈ [EcsPending; EcsExpired] -> issued_at < expires_at ->
      consent_step (ScIssue (cnr_execution_id row) nonce issued_at expires_at) row
        (set_consent (fun _ => issued_consent nonce issued_at expires_at) issued_at row)
  | cs_attest row nonce issued_at expires_at mac attested_at :
      ec_state (cnr_consent row) = EcsPending ->
      challenge_of nonce issued_at expires_at row = true ->
      issued_at <= attested_at <= expires_at ->
      ec_attestation_mac (cnr_consent row) = None ->
      consent_step (ScAttest (cnr_execution_id row) nonce issued_at expires_at mac attested_at) row
        (set_consent (attested_consent mac attested_at) attested_at row)
  | cs_expire row now expires_at :
      ec_state (cnr_consent row) ∈ [EcsPending; EcsAttested] ->
      ec_expires_at_unix_ms (cnr_consent row) = Some expires_at -> expires_at <= now ->
      consent_step (ScExpire (cnr_execution_id row) now) row (set_consent expired_consent now row)
  | cs_invalidate row reason now :
      ec_state (cnr_consent row) ∈ [EcsPending; EcsAttested; EcsExpired] -> take 256 reason <> [] ->
      consent_step (ScInvalidate (cnr_execution_id row) reason now) row
        (set_consent (invalidated_consent (take 256 reason) now) now row)
  | cs_consume row nonce issued_at expires_at mac consumed_at :
      ec_state (cnr_consent row) = EcsAttested ->
      challenge_of nonce issued_at expires_at row = true ->
      ec_attestation_mac (cnr_consent row) = Some mac -> consumed_at <= expires_at ->
      consent_step (ScConsume (cnr_execution_id row) nonce issued_at expires_at mac consumed_at) row
        (set_consent (consumed_consent consumed_at) consumed_at row).

Lemma consent_step_keeps call row row' :
  consent_step call row row' ->
  cnr_execution_id row' = cnr_execution_id row
  /\ cnr_material_version row' = cnr_material_version row
  /\ cnr_safety_policy row' = cnr_safety_policy row
  /\ cnr_destination_root row' = cnr_destination_root row.
Proof. by destruct 1. Qed.

(** A consumed consent and an invalidated one are final. *)
Lemma consent_step_final call row row' :
  consent_step call row row' -> ec_state (cnr_consent row) ∉ [EcsConsumed; EcsInvalidated].
Proof. intros H Hin. destruct H; set_unfold; naive_solver congruence. Qed.

(** The consent a prepared execution starts with. *)
Definition fresh_consent (call : StoreCall) (row : ConsentRow) : Prop :=
  exists detail, call = ScPrepare detail /\ cnr_execution_id row = ses_id (ed_session detail)
    /\ cnr_consent row = ExecutionConsent_pending.

Definition consents_by (call : StoreCall) (db db' : Db) : Prop :=
  exists old added, db_consents db' = old ++ added
    /\ Forall2 (rtc (consent_step call)) (db_consents db) old
    /\ Forall (fun row => exists row0, fresh_consent call row0 /\ rtc (consent_step call) row0 row) added.

#[export] Instance consents_by_preorder call : PreOrder (consents_by call).
Proof.
  split.
  - intros db. exists (db_consents db), []. rewrite app_nil_r.
    by repeat split; [apply Forall_Forall2_diag, Forall_true|].
  - intros a b c (old & added & Hb & H1 & F1) (old' & added' & Hc & H2 & F2). rewrite Hb in H2.
    apply Forall2_app_inv_l in H2 as (l & k & Hl & Hk & ->).
    exists l, (k ++ added'). rewrite Hc, app_assoc. split; [done|]. split; [by transitivity old|].
    apply Forall_app. split; [|done]. clear -Hk F1. revert F1. induction Hk as [|r r' l l' Hr _ IH];
      intros F1; [constructor|]. apply Forall_cons in F1 as [(row0 & Hf & Hs) F1].
    constructor; [|by apply IH]. exists row0. split; [done|]. by etrans.
Qed.

Lemma kept_consents_by call db db' : kept db_consents db db' -> consents_by call db db'.
Proof.
  unfold kept. intros H. exists (db_consents db), []. rewrite app_nil_r.
  by repeat split; [|apply Forall_Forall2_diag, Forall_true|].
Qed.

Section consents.
Context `{EN : SqlEngine} `{JT1 : JsonText (list ProposalItemId)} `{JT2 : JsonText VolumeIdentity}.
Context `{JT3 : JsonText FileFingerprint} `{JT4 : JsonText (list str)} `{UC : UnicodeCase}.
Context `{B3 : Blake3} `{UU : UuidCrate} `{JC : JsonCrate}.

Lemma steps_update_consents call where_ set_ :
  (forall row, where_ row = true -> consent_step call row (set_ row)) ->
  steps (consents_by call) (update_consents where_ set_).
Proof.
  intros H. apply steps_execute; [apply _|]. intros db _. cbn.
  exists (updated where_ set_ (db_consents db)), []. rewrite app_nil_r.
  repeat split; [|constructor]. apply Forall2_fmap_r, Forall_Forall2_diag, Forall_forall.
  intros row _. change (rtc (consent_step call) row (if where_ row then set_ row else row)).
  destruct (where_ row) eqn:Hw; [|done]. by apply rtc_once, H.
Qed.

Lemma consent_of_true x states row :
  consent_of x states row = true -> cnr_execution_id row = x /\ ec_state (cnr_consent row) ∈ states.
Proof. unfold consent_of. rewrite andb_true_iff, !bool_decide_eq_true. done. Qed.

Ltac consents_walk :=
  repeat first [apply steps_update_consents | steps_step];
  try (apply steps_detail; apply _); try (apply kept_consents_by; kept_view).

Lemma prepare_consents detail : steps (consents_by (ScPrepare detail)) (persist_prepared_execution detail).
Proof.
  unfold persist_prepared_execution, validate_approved_proposal, validate_approved_operation,
    insert_execution_session, insert_approval_snapshot, insert_execution_consent,
    insert_execution_operation, insert_execution_retention. consents_walk.
  eexists _, [_]. split; [done|]. split; [by apply Forall_Forall2_diag, Forall_true|].
  constructor; [|done]. eexists. split; [|done]. by exists detail.
Qed.

Lemma issue_consents x nonce issued_at expires_at :
  steps (consents_by (ScIssue x nonce issued_at expires_at))
    (issue_execution_consent_challenge x nonce issued_at expires_at).
Proof.
  unfold issue_execution_consent_challenge.
  destruct (expires_at <=? issued_at) eqn:Hlt; [intros db; reflexivity|]. apply Z.leb_gt in Hlt.
  consents_walk. intros row [[<- Hs]%consent_of_true _]%andb_true_iff. by constructor.
Qed.

Lemma attest_consents x nonce issued_at expires_at mac attested_at :
  steps (consents_by (ScAttest x nonce issued_at expires_at mac attested_at))
    (attest_execution_consent x nonce issued_at expires_at mac attested_at).
Proof.
  unfold attest_execution_consent. consents_walk. intros row Hw. bools.
  match goal with H : consent_of _ _ _ = true |- _ => apply consent_of_true in H as [<- Hs] end.
  apply list_elem_of_singleton in Hs. by constructor.
Qed.

Lemma expire_consents x now :
  steps (consents_by (ScExpire x now)) (expire_execution_consent x now).
Proof.
  unfold expire_execution_consent, reset_legacy_execution_approval. consents_walk.
  intros row [[<- Hs]%consent_of_true He]%andb_true_iff.
  destruct (ec_expires_at_unix_ms (cnr_consent row)) eqn:E; [|done]. apply Z.leb_le in He.
  by econstructor.
Qed.

Lemma invalidate_consents x reason now :
  steps (consents_by (ScInvalidate x reason now)) (invalidate_execution_consent x reason now).
Proof.
  unfold invalidate_execution_consent, reset_legacy_execution_approval.
  destruct (decide (take 256 reason = [])) as [Hr|Hr].
  { rewrite (bool_decide_eq_true_2 (take 256 reason = [])) by done. intros db. reflexivity. }
  consents_walk. intros row [<- Hs]%consent_of_true. by constructor.
Qed.

Lemma consume_consents x nonce issued_at expires_at mac consumed_at :
  steps (consents_by (ScConsume x nonce issued_at expires_at mac consumed_at))
    (consume_execution_consent x nonce issued_at expires_at mac consumed_at).
Proof.
  unfold consume_execution_consent. consents_walk. intros row Hw. bools.
  match goal with H : consent_of _ _ _ = true |- _ => apply consent_of_true in H as [<- Hs] end.
  apply list_elem_of_singleton in Hs. by constructor.
Qed.

Lemma forget_steps (R : Db -> Db -> Prop) `{!PreOrder R} {A} (m : SE Db PersistenceError A) :
  steps R m -> steps R (forget m).
Proof. intros H. apply steps_bind; [apply _|done|]. intros. apply steps_ret. apply _. Qed.

Lemma perform_consents call : steps (consents_by call) (perform call).
Proof.
  destruct (consent_call call) eqn:Hcall; [|intros db; apply kept_consents_by;
    by apply other_call_keeps_consents].
  destruct call; try done; cbn [perform];
    first [ apply prepare_consents | apply forget_steps; [apply _|] ].
  - apply issue_consents.
  - apply attest_consents.
  - apply expire_consents.
  - apply invalidate_consents.
  - apply consume_consents.
Qed.

(** ** The history of a consent *)

Definition challenge_issued (past : list StoreCall) (x : ExecutionId) (nonce : bytes32)
    (issued_at expires_at : Z) : Prop :=
  ScIssue x nonce issued_at expires_at ∈ past /\ issued_at < expires_at.
Definition challenge_attested (past : list StoreCall) (x : ExecutionId) (nonce : bytes32)
    (issued_at expires_at : Z) (mac : bytes32) : Prop :=
  exists attested_at, ScAttest x nonce issued_at expires_at mac attested_at ∈ past
    /\ issued_at <= attested_at <= expires_at.

(** A row only holds challenges that were issued, and is attested only by a
    call for the challenge and the code it holds. *)
Definition consent_accounted (past : list StoreCall) (row : ConsentRow) : Prop :=
  (forall nonce issued_at expires_at, challenge_of nonce issued_at expires_at row = true ->
     challenge_issued past (cnr_execution_id row) nonce issued_at expires_at)
  /\ (ec_state (cnr_consent row) = EcsAttested -> exists nonce issued_at expires_at mac,
        challenge_of nonce issued_at expires_at row = true
        /\ ec_attestation_mac (cnr_consent row) = Some mac
        /\ challenge_attested past (cnr_execution_id row) nonce issued_at expires_at mac).

Lemma challenge_of_inj nonce issued_at expires_at nonce' issued_at' expires_at' row :
  challenge_of nonce issued_at expires_at row = true ->
  challenge_of nonce' issued_at' expires_at' row = true ->
  nonce = nonce' /\ issued_at = issued_at' /\ expires_at = expires_at'.
Proof. unfold challenge_of. intros H1 H2. bools. naive_solver congruence. Qed.

Lemma consent_accounted_weaken past more row : consent_accounted past row -> consent_accounted (past ++ more) row.
Proof.
  intros [H1 H2]. split.
  - intros n i e Hc. destruct (H1 n i e Hc) as [? ?]. split; [|done]. apply elem_of_app. by left.
  - intros Hs. destruct (H2 Hs) as (n & i & e & m & Hc & Hm & at_ & Hin & ?).
    exists n, i, e, m. repeat split; [done|done|]. exists at_. split; [|done].
    apply elem_of_app. by left.
Qed.

Lemma consent_accounted_step past call row row' :
  consent_step call row row' -> consent_accounted (past ++ [call]) row -> consent_accounted (past ++ [call]) row'.
Proof.
  intros Hstep [H1 H2]. destruct Hstep; (split; [try exact H1|cbn; try done]).
  - intros n i e Hc. unfold challenge_of in Hc. cbn in Hc. bools.
    repeat match goal with H : Some _ = Some _ |- _ => injection H as -> end.
    split; [|done]. cbn. apply elem_of_app. right. by left.
  - intros _. exists nonce, issued_at, expires_at, mac. repeat split; [done|].
    exists attested_at. split; [|done]. apply elem_of_app. right. by left.
Qed.

Lemma consent_accounted_steps past call row row' :
  rtc (consent_step call) row row' -> consent_accounted (past ++ [call]) row ->
  consent_accounted (past ++ [call]) row'.
Proof. induction 1; eauto using consent_accounted_step. Qed.

Lemma consent_steps_id call row row' :
  rtc (consent_step call) row row' -> cnr_execution_id row' = cnr_execution_id row.
Proof. induction 1 as [|? ? ? [H _]%consent_step_keeps _ IH]; [done|]. by rewrite IH. Qed.

Lemma consent_steps_consumed call row row' :
  rtc (consent_step call) row row' -> ec_state (cnr_consent row) = EcsConsumed ->
  row' = row.
Proof.
  intros [->|(row1 & Hs & _)]%rtc_inv; [done|]. intros Hc. apply consent_step_final in Hs.
  rewrite Hc in Hs. set_solver.
Qed.

(** ** The state after any calls *)

Definition consumed_execution (call : StoreCall) : option ExecutionId :=
  match call with ScConsume x _ _ _ _ _ => Some x | _ => None end.

Definition consents_accounted (past : list StoreCall) (db : Db) : Prop :=
  NoDup (cnr_execution_id <$> db_consents db) /\ Forall (consent_accounted past) (db_consents db).

(** The consent of an execution is consumed. *)
Definition spent (x : ExecutionId) (db : Db) : Prop :=
  exists row, row ∈ db_consents db /\ cnr_execution_id row = x
    /\ ec_state (cnr_consent row) = EcsConsumed.

Lemma schema_consents db : schema_check db = true -> NoDup (cnr_execution_id <$> db_consents db).
Proof. unfold schema_check, keys_check, unique. intros H. bools. done. Qed.

Lemma prepared_schema detail db db' :
  persist_prepared_execution detail db = (Ok tt, db') -> schema_check db' = true.
Proof.
  unfold persist_prepared_execution. intros ([] & db1 & [_ ->]%se_lift_Ok & Hrun)%se_bind_Ok.
  apply transaction_cases in Hrun as [[_ ?]|[Hrun _]]; [done|].
  do 5 apply se_bind_Ok in Hrun as (? & ? & _ & Hrun).
  apply se_bind_Ok in Hrun as (? & ? & Hins & [= <-]).
  by apply insert_sql_Ok in Hins as [_ ?].
Qed.

Lemma perform_accounted past call db r db' :
  perform call db = (r, db') -> consents_accounted past db ->
  consents_accounted (past ++ [call]) db'.
Proof.
  intros Hrun [Hnd Ha].
  destruct (steps_run _ _ _ _ _ (perform_consents call) Hrun) as (old & added & Hdb & Hold & Hadd).
  split.
  - destruct added as [|row added].
    + rewrite Hdb, app_nil_r. assert (cnr_execution_id <$> old = cnr_execution_id <$> db_consents db) as ->;
        [|done]. clear -Hold. induction Hold as [|row row' l l' Hs _ IH]; [done|]. cbn.
      by rewrite IH, (consent_steps_id _ _ _ Hs).
    + apply Forall_cons in Hadd as [(row0 & (detail & -> & _) & _) _]. cbn [perform] in Hrun.
      destruct r as [[]|e]; [by apply schema_consents, (prepared_schema detail db)|].
      by apply perform_prepare_unless_Ok in Hrun as ->.
  - rewrite Hdb. apply Forall_app. split.
    + clear -Ha Hold. induction Hold as [|row row' l l' Hs _ IH]; [constructor|].
      apply Forall_cons in Ha as [Ha Hl]. constructor; [|by apply IH].
      eapply consent_accounted_steps; [exact Hs|]. by apply consent_accounted_weaken.
    + eapply Forall_impl; [exact Hadd|]. intros row (row0 & (detail & _ & _ & Hp) & Hs).
      eapply consent_accounted_steps; [exact Hs|]. split.
      * intros n i e Hc. unfold challenge_of in Hc. rewrite Hp in Hc. cbn in Hc. done.
      * rewrite Hp. done.
Qed.

Lemma count_rows_one {R} (where_ : R -> bool) rows :
  count_rows where_ rows = 1 -> exists row, row ∈ rows /\ where_ row = true.
Proof.
  unfold count_rows, zlen. intros H.
  destruct (filter (fun row => where_ row = true) rows) as [|row l] eqn:E; [done|].
  assert (row ∈ filter (fun row => where_ row = true) rows) as Hin by (rewrite E; by left).
  apply list_elem_of_filter in Hin as [? ?]. by exists row.
Qed.

Lemma require_one_Ok changed db u db' : require_one changed db = (Ok u, db') -> changed = 1 /\ db' = db.
Proof.
  unfold require_one. intros [H%reject_if_Ok ->]%se_lift_Ok.
  apply negb_false_iff, Z.eqb_eq in H. done.
Qed.

(** A consent is consumed where it was attested. *)
Lemma consumed_Ok x nonce issued_at expires_at mac consumed_at db db' :
  perform (ScConsume x nonce issued_at expires_at mac consumed_at) db = (Ok tt, db') ->
  (exists row, row ∈ db_consents db /\ cnr_execution_id row = x
     /\ ec_state (cnr_consent row) = EcsAttested
     /\ challenge_of nonce issued_at expires_at row = true
     /\ ec_attestation_mac (cnr_consent row) = Some mac /\ consumed_at <= expires_at)
  /\ spent x db'.
Proof.
  cbn [perform]. unfold forget, consume_execution_consent.
  intros (detail & db1 & Hrun & [= <-])%se_bind_Ok.
  apply se_bind_Ok in Hrun as (u & db2 & Hrun & Hdetail).
  assert (db_consents db1 = db_consents db2) as E1
    by exact (steps_run (kept db_consents) _ _ _ _ (steps_detail _ x) Hdetail).
  apply transaction_cases in Hrun as [[_ ?]|[Hrun _]]; [done|].
  apply se_bind_Ok in Hrun as (changed & db3 & [Hupd _]%execute_sql_Ok & Hrun).
  injection Hupd as <- <-.
  apply se_bind_Ok in Hrun as (u' & db4 & [Hone ->]%require_one_Ok & Hrun).
  match type of Hrun with _ ?d = _ => assert (db_consents db2 = db_consents d) as E2 end.
  { refine (steps_run (kept db_consents) _ _ _ _ _ Hrun). steps_walk; kept_view. }
  apply count_rows_one in Hone as (row & Hin & Hw). split.
  - bools. match goal with H : consent_of _ _ _ = true |- _ =>
      apply consent_of_true in H as [Hx Hs%list_elem_of_singleton] end.
    by exists row.
  - unfold spent. rewrite E1, E2. cbn [db_consents with_consents].
    exists (set_consent (consumed_consent consumed_at) consumed_at row).
    split; [|split; [|done]].
    + unfold updated. apply list_elem_of_fmap. exists row. by rewrite Hw.
    + bools. match goal with H : consent_of _ _ _ = true |- _ =>
        apply consent_of_true in H as [H _]; exact H end.
Qed.

Lemma perform_spent call db r db' x :
  perform call db = (r, db') -> spent x db -> spent x db'.
Proof.
  intros Hrun (row & Hin & Hx & Hs).
  destruct (steps_run _ _ _ _ _ (perform_consents call) Hrun) as (old & added & Hdb & Hold & _).
  apply list_elem_of_lookup in Hin as (i & Hi).
  destruct (Forall2_lookup_l _ _ _ _ _ Hold Hi) as (row' & Hi' & Hsteps).
  apply consent_steps_consumed in Hsteps; [|done]. subst row'.
  exists row. rewrite Hdb. repeat split; [|done|done]. apply elem_of_app. left.
  by eapply list_elem_of_lookup_2.
Qed.

(** A spent consent is not attested any more. *)
Lemma spent_refused past x nonce issued_at expires_at mac consumed_at db db' :
  consents_accounted past db -> spent x db ->
  perform (ScConsume x nonce issued_at expires_at mac consumed_at) db <> (Ok tt, db').
Proof.
  intros [Hnd _] (row & Hin & Hx & Hs) [(row' & Hin' & Hx' & Hs' & _) _]%consumed_Ok.
  assert (row = row') as <- by (apply (NoDup_key cnr_execution_id (db_consents db)); congruence).
  congruence.
Qed.

(** What is known of a consumption. *)
Definition consumption_accounted (past : list StoreCall) (call : StoreCall) : Prop :=
  match call with
  | ScConsume x nonce issued_at expires_at mac consumed_at =>
      challenge_issued past x nonce issued_at expires_at
      /\ challenge_attested past x nonce issued_at expires_at mac /\ consumed_at <= expires_at
  | _ => True
  end.

Lemma perform_all_consents calls : forall past db done_ db',
  perform_all calls db = (done_, db') -> consents_accounted past db ->
  NoDup (omap consumed_execution done_)
  /\ Forall (consumption_accounted (past ++ calls)) done_
  /\ Forall (fun x => ~ spent x db) (omap consumed_execution done_).
Proof.
  induction calls as [|call calls IH]; intros past db done_ db'; cbn.
  { intros [= <- <-] _. repeat split; constructor. }
  destruct (perform call db) as [r db1] eqn:Hcall.
  destruct (perform_all calls db1) as [done1 db2] eqn:Hrest. intros [= <- <-] Hacc.
  pose proof (perform_accounted _ _ _ _ _ Hcall Hacc) as Hacc1.
  destruct (IH _ _ _ _ Hrest Hacc1) as (Hnd & Hdone & Hspent).
  rewrite <- app_assoc in Hdone. cbn in Hdone.
  assert (Forall (fun x => ~ spent x db) (omap consumed_execution done1)) as Hspent0.
  { eapply Forall_impl; [exact Hspent|]. intros x Hn Hsp. apply Hn.
    by eapply perform_spent. }
  destruct r as [[]|e]; cbn [is_ok]; [|done].
  destruct (consumed_execution call) as [x|] eqn:Hx; cycle 1.
  { cbn. rewrite Hx. repeat split; [done| |done]. constructor; [by destruct call|done]. }
  destruct call; try done. injection Hx as ->. cbn.
  pose proof Hcall as Hcall'.
  apply consumed_Ok in Hcall' as [(row & Hin & Hid & Hst & Hch & Hmac & Hat) Hsp].
  repeat split.
  - constructor; [|done]. intros Hin'. rewrite Forall_forall in Hspent. by apply (Hspent x Hin').
  - constructor; [|done]. destruct Hacc as [_ Ha]. rewrite Forall_forall in Ha.
    pose proof (consent_accounted_weaken _ (ScConsume x nonce issued_at expires_at mac consumed_at :: calls) _
      (Ha _ Hin)) as [Hi Hatt].
    rewrite Hid in Hi. split; [by apply Hi|]. split; [|done].
    destruct (Hatt Hst) as (n & i & e & m & Hc & Hm & Hattested).
    destruct (challenge_of_inj _ _ _ _ _ _ _ Hch Hc) as (-> & -> & ->).
    rewrite Hmac in Hm. injection Hm as <-. by rewrite Hid in Hattested.
  - constructor; [|done]. intros Hsp'. eapply (spent_refused past); eassumption.
Qed.

(** C13: Whatever calls are made of a database without consents, in any order and
    with any failures: the consent of an execution is consumed at most once,
    and only for a challenge that was issued for that execution and attested,
    with the code presented, within its lifetime; never after it expired. *)
Theorem consent_consumed_once calls db done_ db' :
  db_consents db = [] -> perform_all calls db = (done_, db') ->
  NoDup (omap consumed_execution done_) /\ Forall (consumption_accounted calls) done_.
Proof.
  intros Hnone Hrun. destruct (perform_all_consents calls [] _ _ _ Hrun) as (H1 & H2 & _).
  - split; rewrite Hnone; constructor.
  - done.
Qed.
End consents.
