(* ===== verification/StoreReads.v ===== *)
(** * What was prepared is what is read

    A prepared execution that the database accepted is read back as it was,
    and accepting it left no other execution active. *)

From S2P Require Export StoreConsents.
#[local] Open Scope Z_scope.

Lemma find_last {A K} `{EqDecision K} (key : A -> K) l a :
  NoDup (key <$> l ++ [a]) -> find (fun b => bool_decide (key b = key a)) (l ++ [a]) = Some a.
Proof.
  induction l as [|b l IH]; cbn; intros Hnd; [by rewrite bool_decide_eq_true_2|].
  apply NoDup_cons in Hnd as [Hb Hnd]. rewrite bool_decide_eq_false_2; [by apply IH|].
  intros Heq. apply Hb. rewrite Heq. apply list_elem_of_fmap. exists a. split; [done|].
  apply elem_of_app. right. by left.
Qed.

Section reads.
Context `{EN : SqlEngine} `{JT1 : JsonText (list ProposalItemId)} `{JT2 : JsonText VolumeIdentity}.
Context `{JT3 : JsonText FileFingerprint} `{JT4 : JsonText (list str)} `{UC : UnicodeCase}.
Context `{B3 : Blake3} `{UU : UuidCrate} `{JC : JsonCrate}.
Notation Sql A := (SE Db PersistenceError A).

(** ** The rows that were inserted *)

Definition snapshot_row (approval : ApprovedExecutionPlan) (frozen_at : str) : SnapshotRow := {|
  snr_execution_id := aep_execution_id approval; snr_plan_id := aep_plan_id approval;
  snr_proposal_id := aep_proposal_id approval;
  snr_proposal_revision_id := aep_proposal_revision_id approval;
  snr_proposal_revision := aep_proposal_revision approval;
  snr_source_snapshot_version := aep_source_snapshot_version approval;
  snr_approved_operation_ids := aep_approved_operation_ids approval;
  snr_operation_count := aep_operation_count approval; snr_user_confirmed := aep_user_confirmed approval;
  snr_frozen_at := frozen_at; snr_approved_at := aep_approval_timestamp approval;
  snr_snapshot_digest := aep_digest_hex approval |}.

Definition consent_row (session : ExecutionSession) : ConsentRow :=
  let approval := ses_approval session in {|
  cnr_execution_id := ses_id session; cnr_material_version := aep_material_version approval;
  cnr_consent := ExecutionConsent_pending; cnr_safety_policy := aep_safety_policy approval;
  cnr_destination_root := aep_destination_root approval; cnr_state_changed_at_unix_ms := 0 |}.

Lemma insert_operations_Ok operations : forall db db',
  fold_se (fun _ operation => insert_execution_operation operation;; mret tt) tt operations db
    = (Ok tt, db') ->
  db' = with_operations (db_operations db ++ (inserted_operation <$> operations)) db
  /\ Forall (fun operation => from_option is_i64 True (eo_expected_source_size operation)) operations.
Proof.
  induction operations as [|operation operations IH]; intros db db'; cbn [fold_se].
  { intros [= <-]. cbn. rewrite app_nil_r. split; [by destruct db|constructor]. }
  intros (u & db1 & (n & db2 & Hins & [= _ <-])%se_bind_Ok & Hrest)%se_bind_Ok. destruct u.
  apply IH in Hrest as [-> Hsizes]. unfold insert_execution_operation in Hins.
  apply se_bind_Ok in Hins as (u1 & db3 & [_ ->]%se_lift_Ok & Hins).
  apply se_bind_Ok in Hins as (u2 & db3 & [_ ->]%se_lift_Ok & Hins).
  apply se_bind_Ok in Hins as (u3 & db3 & [_ ->]%se_lift_Ok & Hins).
  apply se_bind_Ok in Hins as (u4 & db3 & [Hsize ->]%se_lift_Ok & Hins).
  apply insert_sql_Ok in Hins as [-> _]. cbn. rewrite <- app_assoc. split; [done|].
  constructor; [|done]. destruct (eo_expected_source_size operation); [|done]. cbn.
  by apply bind_Ok in Hsize as (k & [_ ?]%to_sql_u64_Ok & _).
Qed.

(** The database after a prepared execution was stored. *)
Lemma prepared_database detail db db' :
  persist_prepared_execution detail db = (Ok tt, db') ->
  let session := ed_session detail in
  exists row retention, session_row session = Ok row
    /\ db' = with_retention (db_retention db ++ [retention])
        (with_operations (db_operations db ++ (inserted_operation <$> ed_operations detail))
        (with_consents (db_consents db ++ [consent_row session])
        (with_snapshots (db_snapshots db ++ [snapshot_row (ses_approval session) (ses_created_at session)])
        (with_sessions (db_sessions db ++ [row]) db))))
    /\ validate_prepared_execution detail = Ok tt
    /\ Forall (fun operation => from_option is_i64 True (eo_expected_source_size operation))
         (ed_operations detail)
    /\ schema_check db' = true.
Proof.
  unfold persist_prepared_execution. intros ([] & db1 & [Hvalid ->]%se_lift_Ok & Hrun)%se_bind_Ok.
  apply transaction_cases in Hrun as [[_ ?]|[Hrun _]]; [done|].
  apply se_bind_Ok in Hrun as (u & db1 & Happroved & Hrun).
  assert (db1 = db) as ->.
  { refine (steps_run (kept id) _ _ _ _ _ Happroved).
    unfold validate_approved_proposal, validate_approved_operation. steps_walk. }
  apply se_bind_Ok in Hrun as (n & db1 & Hsession & Hrun).
  apply se_bind_Ok in Hsession as (row & db2 & [Hrow ->]%se_lift_Ok & [-> _]%insert_sql_Ok).
  apply se_bind_Ok in Hrun as (n' & db1 & Hsnapshot & Hrun).
  apply se_bind_Ok in Hsnapshot as (u1 & db2 & [_ ->]%se_lift_Ok & Hsnapshot).
  apply se_bind_Ok in Hsnapshot as (count & db2 & [[-> _]%to_sql_u64_Ok ->]%se_lift_Ok & [-> _]%insert_sql_Ok).
  apply se_bind_Ok in Hrun as (n'' & db1 & Hconsent & Hrun).
  apply se_bind_Ok in Hconsent as (u2 & db2 & [_ ->]%se_lift_Ok & Hconsent).
  apply se_bind_Ok in Hconsent as (u3 & db2 & [_ ->]%se_lift_Ok & [-> _]%insert_sql_Ok).
  apply se_bind_Ok in Hrun as ([] & db1 & [-> Hsizes]%insert_operations_Ok & Hrun).
  apply se_bind_Ok in Hrun as (n4 & db1 & Hretention & [= <-]).
  apply insert_sql_Ok in Hretention as [-> Hschema].
  eexists row, _. repeat split; [done|done|done|done].
Qed.

(** ** Reading them *)

Lemma query_row_answers {A} (f : Db -> option A) db a :
  engine_error db = None -> f db = Some a -> query_row f db = (Ok a, db).
Proof. intros He Hf. unfold query_row. cbv [mbind se_bind]. rewrite query_answers by done. by rewrite Hf. Qed.

Lemma from_sql_u64_answers n : is_i64 n -> 0 <= n -> from_sql_u64 n = Ok n.
Proof.
  intros [_ ?] ?. unfold from_sql_u64, u64_try_from, i64_max, u64_max in *.
  by rewrite (proj2 (Z.leb_le _ _)), (proj2 (Z.leb_le _ _)) by lia.
Qed.
Lemma sql_u32_answers n : 0 <= n <= u32_max -> sql_u32 n = Ok n.
Proof.
  intros [? ?]. unfold sql_u32, u32_try_from.
  by rewrite (proj2 (Z.leb_le _ _)), (proj2 (Z.leb_le _ _)) by lia.
Qed.

Lemma se_bind_answers {A B} (m : Sql A) (k : A -> Sql B) db db1 a :
  m db = (Ok a, db1) -> (m ≫= k) db = k a db1.
Proof. intros H. cbv [mbind se_bind]. by rewrite H. Qed.

(** The row of a session, and the summary its counts are read as. *)
Lemma session_row_read session row :
  session_row session = Ok row -> session_check row = true ->
  summary_of_row row = Ok (ses_summary session)
  /\ is_i64 (aep_operation_count (ses_approval session)).
Proof.
  unfold session_row. intros Hrow Hcheck. inv_ok.
  repeat match goal with H : to_sql_u64 _ = Ok _ |- _ => apply to_sql_u64_Ok in H as [-> ?] end.
  unfold session_check in Hcheck. cbn in Hcheck. bools.
  split; [|done]. unfold summary_of_row. cbn.
  rewrite !from_sql_u64_answers by done. cbn. by destruct (ses_summary session).
Qed.

(** What the checks before storing say of the session. *)
Record prepared_session (session : ExecutionSession) : Prop := {
  ps_status : ses_status session = OesAwaitingConfirmation;
  ps_consent : ses_consent session = ExecutionConsent_pending;
  ps_material : aep_material_version (ses_approval session) = EXECUTION_PLAN_MATERIAL_VERSION;
  ps_execution : aep_execution_id (ses_approval session) = ses_id session;
  ps_revision : aep_proposal_revision (ses_approval session) = ses_proposal_revision session;
  ps_version : espb_version (aep_safety_policy (ses_approval session)) <> [];
  ps_digest : len (espb_digest_hex (aep_safety_policy (ses_approval session))) = 64;
  ps_path : np_bytes (erb_canonical_path (aep_destination_root (ses_approval session))) <> [];
  ps_display : erb_display_path (aep_destination_root (ses_approval session)) <> []
}.

Lemma validated_session detail :
  validate_prepared_execution detail = Ok tt -> prepared_session (ed_session detail).
Proof.
  unfold validate_prepared_execution. intros ([] & H%reject_if_Ok & _)%bind_Ok.
  cbv beta zeta in H. bools. by split.
Qed.

Lemma validated_operations detail i operation :
  validate_prepared_execution detail = Ok tt -> ed_operations detail !! i = Some operation ->
  eo_execution_id operation = ses_id (ed_session detail) /\ eo_sequence operation = Z.of_nat i.
Proof.
  unfold validate_prepared_execution. intros H Hi.
  apply bind_Ok in H as ([] & _ & H). apply bind_Ok in H as (n & _ & H).
  apply bind_Ok in H as ([] & _ & H). apply bind_Ok in H as ([] & _ & H).
  apply reject_if_Ok in H.
  assert (forall p, p ∈ imap pair (ed_operations detail) ->
    (let '(index, operation) := p in negb (bool_decide (eo_execution_id operation
       = ses_id (ed_session detail))) || negb (eo_sequence operation =? Z.of_nat index)) = false) as Hall.
  { intros p Hp. destruct (let '(index, operation) := p in _) eqn:E; [|done]. exfalso.
    assert (existsb (fun '(index, operation) =>
      negb (bool_decide (eo_execution_id operation = ses_id (ed_session detail)))
      || negb (eo_sequence operation =? Z.of_nat index)) (imap pair (ed_operations detail)) = true).
    { apply existsb_exists. exists p. split; [by apply list_elem_of_In|exact E]. }
    congruence. }
  specialize (Hall (i, operation)). cbn in Hall.
  rewrite orb_false_iff, !negb_false_iff, bool_decide_eq_true, Z.eqb_eq in Hall. apply Hall.
  apply list_elem_of_lookup_2 with i. by rewrite list_lookup_imap, Hi.
Qed.

Lemma stored_consent_valid session :
  prepared_session session -> consent_check (consent_row session) = true ->
  (from_sql_u64 (espb_maximum_rehash_bytes (aep_safety_policy (ses_approval session)));;
   sql_u32 (cnr_material_version (consent_row session));;
   validate_stored_consent (consent_row session)) = Ok tt.
Proof.
  intros [] Hcheck. unfold consent_check in Hcheck. cbn in Hcheck. bools.
  rewrite from_sql_u64_answers by (unfold is_i64, i64_min, i64_max,
    MAX_EXECUTION_VERIFICATION_BYTES in *; lia). cbn.
  rewrite ps_material0. cbn. unfold validate_stored_consent. cbn. rewrite ps_material0, ps_digest0.
  rewrite !bool_decide_eq_false_2 by done.
  rewrite (proj2 (Z.eqb_neq (espb_maximum_rehash_bytes _) 0)) by lia.
  rewrite (proj2 (Z.ltb_ge MAX_EXECUTION_VERIFICATION_BYTES _)) by lia. reflexivity.
Qed.

Lemma schema_session_row db row :
  schema_check db = true -> row ∈ db_sessions db -> session_check row = true.
Proof.
  unfold schema_check, rows_check. intros H Hin. bools.
  match goal with H : forallb session_check _ = true |- _ => rewrite forallb_forall in H; apply H end.
  by apply list_elem_of_In.
Qed.
Lemma schema_consent_row db row :
  schema_check db = true -> row ∈ db_consents db -> consent_check row = true.
Proof.
  unfold schema_check, rows_check. intros H Hin. bools.
  match goal with H : forallb consent_check _ = true |- _ => rewrite forallb_forall in H; apply H end.
  by apply list_elem_of_In.
Qed.
Lemma schema_operation_row db row :
  schema_check db = true -> row ∈ db_operations db -> operation_check row = true.
Proof.
  unfold schema_check, rows_check. intros H Hin. bools.
  match goal with H : forallb operation_check _ = true |- _ => rewrite forallb_forall in H; apply H end.
  by apply list_elem_of_In.
Qed.
Lemma schema_snapshots db : schema_check db = true -> NoDup (snr_execution_id <$> db_snapshots db).
Proof. unfold schema_check, keys_check, unique. intros H. bools. done. Qed.
Lemma schema_operation_owner db row :
  schema_check db = true -> row ∈ db_operations db -> eo_execution_id row ∈ ssr_id <$> db_sessions db.
Proof.
  unfold schema_check, references_check. intros H Hin. bools.
  match goal with H : forallb _ (db_operations db) = true |- _ =>
    rewrite forallb_forall in H; specialize (H row) end.
  unfold known in *. bools. naive_solver (by apply list_elem_of_In).
Qed.

(** The operations of a new execution are the ones that were just stored. *)
Lemma new_operations x operations rows :
  Forall (fun row => eo_execution_id row <> x) rows ->
  Forall (fun row => eo_execution_id row = x) operations ->
  filter (fun row => eo_execution_id row = x) (rows ++ operations) = operations.
Proof.
  intros Hold Hnew. rewrite filter_app.
  assert (filter (fun row => eo_execution_id row = x) rows = []) as ->.
  { induction Hold; [done|]. by rewrite filter_cons_False. }
  induction Hnew as [|r l Hr _ IH]; [done|]. rewrite app_nil_l in *. by rewrite filter_cons_True, IH.
Qed.

Lemma operations_read operations :
  (forall row, row ∈ operations -> operation_check row = true /\ is_u32 (eo_sequence row)
     /\ from_option is_i64 True (eo_expected_source_size row)) ->
  collect operation_of_row operations = Ok operations.
Proof.
  induction operations as [|row operations IH]; intros H; [done|].
  destruct (H row ltac:(by left)) as (Hc & Hs & Hi).
  assert (operation_of_row row = Ok row) as Hrow.
  { unfold operation_of_row. unfold operation_check in Hc. bools.
    destruct (eo_expected_source_size row) as [size|]; cbn in *.
    - rewrite from_sql_u64_answers by (done || by apply Z.leb_le). cbn. by rewrite sql_u32_answers.
    - by rewrite sql_u32_answers. }
  cbn [collect]. rewrite Hrow, IH by (intros; apply H; by right). reflexivity.
Qed.

(** The widths of the numbers of a prepared execution. *)
Definition detail_in_range (detail : ExecutionDetail) : Prop :=
  is_u32 (ses_proposal_revision (ed_session detail))
  /\ Forall (fun operation => is_u32 (eo_sequence operation)) (ed_operations detail).

Lemma consent_read detail db :
  validate_prepared_execution detail = Ok tt -> schema_check db = true -> engine_error db = None ->
  (exists rows, db_consents db = rows ++ [consent_row (ed_session detail)]) ->
  consent_from_connection (ses_id (ed_session detail)) db = (Ok (consent_row (ed_session detail)), db).
Proof.
  intros Hvalid Hschema Hengine [rows Hrows]. pose proof (validated_session _ Hvalid) as Hps.
  unfold consent_from_connection. erewrite se_bind_answers; cycle 1.
  { apply query_row_answers; [done|]. rewrite Hrows.
    apply (find_last cnr_execution_id rows (consent_row (ed_session detail))).
    apply schema_consents in Hschema. by rewrite Hrows in Hschema. }
  erewrite se_bind_answers; [reflexivity|]. unfold se_lift. f_equal.
  apply (stored_consent_valid _ Hps), (schema_consent_row db); [done|]. rewrite Hrows.
  apply elem_of_app. right. by left.
Qed.

Lemma approval_read detail db :
  validate_prepared_execution detail = Ok tt -> schema_check db = true -> engine_error db = None ->
  is_u32 (ses_proposal_revision (ed_session detail)) ->
  is_i64 (aep_operation_count (ses_approval (ed_session detail))) ->
  (exists rows frozen_at, db_snapshots db
     = rows ++ [snapshot_row (ses_approval (ed_session detail)) frozen_at]) ->
  approval_from_connection (ses_id (ed_session detail)) (consent_row (ed_session detail)) db
  = (Ok (ses_approval (ed_session detail)), db).
Proof.
  intros Hvalid Hschema Hengine Hrev Hcount (rows & frozen_at & Hrows).
  destruct (validated_session _ Hvalid). unfold approval_from_connection.
  erewrite se_bind_answers; cycle 1.
  { apply query_row_answers; [done|]. rewrite Hrows.
    rewrite <- ps_execution0. 
    apply (find_last snr_execution_id rows (snapshot_row (ses_approval (ed_session detail)) frozen_at)).
    apply schema_snapshots in Hschema. by rewrite Hrows in Hschema. }
  erewrite se_bind_answers; cycle 1.
  { unfold se_lift. cbn. rewrite sql_u32_answers by (by rewrite ps_revision0). done. }
  erewrite se_bind_answers; cycle 1.
  { unfold se_lift. cbn. rewrite from_sql_u64_answers; [done|done|].
    unfold schema_check, rows_check in Hschema. bools.
    match goal with H : forallb snapshot_check _ = true |- _ =>
      rewrite Hrows, forallb_app in H; unfold snapshot_check in H end.
    bools. cbn in *. bools. done. }
  cbv [mret se_ret]. do 2 f_equal. rewrite <- ps_execution0. cbn.
  by destruct (ses_approval (ed_session detail)).
Qed.

Lemma session_row_revision session row :
  session_row session = Ok row -> spl_proposal_revision (ssr_plan row) = ses_proposal_revision session.
Proof. unfold session_row. intros H. by inv_ok. Qed.

Lemma session_of_row session row :
  session_row session = Ok row -> ses_consent session = ExecutionConsent_pending ->
  let plan := ssr_plan row in
  let control := ssr_control row in
  {| ses_id := ses_id session; ses_plan_id := spl_plan_id plan;
     ses_proposal_id := spl_proposal_id plan;
     ses_proposal_revision_id := spl_proposal_revision_id plan;
     ses_proposal_revision := ses_proposal_revision session;
     ses_workspace_id := spl_workspace_id plan; ses_root_id := spl_root_id plan;
     ses_source_scan_id := spl_source_scan_id plan; ses_status := ssr_status row;
     ses_recovery_state := ssr_recovery_state row; ses_plan_digest_hex := spl_plan_digest plan;
     ses_approval := ses_approval session; ses_consent := cnr_consent (consent_row session);
     ses_summary := ses_summary session; ses_current_operation := scl_current_operation control;
     ses_rollback_available := scl_rollback_available control;
     ses_confirmation_phrase_required := spl_confirmation_phrase_required plan;
     ses_created_at := spl_created_at plan; ses_approved_at := scl_approved_at control;
     ses_started_at := scl_started_at control; ses_completed_at := scl_completed_at control;
     ses_rolled_back_at := scl_rolled_back_at control; ses_error := scl_error_message control |}
  = session.
Proof.
  unfold session_row. intros H Hc. inv_ok. cbn. destruct session. cbn in *. by subst.
Qed.

(** The operations of a plan are numbered by their position. *)
Lemma numbered_sorted detail :
  validate_prepared_execution detail = Ok tt ->
  StronglySorted (fun a b => eo_sequence a <=? eo_sequence b = true)
    (inserted_operation <$> ed_operations detail).
Proof.
  intros Hvalid.
  assert (forall i operation, ed_operations detail !! i = Some operation ->
    eo_sequence operation = Z.of_nat i) as Hseq
    by (intros i operation Hi; by apply (validated_operations _ _ _ Hvalid Hi)).
  clear Hvalid. cut (forall n operations, (forall i operation, operations !! i = Some operation ->
      eo_sequence operation = n + Z.of_nat i) ->
    StronglySorted (fun a b => eo_sequence a <=? eo_sequence b = true)
      (inserted_operation <$> operations)).
  { intros H. by apply (H 0). }
  intros n operations. revert n. induction operations as [|operation operations IH]; intros n H;
    [constructor|]. cbn. constructor.
  - apply (IH (n + 1)). intros i other Hi. rewrite (H (S i) other Hi). lia.
  - apply Forall_fmap, Forall_forall. intros other (i & Hi)%list_elem_of_lookup. cbn.
    pose proof (H 0%nat operation eq_refl). pose proof (H (S i) other Hi). apply Z.leb_le. lia.
Qed.

(** The two halves of what is read back. *)
Lemma stored_session_read detail row db :
  session_row (ed_session detail) = Ok row -> session_check row = true ->
  validate_prepared_execution detail = Ok tt -> schema_check db = true -> engine_error db = None ->
  is_u32 (ses_proposal_revision (ed_session detail)) ->
  (exists rows, db_sessions db = rows ++ [row]) ->
  (exists rows, db_consents db = rows ++ [consent_row (ed_session detail)]) ->
  (exists rows frozen_at, db_snapshots db
     = rows ++ [snapshot_row (ses_approval (ed_session detail)) frozen_at]) ->
  execution_session_from_connection (ses_id (ed_session detail)) db = (Ok (ed_session detail), db).
Proof.
  intros Hrow Hcheck Hvalid Hschema Hengine Hrev [rows Hrows] Hconsents Hsnapshots.
  assert (ssr_id row = ses_id (ed_session detail)) as Hid
    by (by injection (session_row_columns _ _ Hrow)).
  destruct (session_row_read _ _ Hrow Hcheck) as [Hsummary Hcount].
  unfold execution_session_from_connection. erewrite se_bind_answers; cycle 1.
  { apply query_row_answers; [done|]. rewrite Hrows, <- Hid. apply (find_last ssr_id _ row).
    apply schema_sessions in Hschema. by rewrite Hrows in Hschema. }
  rewrite (se_bind_answers _ _ _ _ _ (consent_read detail db Hvalid Hschema Hengine Hconsents)).
  rewrite (se_bind_answers _ _ _ _ _ (approval_read detail db Hvalid Hschema Hengine Hrev Hcount Hsnapshots)).
  pose proof (session_row_revision _ _ Hrow) as Er.
  erewrite se_bind_answers by (unfold se_lift; by rewrite Er, sql_u32_answers).
  erewrite se_bind_answers by (unfold se_lift; by rewrite Hsummary).
  cbv [mret se_ret]. do 2 f_equal. apply (session_of_row _ _ Hrow).
  by destruct (validated_session _ Hvalid).
Qed.

Lemma stored_operations_read detail old db :
  validate_prepared_execution detail = Ok tt -> engine_error db = None -> schema_check db = true ->
  Forall (fun operation => is_u32 (eo_sequence operation)) (ed_operations detail) ->
  Forall (fun operation => from_option is_i64 True (eo_expected_source_size operation))
    (ed_operations detail) ->
  db_operations db = old ++ (inserted_operation <$> ed_operations detail) ->
  Forall (fun row => eo_execution_id row <> ses_id (ed_session detail)) old ->
  execution_operations_from_connection (ses_id (ed_session detail)) db
  = (Ok (inserted_operation <$> ed_operations detail), db).
Proof.
  intros Hvalid Hengine Hschema Hseq Hsizes Hdb Hold. unfold execution_operations_from_connection.
  erewrite se_bind_answers by (by apply query_answers). unfold se_lift. f_equal.
  assert (filter (fun row => eo_execution_id row = ses_id (ed_session detail)) (db_operations db)
    = inserted_operation <$> ed_operations detail) as ->.
  { rewrite Hdb. apply new_operations; [done|].
    apply Forall_fmap, Forall_forall. intros operation (i & Hi)%list_elem_of_lookup.
    by apply (validated_operations _ _ _ Hvalid Hi). }
  rewrite sort_by_id; [apply operations_read|by apply numbered_sorted].
  intros stored (operation & -> & Hin)%list_elem_of_fmap. rewrite Forall_forall in Hseq, Hsizes.
  split; [|split; [exact (Hseq _ Hin)|exact (Hsizes _ Hin)]].
  apply (schema_operation_row db); [done|]. rewrite Hdb. apply elem_of_app. right.
  by apply list_elem_of_fmap_2.
Qed.

(** The row of an operation holds every column of the operation but the
    fingerprint taken after it ran. *)
Lemma inserted_operations_same operations :
  Forall (fun operation => eo_post_fingerprint operation = None) operations ->
  inserted_operation <$> operations = operations.
Proof.
  induction 1 as [|operation operations Hpost _ IH]; [done|]. cbn [fmap list_fmap].
  rewrite IH. f_equal. by destruct operation; cbn in *; subst.
Qed.

(** C16: A prepared execution the database accepted is read back exactly as it
    was stored: the same session with its frozen approval, its pending consent
    and its counts, and the same operations in the same order with the same
    identifiers, kinds, paths, expectations, fingerprints, preconditions,
    dependencies, statuses and times.  Operations that have not run carry no
    fingerprint of their result. *)
Theorem prepared_execution_is_read_back detail db db' :
  schema_check db = true -> detail_in_range detail ->
  Forall (fun operation => eo_post_fingerprint operation = None) (ed_operations detail) ->
  persist_prepared_execution detail db = (Ok tt, db') -> engine_error db' = None ->
  stored_execution_detail (ses_id (ed_session detail)) db' = (Ok detail, db').
Proof.
  intros Hschema [Hrev Hseq] Hpost
    (row & retention & Hrow & Hdb & Hvalid & Hsizes & Hschema')%prepared_database Hengine.
  assert (ssr_id row = ses_id (ed_session detail)) as Hid
    by (by injection (session_row_columns _ _ Hrow)).
  unfold stored_execution_detail.
  rewrite (se_bind_answers _ _ db' db' (ed_session detail)); cycle 1.
  { apply (stored_session_read detail row); try done; try (rewrite Hdb; by repeat eexists).
    apply (schema_session_row db'); [done|]. rewrite Hdb. cbn. apply elem_of_app. right. by left. }
  rewrite (se_bind_answers _ _ db' db' (inserted_operation <$> ed_operations detail)).
  { rewrite inserted_operations_same by done. by destruct detail. }
  apply (stored_operations_read detail (db_operations db)); try done; [by rewrite Hdb|].
  apply Forall_forall. intros old Hold Hx.
  pose proof (schema_operation_owner _ _ Hschema Hold) as Hin. rewrite Hx, <- Hid in Hin.
  apply schema_sessions in Hschema'. rewrite Hdb in Hschema'. cbn in Hschema'.
  rewrite fmap_app in Hschema'. apply NoDup_app in Hschema' as (_ & Hd & _).
  apply (Hd _ Hin). by left.
Qed.
End reads.
