(* ===== verification/StoreFacts.v ===== *)
(** * Consequences, and a database at work

    What the code does with a discarded challenge and with the retention of a
    finished execution, and the witnesses of the theorems about the store: one
    execution from its preparation to the intent of its first mutation. *)

From S2P Require Export StoreReads.
From S2P Require Import Samples ExecEnvelope.
#[local] Open Scope Z_scope.

Section facts.
Context `{EN : SqlEngine} `{JT1 : JsonText (list ProposalItemId)} `{JT2 : JsonText VolumeIdentity}.
Context `{JT3 : JsonText FileFingerprint} `{JT4 : JsonText (list str)} `{UC : UnicodeCase}.
Context `{B3 : Blake3} `{UU : UuidCrate} `{JC : JsonCrate}.

Lemma active_status_blocks status : active_status status = blocks_new_execution status.
Proof. by destruct status. Qed.

(** The schema lets one execution be active: when a prepared one is stored, no
    other was, and it is the one the database holds from then on. *)
Theorem one_active_execution detail db db' :
  persist_prepared_execution detail db = (Ok tt, db') ->
  Forall (fun row => blocks_new_execution (ssr_status row) = false) (db_sessions db)
  /\ exists row, filter (fun row => blocks_new_execution (ssr_status row) = true) (db_sessions db') = [row]
       /\ ssr_id row = ses_id (ed_session detail).
Proof.
  intros (row & retention & Hrow & Hdb & Hvalid & _ & Hschema)%prepared_database.
  assert (ssr_status row = OesAwaitingConfirmation) as Hstatus.
  { unfold session_row in Hrow. inv_ok. by destruct (validated_session _ Hvalid). }
  assert (length (filter (fun row => active_status (ssr_status row) = true) (db_sessions db')) <= 1)%nat
    as Hone.
  { unfold schema_check, keys_check in Hschema. bools. by apply Nat.leb_le. }
  assert (db_sessions db' = db_sessions db ++ [row]) as Hsessions by (by rewrite Hdb).
  rewrite Hsessions, filter_app, length_app, filter_cons_True in Hone by (by rewrite Hstatus).
  cbn in Hone. rewrite Hsessions, filter_app.
  destruct (filter (fun row => active_status (ssr_status row) = true) (db_sessions db)) as [|other l] eqn:E;
    [|cbn in Hone; lia].
  assert (forall old, old ∈ db_sessions db -> active_status (ssr_status old) = false) as Hnone.
  { intros old Hin. destruct (active_status (ssr_status old)) eqn:Ha; [|done].
    assert (old ∈ filter (fun row => active_status (ssr_status row) = true) (db_sessions db)) as Hf
      by (by apply list_elem_of_filter). rewrite E in Hf. by apply elem_of_nil in Hf. }
  split.
  - apply Forall_forall. intros old Hin. rewrite <- active_status_blocks. by apply Hnone.
  - exists row. split; [|by injection (session_row_columns _ _ Hrow)].
    rewrite filter_cons_True by (by rewrite Hstatus). rewrite filter_nil.
    assert (filter (fun row => blocks_new_execution (ssr_status row) = true) (db_sessions db) = []) as ->;
      [|done]. rewrite <- E. apply list_filter_iff. intros old. by rewrite active_status_blocks.
Qed.

(** Discarding a challenge answers that it was discarded, but the transaction
    is dropped before it is committed: the challenge is pending as before, and
    the database is the same. *)
Theorem discarded_challenge_stays x nonce issued_at expires_at now db discarded db' :
  clear_execution_consent_challenge x nonce issued_at expires_at now db = (Ok discarded, db') ->
  db' = db
  /\ (discarded = true -> exists row, row ∈ db_consents db' /\ cnr_execution_id row = x
        /\ ec_state (cnr_consent row) = EcsPending
        /\ challenge_of nonce issued_at expires_at row = true).
Proof.
  unfold clear_execution_consent_challenge, abandoned. intros H.
  destruct ((engine;; _) db) as [r db1] eqn:Hrun. cbn in H. injection H as -> <-. split; [done|].
  intros ->. apply se_bind_Ok in Hrun as (u & db2 & ->%engine_Ok & Hrun).
  apply se_bind_Ok in Hrun as (changed & db2 & [Hupd _]%execute_sql_Ok & Hret).
  injection Hupd as <- <-. injection Hret as Hone _. apply Z.eqb_eq in Hone.
  apply count_rows_one in Hone as (row & Hin & Hw). exists row. bools.
  match goal with H : consent_of _ _ _ = true |- _ =>
    apply consent_of_true in H as [Hx Hs%list_elem_of_singleton] end. done.
Qed.

(** The event that finishes an execution with nothing to roll back dates its
    end, but the same statement still reads that it was not dated: the record
    says that the execution is not finalized and gives no date for its cleanup,
    until some later event refreshes it. *)
Theorem finished_execution_not_finalized x at_ db n db' session row :
  refresh_execution_retention x at_ db = (Ok n, db') ->
  session_row_of x db = Some session -> ssr_status session ∈ TERMINAL ->
  ssr_recovery_state session = ErsRecoveryNotRequired ->
  scl_rollback_available (ssr_control session) = false ->
  row ∈ db_retention db -> rtn_execution_id row = x -> rtn_finalized_at row = None ->
  exists row', row' ∈ db_retention db' /\ rtn_execution_id row' = x
    /\ rtn_finalized_at row' = Some at_
    /\ rtn_cleanup_eligibility_reason row' = lit "execution_not_finalized"
    /\ rtn_cleanup_eligible_at row' = None.
Proof.
  intros [Hrun _]%execute_sql_Ok Hs Ht Hr Ha Hin Hx Hf. injection Hrun as _ <-.
  exists (refreshed_retention (Some session) at_ row). split.
  - cbn. apply list_elem_of_fmap. exists row. rewrite Hs. by rewrite bool_decide_eq_true_2.
  - unfold refreshed_retention. cbn. rewrite Hr, Ha, Hf, (bool_decide_eq_true_2 _ Ht). done.
Qed.
End facts.

(** ** A database at work *)

#[local] Existing Instances sample_uuid sample_blake3.
#[local] Instance store_engine : SqlEngine := {|
  engine_error _ := None; constraint_failed := lit "constraint failed";
  no_rows := lit "Query returned no rows"; invalid_column_type := lit "Invalid column type";
  thirty_days_after := Some; new_error_id _ := uid xee |}.
#[local] Instance store_case : UnicodeCase := ascii_unicode_case.
#[local] Instance store_ids : JsonText (list uuid) := fun _ => Some (lit "[]").
#[local] Instance store_volume : JsonText VolumeIdentity := fun _ => Some (lit "{}").
#[local] Instance store_fingerprint : JsonText FileFingerprint := fun _ => Some (lit "{}").
#[local] Instance store_texts : JsonText (list str) := fun _ => Some (lit "[]").

Definition hex64 (b : byte) : str := encode_hex (barr (fill 32 b)).

Definition store_request : ExecutorRequestIdentity := {|
  eri_request_id := hex64 x71; eri_session_id := hex64 x70; eri_execution_id := uid x40;
  eri_operation_id := uid x41; eri_direction := ErdForward; eri_request_sequence := 1;
  eri_request_nonce := fill 32 x72; eri_request_digest_hex := hex64 x73 |}.

#[local] Instance store_json : JsonCrate := {|
  value_to_string _ := Some (lit "{}");
  value_from_slice _ := Some (json_object [(lit "executor_request", json_object [
    (lit "request_id", JString (eri_request_id store_request));
    (lit "session_id", JString (eri_session_id store_request));
    (lit "request_sequence", JNumber (eri_request_sequence store_request));
    (lit "request_digest", JString (eri_request_digest_hex store_request))])]) |}.

Definition store_session : ExecutionSession := {|
  ses_id := uid x40; ses_plan_id := uid x42; ses_proposal_id := uid x03;
  ses_proposal_revision_id := uid x43; ses_proposal_revision := 1; ses_workspace_id := uid x02;
  ses_root_id := uid x0a; ses_source_scan_id := uid x04; ses_status := OesAwaitingConfirmation;
  ses_recovery_state := ErsRecoveryNotRequired; ses_plan_digest_hex := hex64 x01;
  ses_approval := {|
    aep_material_version := 2; aep_execution_id := uid x40; aep_plan_id := uid x42;
    aep_proposal_id := uid x03; aep_proposal_revision_id := uid x43; aep_proposal_revision := 1;
    aep_source_snapshot_version := uid x04; aep_approved_operation_ids := [uid x31];
    aep_operation_count := 1;
    aep_destination_root := aep_destination_root sample_execution_plan;
    aep_safety_policy := aep_safety_policy sample_execution_plan;
    aep_approval_timestamp := None; aep_user_confirmed := false; aep_digest_hex := hex64 x01 |};
  ses_consent := ExecutionConsent_pending;
  ses_summary := ses_summary (ed_session (sample_detail []));
  ses_current_operation := None; ses_rollback_available := false;
  ses_confirmation_phrase_required := false; ses_created_at := lit "2025-01-01T00:00:00Z";
  ses_approved_at := None; ses_started_at := None; ses_completed_at := None;
  ses_rolled_back_at := None; ses_error := None |}.

Definition store_detail : ExecutionDetail := {|
  ed_session := store_session; ed_operations := [sample_stored_operation []] |}.

(** A catalog with one approved proposal and no execution. *)
Definition store_catalog : Db := {|
  db_sessions := []; db_snapshots := []; db_consents := []; db_operations := []; db_journal := [];
  db_executor_sessions := []; db_requests := []; db_rollback_records := []; db_recovery := [];
  db_errors := []; db_retention := [];
  db_proposals := [{| ppr_id := uid x03; ppr_status := lit "approved_for_future_apply";
                      ppr_current_revision_id := uid x43 |}];
  db_revisions := [{| rvr_id := uid x43; rvr_revision_number := 1 |}];
  db_proposal_operations := [{| por_id := uid x31; por_revision_id := uid x43;
    por_operation_kind := lit "move_proposal"; por_source_relative_path := lit "a.txt";
    por_proposed_destination := [lit "Clients"]; por_proposed_name := lit "a.txt";
    por_user_override := false |}];
  db_workspaces := [uid x02]; db_roots := [uid x0a]; db_scans := [uid x04] |}.

Definition store_identity : ExecutorSessionIdentity := {|
  esi_session_id := hex64 x70; esi_execution_id := uid x40; esi_plan_id := uid x42;
  esi_plan_digest_hex := hex64 x01; esi_purpose := EspForward; esi_coordinator_pid := 7;
  esi_child_pid := Some 8; esi_worker_nonce_hash_hex := hex64 x74;
  esi_coordinator_nonce_hash_hex := hex64 x75; esi_response_nonce_hash_hex := None;
  esi_opened_at_unix_ms := 3000 |}.

Definition store_approved : OperationJournalEvent :=
  new_event (uid x40) 0 None ApprovedDurable (utf8 (lit "{}")) None 2500.
Definition store_intent_event : OperationJournalEvent :=
  new_event (uid x40) 1 (Some (uid x41)) IntentDurableEvent (utf8 (lit "{}"))
    (Some (ev_event_digest store_approved)) 3000.

Definition store_record_intent : StoreCall :=
  ScEvent store_intent_event (lit "{}") (Some EosRunning) (Some OesRunning) None None None
    (lit "2025-01-01T00:00:03Z") (Some store_request) None.

(** From the preparation of an execution to the intent of its first mutation;
    the second consumption and the second intent are refused. *)
Definition store_calls : list StoreCall :=
  [ScPrepare store_detail; ScIssue (uid x40) (fill 32 x03) 1000 900000;
   ScAttest (uid x40) (fill 32 x03) 1000 900000 (fill 32 x04) 2000;
   ScEvent store_approved (lit "{}") None None None None None (lit "2025-01-01T00:00:02Z") None None;
   ScConsume (uid x40) (fill 32 x03) 1000 900000 (fill 32 x04) 2600;
   ScConsume (uid x40) (fill 32 x03) 1000 900000 (fill 32 x04) 2700;
   ScSession store_identity; store_record_intent; store_record_intent].

Definition store_run : list StoreCall * Db := perform_all store_calls store_catalog.

Definition prepared_catalog : Db := snd (persist_prepared_execution store_detail store_catalog).

Lemma store_run_pair : perform_all store_calls store_catalog = (fst store_run, snd store_run).
Proof. apply surjective_pairing. Qed.

(** The run: the calls that were answered with success. *)
Lemma store_run_done :
  fst store_run = take 5 store_calls ++ [ScSession store_identity; store_record_intent].
Proof. vm_compute. reflexivity. Qed.

Lemma stored_journal_is_valid_witness :
  execution_journal_events (uid x40) (snd store_run)
    = (Ok (events_stored (uid x40) (fst store_run)), snd store_run)
  /\ validate_execution_journal (uid x40) (snd store_run) = (Ok true, snd store_run)
  /\ events_stored (uid x40) (fst store_run) = [store_approved; store_intent_event].
Proof.
  assert (uid x40 ∈ ssr_id <$> db_sessions (snd store_run)) as Hx
    by (apply (bool_decide_unpack _); vm_compute; exact I).
  destruct (stored_journal_is_valid store_calls store_catalog (fst store_run) (snd store_run) (uid x40)
    eq_refl eq_refl store_run_pair eq_refl Hx) as [H1 H2].
  split; [exact H1|]. split; [exact H2|]. rewrite store_run_done. reflexivity.
Defined.

Lemma forward_asked_once_witness :
  NoDup (omap forward_slot (intents_stored (fst store_run)))
  /\ intents_stored (fst store_run) = [store_request].
Proof.
  split; [|rewrite store_run_done; reflexivity].
  exact (forward_asked_once store_calls store_catalog _ (snd store_run) eq_refl store_run_pair).
Defined.

Lemma consent_consumed_once_witness :
  NoDup (omap consumed_execution (fst store_run))
  /\ Forall (consumption_accounted store_calls) (fst store_run)
  /\ omap consumed_execution (fst store_run) = [uid x40].
Proof.
  destruct (consent_consumed_once store_calls store_catalog _ (snd store_run) eq_refl store_run_pair)
    as [H1 H2].
  split; [exact H1|]. split; [exact H2|]. rewrite store_run_done. reflexivity.
Defined.

(** The database just before the intent is recorded. *)
Definition before_intent : Db := snd (perform_all (take 7 store_calls) store_catalog).
Definition after_intent : Db := snd (perform store_record_intent before_intent).

Lemma recorded_intent_is_allowed_witness :
  intent_allowed store_intent_event (lit "{}") store_request before_intent
  /\ asked_requests after_intent = asked_requests before_intent ++ [store_request].
Proof.
  apply (recorded_intent_is_allowed store_intent_event (lit "{}") EosRunning OesRunning store_request
    (lit "2025-01-01T00:00:03Z") before_intent after_intent).
  vm_compute. reflexivity.
Defined.

Lemma prepared_stored : persist_prepared_execution store_detail store_catalog = (Ok tt, prepared_catalog).
Proof. vm_compute. reflexivity. Qed.

Lemma prepared_execution_is_read_back_witness :
  stored_execution_detail (uid x40) prepared_catalog = (Ok store_detail, prepared_catalog).
Proof.
  apply (prepared_execution_is_read_back store_detail store_catalog prepared_catalog).
  - vm_compute. reflexivity.
  - split; [split; vm_compute; discriminate|]. repeat constructor; vm_compute; discriminate.
  - by repeat constructor.
  - exact prepared_stored.
  - reflexivity.
Defined.

Lemma one_active_execution_witness :
  exists row, filter (fun row => blocks_new_execution (ssr_status row) = true)
      (db_sessions prepared_catalog) = [row]
    /\ ssr_id row = uid x40.
Proof. exact (proj2 (one_active_execution store_detail store_catalog _ prepared_stored)). Defined.

(** A challenge that was issued, and then discarded. *)
Definition challenged_catalog : Db :=
  snd (perform (ScIssue (uid x40) (fill 32 x03) 1000 900000) prepared_catalog).

Lemma challenge_discarded :
  clear_execution_consent_challenge (uid x40) (fill 32 x03) 1000 900000 2000 challenged_catalog
  = (Ok true, challenged_catalog).
Proof. vm_compute. reflexivity. Qed.

Lemma discarded_challenge_stays_witness :
  exists row, row ∈ db_consents challenged_catalog /\ cnr_execution_id row = uid x40
    /\ ec_state (cnr_consent row) = EcsPending
    /\ challenge_of (fill 32 x03) 1000 900000 row = true.
Proof.
  exact (proj2 (discarded_challenge_stays _ _ _ _ _ _ _ _ challenge_discarded) eq_refl).
Defined.

(** A cancelled execution: over, dated, and not finalized. *)
Lemma cancelled_execution_not_finalized :
  exists row, db_retention (snd (cancel_unstarted_execution (uid x40) (lit "2025-01-02") prepared_catalog))
      = [row]
    /\ rtn_finalized_at row = Some (lit "2025-01-02")
    /\ rtn_cleanup_eligibility_reason row = lit "execution_not_finalized"
    /\ rtn_cleanup_eligible_at row = None.
Proof. eexists. split; [vm_compute; reflexivity|]. done. Qed.
