(* ===== verification/Coordinator.v ===== *)
(** * The coordinator of an execution

    crates/application/src/execution.rs: the service that keeps the two
    journals of an execution in step, records every request before it is
    dispatched, and gets and checks the consent of the user.  The database, the
    executor client, the clock and the locks are its world. *)

From S2P Require Export Observe ExecAuth ExecClient.
#[local] Open Scope Z_scope.

(** ** The world *)

Record RecoveryItem := {
  ri_operation_id : OperationStepId;
  ri_direction : ExecutorRequestDirection;
  ri_item : str;
  ri_reason : option str
}.

Record JournalDiagnosticState := {
  jds_locked : bool;
  jds_diagnostics : list JournalDiagnostic
}.

#[export] Instance category_to_json : ToJson ExecutionFailureCategory :=
  fun category => JString (failure_category_name category).

Record ExecutionProgress := {
  epr_execution_id : ExecutionId;
  epr_status : OrganizationExecutionStatus;
  epr_completed : Z;
  epr_total : Z;
  epr_applied : Z;
  epr_blocked : Z;
  epr_skipped : Z;
  epr_failed : Z;
  epr_current : option str
}.

(** What changes with an event in the database. *)
Record EventUpdate := {
  eu_operation_status : option ExecutionOperationStatus;
  eu_session_status : option OrganizationExecutionStatus;
  eu_post_fingerprint : option FileFingerprint;
  eu_error_code : option str;
  eu_error_message : option str
}.

(** The methods of [Database] the coordinator calls; errors are their text.
    [ApplicationError::Persistence] wraps them. *)
Class ExecutionDatabase (W : Type) : Type := {
  execution_detail : ExecutionId -> SE W str ExecutionDetail;
  execution_root_by_id : WorkspaceId -> RootId -> SE W str RootRecord;
  active_root : WorkspaceId -> SE W str RootRecord;
  execution_ids_with_journal : SE W str (list ExecutionId);
  recovery_execution_ids : SE W str (list ExecutionId);
  mark_interrupted_executions_for_recovery : SE W str unit;
  mark_execution_recovery_required : ExecutionId -> str -> SE W str unit;
  validate_execution_journal : ExecutionId -> SE W str bool;
  execution_journal_events : ExecutionId -> SE W str (list OperationJournalEvent);
  execution_proposal_approval_is_current : ExecutionId -> SE W str bool;
  invalidate_execution_consent : ExecutionId -> str -> Z -> SE W str bool;
  issue_execution_consent_challenge : ExecutionId -> bytes32 -> Z -> Z -> SE W str unit;
  expire_execution_consent : ExecutionId -> Z -> SE W str bool;
  attest_execution_consent : ExecutionId -> bytes32 -> Z -> Z -> bytes32 -> Z ->
    SE W str ExecutionDetail;
  clear_execution_consent_challenge : ExecutionId -> bytes32 -> Z -> Z -> Z -> SE W str bool;
  consume_execution_consent : ExecutionId -> bytes32 -> Z -> Z -> bytes32 -> Z ->
    SE W str ExecutionDetail;
  execution_control : ExecutionId -> SE W str (bool * bool);
  request_execution_pause : ExecutionId -> SE W str bool;
  request_execution_cancel : ExecutionId -> SE W str bool;
  cancel_unstarted_execution : ExecutionId -> str -> SE W str bool;
  persist_executor_session : ExecutorSessionIdentity -> SE W str unit;
  persist_execution_event : OperationJournalEvent -> str -> EventUpdate -> str -> SE W str unit;
  persist_executor_request_intent : OperationJournalEvent -> str -> EventUpdate ->
    ExecutorRequestIdentity -> str -> SE W str unit;
  persist_execution_event_with_request_proof : OperationJournalEvent -> str -> EventUpdate -> str ->
    str -> ExecutorRequestState -> SE W str unit;
  db_record_executor_response : str -> str -> str -> option Z -> option str ->
    ExecutorRequestState -> str -> SE W str unit;
  transition_executor_request_proof : str -> ExecutorRequestState -> str -> SE W str unit;
  add_execution_error : ExecutionId -> option OperationStepId -> ExecutionFailureCategory ->
    str -> str -> option str -> str -> SE W str unit;
  executor_session_facts : ExecutionId -> SE W str (list ExecutorSessionFact);
  executor_request_facts : ExecutionId -> SE W str (list ExecutorRequestFact);
  db_persist_recovery_assessment : ExecutionId -> ExecutionRecoveryState -> Z -> Z -> Z -> str ->
    str -> SE W str unit
}.

(** [trait ApprovedExecutorClient] and [ApprovedExecutorSession]. *)
Class ExecutorClient (W : Type) : Type := {
  ExecutorSession : Type;
  open_executor_session : ImmutableExecutionEnvelope -> SessionAuthorization ->
    SE W ApprovedExecutorError ExecutorSession;
  session_identity : ExecutorSession -> W -> ExecutorSessionIdentity;
  prepare_operation : ExecutorSession -> OperationStepId -> OperationDirection ->
    SE W ApprovedExecutorError ExecutorRequestIdentity;
  dispatch_prepared : ExecutorSession -> ExecutorRequestIdentity -> CommittedJournalEventBinding ->
    SE W ApprovedExecutorError ExecutorDispatchResult
}.

(** Clock, randomness, the flag of a running recovery and the callback. *)
Class CoordinatorHost (W : Type) : Type := {
  execution_now_unix_ms : W -> Z * W;
  fill_nonce : SE W unit bytes32;
  recovery_in_progress : W -> bool;
  set_recovery_in_progress : bool -> W -> W;
  on_progress : ExecutionProgress -> W -> W;
  (* a new lock around the diagnostics *)
  diagnostics_start : list JournalDiagnostic -> W -> W
}.

Record JournalCursor := { jc_sequence : Z; jc_previous : option bytes32 }.

Definition no_update : EventUpdate := {|
  eu_operation_status := None; eu_session_status := None; eu_post_fingerprint := None;
  eu_error_code := None; eu_error_message := None |}.
Definition status_update (operation_status : option ExecutionOperationStatus)
    (session_status : option OrganizationExecutionStatus) : EventUpdate := {|
  eu_operation_status := operation_status; eu_session_status := session_status;
  eu_post_fingerprint := None; eu_error_code := None; eu_error_message := None |}.
Definition failure_update (operation_status : option ExecutionOperationStatus)
    (session_status : option OrganizationExecutionStatus) (code message : str) : EventUpdate := {|
  eu_operation_status := operation_status; eu_session_status := session_status;
  eu_post_fingerprint := None; eu_error_code := Some code; eu_error_message := Some message |}.

#[export] Instance JournalDiagnosticScope_eq_dec : EqDecision JournalDiagnosticScope.
Proof. solve_decision. Defined.

Definition same_diagnostic (a b : JournalDiagnostic) : bool :=
  bool_decide (jd_scope a = jd_scope b) && bool_decide (jd_execution_id a = jd_execution_id b)
  && bool_decide (jd_code a = jd_code b).

Definition external_diagnostic (scope : JournalDiagnosticScope) (execution_id : option ExecutionId)
    (code message : str) (detected_at : Z) : JournalDiagnostic := {|
  jd_scope := scope; jd_execution_id := execution_id; jd_code := code; jd_message := message;
  jd_detected_at_unix_ms := detected_at; jd_recovery_available := false;
  jd_rollback_available := false |}.

(** ** The journals *)

Section coordinator.
Context {W : Type} `{B3 : Blake3} `{BH : Blake3Hex} `{UU : UuidCrate} `{UC : UnicodeCase}.
Context `{JC : JsonCrate} `{AS : AuthSerde}.
Context `{TM : ToVec CanonicalPlanMaterial} `{TC : ToVec CanonicalSafetyPolicy}.
Context `{JF : ToJson FileFingerprint} `{JA : ToJson ExecutorAttemptAudit}.
Context `{JE : ToJson ExecutorErrorClass}.
Context `{FS : StdFs W} `{RO : ReadOnlyPlatform W}.
Context `{SH : ServiceHost W} `{CH : CoordinatorHost W} `{DB : ExecutionDatabase W}.
Context `{DJ : DurableJournal W}.
Variable policy : ExecutionSafetyPolicy.
Variable gate : ApplyGate.
Variable consent_authority : bytes32.

Notation db := (se_map_err ApPersistence).
Notation invalid := ApInvalidExecution.
Notation Run A := (SE W ApplicationError A).

Definition now_ms : Run Z := fun w => let '(now, w') := execution_now_unix_ms w in (Ok now, w').
Definition now_iso : Run str := fun w => let '(now, w') := execution_now_iso w in (Ok now, w').
Definition update_world (f : W -> W) : Run unit := fun w => (Ok tt, f w).

Definition record_journal_diagnostic (diagnostic : JournalDiagnostic) (w : W) : W :=
  match diagnostics_read w with
  | Some diagnostics =>
      if existsb (fun existing => same_diagnostic existing diagnostic) diagnostics then w
      else diagnostics_push diagnostic w
  | None => w
  end.

(** A diagnostic is recorded. *)
Definition diagnose (scope : JournalDiagnosticScope) (execution_id : ExecutionId)
    (code message : str) : Run unit :=
  detected_at ← now_ms;
  update_world (record_journal_diagnostic
    (external_diagnostic scope (Some execution_id) code message detected_at)).

(** The diagnostic is recorded, and the caller gets [JournalLocked]. *)
Definition lock_journal {A} (scope : JournalDiagnosticScope) (execution_id : ExecutionId)
    (code message : str) : Run A :=
  diagnose scope execution_id code message;;
  se_fail ApJournalLocked.

Definition journal_diagnostic_state : Run JournalDiagnosticState := fun w =>
  match diagnostics_read w with
  | Some diagnostics =>
      (Ok {| jds_locked := negb (bool_decide (diagnostics = []));
             jds_diagnostics := diagnostics |}, w)
  | None =>
      let '(detected_at, w') := execution_now_unix_ms w in
      (Ok {| jds_locked := true;
             jds_diagnostics := [external_diagnostic JdsDatabase None
               (lit "journal_diagnostic_state_unavailable")
               (lit "Journal diagnostic state is unavailable; mutation remains locked.")
               detected_at] |}, w')
  end.

Definition require_valid_database_journal (execution_id : ExecutionId) : Run unit :=
  valid ← se_try (validate_execution_journal execution_id);
  match valid with
  | Ok true => mret tt
  | Ok false => lock_journal JdsDatabase execution_id (lit "database_journal_chain_invalid")
      (lit "The authenticated database execution journal chain is invalid.")
  | Err _ => lock_journal JdsDatabase execution_id (lit "database_journal_unavailable")
      (lit "The authenticated database execution journal is unavailable.")
  end.

(** The events the external journal lacks, appended one by one. *)
Fixpoint append_missing (execution_id : ExecutionId) (events : list OperationJournalEvent) :
    Run unit :=
  match events with
  | [] => mret tt
  | event :: events =>
      appended ← se_try (journal_append event);
      if is_err appended then
        lock_journal JdsExternal execution_id (lit "external_journal_append_failed")
          (lit "The encrypted recovery journal could not durably append an event.")
      else append_missing execution_id events
  end.

Definition synchronize_external_journal (execution_id : ExecutionId)
    (allow_single_append : bool) : Run unit :=
  database_events ← db (execution_journal_events execution_id);
  found ← se_try (journal_events execution_id);
  match found with
  | Err _ => lock_journal JdsExternal execution_id (lit "external_journal_unavailable")
      (lit "The encrypted recovery journal became unavailable.")
  | Ok external =>
      if (length database_events <? length external)%nat
        || negb (forallb (fun pair => bool_decide (pair.1 = pair.2)) (zip external database_events))
      then
        lock_journal JdsExternal execution_id (lit "external_journal_consistency_failed")
          (lit "The encrypted recovery journal does not match the database journal.")
      else
        let missing_events := (length database_events - length external)%nat in
        if (0 <? missing_events)%nat
          && (negb allow_single_append || negb (missing_events =? 1)%nat)
        then
          lock_journal JdsExternal execution_id (lit "external_journal_incomplete")
            (lit "The encrypted recovery journal is an authenticated but incomplete prefix; no automatic repair was attempted.")
        else
          append_missing execution_id (drop (length external) database_events);;
          flushed ← se_try journal_flush;
          if is_err flushed then
            lock_journal JdsExternal execution_id (lit "external_journal_flush_failed")
              (lit "The encrypted recovery journal could not be flushed durably.")
          else mret tt
  end.

Definition journal_cursor (execution_id : ExecutionId) : Run JournalCursor :=
  events ← db (execution_journal_events execution_id);
  sequence ← se_lift (ok_or (u64_try_from (zlen events)) invalid);
  mret {| jc_sequence := sequence; jc_previous := ev_event_digest <$> last events |}.

Definition committed_binding (event : OperationJournalEvent) : CommittedJournalEventBinding := {|
  cjeb_database_sequence := ev_sequence event;
  cjeb_database_event_digest := ev_event_digest event;
  cjeb_external_sequence := ev_sequence event;
  cjeb_external_event_digest := ev_event_digest event
|}.

(** What follows an event stored in the database: the external journal catches
    up, and the cursor moves on. *)
Definition commit_event (execution_id : ExecutionId) (event : OperationJournalEvent)
    (warning : str) (cursor : JournalCursor) :
    Run (CommittedJournalEventBinding * JournalCursor) :=
  synchronized ← se_try (synchronize_external_journal execution_id true);
  match synchronized with
  | Err error =>
      se_try (E := str) (mark_execution_recovery_required execution_id warning);;
      se_fail error
  | Ok _ =>
      mret (committed_binding event,
            {| jc_sequence := u64_saturating_add (jc_sequence cursor) 1;
               jc_previous := Some (ev_event_digest event) |})
  end.

Definition SYNC_WARNING : str :=
  lit "The durable external journal could not be synchronized; recovery review is required.".
Definition INTENT_WARNING : str :=
  lit "The durable request intent could not be committed to both journals; recovery review is required.".

(** The next event of the journal, with its payload as text. *)
Definition next_event (execution_id : ExecutionId) (operation_id : option OperationStepId)
    (kind : JournalEventKind) (payload : Value) (cursor : JournalCursor) :
    Run (OperationJournalEvent * str) :=
  canonical ← se_lift (ok_or (value_to_string payload) invalid);
  occurred_at ← now_ms;
  mret (new_event execution_id (jc_sequence cursor) operation_id kind (utf8 canonical)
          (jc_previous cursor) occurred_at, canonical).

Definition persist_event (execution_id : ExecutionId) (operation_id : option OperationStepId)
    (kind : JournalEventKind) (payload : Value) (update : EventUpdate) (cursor : JournalCursor) :
    Run (CommittedJournalEventBinding * JournalCursor) :=
  require_valid_database_journal execution_id;;
  prepared ← next_event execution_id operation_id kind payload cursor;
  let '(event, canonical) := prepared in
  now ← now_iso;
  db (persist_execution_event event canonical update now);;
  commit_event execution_id event SYNC_WARNING cursor.

Definition persist_event_with_request_proof (execution_id : ExecutionId)
    (operation_id : option OperationStepId) (kind : JournalEventKind) (payload : Value)
    (update : EventUpdate) (request_id : str) (proof_state : ExecutorRequestState)
    (cursor : JournalCursor) : Run (CommittedJournalEventBinding * JournalCursor) :=
  require_valid_database_journal execution_id;;
  prepared ← next_event execution_id operation_id kind payload cursor;
  let '(event, canonical) := prepared in
  now ← now_iso;
  db (persist_execution_event_with_request_proof event canonical update now request_id proof_state);;
  commit_event execution_id event SYNC_WARNING cursor.

(** The two members an intent's payload gets. *)
Definition session_material (session : ExecutorSessionIdentity) : Value := json_object
  ["session_id" ↦ esi_session_id session;
   "execution_id" ↦ esi_execution_id session;
   "plan_id" ↦ esi_plan_id session;
   "plan_digest" ↦ esi_plan_digest_hex session;
   "purpose" ↦ esi_purpose session;
   "coordinator_pid" ↦ esi_coordinator_pid session;
   "child_pid" ↦ esi_child_pid session;
   "worker_nonce_hash" ↦ esi_worker_nonce_hash_hex session;
   "coordinator_nonce_hash" ↦ esi_coordinator_nonce_hash_hex session;
   "response_nonce_hash" ↦ esi_response_nonce_hash_hex session].

Definition request_identity_material (request : ExecutorRequestIdentity) : Value := json_object
  ["request_id" ↦ eri_request_id request;
   "session_id" ↦ eri_session_id request;
   "operation_id" ↦ eri_operation_id request;
   "direction" ↦ eri_direction request;
   "request_sequence" ↦ eri_request_sequence request;
   "request_nonce" ↦ encode_hex_bytes (barr (eri_request_nonce request));
   "request_digest" ↦ eri_request_digest_hex request].

Definition persist_request_intent (kind : JournalEventKind) (payload : Value)
    (request : ExecutorRequestIdentity) (session : ExecutorSessionIdentity)
    (cursor : JournalCursor) : Run (CommittedJournalEventBinding * JournalCursor) :=
  let execution_id := eri_execution_id request in
  require_valid_database_journal execution_id;;
  se_lift (reject_if (negb (bool_decide (eri_session_id request = esi_session_id session))
    || negb match kind, eri_direction request with
       | IntentDurableEvent, ErdForward | RollbackIntent, ErdRollback => true
       | _, _ => false
       end) invalid);;
  payload ← se_lift (ok_or (insert_object "executor_session" (session_material session) payload) invalid);
  payload ← se_lift (ok_or (insert_object "executor_request" (request_identity_material request) payload)
    invalid);
  prepared ← next_event execution_id (Some (eri_operation_id request)) kind payload cursor;
  let '(event, canonical) := prepared in
  now ← now_iso;
  update ← se_lift match kind with
    | IntentDurableEvent => Ok (status_update (Some EosRunning) (Some OesRunning))
    | RollbackIntent => Ok (status_update (Some EosRollingBack) (Some OesRollingBack))
    | _ => Err invalid
    end;
  db (persist_executor_request_intent event canonical update request now);;
  commit_event execution_id event INTENT_WARNING cursor.

(** ** Terminal and failed states *)

Definition finish_execution (execution_id : ExecutionId) (status : OrganizationExecutionStatus)
    (message : str) (cursor : JournalCursor) : Run JournalCursor :=
  persisted ← persist_event execution_id None ExecutionFinished
    (json_object ["event" ↦ lit "execution_finished"; "status" ↦ status; "message" ↦ message])
    (status_update None (Some status)) cursor;
  mret (snd persisted).

(** The common part of [fail_operation] and [fail_operation_with_executor_audit]. *)
Definition fail_with (operation : ExecutionOperation) (category : ExecutionFailureCategory)
    (code message : str) (audit : list (str * Value)) (reason : str) (cursor : JournalCursor) :
    Run JournalCursor :=
  persisted ← persist_event (eo_execution_id operation) (Some (eo_id operation)) StepFailed
    (json_object (["event" ↦ lit "step_failed"; "operation_id" ↦ eo_id operation;
                   "category" ↦ category; "code" ↦ code; "message" ↦ message] ++ audit))
    (failure_update (Some EosFailed) (Some OesFailed) code message) cursor;
  cursor ← finish_execution (eo_execution_id operation) OesFailed reason (snd persisted);
  now ← now_iso;
  db (add_execution_error (eo_execution_id operation) (Some (eo_id operation)) category code message
        None now);;
  mret cursor.

Definition fail_operation (operation : ExecutionOperation) (category : ExecutionFailureCategory)
    (code message : str) : JournalCursor -> Run JournalCursor :=
  fail_with operation category code message []
    (lit "Execution stopped before mutation because a critical precondition failed.").

Definition fail_operation_with_executor_audit (operation : ExecutionOperation)
    (category : ExecutionFailureCategory) (code message : str) (audit : ExecutorAttemptAudit) :
    JournalCursor -> Run JournalCursor :=
  fail_with operation category code message ["executor_audit" ↦ audit]
    (lit "Execution stopped after the executor proved no mutation occurred.").

(** The common part of [mark_executor_recovery_required] and
    [mark_rollback_recovery_required]. *)
Definition mark_recovery_required (direction : ExecutorRequestDirection)
    (status : ExecutionOperationStatus) (message : str) (operation : ExecutionOperation)
    (code detail : str) (audit : option ExecutorAttemptAudit) (cursor : JournalCursor) :
    Run JournalCursor :=
  persisted ← persist_event (eo_execution_id operation) (Some (eo_id operation)) StepFailed
    (json_object ["event" ↦ lit "executor_outcome_ambiguous"; "direction" ↦ direction;
                  "operation_id" ↦ eo_id operation; "code" ↦ code; "detail" ↦ detail;
                  "executor_audit" ↦ audit])
    (failure_update (Some status) (Some OesRecoveryRequired) code detail) cursor;
  now ← now_iso;
  db (add_execution_error (eo_execution_id operation) (Some (eo_id operation)) EfcCritical code
        message (Some detail) now);;
  mret (snd persisted).

Definition mark_executor_recovery_required : ExecutionOperation -> str -> str ->
    option ExecutorAttemptAudit -> JournalCursor -> Run JournalCursor :=
  mark_recovery_required ErdForward EosRunning
    (lit "The isolated executor outcome could not be proven.").
Definition mark_rollback_recovery_required : ExecutionOperation -> str -> str ->
    option ExecutorAttemptAudit -> JournalCursor -> Run JournalCursor :=
  mark_recovery_required ErdRollback EosRollingBack
    (lit "The isolated rollback outcome could not be proven.").

Definition outcome_record (outcome : ExecutorOutcome) :
    str * ExecutorRequestState * option ExecutorAttemptAudit :=
  match outcome with
  | OutSuccess _ _ audit => (lit "success", AcknowledgedSuccess, Some audit)
  | OutProvenNotApplied _ _ audit => (lit "proven_not_applied", ProvenNotApplied, Some audit)
  | OutRecoveryRequired _ _ audit => (lit "recovery_required", RecoveryRequired, Some audit)
  | OutProtocolRefusal _ => (lit "protocol_refusal", RecoveryRequired, None)
  end.

Definition record_executor_response (request : ExecutorRequestIdentity)
    (dispatch : ExecutorDispatchResult) : Run unit :=
  let '(outcome_class, state, audit) := outcome_record (edr_outcome dispatch) in
  let error_class := audit ← audit; error ← eaa_error_class audit;
    Some (default (lit "executor_error") (as_str (to_json error))) in
  now ← now_iso;
  db (db_record_executor_response (eri_request_id request) (edr_response_digest_hex dispatch)
        outcome_class (eaa_attempt_count <$> audit) error_class state now).

Definition transition_proof (request : ExecutorRequestIdentity) (state : ExecutorRequestState) :
    Run unit :=
  now ← now_iso;
  db (transition_executor_request_proof (eri_request_id request) state now).

Definition progress_from_detail (detail : ExecutionDetail) (total : Z) (current : option str) :
    ExecutionProgress :=
  let session := ed_session detail in
  let summary := ses_summary session in {|
  epr_execution_id := ses_id session;
  epr_status := ses_status session;
  epr_completed := u64_saturating_add (u64_saturating_add (es_applied summary) (es_failed summary))
    (es_skipped summary);
  epr_total := total;
  epr_applied := es_applied summary;
  epr_blocked := es_blocked summary;
  epr_skipped := es_skipped summary;
  epr_failed := es_failed summary;
  epr_current := current
|}.
End coordinator.
