(* ===== verification/Consent.v ===== *)
(** * The consent of the user

    crates/application/src/execution.rs: the root an execution works below, the
    challenge the user confirms, its attestation, and everything that takes a
    consent away again; pausing, cancelling and the state the interface shows. *)

From S2P Require Export Coordinator.
#[local] Open Scope Z_scope.

Definition EXECUTION_CONSENT_LIFETIME_MS : Z := 10 * 60 * 1000.

Record NativeExecutionConfirmation := {
  nec_file_count : Z;
  nec_folder_count : Z;
  nec_destination_root_display : str;
  nec_plan_verification_code : str
}.

Record ExecutionConsentChallenge := {
  ecc_material : ConsentAttestationBinding;
  ecc_authenticator : bytes32;
  ecc_summary : NativeExecutionConfirmation
}.

Record ExecutionSystemStatus := {
  ess_apply_gate : ApplyGate;
  ess_recovery_required : bool;
  ess_journal_locked : bool;
  ess_journal_diagnostics : list JournalDiagnostic
}.

#[export] Instance ConsentAttestationBinding_eq_dec : EqDecision ConsentAttestationBinding.
Proof. solve_decision. Defined.

(** [issued_at_unix_ms.checked_add(EXECUTION_CONSENT_LIFETIME_MS)]. *)
Definition consent_expiry (issued_at_unix_ms : Z) : option Z :=
  i64_try_from (issued_at_unix_ms + EXECUTION_CONSENT_LIFETIME_MS).

(** The slices of the verification code panic inside a character. *)
Definition native_confirmation_summary (detail : ExecutionDetail) :
    res unit NativeExecutionConfirmation :=
  let session := ed_session detail in
  code ← plan_verification_code (ses_plan_digest_hex session);
  Ok {| nec_file_count := aep_operation_count (ses_approval session);
        nec_folder_count := es_folders_to_create (ses_summary session);
        nec_destination_root_display :=
          erb_display_path (aep_destination_root (ses_approval session));
        nec_plan_verification_code := code |}.

(** Where an operation's source was when the user approved it. *)
Definition approved_source (operation : ExecutionOperation) : res ApplicationError str :=
  ok_or (from_option Some (eo_source_relative_path operation)
    (eo_original_source_relative_path operation)) ApInvalidExecution.

Definition root_binding_of (canonical_root : PathBuf) (volume : VolumeIdentity) :
    ExecutionRootBinding := {|
  erb_canonical_path :=
    {| np_encoding := fst (native_path_bytes canonical_root);
       np_bytes := snd (native_path_bytes canonical_root) |};
  erb_display_path := to_string_lossy canonical_root;
  erb_volume := volume
|}.

Section consent.
Context {W : Type} `{B3 : Blake3} `{BH : Blake3Hex} `{UU : UuidCrate} `{UC : UnicodeCase}.
Context `{JC : JsonCrate} `{AS : AuthSerde}.
Context `{TM : ToVec CanonicalPlanMaterial} `{TC : ToVec CanonicalSafetyPolicy}.
Context `{FS : StdFs W} `{RO : ReadOnlyPlatform W} `{TG : Target}.
Context `{SH : ServiceHost W} `{CH : CoordinatorHost W} `{DB : ExecutionDatabase W}.
Context `{DJ : DurableJournal W}.
Variable policy : ExecutionSafetyPolicy.
Variable gate : ApplyGate.
Variable consent_authority : bytes32.

Notation db := (se_map_err ApPersistence).
Notation safely := (se_map_err ApExecutionSafety).
Notation invalid := ApInvalidExecution.
Notation Run A := (SE W ApplicationError A).

(** ** Authentication *)

Definition consent_authenticator (material : ConsentAttestationBinding) :
    res ApplicationError bytes32 :=
  map_err (fun _ => invalid) (sign_consent_attestation material consent_authority).

Definition consent_attestation_material (detail : ExecutionDetail) (nonce : bytes32)
    (issued_at_unix_ms expires_at_unix_ms : Z) : res ApplicationError ConsentAttestationBinding :=
  map_err (fun _ => invalid)
    (consent_binding_from_detail detail nonce issued_at_unix_ms expires_at_unix_ms).

Definition invalidate_unstarted_consent (execution_id : ExecutionId) (reason : str) : Run unit :=
  now ← now_ms;
  invalidated ← db (invalidate_execution_consent execution_id reason now);
  se_lift (reject_if (negb invalidated) invalid).

(** The consent is taken away, and the caller gets [error]. *)
Definition refuse_consent {A} (detail : ExecutionDetail) (reason : str) (error : ApplicationError) :
    Run A :=
  invalidate_unstarted_consent (ses_id (ed_session detail)) reason;;
  se_fail error.

(** [match attempt { Ok(value) => value, Err(error) => refuse }]. *)
Definition or_refuse {A} (detail : ExecutionDetail) (reason : str) (attempt : Run A) : Run A :=
  found ← se_try attempt;
  match found with
  | Ok value => mret value
  | Err error => refuse_consent detail reason error
  end.

Definition verify_stored_consent_attestation (detail : ExecutionDetail) : Run unit :=
  let consent := ses_consent (ed_session detail) in
  nonce ← se_lift (ok_or (ec_nonce consent) invalid);
  issued_at ← se_lift (ok_or (ec_issued_at_unix_ms consent) invalid);
  expires_at ← se_lift (ok_or (ec_expires_at_unix_ms consent) invalid);
  material ← se_lift (consent_attestation_material detail nonce issued_at expires_at);
  expected ← se_lift (consent_authenticator material);
  stored ← se_lift (ok_or (ec_attestation_mac consent) invalid);
  if negb (constant_time_equal expected stored) then
    refuse_consent detail (lit "attestation_authentication_failed") invalid
  else mret tt.

(** ** The context of a consent *)

Definition execution_root (detail : ExecutionDetail) : Run PathBuf :=
  root ← db (active_root (ses_workspace_id (ed_session detail)));
  se_lift (reject_if (negb (bool_decide (rtr_id root = ses_root_id (ed_session detail))))
    ApExecutionApprovalRequired);;
  safely (validate_root policy (rtr_absolute_path_native root)).

Definition revalidate_approved_source (root : PathBuf) (observed : gset uuid)
    (operation : ExecutionOperation) : Run (gset uuid) :=
  proposal_operation_id ← se_lift (ok_or (eo_proposal_operation_id operation) invalid);
  se_lift (reject_if (bool_decide (proposal_operation_id ∈ observed)) invalid);;
  source_relative ← se_lift (approved_source operation);
  relative ← se_lift (relative_path source_relative);
  source ← safely (resolve_existing_source policy root relative);
  expected_state policy (eo_live_fingerprint operation)
    (precondition_error (lit "approved source changed after execution plan preparation")) source;;
  mret ({[proposal_operation_id]} ∪ observed).

(** Whether the operation carries out an approved item of the proposal. *)
Definition is_approved (approved : list ProposalItemId) (operation : ExecutionOperation) : bool :=
  from_option (fun id => bool_decide (id ∈ approved)) false (eo_proposal_operation_id operation).

Definition revalidate_approved_sources (detail : ExecutionDetail) (root : PathBuf) : Run unit :=
  let approved := aep_approved_operation_ids (ses_approval (ed_session detail)) in
  observed ← fold_se (revalidate_approved_source root) (∅ : gset uuid)
    (filter (fun operation => is_approved approved operation = true) (ed_operations detail));
  se_lift (reject_if (negb (bool_decide (observed = list_to_set approved))) invalid).

Definition revalidate_consent_context_or_invalidate (detail : ExecutionDetail) : Run PathBuf :=
  let session := ed_session detail in
  (if is_err (verify_plan_digest detail) then
    refuse_consent detail (lit "plan_digest_changed") invalid
  else mret tt);;
  current ← db (execution_proposal_approval_is_current (ses_id session));
  (if negb current then
    refuse_consent detail (lit "proposal_revision_changed") ApExecutionApprovalRequired
  else mret tt);;
  policy_binding ← se_lift (map_err (fun _ => invalid) (binding policy));
  (if negb (bool_decide (policy_binding = aep_safety_policy (ses_approval session))) then
    refuse_consent detail (lit "safety_policy_changed") ApExecutionApprovalRequired
  else mret tt);;
  root_record ← or_refuse detail (lit "destination_root_unavailable")
    (db (execution_root_by_id (ses_workspace_id session) (ses_root_id session)));
  (if negb (bool_decide (rtr_id root_record = ses_root_id session)) then
    refuse_consent detail (lit "destination_root_changed") ApExecutionApprovalRequired
  else mret tt);;
  canonical_root ← or_refuse detail (lit "destination_root_invalid")
    (safely (validate_root policy (utf8 (rtr_absolute_path root_record))));
  volume ← or_refuse detail (lit "destination_volume_unavailable")
    (se_map_err ApPlatform (inspect_volume canonical_root));
  (if negb (bool_decide (root_binding_of canonical_root volume
      = aep_destination_root (ses_approval session))) then
    refuse_consent detail (lit "destination_root_identity_changed") ApExecutionApprovalRequired
  else mret tt);;
  or_refuse detail (lit "source_fingerprint_changed")
    (revalidate_approved_sources detail canonical_root);;
  mret canonical_root.

(** ** The challenge *)

(** [Panicked] is the panic of a slice of a verification code. *)
Definition create_execution_consent_challenge_at (execution_id : ExecutionId)
    (confirmation_phrase : option str) (issued_at_unix_ms : Z) :
    SE W (Abrupt ApplicationError) ExecutionConsentChallenge :=
  checked ← se_map_err Failed (
    require_apply_gate gate;;
    detail ← db (execution_detail execution_id);
    require_valid_database_journal execution_id;;
    synchronize_external_journal execution_id false;;
    let session := ed_session detail in
    se_lift (reject_if (negb (bool_decide (ses_status session = OesAwaitingConfirmation))
      || negb (bool_decide (ec_state (ses_consent session) ∈ [EcsPending; EcsExpired]))) invalid);;
    safely (se_lift (validate_confirmation policy (aep_operation_count (ses_approval session)) true
      confirmation_phrase));;
    revalidate_consent_context_or_invalidate detail;;
    nonce ← se_map_err (fun _ => invalid) fill_nonce;
    expires_at_unix_ms ← se_lift (ok_or (consent_expiry issued_at_unix_ms) invalid);
    material ← se_lift (consent_attestation_material detail nonce issued_at_unix_ms
      expires_at_unix_ms);
    authenticator ← se_lift (consent_authenticator material);
    mret (detail, nonce, material, authenticator));
  let '(detail, nonce, material, authenticator) := checked in
  summary ← se_lift (map_err (fun _ => Panicked) (native_confirmation_summary detail));
  se_map_err (fun text => Failed (ApPersistence text))
    (issue_execution_consent_challenge execution_id nonce issued_at_unix_ms
      (cab_expires_at_unix_ms material));;
  mret {| ecc_material := material; ecc_authenticator := authenticator; ecc_summary := summary |}.

Definition create_execution_consent_challenge (execution_id : ExecutionId)
    (confirmation_phrase : option str) : SE W (Abrupt ApplicationError) ExecutionConsentChallenge :=
  now ← se_map_err Failed now_ms;
  create_execution_consent_challenge_at execution_id confirmation_phrase now.

(** [challenge.material.execution_id.parse()]. *)
Definition challenged_execution (challenge : ExecutionConsentChallenge) :
    res ApplicationError ExecutionId :=
  ok_or (uuid_parse (cab_execution_id (ecc_material challenge))) invalid.

Definition approved_payload (detail : ExecutionDetail) (challenge : ExecutionConsentChallenge) :
    Value :=
  let session := ed_session detail in
  json_object
    ["event" ↦ lit "approved_durable";
     "plan_id" ↦ ses_plan_id session;
     "plan_digest" ↦ ses_plan_digest_hex session;
     "proposal_id" ↦ ses_proposal_id session;
     "proposal_revision" ↦ ses_proposal_revision session;
     "approved_operation_ids" ↦ aep_approved_operation_ids (ses_approval session);
     "native_confirmation_attested" ↦ true;
     "consent_issued_at_unix_ms" ↦ cab_issued_at_unix_ms (ecc_material challenge);
     "consent_expires_at_unix_ms" ↦ cab_expires_at_unix_ms (ecc_material challenge);
     "plan_verification_code" ↦ nec_plan_verification_code (ecc_summary challenge);
     "large_batch_phrase_verified" ↦ ses_confirmation_phrase_required session].

(** The first event of the execution, or the check that it is there. *)
Definition journal_approval (execution_id : ExecutionId) (detail : ExecutionDetail)
    (challenge : ExecutionConsentChallenge) : Run unit :=
  events ← db (execution_journal_events execution_id);
  match events with
  | [] =>
      persist_event execution_id None ApprovedDurable (approved_payload detail challenge)
        (status_update None (Some OesApproved)) {| jc_sequence := 0; jc_previous := None |};;
      mret tt
  | first :: _ =>
      if negb (bool_decide (ev_kind first = ApprovedDurable)) then se_fail invalid
      else synchronize_external_journal execution_id false
  end.

Definition finalize_execution_consent_at (challenge : ExecutionConsentChallenge)
    (attested_at_unix_ms : Z) : Run ExecutionDetail :=
  let material := ecc_material challenge in
  require_apply_gate gate;;
  execution_id ← se_lift (challenged_execution challenge);
  require_valid_database_journal execution_id;;
  synchronize_external_journal execution_id false;;
  provided_authenticator ← se_lift (consent_authenticator material);
  se_lift (reject_if (negb (constant_time_equal provided_authenticator (ecc_authenticator challenge)))
    invalid);;
  (if cab_expires_at_unix_ms material <=? attested_at_unix_ms then
    db (expire_execution_consent execution_id attested_at_unix_ms);;
    se_fail ApExecutionConsentExpired
  else mret tt);;
  detail ← db (execution_detail execution_id);
  se_lift (reject_if
    (negb (bool_decide (ses_status (ed_session detail) = OesAwaitingConfirmation))
     || negb (bool_decide (ec_state (ses_consent (ed_session detail)) = EcsPending))) invalid);;
  revalidate_consent_context_or_invalidate detail;;
  expected_material ← se_lift (consent_attestation_material detail (cab_consent_nonce material)
    (cab_issued_at_unix_ms material) (cab_expires_at_unix_ms material));
  expected_authenticator ← se_lift (consent_authenticator expected_material);
  se_lift (reject_if (negb (bool_decide (expected_material = material))
    || negb (constant_time_equal expected_authenticator provided_authenticator)) invalid);;
  detail ← db (attest_execution_consent execution_id (cab_consent_nonce material)
    (cab_issued_at_unix_ms material) (cab_expires_at_unix_ms material)
    (ecc_authenticator challenge) attested_at_unix_ms);
  journal_approval execution_id detail challenge;;
  db (execution_detail execution_id).

Definition finalize_execution_consent (challenge : ExecutionConsentChallenge) : Run ExecutionDetail :=
  now ← now_ms;
  finalize_execution_consent_at challenge now.

Definition discard_execution_consent_challenge (challenge : ExecutionConsentChallenge) : Run bool :=
  let material := ecc_material challenge in
  require_mutations_unlocked;;
  expected ← se_lift (consent_authenticator material);
  se_lift (reject_if (negb (constant_time_equal expected (ecc_authenticator challenge))) invalid);;
  execution_id ← se_lift (challenged_execution challenge);
  now ← now_ms;
  db (clear_execution_consent_challenge execution_id (cab_consent_nonce material)
    (cab_issued_at_unix_ms material) (cab_expires_at_unix_ms material) now).

(** ** Control *)

Definition system_status : Run ExecutionSystemStatus :=
  diagnostics ← journal_diagnostic_state;
  let apply_gate := if jds_locked diagnostics
    then {| gate_enabled := false;
            gate_reason := lit "Authenticated execution journal diagnostics are unresolved." |}
    else gate in
  recovery_required ← (if jds_locked diagnostics then mret true
    else ids ← db recovery_execution_ids; mret (negb (bool_decide (length ids = 0%nat))));
  mret {| ess_apply_gate := apply_gate;
          ess_recovery_required := recovery_required;
          ess_journal_locked := jds_locked diagnostics;
          ess_journal_diagnostics := jds_diagnostics diagnostics |}.

Definition pause_execution (execution_id : ExecutionId) : Run bool :=
  require_mutations_unlocked;;
  db (request_execution_pause execution_id).

Definition CANCELLED_BETWEEN : str := lit "Execution cancelled between safe operation units.".

Definition withdraw_consent (execution_id : ExecutionId) : Run unit :=
  now ← now_ms;
  db (invalidate_execution_consent execution_id (lit "execution_cancelled") now);;
  mret tt.

Definition cancel_execution (execution_id : ExecutionId) : Run bool :=
  require_mutations_unlocked;;
  detail ← db (execution_detail execution_id);
  match ses_status (ed_session detail) with
  | OesRunning => db (request_execution_cancel execution_id)
  | OesAwaitingConfirmation =>
      withdraw_consent execution_id;;
      now ← now_iso;
      db (cancel_unstarted_execution execution_id now)
  | OesApproved =>
      synchronize_external_journal execution_id false;;
      withdraw_consent execution_id;;
      cursor ← journal_cursor execution_id;
      finish_execution execution_id OesCancelled CANCELLED_BETWEEN cursor;;
      mret true
  | OesPaused =>
      synchronize_external_journal execution_id false;;
      cursor ← journal_cursor execution_id;
      finish_execution execution_id OesCancelled CANCELLED_BETWEEN cursor;;
      mret true
  | _ => mret false
  end.

(** The progress of the hash is only shown; it is not in the model. *)
Definition verify_approved_source_streaming (execution_id : ExecutionId)
    (operation_id : OperationStepId) : Run FileFingerprint :=
  detail ← db (execution_detail execution_id);
  se_lift (verify_plan_digest detail);;
  policy_binding ← se_lift (map_err (fun _ => invalid) (binding policy));
  se_lift (reject_if (negb (bool_decide
    (policy_binding = aep_safety_policy (ses_approval (ed_session detail))))) ApExecutionApprovalRequired);;
  operation ← se_lift (ok_or (find (fun operation => bool_decide (eo_id operation = operation_id))
    (ed_operations detail)) invalid);
  proposal_id ← se_lift (ok_or (eo_proposal_operation_id operation) invalid);
  se_lift (reject_if (negb (bool_decide
    (proposal_id ∈ aep_approved_operation_ids (ses_approval (ed_session detail))))) invalid);;
  source_relative ← se_lift (approved_source operation);
  root ← execution_root detail;
  relative ← se_lift (relative_path source_relative);
  source ← safely (resolve_existing_source policy root relative);
  expected_state policy (eo_live_fingerprint operation)
    (precondition_error (lit "approved source changed during streaming verification")) source.

(** ** Start of the service *)

Definition check_journal_at_start (execution_id : ExecutionId) : Run unit :=
  valid ← se_try (E := str) (validate_execution_journal execution_id);
  match valid with
  | Ok true => mret tt
  | Ok false => diagnose JdsDatabase execution_id (lit "database_journal_chain_invalid")
      (lit "The authenticated database execution journal chain is invalid.")
  | Err _ => diagnose JdsDatabase execution_id (lit "database_journal_unavailable")
      (lit "The authenticated database execution journal is unavailable.")
  end;;
  locked ← (fun w => (Ok (journal_is_locked w), w));
  if (locked : bool) then mret tt
  else
    synchronized ← se_try (synchronize_external_journal execution_id false);
    if is_err synchronized then
      diagnose JdsExternal execution_id (lit "external_journal_consistency_failed")
        (lit "The encrypted recovery journal does not match the database journal.")
    else mret tt.

(** [construct]: the diagnostics of the journal are those of the service. *)
Definition construct : Run unit :=
  update_world (fun w => diagnostics_start (journal_diagnostics w) w);;
  ids ← db execution_ids_with_journal;
  fold_se (fun _ execution_id => check_journal_at_start execution_id) tt ids.
End consent.
