(* ===== verification/Forward.v ===== *)
(** * Carrying out an execution

    crates/application/src/execution.rs, [start_execution_at] and
    [apply_scheduled_operation]: the consent is consumed, then one operation
    after the other is checked, recorded, dispatched, checked again and
    recorded again. *)

From S2P Require Export Consent.
#[local] Open Scope Z_scope.

Inductive ApplyScheduledOutcome :=
  | AsoApplied
  | AsoTerminal (detail : ExecutionDetail).

(** The file operations that are already done. *)
Definition is_applied (operation : ExecutionOperation) : bool :=
  bool_decide (eo_status operation ∈ [EosApplied; EosRecovered]).

Definition schedulable_operations (detail : ExecutionDetail) : list ExecutionOperation :=
  filter (fun operation => eo_status operation = EosPreflightOk) (ed_operations detail).

Definition applied_operation_ids (detail : ExecutionDetail) : gset uuid :=
  list_to_set (eo_id <$> filter (fun operation => is_applied operation = true) (ed_operations detail)).

Definition stage_ids (schedulable : list ExecutionOperation) : gset uuid :=
  list_to_set (eo_id <$> filter (fun operation => eo_kind operation = EokInternalStage) schedulable).

Definition cycle_group_ids (schedulable : list ExecutionOperation) : gset uuid :=
  list_to_set (eo_id <$> filter (fun operation =>
    bool_decide (eo_kind operation = EokInternalStage)
    || existsb (fun dependency => bool_decide (dependency ∈ stage_ids schedulable))
         (eo_dependencies operation) = true) schedulable).

(** What the scheduling loop carries along. *)
Record ScheduleState := {
  scs_applied : gset uuid;
  scs_cycle_group_started : bool;
  scs_cursor : JournalCursor
}.

Section forward.
Context {W : Type} `{B3 : Blake3} `{BH : Blake3Hex} `{UU : UuidCrate} `{UC : UnicodeCase}.
Context `{JC : JsonCrate} `{AS : AuthSerde}.
Context `{TM : ToVec CanonicalPlanMaterial} `{TC : ToVec CanonicalSafetyPolicy}.
Context `{JF : ToJson FileFingerprint} `{JA : ToJson ExecutorAttemptAudit}.
Context `{JE : ToJson ExecutorErrorClass}.
Context `{FS : StdFs W} `{RO : ReadOnlyPlatform W} `{TG : Target}.
Context `{SH : ServiceHost W} `{CH : CoordinatorHost W} `{DB : ExecutionDatabase W}.
Context `{DJ : DurableJournal W} `{EX : ExecutorClient W}.
Variable policy : ExecutionSafetyPolicy.
Variable gate : ApplyGate.
Variable consent_authority : bytes32.

Notation db := (se_map_err ApPersistence).
Notation invalid := ApInvalidExecution.
Notation Run A := (SE W ApplicationError A).

Definition report_progress (progress : ExecutionProgress) : Run unit :=
  update_world (on_progress progress).

Definition session_of (session : ExecutorSession) : Run ExecutorSessionIdentity := fun w =>
  (Ok (session_identity session w), w).

(** [open_session], and the session is stored. *)
Definition open_stored_session (envelope : ImmutableExecutionEnvelope)
    (authorization : SessionAuthorization) : Run ExecutorSession :=
  session ← se_map_err ApApprovedExecutor (open_executor_session envelope authorization);
  identity ← session_of session;
  db (persist_executor_session identity);;
  mret session.

Definition terminal_detail (execution_id : ExecutionId) (cursor : JournalCursor) :
    Run (ApplyScheduledOutcome * JournalCursor) :=
  detail ← db (execution_detail execution_id);
  mret (AsoTerminal detail, cursor).

(** [mark_executor_recovery_required], and the error. *)
Definition require_recovery {A} (operation : ExecutionOperation) (code detail : str)
    (audit : option ExecutorAttemptAudit) (cursor : JournalCursor) : Run A :=
  mark_executor_recovery_required operation code detail audit cursor;;
  se_fail ApExecutionRecoveryRequired.

(** ** One operation *)

Definition preconditions_payload (operation : ExecutionOperation) : Value := json_object
  ["event" ↦ lit "preconditions_validated";
   "operation_id" ↦ eo_id operation;
   "source" ↦ eo_source_relative_path operation;
   "destination" ↦ eo_destination_relative_path operation;
   "preconditions" ↦ eo_preconditions operation;
   "expected_source_hash" ↦ eo_expected_source_hash operation;
   "expected_source_size" ↦ eo_expected_source_size operation;
   "expected_source_modified_at" ↦ eo_expected_source_modified_at operation;
   "live_fingerprint" ↦ eo_live_fingerprint operation].

Definition intent_payload (operation : ExecutionOperation) (current : option FileFingerprint) :
    Value := json_object
  ["event" ↦ lit "intent_durable";
   "operation_id" ↦ eo_id operation;
   "kind" ↦ eo_kind operation;
   "source" ↦ eo_source_relative_path operation;
   "destination" ↦ eo_destination_relative_path operation;
   "rollback_destination" ↦ eo_source_relative_path operation;
   "original_source" ↦ eo_original_source_relative_path operation;
   "expected_source_state" ↦ current;
   "directory_existed_before" ↦ eo_directory_existed_before operation].

(** The executor says that nothing was changed: with an audit it is
    [ProvenNotApplied], without one a [ProtocolRefusal]. *)
Definition settle_not_applied (execution_id : ExecutionId) (root : PathBuf)
    (operation : ExecutionOperation) (request : ExecutorRequestIdentity) (code detail : str)
    (audit : option ExecutorAttemptAudit) (cursor : JournalCursor) :
    Run (ApplyScheduledOutcome * JournalCursor) :=
  checked ← se_try (revalidate_operation policy root operation);
  match checked with
  | Err error =>
      (if audit then transition_proof request RecoveryRequired else mret tt);;
      require_recovery operation (lit "proven_not_applied_contradicted")
        (application_error_text error) audit cursor
  | Ok _ =>
      transition_proof request ProvenNotStarted;;
      cursor ← (match audit with
        | Some audit => fail_operation_with_executor_audit operation EfcCritical code detail audit cursor
        | None => fail_operation operation EfcCritical code detail cursor
        end);
      terminal_detail execution_id cursor
  end.

(** The executor says that it is done. *)
Definition settle_success (execution_id : ExecutionId) (root : PathBuf)
    (operation : ExecutionOperation) (request : ExecutorRequestIdentity)
    (executor_audit : ExecutorAttemptAudit) (total : Z) (cursor : JournalCursor) :
    Run (ApplyScheduledOutcome * JournalCursor) :=
  verified ← se_try (verify_postcondition policy root operation);
  match verified with
  | Err error =>
      transition_proof request RecoveryRequired;;
      persist_event execution_id (Some (eo_id operation)) StepFailed
        (json_object
          ["event" ↦ lit "postcondition_failed";
           "operation_id" ↦ eo_id operation;
           "error" ↦ application_error_text error;
           "executor_audit" ↦ executor_audit])
        (failure_update (Some EosRunning) (Some OesRecoveryRequired) (lit "postcondition_failed")
          (application_error_text error)) cursor;;
      se_fail ApExecutionRecoveryRequired
  | Ok post =>
      persisted ← persist_event_with_request_proof execution_id (Some (eo_id operation))
        AppliedObserved
        (json_object
          ["event" ↦ lit "applied_observed";
           "operation_id" ↦ eo_id operation;
           "destination" ↦ eo_destination_relative_path operation;
           "postcondition" ↦ lit "verified";
           "executor_audit" ↦ executor_audit])
        {| eu_operation_status := Some EosApplied;
           eu_session_status := Some OesRunning;
           eu_post_fingerprint := post;
           eu_error_code := None;
           eu_error_message := None |}
        (eri_request_id request) ProvenApplied cursor;
      current_detail ← db (execution_detail execution_id);
      report_progress (progress_from_detail current_detail total
        (Some (eo_destination_relative_path operation)));;
      mret (AsoApplied, snd persisted)
  end.

Definition settle_dispatch (execution_id : ExecutionId) (root : PathBuf)
    (operation : ExecutionOperation) (request : ExecutorRequestIdentity)
    (dispatch : ExecutorDispatchResult) (total : Z) (cursor : JournalCursor) :
    Run (ApplyScheduledOutcome * JournalCursor) :=
  record_executor_response request dispatch;;
  match edr_outcome dispatch with
  | OutSuccess _ _ audit => settle_success execution_id root operation request audit total cursor
  | OutProvenNotApplied code detail audit =>
      settle_not_applied execution_id root operation request code detail (Some audit) cursor
  | OutProtocolRefusal refusal =>
      settle_not_applied execution_id root operation request (pref_code refusal)
        (pref_detail refusal) None cursor
  | OutRecoveryRequired code detail audit =>
      require_recovery operation code detail (Some audit) cursor
  end.

Definition apply_scheduled_operation (execution_id : ExecutionId) (root : PathBuf)
    (operation : ExecutionOperation) (executor_session : ExecutorSession) (total : Z)
    (cursor : JournalCursor) : Run (ApplyScheduledOutcome * JournalCursor) :=
  current ← se_try (revalidate_operation policy root operation);
  match current with
  | Err error =>
      cursor ← fail_operation operation EfcCritical (lit "execution_drift")
        (application_error_text error) cursor;
      terminal_detail execution_id cursor
  | Ok current =>
      persisted ← persist_event execution_id (Some (eo_id operation)) PreconditionsValidated
        (preconditions_payload operation)
        (status_update (Some EosPreflightOk) (Some OesRunning)) cursor;
      prepared ← se_map_err ApApprovedExecutor
        (prepare_operation executor_session (eo_id operation) DirForward);
      identity ← session_of executor_session;
      committed ← persist_request_intent IntentDurableEvent (intent_payload operation current)
        prepared identity (snd persisted);
      let '(intent_binding, cursor) := committed in
      dispatch ← se_try (dispatch_prepared executor_session prepared intent_binding);
      match dispatch with
      | Err error =>
          transition_proof prepared RecoveryRequired;;
          require_recovery operation (lit "executor_response_ambiguous")
            (application_error_text (ApApprovedExecutor error)) None cursor
      | Ok dispatch => settle_dispatch execution_id root operation prepared dispatch total cursor
      end
  end.

(** ** The schedule *)

(** The opening of an approved execution: everything is checked again, the
    session is opened, and the consent is consumed. *)
Definition authorise_start (execution_id : ExecutionId) (detail : ExecutionDetail) (authorization_time_unix_ms : Z) :
    Run (PathBuf * ExecutorSession * ExecutionDetail) :=
  let consent := ses_consent (ed_session detail) in
  se_lift (reject_if (negb (bool_decide (ec_state consent = EcsAttested))) ApExecutionApprovalRequired);;
  root ← revalidate_consent_context_or_invalidate policy detail;
  verify_stored_consent_attestation consent_authority detail;;
  expires_at ← se_lift (ok_or (ec_expires_at_unix_ms consent) invalid);
  (if expires_at <=? authorization_time_unix_ms then
    db (expire_execution_consent execution_id authorization_time_unix_ms);;
    se_fail ApExecutionConsentExpired
  else mret tt);;
  nonce ← se_lift (ok_or (ec_nonce consent) invalid);
  issued_at ← se_lift (ok_or (ec_issued_at_unix_ms consent) invalid);
  attestation_mac ← se_lift (ok_or (ec_attestation_mac consent) invalid);
  envelope ← se_lift (map_err (fun _ => invalid)
    (try_from_execution_detail_for detail PurposeForward));
  session ← open_stored_session envelope AuthForward;
  detail ← db (consume_execution_consent execution_id nonce issued_at expires_at attestation_mac
    authorization_time_unix_ms);
  mret (root, session, detail).

Definition PAUSED : str := lit "Execution paused between operations.".
Definition CANCELLED : str := lit "Execution cancelled after the current safe unit.".

(** [finish_execution], and the stored detail. *)
Definition finish_with_detail (execution_id : ExecutionId) (status : OrganizationExecutionStatus)
    (message : str) (cursor : JournalCursor) : Run ExecutionDetail :=
  finish_execution execution_id status message cursor;;
  db (execution_detail execution_id).

(** The loop over the schedulable operations: [inl] is the terminal state it
    returns early with. *)
Fixpoint run_schedule (execution_id : ExecutionId) (root : PathBuf)
    (executor_session : ExecutorSession) (total : Z) (cycle_group : gset uuid)
    (state : ScheduleState) (operations : list ExecutionOperation) :
    Run (ExecutionDetail + JournalCursor) :=
  match operations with
  | [] => mret (inr (scs_cursor state))
  | operation :: operations =>
      control ← db (execution_control execution_id);
      let '(pause, cancel) := control in
      let must_finish_cycle_group :=
        scs_cycle_group_started state && bool_decide (eo_id operation ∈ cycle_group) in
      if (cancel || pause) && negb must_finish_cycle_group then
        detail ← finish_with_detail execution_id (if cancel : bool then OesCancelled else OesPaused)
          (if cancel : bool then CANCELLED else PAUSED) (scs_cursor state);
        mret (inl detail)
      else if existsb (fun dependency => negb (bool_decide (dependency ∈ scs_applied state)))
          (eo_dependencies operation) then
        fail_operation operation EfcDependency (lit "dependency_not_applied")
          (lit "A required earlier operation was not applied.") (scs_cursor state);;
        detail ← db (execution_detail execution_id);
        mret (inl detail)
      else
        outcome ← apply_scheduled_operation execution_id root operation executor_session total
          (scs_cursor state);
        match outcome with
        | (AsoTerminal detail, _) => mret (inl detail)
        | (AsoApplied, cursor) =>
            run_schedule execution_id root executor_session total cycle_group
              {| scs_applied := {[eo_id operation]} ∪ scs_applied state;
                 scs_cycle_group_started := scs_cycle_group_started state
                   || bool_decide (eo_kind operation = EokInternalStage);
                 scs_cursor := cursor |} operations
        end
  end.

(** The terminal state of an execution all of whose operations were run. *)
Definition terminal_status (summary : ExecutionSummary) : OrganizationExecutionStatus :=
  if (0 <? es_blocked summary) || (0 <? es_failed summary) then OesPartial else OesCompleted.

Definition complete_execution (execution_id : ExecutionId) (total : Z) (cursor : JournalCursor) :
    Run ExecutionDetail :=
  completed ← db (execution_detail execution_id);
  completed ← finish_with_detail execution_id (terminal_status (ses_summary (ed_session completed)))
    (lit "All scheduled safe operations reached a durable terminal state.") cursor;
  report_progress (progress_from_detail completed total None);;
  mret completed.

Definition start_execution_at (execution_id : ExecutionId) (authorization_time_unix_ms : Z) :
    Run ExecutionDetail :=
  require_apply_gate gate;;
  detail ← db (execution_detail execution_id);
  se_lift (reject_if (negb (bool_decide
    (ses_recovery_state (ed_session detail) = ErsRecoveryNotRequired))) ApExecutionRecoveryRequired);;
  require_valid_database_journal execution_id;;
  synchronize_external_journal execution_id false;;
  opened ← (match ses_status (ed_session detail) with
    | OesApproved => authorise_start execution_id detail authorization_time_unix_ms
    | _ => se_fail invalid
    end);
  let '(root, executor_session, detail) := opened in
  cursor ← journal_cursor execution_id;
  let schedulable := schedulable_operations detail in
  let total := es_preflight_ok (ses_summary (ed_session detail)) in
  scheduled ← run_schedule execution_id root executor_session total (cycle_group_ids schedulable)
    {| scs_applied := applied_operation_ids detail;
       scs_cycle_group_started := false;
       scs_cursor := cursor |} schedulable;
  match scheduled with
  | inl detail => mret detail
  | inr cursor => complete_execution execution_id total cursor
  end.

Definition start_execution (execution_id : ExecutionId) : Run ExecutionDetail :=
  now ← now_ms;
  start_execution_at execution_id now.
End forward.
