(* ===== verification/Rollback.v ===== *)
(** * Rolling an execution back

    crates/application/src/execution.rs, [rollback_execution] and
    [rollback_authorization]: the applied operations, the last one first, each
    checked before its intent is recorded, again right before it is
    dispatched, and afterwards. *)

From S2P Require Export Forward.
#[local] Open Scope Z_scope.

(** The operations to undo: what is applied, in reverse order. *)
Definition rollback_operations (detail : ExecutionDetail) : list ExecutionOperation :=
  filter (fun operation => is_applied operation = true) (rev (ed_operations detail)).

Definition may_roll_back (detail : ExecutionDetail) : bool :=
  let session := ed_session detail in
  negb (bool_decide (ses_recovery_state session = ErsRecoveryAmbiguous))
  && bool_decide (ses_status session ∈ [OesCompleted; OesPartial; OesCancelled; OesFailed;
       OesRecoveryAvailable; OesPaused]).

Definition eligibility_state (status : ExecutionOperationStatus) :
    res ApplicationError RollbackEligibilityState :=
  match status with
  | EosApplied => Ok ResApplied
  | EosRecovered => Ok ResRecovered
  | _ => Err ApInvalidExecution
  end.

(** The last event that says that the operation was applied. *)
Definition last_applied_event (operation_id : OperationStepId)
    (events : list OperationJournalEvent) : option OperationJournalEvent :=
  find (fun event => bool_decide (ev_step_id event = Some operation_id)
    && bool_decide (ev_kind event = AppliedObserved)) (rev events).

Definition rollback_eligibility `{UuidCrate} (events : list OperationJournalEvent)
    (operation : ExecutionOperation) : res ApplicationError RollbackEligibility :=
  reject_if (negb (is_directory_kind (eo_kind operation))
    && bool_decide (eo_post_fingerprint operation = None)) ApInvalidExecution;;
  state ← eligibility_state (eo_status operation);
  event ← ok_or (last_applied_event (eo_id operation) events) ApInvalidExecution;
  Ok {| re_operation_id := uuid_to_string (eo_id operation);
        re_state := state;
        re_applied_event := committed_binding event |}.

Section rollback.
Context {W : Type} `{B3 : Blake3} `{BH : Blake3Hex} `{UU : UuidCrate} `{UC : UnicodeCase}.
Context `{JC : JsonCrate} `{TC : ToVec CanonicalSafetyPolicy}.
Context `{JF : ToJson FileFingerprint} `{JA : ToJson ExecutorAttemptAudit}.
Context `{JE : ToJson ExecutorErrorClass}.
Context `{FS : StdFs W} `{RO : ReadOnlyPlatform W} `{TG : Target}.
Context `{SH : ServiceHost W} `{CH : CoordinatorHost W} `{DB : ExecutionDatabase W}.
Context `{DJ : DurableJournal W} `{EX : ExecutorClient W}.
Variable policy : ExecutionSafetyPolicy.
Variable gate : ApplyGate.

Notation db := (se_map_err ApPersistence).
Notation invalid := ApInvalidExecution.
Notation Run A := (SE W ApplicationError A).

Definition rollback_authorization (detail : ExecutionDetail)
    (rollback : list ExecutionOperation) : Run SessionAuthorization :=
  events ← db (execution_journal_events (ses_id (ed_session detail)));
  eligible_operations ← se_lift (collect (rollback_eligibility events) rollback);
  mret (AuthRollback eligible_operations).

(** The rollback stops with a recorded reason: the terminal state. *)
Definition block_rollback (execution_id : ExecutionId) (operation : ExecutionOperation)
    (fields : list (str * Value)) (code message reason : str) (cursor : JournalCursor) :
    Run (ApplyScheduledOutcome * JournalCursor) :=
  persisted ← persist_event execution_id (Some (eo_id operation)) Conflict
    (json_object (["event" ↦ lit "rollback_blocked"; "operation_id" ↦ eo_id operation] ++ fields))
    (failure_update (Some EosRollbackBlocked) (Some OesRollbackPartial) code message) cursor;
  cursor ← finish_execution execution_id OesRollbackPartial reason (snd persisted);
  terminal_detail execution_id cursor.

Definition require_rollback_recovery {A} (operation : ExecutionOperation) (code detail : str)
    (audit : option ExecutorAttemptAudit) (cursor : JournalCursor) : Run A :=
  mark_rollback_recovery_required operation code detail audit cursor;;
  se_fail ApExecutionRecoveryRequired.

Definition PROVEN_NOT_APPLIED : str :=
  lit "Rollback stopped after the executor proved no mutation occurred.".

(** [ProvenNotApplied] with an audit, [ProtocolRefusal] without one. *)
Definition settle_rollback_not_applied (execution_id : ExecutionId) (root : PathBuf)
    (operation : ExecutionOperation) (request : ExecutorRequestIdentity) (code detail : str)
    (audit : option ExecutorAttemptAudit) (cursor : JournalCursor) :
    Run (ApplyScheduledOutcome * JournalCursor) :=
  checked ← se_try (revalidate_rollback policy root operation);
  match checked with
  | Err error =>
      (if audit then transition_proof request RecoveryRequired else mret tt);;
      require_rollback_recovery operation (lit "proven_not_applied_contradicted")
        (application_error_text error) audit cursor
  | Ok _ =>
      transition_proof request ProvenNotStarted;;
      block_rollback execution_id operation
        (["code" ↦ code; "detail" ↦ detail]
         ++ match audit with Some audit => ["executor_audit" ↦ audit] | None => [] end)
        code detail PROVEN_NOT_APPLIED cursor
  end.

Definition settle_rollback_success (execution_id : ExecutionId) (root : PathBuf)
    (operation : ExecutionOperation) (request : ExecutorRequestIdentity)
    (executor_audit : ExecutorAttemptAudit) (total : Z) (cursor : JournalCursor) :
    Run (ApplyScheduledOutcome * JournalCursor) :=
  verified ← se_try (verify_rollback_postcondition policy root operation);
  match verified with
  | Err error =>
      transition_proof request RecoveryRequired;;
      require_rollback_recovery operation (lit "rollback_postcondition_failed")
        (application_error_text error) (Some executor_audit) cursor
  | Ok _ =>
      persisted ← persist_event_with_request_proof execution_id (Some (eo_id operation))
        RolledBackObserved
        (json_object
          ["event" ↦ lit "rolled_back_observed";
           "operation_id" ↦ eo_id operation;
           "postcondition" ↦ lit "verified";
           "executor_audit" ↦ executor_audit])
        (status_update (Some EosRolledBack) (Some OesRollingBack))
        (eri_request_id request) ProvenApplied cursor;
      current ← db (execution_detail execution_id);
      report_progress (progress_from_detail current total None);;
      mret (AsoApplied, snd persisted)
  end.

Definition settle_rollback_dispatch (execution_id : ExecutionId) (root : PathBuf)
    (operation : ExecutionOperation) (request : ExecutorRequestIdentity)
    (dispatch : ExecutorDispatchResult) (total : Z) (cursor : JournalCursor) :
    Run (ApplyScheduledOutcome * JournalCursor) :=
  record_executor_response request dispatch;;
  match edr_outcome dispatch with
  | OutSuccess _ _ audit =>
      settle_rollback_success execution_id root operation request audit total cursor
  | OutProvenNotApplied code detail audit =>
      settle_rollback_not_applied execution_id root operation request code detail (Some audit) cursor
  | OutProtocolRefusal refusal =>
      settle_rollback_not_applied execution_id root operation request (pref_code refusal)
        (pref_detail refusal) None cursor
  | OutRecoveryRequired code detail audit =>
      require_rollback_recovery operation code detail (Some audit) cursor
  end.

(** One round of the loop. *)
Definition roll_back_operation (execution_id : ExecutionId) (root : PathBuf)
    (operation : ExecutionOperation) (executor_session : ExecutorSession) (total : Z)
    (cursor : JournalCursor) : Run (ApplyScheduledOutcome * JournalCursor) :=
  preflight ← se_try (revalidate_rollback policy root operation);
  match preflight with
  | Err error =>
      block_rollback execution_id operation ["error" ↦ application_error_text error]
        (lit "rollback_precondition_failed") (application_error_text error)
        (lit "Rollback stopped because a live precondition was no longer safe.") cursor
  | Ok preflight =>
      persisted ← persist_event execution_id (Some (eo_id operation)) PreconditionsValidated
        (json_object
          ["event" ↦ lit "rollback_preconditions_validated";
           "operation_id" ↦ eo_id operation;
           "source" ↦ eo_destination_relative_path operation;
           "destination" ↦ eo_source_relative_path operation;
           "expected_applied_state" ↦ preflight])
        (status_update (Some (eo_status operation)) (Some OesRollingBack)) cursor;
      prepared ← se_map_err ApApprovedExecutor
        (prepare_operation executor_session (eo_id operation) DirRollback);
      identity ← session_of executor_session;
      committed ← persist_request_intent RollbackIntent
        (json_object
          ["event" ↦ lit "rollback_intent";
           "operation_id" ↦ eo_id operation;
           "source" ↦ eo_destination_relative_path operation;
           "destination" ↦ eo_source_relative_path operation])
        prepared identity (snd persisted);
      let '(intent_binding, cursor) := committed in
      checked ← se_try (revalidate_rollback policy root operation);
      match checked with
      | Err error =>
          transition_proof prepared ProvenNotStarted;;
          block_rollback execution_id operation
            ["error" ↦ application_error_text error;
             "phase" ↦ lit "immediately_before_worker_dispatch"]
            (lit "rollback_precondition_failed") (application_error_text error)
            (lit "Rollback stopped because the exact destination identity changed.") cursor
      | Ok _ =>
          dispatch ← se_try (dispatch_prepared executor_session prepared intent_binding);
          match dispatch with
          | Err error =>
              transition_proof prepared RecoveryRequired;;
              require_rollback_recovery operation (lit "executor_response_ambiguous")
                (application_error_text (ApApprovedExecutor error)) None cursor
          | Ok dispatch =>
              settle_rollback_dispatch execution_id root operation prepared dispatch total cursor
          end
      end
  end.

Fixpoint run_rollback (execution_id : ExecutionId) (root : PathBuf)
    (executor_session : ExecutorSession) (total : Z) (cursor : JournalCursor)
    (operations : list ExecutionOperation) : Run (ExecutionDetail + JournalCursor) :=
  match operations with
  | [] => mret (inr cursor)
  | operation :: operations =>
      outcome ← roll_back_operation execution_id root operation executor_session total cursor;
      match outcome with
      | (AsoTerminal detail, _) => mret (inl detail)
      | (AsoApplied, cursor) =>
          run_rollback execution_id root executor_session total cursor operations
      end
  end.

Definition rollback_execution (execution_id : ExecutionId) : Run ExecutionDetail :=
  require_apply_gate gate;;
  detail ← db (execution_detail execution_id);
  se_lift (reject_if (negb (may_roll_back detail)) ApExecutionRecoveryRequired);;
  require_valid_database_journal execution_id;;
  synchronize_external_journal execution_id false;;
  root ← execution_root policy detail;
  cursor ← journal_cursor execution_id;
  let rollback := rollback_operations detail in
  total ← se_lift (ok_or (u64_try_from (zlen rollback)) invalid);
  match rollback with
  | [] =>
      finish_with_detail execution_id OesRolledBack
        (lit "No journal-proven applied operation remained to roll back.") cursor
  | _ =>
      authorization ← rollback_authorization detail rollback;
      envelope ← se_lift (map_err (fun _ => invalid)
        (try_from_execution_detail_for detail PurposeRollback));
      executor_session ← open_stored_session envelope authorization;
      rolled_back ← run_rollback execution_id root executor_session total cursor rollback;
      match rolled_back with
      | inl detail => mret detail
      | inr cursor =>
          detail ← finish_with_detail execution_id OesRolledBack
            (lit "Rollback completed in reverse dependency order.") cursor;
          report_progress (progress_from_detail detail total None);;
          mret detail
      end
  end.
End rollback.
