(* ===== verification/Recovery.v ===== *)
(** * Recovery of an interrupted execution

    crates/application/src/execution.rs: [recover_execution], which only looks
    at the file system, decides for every request whether its mutation was
    carried out, and stores what it found; and the start of the service, which
    runs it for every interrupted execution. *)

From S2P Require Export Rollback.
#[local] Open Scope Z_scope.

Inductive RecoveredRequestClass :=
  | RrcSkip
  | RrcApplied (item : RecoveryItem)
  | RrcNotStarted (item : RecoveryItem)
  | RrcAmbiguous (item : RecoveryItem).

Record RecoveryAssessment := {
  ra_execution_id : ExecutionId;
  ra_state : ExecutionRecoveryState;
  ra_affected_count : Z;
  ra_not_started : Z;
  ra_applied : Z;
  ra_ambiguous : Z;
  ra_verified_applied_items : list RecoveryItem;
  ra_verified_not_started_items : list RecoveryItem;
  ra_ambiguous_items : list RecoveryItem;
  ra_rollback_available : bool;
  ra_executor_sessions : list ExecutorSessionFact;
  ra_executor_requests : list ExecutorRequestFact;
  ra_journal_diagnostics : JournalDiagnosticState;
  ra_message : str
}.

(** The three lists of items a recovery collects. *)
Record Findings := {
  fi_applied : list RecoveryItem;
  fi_not_started : list RecoveryItem;
  fi_ambiguous : list RecoveryItem
}.
Definition no_findings : Findings := {| fi_applied := []; fi_not_started := []; fi_ambiguous := [] |}.
Definition add_finding (found : Findings) (class : RecoveredRequestClass) : Findings :=
  match class with
  | RrcSkip => found
  | RrcApplied item => {| fi_applied := fi_applied found ++ [item];
      fi_not_started := fi_not_started found; fi_ambiguous := fi_ambiguous found |}
  | RrcNotStarted item => {| fi_applied := fi_applied found;
      fi_not_started := fi_not_started found ++ [item]; fi_ambiguous := fi_ambiguous found |}
  | RrcAmbiguous item => {| fi_applied := fi_applied found;
      fi_not_started := fi_not_started found; fi_ambiguous := fi_ambiguous found ++ [item] |}
  end.

Definition recovery_item (operation : ExecutionOperation) (direction : ExecutorRequestDirection)
    (reason : str) : RecoveryItem := {|
  ri_operation_id := eo_id operation;
  ri_direction := direction;
  ri_item := eo_destination_relative_path operation;
  ri_reason := Some reason
|}.

(** ** Is the stored request the one the journal recorded? *)

Section binding_error.
Context `{B3 : Blake3} `{BH : Blake3Hex} `{UU : UuidCrate} `{JC : JsonCrate}.

Definition expected_purpose (direction : ExecutorRequestDirection) : ExecutorSessionPurpose :=
  match direction with ErdForward => EspForward | ErdRollback => EspRollback end.
Definition expected_intent_kind (direction : ExecutorRequestDirection) : JournalEventKind :=
  match direction with ErdForward => IntentDurableEvent | ErdRollback => RollbackIntent end.

(** [material.get(key).and_then(Value::as_str)], and the same for numbers. *)
Definition str_field (key : String.string) (material : Value) : option str :=
  get key material ≫= as_str.
Definition u64_field (key : String.string) (material : Value) : option Z :=
  get key material ≫= as_u64.

Definition session_mismatch (session : ExecutorSessionFact) (material : Value) : bool :=
  bool_decide (str_field "session_id" material <> Some (esi_session_id session))
  || bool_decide (str_field "execution_id" material <> Some (uuid_to_string (esi_execution_id session)))
  || bool_decide (str_field "plan_id" material <> Some (uuid_to_string (esi_plan_id session)))
  || bool_decide (str_field "plan_digest" material <> Some (esi_plan_digest_hex session))
  || bool_decide (str_field "purpose" material <> Some (session_purpose_name (esi_purpose session)))
  || bool_decide (u64_field "coordinator_pid" material <> Some (esi_coordinator_pid session))
  || bool_decide (u64_field "child_pid" material <> esi_child_pid session)
  || bool_decide (str_field "worker_nonce_hash" material <> Some (esi_worker_nonce_hash_hex session))
  || bool_decide (str_field "coordinator_nonce_hash" material
       <> Some (esi_coordinator_nonce_hash_hex session))
  || bool_decide (str_field "response_nonce_hash" material <> esi_response_nonce_hash_hex session).

(** [Err tt] is a panic of [decode_hex_digest]. *)
Definition nonce_matches (request : ExecutorRequestFact) (material : Value) : res unit bool :=
  match str_field "request_nonce" material with
  | None => Ok false
  | Some text =>
      nonce ← decode_hex_digest text;
      Ok (from_option (fun nonce =>
        bool_decide (executor_nonce_hash nonce = erf_request_nonce_hash_hex request)) false nonce)
  end.

Definition request_mismatch (request : ExecutorRequestFact) (request_nonce_matches : bool)
    (material : Value) : bool :=
  bool_decide (str_field "request_id" material <> Some (erf_request_id request))
  || bool_decide (str_field "session_id" material <> Some (erf_session_id request))
  || bool_decide (str_field "operation_id" material <> Some (uuid_to_string (erf_operation_id request)))
  || bool_decide (u64_field "request_sequence" material <> Some (erf_request_sequence request))
  || bool_decide (str_field "direction" material
       <> Some (request_direction_name (erf_direction request)))
  || negb request_nonce_matches
  || bool_decide (str_field "request_digest" material <> Some (erf_request_digest_hex request)).

(** The reason to distrust, as [Failed]; a panic as [Panicked]. *)
Definition distrust {A} (found : option A) (reason : String.string) : res (Abrupt str) A :=
  ok_or found (Failed (lit reason)).
Definition distrust_if (bad : bool) (reason : String.string) : res (Abrupt str) unit :=
  reject_if bad (Failed (lit reason)).

Definition check_request_binding (request : ExecutorRequestFact)
    (sessions : list ExecutorSessionFact) (events : list OperationJournalEvent) :
    res (Abrupt str) unit :=
  session ← distrust (find (fun session =>
      bool_decide (esi_session_id session = erf_session_id request)
      && bool_decide (esi_purpose session = expected_purpose (erf_direction request))) sessions)
    "Executor session identity is missing or direction-mismatched.";
  event ← distrust (find (fun event =>
      ev_sequence event =? erf_intent_event_sequence request) events)
    "Intent event binding is missing from the authenticated journal.";
  distrust_if (negb (bool_decide (ev_step_id event = Some (erf_operation_id request)))
    || negb (bool_decide (ev_kind event = expected_intent_kind (erf_direction request)))
    || negb (bool_decide (encode_hex_bytes (barr (ev_event_digest event))
         = erf_intent_event_digest_hex request)))
    "Intent event binding does not match the executor request.";;
  payload ← distrust (value_from_slice (ev_payload event))
    "Intent event payload is not valid canonical data.";
  session_material ← distrust (get "executor_session" payload)
    "Intent event has no executor session identity.";
  distrust_if (session_mismatch session session_material)
    "Intent session identity does not match its session record.";;
  material ← distrust (get "executor_request" payload)
    "Intent event has no executor request identity.";
  request_nonce_matches ← map_err (fun _ => Panicked) (nonce_matches request material);
  distrust_if (request_mismatch request request_nonce_matches material)
    "Intent payload identity does not match its request record.".

(** [executor_request_binding_error]; [Err tt] is a panic. *)
Definition executor_request_binding_error (request : ExecutorRequestFact)
    (sessions : list ExecutorSessionFact) (events : list OperationJournalEvent) :
    res unit (option str) :=
  match check_request_binding request sessions events with
  | Ok _ => Ok None
  | Err (Failed reason) => Ok (Some reason)
  | Err Panicked => Err tt
  end.

Definition is_recovery_observation (request_id : str) (event : OperationJournalEvent) : bool :=
  match value_from_slice (ev_payload event) with
  | Some payload =>
      bool_decide (str_field "event" payload = Some (lit "recovery_observed"))
      && bool_decide (str_field "request_id" payload = Some request_id)
  | None => false
  end.
Definition request_has_recovery_observation (events : list OperationJournalEvent)
    (request_id : str) : bool := existsb (is_recovery_observation request_id) events.
End binding_error.

(** ** What is concluded about a request *)

(** [operation_interrupted]. *)
Definition operation_interrupted (operation : ExecutionOperation)
    (direction : ExecutorRequestDirection) : bool :=
  match eo_status operation, direction with
  | EosRunning, ErdForward | EosRollingBack, ErdRollback => true
  | _, _ => false
  end.

(** The state itself says that the request may be unfinished. *)
Definition is_unfinished (state : ExecutorRequestState) : bool :=
  match state with
  | IntentDurable | AcknowledgedSuccess | RecoveryRequired | Ambiguous => true
  | _ => false
  end.

(** What recovery does about one request. *)
Inductive Reconciliation :=
  | RcSkip
  | RcKeepNotStarted
  | RcKeepApplied
  | RcKeepAmbiguous
  | RcObserve.

Definition reconciliation (interrupted observed_before : bool) (state : ExecutorRequestState) :
    Reconciliation :=
  if negb (interrupted || is_unfinished state || observed_before) then RcSkip
  else match state with
  | ProvenNotApplied | ProvenNotStarted => if interrupted then RcObserve else RcKeepNotStarted
  | ProvenApplied => if interrupted then RcObserve else RcKeepApplied
  | Ambiguous => RcKeepAmbiguous
  | IntentDurable | AcknowledgedSuccess | RecoveryRequired => RcObserve
  end.

(** What an observation makes of a request: the event that is stored, and the
    state the request gets. *)
Record Verdict := {
  ve_kind : JournalEventKind;
  ve_observation : str;
  ve_reason : str;
  ve_error_code : option str;
  ve_operation_status : option ExecutionOperationStatus;
  ve_session_status : OrganizationExecutionStatus;
  ve_post_fingerprint : option FileFingerprint;
  ve_request_state : ExecutorRequestState
}.

Definition ambiguous_verdict (code reason : str) : Verdict := {|
  ve_kind := Conflict;
  ve_observation := lit "ambiguous";
  ve_reason := reason;
  ve_error_code := Some code;
  ve_operation_status := None;
  ve_session_status := OesRecoveryAmbiguous;
  ve_post_fingerprint := None;
  ve_request_state := Ambiguous
|}.

Definition verdict (state : ExecutorRequestState) (rollback : bool)
    (observation : Observe.RecoveryObservation) : Verdict :=
  match observation with
  | RoNotStarted =>
      if bool_decide (state = ProvenApplied) then
        ambiguous_verdict (lit "recovery_proof_contradicted")
          (lit "Filesystem reality contradicts the stored applied proof.")
      else {|
        ve_kind := Conflict;
        ve_observation := lit "not_started";
        ve_reason := lit "Exact identity and both paths prove mutation did not start.";
        ve_error_code := None;
        ve_operation_status := Some (if rollback then EosApplied else EosPreflightOk);
        ve_session_status := OesRecoveryRequired;
        ve_post_fingerprint := None;
        ve_request_state := ProvenNotStarted |}
  | RoApplied fingerprint =>
      if bool_decide (state ∈ [ProvenNotApplied; ProvenNotStarted]) then
        ambiguous_verdict (lit "recovery_proof_contradicted")
          (lit "Filesystem reality contradicts the stored not-applied proof.")
      else {|
        ve_kind := AppliedObserved;
        ve_observation := lit "applied";
        ve_reason := lit "Exact native identity, metadata, and content prove mutation applied.";
        ve_error_code := None;
        ve_operation_status := Some (if rollback then EosRolledBack else EosRecovered);
        ve_session_status := OesRecoveryRequired;
        ve_post_fingerprint := if rollback then None else fingerprint;
        ve_request_state := ProvenApplied |}
  | RoAmbiguous reason => ambiguous_verdict (lit "ambiguous_recovery") reason
  end.

Definition is_ambiguous_verdict (v : Verdict) : bool := bool_decide (ve_request_state v = Ambiguous).

Definition verdict_class (v : Verdict) (item : RecoveryItem) : RecoveredRequestClass :=
  match ve_request_state v with
  | ProvenNotStarted => RrcNotStarted item
  | ProvenApplied => RrcApplied item
  | _ => RrcAmbiguous item
  end.

Section recovery.
Context {W : Type} `{B3 : Blake3} `{BH : Blake3Hex} `{UU : UuidCrate} `{UC : UnicodeCase}.
Context `{JC : JsonCrate} `{TC : ToVec CanonicalSafetyPolicy}.
Context `{JI : ToJson RecoveryItem} `{JS : ToJson ExecutorSessionIdentity}.
Context `{JR : ToJson ExecutorRequestFact}.
Context `{FS : StdFs W} `{RO : ReadOnlyPlatform W} `{TG : Target}.
Context `{SH : ServiceHost W} `{CH : CoordinatorHost W} `{DB : ExecutionDatabase W}.
Context `{DJ : DurableJournal W}.
Variable policy : ExecutionSafetyPolicy.

Notation db := (se_map_err ApPersistence).
Notation invalid := ApInvalidExecution.
Notation Run A := (SE W ApplicationError A).
Notation Abortable A := (SE W (Abrupt ApplicationError) A).

(** ** One request *)

Definition verdict_payload (request : ExecutorRequestFact) (operation : ExecutionOperation)
    (v : Verdict) : Value := json_object
  (["event" ↦ lit "recovery_observed";
    "operation_id" ↦ eo_id operation;
    "direction" ↦ erf_direction request;
    "observation" ↦ ve_observation v]
   ++ (if is_ambiguous_verdict v then ["reason" ↦ ve_reason v] else [])
   ++ ["request_id" ↦ erf_request_id request]).

(** The verdict is stored; its item is what the caller gets. *)
Definition record_verdict (execution_id : ExecutionId) (request : ExecutorRequestFact)
    (operation : ExecutionOperation) (v : Verdict) (cursor : JournalCursor) :
    Run (RecoveredRequestClass * JournalCursor) :=
  persisted ← persist_event_with_request_proof execution_id (Some (eo_id operation)) (ve_kind v)
    (verdict_payload request operation v)
    {| eu_operation_status := ve_operation_status v;
       eu_session_status := Some (ve_session_status v);
       eu_post_fingerprint := ve_post_fingerprint v;
       eu_error_code := ve_error_code v;
       eu_error_message := if ve_error_code v then Some (ve_reason v) else None |}
    (erf_request_id request) (ve_request_state v) cursor;
  mret (verdict_class v (recovery_item operation (erf_direction request) (ve_reason v)),
        snd persisted).

Definition observe_request (root : PathBuf) (request : ExecutorRequestFact)
    (operation : ExecutionOperation) : Run Observe.RecoveryObservation :=
  match erf_direction request with
  | ErdRollback => observe_rollback_recovery policy root operation
  | ErdForward => observe_recovery policy root operation
  end.

Definition reconcile_bound_request (execution_id : ExecutionId) (root : PathBuf)
    (request : ExecutorRequestFact) (operation : ExecutionOperation)
    (events : list OperationJournalEvent) (cursor : JournalCursor) :
    Run (RecoveredRequestClass * JournalCursor) :=
  let item := recovery_item operation (erf_direction request) in
  match reconciliation (operation_interrupted operation (erf_direction request))
      (request_has_recovery_observation events (erf_request_id request)) (erf_state request) with
  | RcSkip => mret (RrcSkip, cursor)
  | RcKeepNotStarted =>
      mret (RrcNotStarted (item (lit "Exact executor request was proven not applied.")), cursor)
  | RcKeepApplied =>
      mret (RrcApplied (item (lit "Authenticated journal and postcondition proof recorded.")), cursor)
  | RcKeepAmbiguous =>
      mret (RrcAmbiguous (item (lit "Executor request remains ambiguous.")), cursor)
  | RcObserve =>
      observation ← observe_request root request operation;
      record_verdict execution_id request operation
        (verdict (erf_state request) (bool_decide (erf_direction request = ErdRollback)) observation)
        cursor
  end.

Definition reconcile_one_interrupted_request (execution_id : ExecutionId) (root : PathBuf)
    (request : ExecutorRequestFact) (operation : ExecutionOperation)
    (executor_sessions : list ExecutorSessionFact) (events : list OperationJournalEvent)
    (cursor : JournalCursor) : Abortable (RecoveredRequestClass * JournalCursor) :=
  binding_error ← se_lift (map_err (fun _ => Panicked)
    (executor_request_binding_error request executor_sessions events));
  se_map_err Failed match binding_error with
    | Some reason =>
        record_verdict execution_id request operation
          (ambiguous_verdict (lit "executor_request_binding_invalid") reason) cursor
    | None => reconcile_bound_request execution_id root request operation events cursor
    end.

(** [operations.get(&request.operation_id)]: the last one of that name. *)
Definition operation_of (operations : list ExecutionOperation) (id : OperationStepId) :
    option ExecutionOperation :=
  find (fun operation => bool_decide (eo_id operation = id)) (rev operations).

Definition reconcile_requests (execution_id : ExecutionId) (root : PathBuf)
    (detail : ExecutionDetail) (executor_sessions : list ExecutorSessionFact)
    (events : list OperationJournalEvent) :
    Findings * JournalCursor -> list ExecutorRequestFact -> Abortable (Findings * JournalCursor) :=
  fold_se (fun '(found, cursor) request =>
    operation ← se_lift (ok_or (operation_of (ed_operations detail) (erf_operation_id request))
      (Failed invalid));
    reconciled ← reconcile_one_interrupted_request execution_id root request operation
      executor_sessions events cursor;
    mret (add_finding found (fst reconciled), snd reconciled)).

(** ** The operations without a request *)

Definition is_applied_proof (operation : ExecutionOperation) (event : OperationJournalEvent) : bool :=
  bool_decide (ev_step_id event = Some (eo_id operation))
  && bool_decide (ev_kind event = AppliedObserved).

Definition classify_unrequested (events : list OperationJournalEvent)
    (operation : ExecutionOperation) : RecoveredRequestClass :=
  match eo_status operation with
  | EosPreflightOk =>
      RrcNotStarted (recovery_item operation ErdForward (lit "No durable executor request exists."))
  | EosApplied | EosRecovered =>
      if existsb (is_applied_proof operation) events then
        RrcApplied (recovery_item operation ErdForward
          (lit "Authenticated legacy applied event verified."))
      else RrcAmbiguous (recovery_item operation ErdForward
          (lit "Applied state has no authenticated request proof."))
  | EosRunning | EosRollingBack =>
      RrcAmbiguous (recovery_item operation
        (if bool_decide (eo_status operation = EosRollingBack) then ErdRollback else ErdForward)
        (lit "Interrupted operation has no exact executor request identity."))
  | _ => RrcSkip
  end.

Definition classify_unrequested_operations (events : list OperationJournalEvent)
    (requested : list OperationStepId) (operations : list ExecutionOperation)
    (found : Findings) : Findings :=
  foldl (fun found operation => add_finding found (classify_unrequested events operation)) found
    (filter (fun operation => eo_id operation ∉ requested) operations).

(** ** The assessment *)

Definition recovery_state (ambiguous : Z) : ExecutionRecoveryState :=
  if 0 <? ambiguous then ErsRecoveryAmbiguous else ErsRecoveryAvailable.

Definition recovery_message (ambiguous : Z) (rollback_available : bool) : str :=
  if 0 <? ambiguous then lit "Recovery is ambiguous; no further mutation is allowed."
  else if rollback_available then
    lit "Interrupted requests were reconciled; verified applied operations can be rolled back."
  else
    lit "Interrupted requests were proven not started; forward resume remains unavailable.".

Definition persist_recovery_assessment_result (execution_id : ExecutionId)
    (state : ExecutionRecoveryState) (not_started applied ambiguous affected_count : Z)
    (found : Findings) (executor_sessions : list ExecutorSessionFact)
    (executor_requests : list ExecutorRequestFact) : Run RecoveryAssessment :=
  let observations := json_object
    ["verified_applied_items" ↦ fi_applied found;
     "verified_not_started_items" ↦ fi_not_started found;
     "ambiguous_items" ↦ fi_ambiguous found;
     "executor_sessions" ↦ executor_sessions;
     "executor_requests" ↦ executor_requests] in
  text ← se_lift (ok_or (value_to_string observations) invalid);
  now ← now_iso;
  db (db_persist_recovery_assessment execution_id state not_started applied ambiguous text now);;
  reconciled ← db (execution_detail execution_id);
  let rollback_available := (ambiguous =? 0) && ses_rollback_available (ed_session reconciled)
    && (0 <? applied) in
  journal_diagnostics ← journal_diagnostic_state;
  mret {| ra_execution_id := execution_id;
          ra_state := state;
          ra_affected_count := affected_count;
          ra_not_started := not_started;
          ra_applied := applied;
          ra_ambiguous := ambiguous;
          ra_verified_applied_items := fi_applied found;
          ra_verified_not_started_items := fi_not_started found;
          ra_ambiguous_items := fi_ambiguous found;
          ra_rollback_available := rollback_available;
          ra_executor_sessions := executor_sessions;
          ra_executor_requests := executor_requests;
          ra_journal_diagnostics := journal_diagnostics;
          ra_message := recovery_message ambiguous rollback_available |}.

Definition assess_recovery (execution_id : ExecutionId) (found : Findings)
    (executor_sessions : list ExecutorSessionFact) : Run RecoveryAssessment :=
  executor_requests ← db (executor_request_facts execution_id);
  not_started ← se_lift (ok_or (u64_try_from (zlen (fi_not_started found))) invalid);
  applied ← se_lift (ok_or (u64_try_from (zlen (fi_applied found))) invalid);
  ambiguous ← se_lift (ok_or (u64_try_from (zlen (fi_ambiguous found))) invalid);
  affected_count ← se_lift (ok_or
    (value ← u64_checked_add not_started applied; u64_checked_add value ambiguous) invalid);
  persist_recovery_assessment_result execution_id (recovery_state ambiguous) not_started applied
    ambiguous affected_count found executor_sessions executor_requests.

Definition is_recoverable (status : OrganizationExecutionStatus) : bool :=
  bool_decide (status ∈ [OesRecoveryRequired; OesRecoveryAvailable; OesRecoveryAmbiguous]).

Definition recover_guarded (execution_id : ExecutionId) : Abortable RecoveryAssessment :=
  gathered ← se_map_err Failed (
    require_mutations_unlocked;;
    detail ← db (execution_detail execution_id);
    se_lift (reject_if (negb (is_recoverable (ses_status (ed_session detail)))) invalid);;
    require_valid_database_journal execution_id;;
    synchronize_external_journal execution_id false;;
    root ← execution_root policy detail;
    cursor ← journal_cursor execution_id;
    events ← db (execution_journal_events execution_id);
    executor_sessions ← db (executor_session_facts execution_id);
    executor_requests ← db (executor_request_facts execution_id);
    mret (detail, root, cursor, events, executor_sessions, executor_requests));
  let '(detail, root, cursor, events, executor_sessions, executor_requests) := gathered in
  reconciled ← reconcile_requests execution_id root detail executor_sessions events
    (no_findings, cursor) executor_requests;
  let found := classify_unrequested_operations events (erf_operation_id <$> executor_requests)
    (ed_operations detail) (fst reconciled) in
  se_map_err Failed (assess_recovery execution_id found executor_sessions).

(** [RecoveryGuard]: one recovery at a time; the flag falls whichever way the
    recovery ends. *)
Definition recover_execution (execution_id : ExecutionId) : Abortable RecoveryAssessment := fun w =>
  if recovery_in_progress w then (Err (Failed ApExecutionAlreadyActive), w)
  else
    let '(result, w') := recover_guarded execution_id (set_recovery_in_progress true w) in
    (result, set_recovery_in_progress false w').

(** ** Start of the service *)

(** A recovery that fails is passed over; one that panics ends the start. *)
Definition reconcile_interrupted_executions : Abortable unit :=
  locked ← (fun w => (Ok (journal_is_locked w), w));
  if (locked : bool) then mret tt
  else
    se_map_err Failed (db mark_interrupted_executions_for_recovery);;
    ids ← se_map_err Failed (db recovery_execution_ids);
    fold_se (fun _ execution_id =>
      recovered ← se_try (recover_execution execution_id);
      match recovered with
      | Err Panicked => se_fail Panicked
      | _ => mret tt
      end) tt ids.

Definition new_service : Abortable unit :=
  se_map_err Failed construct;;
  reconcile_interrupted_executions.
End recovery.
