(* ===== verification/CoSteps.v ===== *)
(** * Relations every computation of the service respects

    A preorder on worlds that each method of the world respects is respected by
    every computation of the execution service: what the methods leave alone,
    or only add to, so does a start, a rollback or a recovery.  The methods are
    the fields of a class, so that an instance is all a relation has to give. *)

From S2P Require Export Recovery.
#[local] Open Scope Z_scope.

Definition respects {V E A} (R : relation V) (m : SE V E A) : Prop := forall t, R t (snd (m t)).

(** ** The methods *)

(** What is only looked at, and the clock. *)
Class Looks {V} (R : relation V) `{FS : StdFs V} `{RO : ReadOnlyPlatform V} : Prop := {
  looks_preorder :: PreOrder R;
  rs_metadata path : respects R (symlink_metadata path);
  rs_canonicalize path : respects R (canonicalize path);
  rs_read_dir path : respects R (read_dir_first path);
  rs_volume root : respects R (inspect_volume root);
  rs_streaming path maximum : respects R (fingerprint_streaming path maximum)
}.

(** Everything but the three calls that let an execution happen. *)
Class Respected {V} (R : relation V) `{FS : StdFs V} `{RO : ReadOnlyPlatform V}
    `{SH : ServiceHost V} `{CH : CoordinatorHost V} `{DB : ExecutionDatabase V}
    `{DJ : DurableJournal V} `{EX : ExecutorClient V} : Prop := {
  respected_looks :: Looks R;
  rs_now_iso t : R t (snd (execution_now_iso t));
  rs_push diagnostic t : R t (diagnostics_push diagnostic t);
  rs_now_ms t : R t (snd (execution_now_unix_ms t));
  rs_nonce : respects R fill_nonce;
  rs_recovering flag t : R t (set_recovery_in_progress flag t);
  rs_on_progress progress t : R t (on_progress progress t);
  rs_diagnostics_start diagnostics t : R t (diagnostics_start diagnostics t);
  rs_append event : respects R (journal_append event);
  rs_flush : respects R journal_flush;
  rs_external x : respects R (journal_events x);
  rs_open envelope authorization : respects R (open_executor_session envelope authorization);
  rs_prepare (session : ExecutorSession (W := V)) operation direction :
    respects R (prepare_operation session operation direction);
  rs_detail x : respects R (execution_detail x);
  rs_root workspace root : respects R (execution_root_by_id workspace root);
  rs_active_root workspace : respects R (active_root workspace);
  rs_journal_ids : respects R execution_ids_with_journal;
  rs_recovery_ids : respects R recovery_execution_ids;
  rs_interrupted : respects R mark_interrupted_executions_for_recovery;
  rs_recovery_required x message : respects R (mark_execution_recovery_required x message);
  rs_valid x : respects R (validate_execution_journal x);
  rs_events x : respects R (execution_journal_events x);
  rs_current x : respects R (execution_proposal_approval_is_current x);
  rs_invalidate x reason now : respects R (invalidate_execution_consent x reason now);
  rs_issue x nonce issued expires : respects R (issue_execution_consent_challenge x nonce issued expires);
  rs_expire x now : respects R (expire_execution_consent x now);
  rs_clear x nonce issued expires now :
    respects R (clear_execution_consent_challenge x nonce issued expires now);
  rs_control x : respects R (execution_control x);
  rs_pause x : respects R (request_execution_pause x);
  rs_cancel x : respects R (request_execution_cancel x);
  rs_unstarted x now : respects R (cancel_unstarted_execution x now);
  rs_session session : respects R (persist_executor_session session);
  rs_event event payload update now : respects R (persist_execution_event event payload update now);
  rs_intent event payload update request now :
    respects R (persist_executor_request_intent event payload update request now);
  rs_proved event payload update now request_id state :
    respects R (persist_execution_event_with_request_proof event payload update now request_id state);
  rs_response request_id digest class attempts error state now :
    respects R (db_record_executor_response request_id digest class attempts error state now);
  rs_transition request_id state now : respects R (transition_executor_request_proof request_id state now);
  rs_error x operation category code message detail now :
    respects R (add_execution_error x operation category code message detail now);
  rs_sessions x : respects R (executor_session_facts x);
  rs_requests x : respects R (executor_request_facts x);
  rs_assessment x state not_started applied ambiguous text now :
    respects R (db_persist_recovery_assessment x state not_started applied ambiguous text now)
}.

(** The three calls: a consent is attested, consumed, and a mutation dispatched. *)
Class RespectedAttest {V} (R : relation V) `{DB : ExecutionDatabase V} : Prop :=
  rs_attest x nonce issued expires mac now :
    respects R (attest_execution_consent x nonce issued expires mac now).
Class RespectedConsume {V} (R : relation V) `{DB : ExecutionDatabase V} : Prop :=
  rs_consume x nonce issued expires mac now :
    respects R (consume_execution_consent x nonce issued expires mac now).
Class RespectedDispatch {V} (R : relation V) `{EX : ExecutorClient V} : Prop :=
  rs_dispatch (session : ExecutorSession (W := V)) request binding :
    respects R (dispatch_prepared session request binding).

(** ** Composition *)

Section respects.
Context {V : Type} (R : relation V) `{PO : !PreOrder R}.

Lemma respects_bind {E A B} (m : SE V E A) (k : A -> SE V E B) :
  respects R m -> (forall a, respects R (k a)) -> respects R (m ≫= k).
Proof.
  intros Hm Hk t. specialize (Hm t). cbv [mbind se_bind].
  destruct (m t) as [[a|e] t1]; [|done]. etrans; [exact Hm|apply Hk].
Qed.
Lemma respects_still {E A} (m : SE V E A) : (forall t, snd (m t) = t) -> respects R m.
Proof. intros H t. by rewrite H. Qed.
Lemma respects_ret {E A} (a : A) : respects (E := E) R (mret a).
Proof. by apply respects_still. Qed.
Lemma respects_fail {E A} (e : E) : respects (A := A) R (se_fail e).
Proof. by apply respects_still. Qed.
Lemma respects_lift {E A} (m : res E A) : respects R (se_lift m).
Proof. by apply respects_still. Qed.
Lemma respects_map_err {E F A} (f : E -> F) (m : SE V E A) :
  respects R m -> respects R (se_map_err f m).
Proof using Type. intros H t. specialize (H t). unfold se_map_err. by destruct (m t) as [[] ?]. Qed.
Lemma respects_try {E F A} (m : SE V E A) : respects R m -> respects R (se_try (F := F) m).
Proof using Type. intros H t. specialize (H t). unfold se_try. by destruct (m t) as [[] ?]. Qed.
Lemma respects_fold {E A S} (f : S -> A -> SE V E S) l :
  (forall s a, respects R (f s a)) -> forall s, respects R (fold_se f s l).
Proof.
  intros H. induction l as [|a l IH]; intros s; cbn [fold_se]; [apply respects_ret|].
  by apply respects_bind.
Qed.
Lemma respects_update (f : V -> V) : (forall t, R t (f t)) -> respects R (update_world f).
Proof using Type. by intros H t. Qed.
End respects.

Create HintDb moves discriminated.
#[export] Hint Constants Opaque : moves.
#[export] Hint Resolve respects_ret respects_fail respects_lift : moves.
#[export] Hint Resolve rs_metadata rs_canonicalize rs_read_dir rs_volume rs_streaming rs_nonce
  rs_append rs_flush rs_external rs_open rs_prepare rs_detail rs_root rs_active_root rs_journal_ids
  rs_recovery_ids rs_interrupted rs_recovery_required rs_valid rs_events rs_current rs_invalidate
  rs_issue rs_expire rs_clear rs_control rs_pause rs_cancel rs_unstarted rs_session rs_event rs_intent
  rs_proved rs_response rs_transition rs_error rs_sessions rs_requests rs_assessment rs_attest
  rs_consume rs_dispatch : moves.

(** Runs through a computation. *)
Ltac moving :=
  repeat first
    [ solve [eauto with moves typeclass_instances]
    | progress intros
    | match goal with
      | |- respects _ (_ ≫= _) => apply respects_bind; [exact _|..]
      | |- respects _ (se_try _) => apply respects_try
      | |- respects _ (se_map_err _ _) => apply respects_map_err
      | |- respects _ (fold_se _ _ _) => apply respects_fold; [exact _|]
      | |- respects _ (match ?x with _ => _ end) => destruct x
      | |- respects _ ((match ?x with _ => _ end) _) => destruct x
      end ].

(** ** The service *)

Section service.
Context {V : Type} (R : relation V).
Context `{B3 : Blake3} `{BH : Blake3Hex} `{UU : UuidCrate} `{UC : UnicodeCase}.
Context `{JC : JsonCrate} `{AS : AuthSerde}.
Context `{TM : ToVec CanonicalPlanMaterial} `{TC : ToVec CanonicalSafetyPolicy}.
Context `{JF : ToJson FileFingerprint} `{JA : ToJson ExecutorAttemptAudit}.
Context `{JE : ToJson ExecutorErrorClass} `{JI : ToJson RecoveryItem}.
Context `{JS : ToJson ExecutorSessionIdentity} `{JR : ToJson ExecutorRequestFact}.
Context `{FS : StdFs V} `{RO : ReadOnlyPlatform V} `{TG : Target}.
Context `{SH : ServiceHost V} `{CH : CoordinatorHost V} `{DB : ExecutionDatabase V}.
Context `{DJ : DurableJournal V} `{EX : ExecutorClient V}.
Variable policy : ExecutionSafetyPolicy.
Variable gate : ApplyGate.
Variable consent_authority : bytes32.
Notation mv := (respects R).

Section looking.
Context `{LR : !Looks R}.

(** ** The file system is looked at *)

Lemma mv_fingerprint path : mv (execution_fingerprint (W := V) policy path).
Proof. unfold execution_fingerprint. moving. Qed.
#[local] Hint Resolve mv_fingerprint : moves.
Lemma mv_if_present path : mv (fingerprint_if_present (W := V) policy path).
Proof. unfold fingerprint_if_present. moving. Qed.
Lemma mv_has_entries path : mv (has_entries (W := V) path).
Proof. unfold has_entries. moving. Qed.
Lemma mv_expected expected changed path : mv (expected_state (W := V) policy expected changed path).
Proof. unfold expected_state. moving. Qed.
Lemma mv_ancestors current leaf n i rest : mv (check_ancestors (W := V) current leaf n i rest).
Proof. revert current i. induction rest; intros; cbn [check_ancestors]; moving. Qed.
Lemma mv_nearest candidates : mv (nearest_existing (W := V) candidates).
Proof. induction candidates; cbn [nearest_existing]; moving. Qed.
Lemma mv_overlap paths candidate : mv (reject_overlap (W := V) paths candidate).
Proof. induction paths; cbn [reject_overlap]; unfold canonical_or_self; moving. Qed.
#[local] Hint Resolve mv_if_present mv_has_entries mv_expected mv_ancestors mv_nearest mv_overlap : moves.
Lemma mv_resolve_absent root relative staging :
  mv (resolve_absent_destination (W := V) policy root relative staging).
Proof.
  unfold resolve_absent_destination, validate_existing_ancestors, nearest_existing_parent,
    reject_app_owned_path. moving.
Qed.
Lemma mv_resolve_existing root relative : mv (resolve_existing_source (W := V) policy root relative).
Proof.
  unfold resolve_existing_source, validate_existing_ancestors, reject_app_owned_path. moving.
Qed.
Lemma mv_validate_root root : mv (validate_root (W := V) policy root).
Proof. unfold validate_root. moving. Qed.
#[local] Hint Resolve mv_resolve_absent mv_resolve_existing mv_validate_root : moves.
Lemma mv_revalidate root operation : mv (revalidate_operation (W := V) policy root operation).
Proof. unfold revalidate_operation. moving. Qed.
Lemma mv_postcondition root operation : mv (verify_postcondition (W := V) policy root operation).
Proof. unfold verify_postcondition. moving. Qed.
Lemma mv_revalidate_rollback root operation : mv (revalidate_rollback (W := V) policy root operation).
Proof. unfold revalidate_rollback. moving. Qed.
Lemma mv_rollback_postcondition root operation :
  mv (verify_rollback_postcondition (W := V) policy root operation).
Proof. unfold verify_rollback_postcondition. moving. Qed.
Lemma mv_observe_directory path there gone unexpected :
  mv (observe_directory (W := V) path there gone unexpected).
Proof. unfold observe_directory. moving. Qed.
#[local] Hint Resolve mv_revalidate mv_postcondition mv_revalidate_rollback mv_rollback_postcondition
  mv_observe_directory : moves.
Lemma mv_observe root operation : mv (observe_recovery (W := V) policy root operation).
Proof. unfold observe_recovery. moving. Qed.
Lemma mv_observe_rollback root operation : mv (observe_rollback_recovery (W := V) policy root operation).
Proof. unfold observe_rollback_recovery. moving. Qed.
#[local] Hint Resolve mv_observe mv_observe_rollback : moves.

End looking.

(** ** What neither attests, consumes nor dispatches *)

Context `{RR : !Respected R}.
#[local] Hint Resolve mv_fingerprint mv_if_present mv_has_entries mv_expected mv_ancestors mv_nearest
  mv_overlap mv_resolve_absent mv_resolve_existing mv_validate_root mv_revalidate mv_postcondition
  mv_revalidate_rollback mv_rollback_postcondition mv_observe_directory mv_observe mv_observe_rollback : moves.

Lemma mv_now_ms : mv (now_ms (W := V)).
Proof. intros t. pose proof (rs_now_ms t). unfold now_ms. by destruct (execution_now_unix_ms t). Qed.
Lemma mv_now_iso : mv (now_iso (W := V)).
Proof. intros t. pose proof (rs_now_iso t). unfold now_iso. by destruct (execution_now_iso t). Qed.
Lemma mv_progress progress : mv (report_progress (W := V) progress).
Proof. apply respects_update. intros t. apply rs_on_progress. Qed.
Lemma mv_session_of session : mv (session_of (W := V) session).
Proof. by apply respects_still; [exact _|]. Qed.
Lemma mv_locked {E} : respects R (E := E) (fun w : V => (Ok (journal_is_locked w), w)).
Proof. by apply respects_still; [exact _|]. Qed.
Lemma mv_mutations : mv (require_mutations_unlocked (W := V)).
Proof. by apply respects_still; [exact _|]. Qed.
#[local] Hint Resolve mv_now_ms mv_now_iso mv_progress mv_session_of mv_mutations : moves.

Lemma mv_record diagnostic : mv (update_world (W := V) (record_journal_diagnostic diagnostic)).
Proof.
  apply respects_update. intros t. unfold record_journal_diagnostic.
  repeat case_match; first [done | apply rs_push].
Qed.
#[local] Hint Resolve mv_record : moves.
Lemma mv_diagnose scope x code message : mv (diagnose (W := V) scope x code message).
Proof. unfold diagnose. moving. Qed.
#[local] Hint Resolve mv_diagnose : moves.
Lemma mv_lock A scope x code message : mv (lock_journal (W := V) (A := A) scope x code message).
Proof. unfold lock_journal. moving. Qed.
#[local] Hint Resolve mv_lock : moves.
Lemma mv_diagnostics : mv (journal_diagnostic_state (W := V)).
Proof.
  intros t. unfold journal_diagnostic_state. destruct (diagnostics_read t); [done|].
  pose proof (rs_now_ms t). by destruct (execution_now_unix_ms t).
Qed.
Lemma mv_require_valid x : mv (require_valid_database_journal (W := V) x).
Proof. unfold require_valid_database_journal. moving. Qed.
Lemma mv_append_missing x events : mv (append_missing (W := V) x events).
Proof. induction events; cbn [append_missing]; moving. Qed.
#[local] Hint Resolve mv_diagnostics mv_require_valid mv_append_missing : moves.
Lemma mv_synchronize x allow : mv (synchronize_external_journal (W := V) x allow).
Proof. unfold synchronize_external_journal. moving. Qed.
#[local] Hint Resolve mv_synchronize : moves.
Lemma mv_cursor x : mv (journal_cursor (W := V) x).
Proof. unfold journal_cursor. moving. Qed.
Lemma mv_commit x event warning cursor : mv (commit_event (W := V) x event warning cursor).
Proof. unfold commit_event. moving. Qed.
Lemma mv_next x operation kind payload cursor : mv (next_event (W := V) x operation kind payload cursor).
Proof. unfold next_event. moving. Qed.
#[local] Hint Resolve mv_cursor mv_commit mv_next : moves.
Lemma mv_persist_event x operation kind payload update cursor :
  mv (persist_event (W := V) x operation kind payload update cursor).
Proof. unfold persist_event. moving. Qed.
Lemma mv_persist_proof x operation kind payload update request_id state cursor :
  mv (persist_event_with_request_proof (W := V) x operation kind payload update request_id state cursor).
Proof. unfold persist_event_with_request_proof. moving. Qed.
Lemma mv_persist_intent kind payload request session cursor :
  mv (persist_request_intent (W := V) kind payload request session cursor).
Proof. unfold persist_request_intent. moving. Qed.
#[local] Hint Resolve mv_persist_event mv_persist_proof mv_persist_intent : moves.
Lemma mv_finish x status message cursor : mv (finish_execution (W := V) x status message cursor).
Proof. unfold finish_execution. moving. Qed.
#[local] Hint Resolve mv_finish : moves.
Lemma mv_fail_with operation category code message audit reason cursor :
  mv (fail_with (W := V) operation category code message audit reason cursor).
Proof. unfold fail_with. moving. Qed.
Lemma mv_mark direction status message operation code detail audit cursor :
  mv (mark_recovery_required (W := V) direction status message operation code detail audit cursor).
Proof. unfold mark_recovery_required. moving. Qed.
Lemma mv_record_response request dispatch : mv (record_executor_response (W := V) request dispatch).
Proof. unfold record_executor_response. moving. Qed.
Lemma mv_transition_proof request state : mv (transition_proof (W := V) request state).
Proof. unfold transition_proof. moving. Qed.
#[local] Hint Resolve mv_fail_with mv_mark mv_record_response mv_transition_proof : moves.

(** *** The consent *)

Lemma mv_gate : mv (require_apply_gate (W := V) gate).
Proof. unfold require_apply_gate. moving. Qed.
Lemma mv_withdraw x reason : mv (invalidate_unstarted_consent (W := V) x reason).
Proof. unfold invalidate_unstarted_consent. moving. Qed.
#[local] Hint Resolve mv_gate mv_withdraw : moves.
Lemma mv_refuse A detail reason error : mv (refuse_consent (W := V) (A := A) detail reason error).
Proof. unfold refuse_consent. moving. Qed.
#[local] Hint Resolve mv_refuse : moves.
Lemma mv_or_refuse A detail reason (attempt : SE V ApplicationError A) :
  mv attempt -> mv (or_refuse detail reason attempt).
Proof. intros H. unfold or_refuse. moving. Qed.
Lemma mv_execution_root detail : mv (execution_root (W := V) policy detail).
Proof. unfold execution_root. moving. Qed.
#[local] Hint Resolve mv_execution_root : moves.
Lemma mv_sources detail root : mv (revalidate_approved_sources (W := V) policy detail root).
Proof. unfold revalidate_approved_sources, revalidate_approved_source. moving. Qed.
#[local] Hint Resolve mv_sources : moves.
Lemma mv_context detail : mv (revalidate_consent_context_or_invalidate (W := V) policy detail).
Proof.
  unfold revalidate_consent_context_or_invalidate. cbv zeta.
  repeat (apply respects_bind; [exact _| |intros ?]); try apply mv_or_refuse; moving.
Qed.
Lemma mv_stored_attestation detail :
  mv (verify_stored_consent_attestation (W := V) consent_authority detail).
Proof. unfold verify_stored_consent_attestation. moving. Qed.
#[local] Hint Resolve mv_context mv_stored_attestation : moves.
Lemma mv_create x phrase : mv (create_execution_consent_challenge (W := V) policy gate consent_authority x phrase).
Proof. unfold create_execution_consent_challenge, create_execution_consent_challenge_at. moving. Qed.
Lemma mv_journal_approval x detail challenge : mv (journal_approval (W := V) x detail challenge).
Proof. unfold journal_approval. moving. Qed.
#[local] Hint Resolve mv_journal_approval : moves.
Context `{RA : !RespectedAttest R}.
Lemma mv_finalize challenge :
  mv (finalize_execution_consent (W := V) policy gate consent_authority challenge).
Proof. unfold finalize_execution_consent, finalize_execution_consent_at. moving. Qed.
Lemma mv_discard challenge : mv (discard_execution_consent_challenge (W := V) consent_authority challenge).
Proof. unfold discard_execution_consent_challenge. moving. Qed.
Lemma mv_pause_execution x : mv (pause_execution (W := V) x).
Proof. unfold pause_execution. moving. Qed.
Lemma mv_cancel_execution x : mv (cancel_execution (W := V) x).
Proof. unfold cancel_execution, withdraw_consent. moving. Qed.

(** *** Recovery, and the start of the service *)

Lemma mv_record_verdict x request operation v cursor :
  mv (record_verdict (W := V) x request operation v cursor).
Proof. unfold record_verdict. moving. Qed.
#[local] Hint Resolve mv_record_verdict : moves.
Lemma mv_reconcile x root detail sessions events requests found :
  mv (reconcile_requests (W := V) policy x root detail sessions events found requests).
Proof.
  unfold reconcile_requests, reconcile_one_interrupted_request, reconcile_bound_request, observe_request.
  moving.
Qed.
Lemma mv_assess x found sessions : mv (assess_recovery (W := V) x found sessions).
Proof. unfold assess_recovery, persist_recovery_assessment_result. moving. Qed.
#[local] Hint Resolve mv_reconcile mv_assess : moves.
Lemma mv_recover x : mv (recover_execution (W := V) policy x).
Proof.
  assert (mv (recover_guarded (W := V) policy x)) as Hguarded.
  { unfold recover_guarded. apply respects_bind; [exact _| |intros [[[[[? ?] ?] ?] ?] ?]]; moving. }
  intros t. unfold recover_execution. destruct (recovery_in_progress t); [done|].
  etrans; [apply (rs_recovering true)|].
  specialize (Hguarded (set_recovery_in_progress true t)).
  destruct (recover_guarded policy x (set_recovery_in_progress true t)) as [r t'].
  etrans; [exact Hguarded|apply rs_recovering].
Qed.
#[local] Hint Resolve mv_recover : moves.
Lemma mv_check_journal x : mv (check_journal_at_start (W := V) x).
Proof.
  unfold check_journal_at_start. apply respects_bind; [exact _|moving|intros valid].
  apply respects_bind; [exact _|moving|intros []].
  apply respects_bind; [exact _|apply mv_locked|intros locked]. moving.
Qed.
#[local] Hint Resolve mv_check_journal : moves.
Lemma mv_new_service : mv (new_service (W := V) policy).
Proof.
  unfold new_service. apply respects_bind; [exact _| |].
  - apply respects_map_err. unfold construct.
    apply respects_bind; [exact _|apply respects_update; intros t; apply rs_diagnostics_start|]. moving.
  - intros []. unfold reconcile_interrupted_executions. apply respects_bind; [exact _|apply mv_locked|].
    intros locked. moving.
Qed.

(** *** Before and after a dispatch *)

Lemma mv_open_stored envelope authorization : mv (open_stored_session (W := V) envelope authorization).
Proof. unfold open_stored_session. moving. Qed.
Lemma mv_terminal x cursor : mv (terminal_detail (W := V) x cursor).
Proof. unfold terminal_detail. moving. Qed.
#[local] Hint Resolve mv_open_stored mv_terminal : moves.
Lemma mv_settle x root operation request dispatch total cursor :
  mv (settle_dispatch (W := V) policy x root operation request dispatch total cursor).
Proof.
  unfold settle_dispatch, settle_success, settle_not_applied, require_recovery,
    mark_executor_recovery_required, fail_operation_with_executor_audit, fail_operation. moving.
Qed.
Lemma mv_block x operation fields code message reason cursor :
  mv (block_rollback (W := V) x operation fields code message reason cursor).
Proof. unfold block_rollback. moving. Qed.
#[local] Hint Resolve mv_block : moves.
Lemma mv_settle_rollback x root operation request dispatch total cursor :
  mv (settle_rollback_dispatch (W := V) policy x root operation request dispatch total cursor).
Proof.
  unfold settle_rollback_dispatch, settle_rollback_success, settle_rollback_not_applied,
    require_rollback_recovery, mark_rollback_recovery_required. moving.
Qed.
Lemma mv_finish_detail x status message cursor :
  mv (finish_with_detail (W := V) x status message cursor).
Proof. unfold finish_with_detail. moving. Qed.
#[local] Hint Resolve mv_finish_detail : moves.
Context `{RC : !RespectedConsume R}.
Lemma mv_authorise x detail now :
  mv (authorise_start (W := V) policy consent_authority x detail now).
Proof. unfold authorise_start. moving. Qed.
Lemma mv_complete x total cursor : mv (complete_execution (W := V) x total cursor).
Proof. unfold complete_execution. moving. Qed.
Lemma mv_authorization detail rollback : mv (rollback_authorization (W := V) detail rollback).
Proof. unfold rollback_authorization. moving. Qed.
(** ** A start, and a rollback *)

Context `{RD : !RespectedDispatch R}.

#[local] Hint Resolve mv_now_ms mv_progress mv_session_of mv_require_valid mv_synchronize mv_cursor
  mv_persist_event mv_persist_intent mv_mark mv_transition_proof mv_revalidate mv_revalidate_rollback
  mv_gate mv_execution_root mv_open_stored mv_terminal mv_settle mv_block mv_settle_rollback
  mv_finish_detail mv_authorise mv_complete mv_authorization mv_fail_with : moves.

Lemma mv_apply x root operation session total cursor :
  mv (apply_scheduled_operation (W := V) policy x root operation session total cursor).
Proof.
  unfold apply_scheduled_operation, require_recovery, mark_executor_recovery_required, fail_operation. moving.
Qed.
Lemma mv_roll_back x root operation session total cursor :
  mv (roll_back_operation (W := V) policy x root operation session total cursor).
Proof.
  unfold roll_back_operation, require_rollback_recovery, mark_rollback_recovery_required. moving.
Qed.
#[local] Hint Resolve mv_apply mv_roll_back : moves.
Lemma mv_run_schedule x root session total cycle_group operations : forall state,
  mv (run_schedule (W := V) policy x root session total cycle_group state operations).
Proof. induction operations; intros; cbn [run_schedule]; unfold fail_operation; moving. Qed.
Lemma mv_run_rollback x root session total operations : forall cursor,
  mv (run_rollback (W := V) policy x root session total cursor operations).
Proof. induction operations; intros; cbn [run_rollback]; moving. Qed.
#[local] Hint Resolve mv_run_schedule mv_run_rollback : moves.
Lemma mv_start_at x now : mv (start_execution_at (W := V) policy gate consent_authority x now).
Proof. unfold start_execution_at. moving. Qed.
Lemma mv_start x : mv (start_execution (W := V) policy gate consent_authority x).
Proof.
  unfold start_execution. apply respects_bind; [exact _|apply mv_now_ms|]. apply mv_start_at.
Qed.
Lemma mv_rollback x : mv (rollback_execution (W := V) policy gate x).
Proof. unfold rollback_execution. cbv zeta. moving. Qed.
End service.
