(* ===== verification/CoTrace.v ===== *)
(** * What the coordinator asks of its two journals and of the executor

    The effects of a coordinated execution, the world that logs them, and what
    each step of the coordinator adds to the log. *)

From S2P Require Export Recovery.
#[local] Open Scope Z_scope.

(** ** Effects *)

Inductive CoEffect :=
  (* the events the database and the external journal hold *)
  | CeDatabaseEvents (events : list OperationJournalEvent)
  | CeExternalEvents (events : list OperationJournalEvent)
  | CeAppend (event : OperationJournalEvent) (done : bool)
  | CeFlush (done : bool)
  (* an event stored in the database, with the state it gives a request *)
  | CeEvent (event : OperationJournalEvent) (proof : option (str * ExecutorRequestState)) (done : bool)
  | CeIntent (event : OperationJournalEvent) (request : ExecutorRequestIdentity) (done : bool)
  | CeState (request_id : str) (state : ExecutorRequestState) (done : bool)
  | CeConsume (detail : option ExecutionDetail)
  | CeOpen (authorization : SessionAuthorization) (done : bool)
  | CePrepare (operation_id : OperationStepId) (direction : OperationDirection)
      (request : option ExecutorRequestIdentity)
  | CeDispatch (request : ExecutorRequestIdentity) (binding : CommittedJournalEventBinding)
      (outcome : option ExecutorOutcome).

Notation CoTraced := (Logged CoEffect).

Definition value_of {E A} (r : res E A) : option A :=
  match r with Ok a => Some a | Err _ => None end.
Definition note_value {E A} (note : A -> CoEffect) (r : res E A) : list CoEffect :=
  match r with Ok a => [note a] | Err _ => [] end.

(** Runs the world below the log. *)
Definition below {F W A} (f : W -> A * W) : Logged F W -> A * Logged F W :=
  fun '(w, log) => let '(a, w') := f w in (a, (w', log)).

#[export] Instance cotraced_journal {W} `{DurableJournal W} : DurableJournal (CoTraced W) := {
  journal_append event := logged (journal_append event) (fun r => [CeAppend event (is_ok r)]);
  journal_flush := logged journal_flush (fun r => [CeFlush (is_ok r)]);
  journal_events x := logged (journal_events x) (note_value CeExternalEvents);
  journal_diagnostics w := journal_diagnostics (fst w)
}.
#[export] Instance cotraced_reads {W} `{ReadOnlyPlatform W} : ReadOnlyPlatform (CoTraced W) := {
  inspect_volume root := passing (inspect_volume root);
  fingerprint path content maximum := passing (fingerprint path content maximum);
  fingerprint_streaming path maximum := passing (fingerprint_streaming path maximum)
}.
#[export] Instance cotraced_fs {W} `{StdFs W} : StdFs (CoTraced W) := {
  symlink_metadata path := passing (symlink_metadata path);
  canonicalize path := passing (canonicalize path);
  read_dir_first path := passing (read_dir_first path)
}.
#[export] Instance cotraced_service {W} `{ServiceHost W} : ServiceHost (CoTraced W) := {
  diagnostics_read w := diagnostics_read (fst w);
  diagnostics_push diagnostic w := (diagnostics_push diagnostic (fst w), snd w);
  execution_now_iso := below execution_now_iso
}.
#[export] Instance cotraced_host {W} `{CoordinatorHost W} : CoordinatorHost (CoTraced W) := {
  execution_now_unix_ms := below execution_now_unix_ms;
  fill_nonce := passing fill_nonce;
  recovery_in_progress w := recovery_in_progress (fst w);
  set_recovery_in_progress flag w := (set_recovery_in_progress flag (fst w), snd w);
  on_progress progress w := (on_progress progress (fst w), snd w);
  diagnostics_start diagnostics w := (diagnostics_start diagnostics (fst w), snd w)
}.
#[export] Instance cotraced_database {W} `{ExecutionDatabase W} : ExecutionDatabase (CoTraced W) := {
  execution_detail x := passing (execution_detail x);
  execution_root_by_id workspace root := passing (execution_root_by_id workspace root);
  active_root workspace := passing (active_root workspace);
  execution_ids_with_journal := passing execution_ids_with_journal;
  recovery_execution_ids := passing recovery_execution_ids;
  mark_interrupted_executions_for_recovery := passing mark_interrupted_executions_for_recovery;
  mark_execution_recovery_required x reason := passing (mark_execution_recovery_required x reason);
  validate_execution_journal x := passing (validate_execution_journal x);
  execution_journal_events x :=
    logged (execution_journal_events x) (note_value CeDatabaseEvents);
  execution_proposal_approval_is_current x := passing (execution_proposal_approval_is_current x);
  invalidate_execution_consent x reason now := passing (invalidate_execution_consent x reason now);
  issue_execution_consent_challenge x nonce issued expires :=
    passing (issue_execution_consent_challenge x nonce issued expires);
  expire_execution_consent x now := passing (expire_execution_consent x now);
  attest_execution_consent x nonce issued expires mac now :=
    passing (attest_execution_consent x nonce issued expires mac now);
  clear_execution_consent_challenge x nonce issued expires now :=
    passing (clear_execution_consent_challenge x nonce issued expires now);
  consume_execution_consent x nonce issued expires mac now :=
    logged (consume_execution_consent x nonce issued expires mac now)
      (fun r => [CeConsume (value_of r)]);
  execution_control x := passing (execution_control x);
  request_execution_pause x := passing (request_execution_pause x);
  request_execution_cancel x := passing (request_execution_cancel x);
  cancel_unstarted_execution x now := passing (cancel_unstarted_execution x now);
  persist_executor_session session := passing (persist_executor_session session);
  persist_execution_event event payload update now :=
    logged (persist_execution_event event payload update now)
      (fun r => [CeEvent event None (is_ok r)]);
  persist_executor_request_intent event payload update request now :=
    logged (persist_executor_request_intent event payload update request now)
      (fun r => [CeIntent event request (is_ok r)]);
  persist_execution_event_with_request_proof event payload update now request_id state :=
    logged (persist_execution_event_with_request_proof event payload update now request_id state)
      (fun r => [CeEvent event (Some (request_id, state)) (is_ok r)]);
  db_record_executor_response request_id digest class attempts error state now :=
    logged (db_record_executor_response request_id digest class attempts error state now)
      (fun r => [CeState request_id state (is_ok r)]);
  transition_executor_request_proof request_id state now :=
    logged (transition_executor_request_proof request_id state now)
      (fun r => [CeState request_id state (is_ok r)]);
  add_execution_error x operation category code message detail now :=
    passing (add_execution_error x operation category code message detail now);
  executor_session_facts x := passing (executor_session_facts x);
  executor_request_facts x := passing (executor_request_facts x);
  db_persist_recovery_assessment x state not_started applied ambiguous text now :=
    passing (db_persist_recovery_assessment x state not_started applied ambiguous text now)
}.
#[export] Instance cotraced_client {W} `{ExecutorClient W} : ExecutorClient (CoTraced W) := {
  ExecutorSession := ExecutorSession (W := W);
  open_executor_session envelope authorization :=
    logged (open_executor_session envelope authorization)
      (fun r => [CeOpen authorization (is_ok r)]);
  session_identity session w := session_identity session (fst w);
  prepare_operation session operation_id direction :=
    logged (prepare_operation session operation_id direction)
      (fun r => [CePrepare operation_id direction (value_of r)]);
  dispatch_prepared session request binding :=
    logged (dispatch_prepared session request binding)
      (fun r => [CeDispatch request binding (edr_outcome <$> value_of r)])
}.

(** ** Computations that add only some effects *)

(** Neither the executor, nor the consent, nor a request is touched. *)
Definition quiet (effect : CoEffect) : Prop :=
  match effect with
  | CeDatabaseEvents _ | CeExternalEvents _ | CeAppend _ _ | CeFlush _ | CeEvent _ None _ => True
  | _ => False
  end.

(** Nothing is dispatched, and no consent is consumed. *)
Definition undispatched (effect : CoEffect) : Prop :=
  match effect with CeDispatch _ _ _ | CeConsume _ => False | _ => True end.

Lemma quiet_undispatched effect : quiet effect -> undispatched effect.
Proof. by destruct effect as [| | | |? []| | | | | |]. Qed.

Definition adds {W E A} (P : CoEffect -> Prop) (m : SE (CoTraced W) E A) : Prop :=
  forall log, wp m log (fun _ log' => exists extra, log' = log ++ extra /\ Forall P extra).

Section adds.
Context {W : Type} (P : CoEffect -> Prop).
Notation T := (CoTraced W).

Lemma adds_weaken {E A} (Q : CoEffect -> Prop) (m : SE T E A) :
  adds Q m -> (forall effect, Q effect -> P effect) -> adds P m.
Proof.
  intros H HQ log. eapply wp_weaken; [apply H|]. intros r log' (extra & -> & He).
  exists extra. split; [done|]. by eapply Forall_impl.
Qed.

Lemma adds_bind {E A B} (m : SE T E A) (k : A -> SE T E B) :
  adds P m -> (forall a, adds P (k a)) -> adds P (m ≫= k).
Proof.
  intros Hm Hk log. apply wp_bind. eapply wp_weaken; [apply Hm|].
  intros [a|e] log' (extra & -> & He); [|by exists extra].
  eapply wp_weaken; [apply Hk|]. intros r log' (extra' & -> & He').
  exists (extra ++ extra'). rewrite app_assoc. split; [done|]. by apply Forall_app.
Qed.

Lemma adds_nothing {E A} (m : SE T E A) :
  (forall w log, snd (snd (m (w, log))) = log) -> adds P m.
Proof. intros H log w. exists []. rewrite app_nil_r. by rewrite H. Qed.

Lemma adds_ret {E A} (a : A) : adds (E := E) P (mret (M := SE T E) a).
Proof. by apply adds_nothing. Qed.
Lemma adds_fail {E A} (e : E) : adds (A := A) P (se_fail (W := T) e).
Proof. by apply adds_nothing. Qed.
Lemma adds_lift {E A} (m : res E A) : adds P (se_lift (W := T) m).
Proof. by apply adds_nothing. Qed.
Lemma adds_passing {E A} (m : SE W E A) : adds P (passing m).
Proof. apply adds_nothing. intros w log. unfold passing. by destruct (m w). Qed.

Lemma adds_logged {E A} (m : SE W E A) note :
  (forall r, Forall P (note r)) -> adds P (logged m note).
Proof. intros H log. apply wp_logged. intros r. eauto. Qed.

Lemma adds_map_err {E F A} (f : E -> F) (m : SE T E A) : adds P m -> adds P (se_map_err f m).
Proof. intros H log. apply wp_map_err. apply H. Qed.
Lemma adds_try {E F A} (m : SE T E A) : adds P m -> adds P (se_try (F := F) m).
Proof. intros H log. apply wp_try. apply H. Qed.

Lemma adds_fold {E A S} (f : S -> A -> SE T E S) l :
  (forall s a, adds P (f s a)) -> forall s, adds P (fold_se f s l).
Proof.
  intros H. induction l as [|a l IH]; intros s; cbn [fold_se]; [apply adds_ret|].
  by apply adds_bind.
Qed.

(** A step that adds only such effects, inside a larger run. *)
Lemma wp_adds {E A} (m : SE T E A) log (Q : res E A -> list CoEffect -> Prop) :
  adds P m -> (forall r extra, Forall P extra -> Q r (log ++ extra)) -> wp m log Q.
Proof. intros H HQ. eapply wp_weaken; [apply H|]. intros r log' (extra & -> & ?). eauto. Qed.
End adds.

Create HintDb adds discriminated.
#[export] Hint Constants Opaque : adds.
#[export] Hint Resolve adds_ret adds_fail adds_lift adds_passing : adds.

(** A method of the world. *)
Ltac asking :=
  lazymatch goal with
  | |- adds _ (execution_detail _) => apply adds_passing
  | |- adds _ (execution_root_by_id _ _) => apply adds_passing
  | |- adds _ (active_root _) => apply adds_passing
  | |- adds _ execution_ids_with_journal => apply adds_passing
  | |- adds _ recovery_execution_ids => apply adds_passing
  | |- adds _ mark_interrupted_executions_for_recovery => apply adds_passing
  | |- adds _ (mark_execution_recovery_required _ _) => apply adds_passing
  | |- adds _ (validate_execution_journal _) => apply adds_passing
  | |- adds _ (execution_proposal_approval_is_current _) => apply adds_passing
  | |- adds _ (invalidate_execution_consent _ _ _) => apply adds_passing
  | |- adds _ (issue_execution_consent_challenge _ _ _ _) => apply adds_passing
  | |- adds _ (expire_execution_consent _ _) => apply adds_passing
  | |- adds _ (attest_execution_consent _ _ _ _ _ _) => apply adds_passing
  | |- adds _ (clear_execution_consent_challenge _ _ _ _ _) => apply adds_passing
  | |- adds _ (execution_control _) => apply adds_passing
  | |- adds _ (request_execution_pause _) => apply adds_passing
  | |- adds _ (request_execution_cancel _) => apply adds_passing
  | |- adds _ (cancel_unstarted_execution _ _) => apply adds_passing
  | |- adds _ (persist_executor_session _) => apply adds_passing
  | |- adds _ (add_execution_error _ _ _ _ _ _ _) => apply adds_passing
  | |- adds _ (executor_session_facts _) => apply adds_passing
  | |- adds _ (executor_request_facts _) => apply adds_passing
  | |- adds _ (db_persist_recovery_assessment _ _ _ _ _ _ _) => apply adds_passing
  | |- adds _ (symlink_metadata _) => apply adds_passing
  | |- adds _ (canonicalize _) => apply adds_passing
  | |- adds _ (read_dir_first _) => apply adds_passing
  | |- adds _ (inspect_volume _) => apply adds_passing
  | |- adds _ (fingerprint_streaming _ _) => apply adds_passing
  | |- adds _ fill_nonce => apply adds_passing
  | |- adds _ (execution_journal_events _) => apply adds_logged; intros []; by repeat constructor
  | |- adds _ (persist_execution_event _ _ _ _) => apply adds_logged; intros []; by repeat constructor
  | |- adds _ (persist_executor_request_intent _ _ _ _ _) => apply adds_logged; intros []; by repeat constructor
  | |- adds _ (persist_execution_event_with_request_proof _ _ _ _ _ _) => apply adds_logged; intros []; by repeat constructor
  | |- adds _ (db_record_executor_response _ _ _ _ _ _ _) => apply adds_logged; intros []; by repeat constructor
  | |- adds _ (transition_executor_request_proof _ _ _) => apply adds_logged; intros []; by repeat constructor
  | |- adds _ (journal_events _) => apply adds_logged; intros []; by repeat constructor
  | |- adds _ (journal_append _) => apply adds_logged; intros []; by repeat constructor
  | |- adds _ journal_flush => apply adds_logged; intros []; by repeat constructor
  | |- adds _ (open_executor_session _ _) => apply adds_logged; intros []; by repeat constructor
  | |- adds _ (prepare_operation _ _ _) => apply adds_logged; intros []; by repeat constructor
  | |- adds _ (consume_execution_consent _ _ _ _ _ _) => apply adds_logged; intros []; by repeat constructor
  | |- adds _ (dispatch_prepared _ _ _) => apply adds_logged; intros []; by repeat constructor
  end.

(** Runs through a computation whose parts add only such effects. *)
Ltac adding :=
  repeat first
    [ solve [eauto with adds]
    | progress intros
    | match goal with
      | |- adds _ (_ ≫= _) => apply adds_bind
      | |- adds _ (se_try _) => apply adds_try
      | |- adds _ (se_map_err _ _) => apply adds_map_err
      | |- adds _ (fold_se _ _ _) => apply adds_fold
      | |- adds _ (match ?x with _ => _ end) => destruct x
      | |- adds _ (fun w => _) => apply adds_nothing; intros; cbn;
          repeat case_match; simplify_eq/=; done
      end
    | asking ].

(** ** The journals *)

(** What a successful synchronisation does: it reads both journals, appends
    what the external one lacks, and flushes. *)
Definition sync_log (database external : list OperationJournalEvent) : list CoEffect :=
  [CeDatabaseEvents database; CeExternalEvents external]
  ++ ((fun event => CeAppend event true) <$> drop (length external) database) ++ [CeFlush true].

(** The external journal is a prefix of the database's, and lacks at most one
    event, or none. *)
Definition in_step (allow_single_append : bool)
    (database external : list OperationJournalEvent) : Prop :=
  external `prefix_of` database
  /\ (length database <= length external + (if allow_single_append then 1 else 0))%nat.

Lemma prefix_of_zip {A} `{EqDecision A} (l k : list A) :
  (length k <= length l)%nat ->
  forallb (fun pair => bool_decide (pair.1 = pair.2)) (zip k l) = true -> k `prefix_of` l.
Proof.
  revert l. induction k as [|x k IH]; intros l Hlen H; [apply prefix_nil|].
  destruct l as [|y l]; cbn in *; [lia|]. apply andb_true_iff in H as [Hxy H].
  apply bool_decide_eq_true in Hxy as ->. apply prefix_cons, IH; [lia|done].
Qed.

Section coordinator.
Context {W : Type} `{B3 : Blake3} `{BH : Blake3Hex} `{UU : UuidCrate} `{UC : UnicodeCase}.
Context `{JC : JsonCrate} `{AS : AuthSerde}.
Context `{TM : ToVec CanonicalPlanMaterial} `{TC : ToVec CanonicalSafetyPolicy}.
Context `{JF : ToJson FileFingerprint} `{JA : ToJson ExecutorAttemptAudit}.
Context `{JE : ToJson ExecutorErrorClass}.
Context `{FS : StdFs W} `{RO : ReadOnlyPlatform W} `{TG : Target}.
Context `{SH : ServiceHost W} `{CH : CoordinatorHost W} `{DB : ExecutionDatabase W}.
Context `{DJ : DurableJournal W} `{EX : ExecutorClient W}.
Notation T := (CoTraced W).

Lemma adds_now_ms P : adds P (now_ms (W := T)).
Proof.
  apply adds_nothing. intros w log. unfold now_ms, execution_now_unix_ms. cbn.
  unfold below. by destruct (execution_now_unix_ms w).
Qed.
Lemma adds_now_iso P : adds P (now_iso (W := T)).
Proof.
  apply adds_nothing. intros w log. unfold now_iso, execution_now_iso. cbn.
  unfold below. by destruct (execution_now_iso w).
Qed.
#[local] Hint Resolve adds_now_ms adds_now_iso : adds.

Lemma adds_diagnose P scope x code message : adds P (diagnose (W := T) scope x code message).
Proof.
  unfold diagnose, update_world, record_journal_diagnostic. adding.
Qed.
#[local] Hint Resolve adds_diagnose : adds.
Lemma adds_lock P A scope x code message : adds P (lock_journal (W := T) (A := A) scope x code message).
Proof. unfold lock_journal. adding. Qed.
#[local] Hint Resolve adds_lock : adds.

Lemma adds_valid_journal P x : adds P (require_valid_database_journal (W := T) x).
Proof. unfold require_valid_database_journal. adding. Qed.
#[local] Hint Resolve adds_valid_journal : adds.

Lemma diagnostic_keeps_log diagnostic (w : T) : snd (record_journal_diagnostic diagnostic w) = snd w.
Proof. unfold record_journal_diagnostic. by repeat case_match. Qed.

Lemma wp_lock {A} scope x code message log (Q : res ApplicationError A -> list CoEffect -> Prop) :
  Q (Err ApJournalLocked) log -> wp (lock_journal (W := T) scope x code message) log Q.
Proof.
  intros H w. unfold lock_journal, diagnose, now_ms, execution_now_unix_ms.
  cbv [mbind se_bind cotraced_host below]. destruct (execution_now_unix_ms w) as [now w'].
  cbv [update_world se_fail fst snd]. pose proof (diagnostic_keeps_log
    (external_diagnostic scope (Some x) code message now) (w', log)) as Hlog.
  destruct (record_journal_diagnostic _ _). cbn in Hlog. by subst.
Qed.

(** Every missing event is appended, in order, or the journal is locked. *)
Lemma wp_append_missing x events log (Q : res ApplicationError unit -> list CoEffect -> Prop) :
  (forall extra, Forall quiet extra -> Q (Err ApJournalLocked) (log ++ extra)) ->
  Q (Ok tt) (log ++ ((fun event => CeAppend event true) <$> events)) ->
  wp (append_missing (W := T) x events) log Q.
Proof.
  revert log. induction events as [|event events IH]; intros log HE HQ; cbn [append_missing].
  { apply wp_ret. by rewrite app_nil_r in HQ. }
  apply wp_bind, wp_try, wp_logged. intros [u|e]; cbn [is_err is_ok negb].
  - apply IH; rewrite <- ?app_assoc; [|done]. intros extra He. rewrite <- app_assoc.
    apply HE. by constructor.
  - apply wp_lock, HE. by repeat constructor.
Qed.

(** [synchronize_external_journal] ends well only after the external journal,
    which is a prefix of the database's, was completed and flushed. *)
Lemma wp_synchronize x allow log (Q : res ApplicationError unit -> list CoEffect -> Prop) :
  (forall e extra, Forall quiet extra -> Q (Err e) (log ++ extra)) ->
  (forall database external, in_step allow database external ->
    Q (Ok tt) (log ++ sync_log database external)) ->
  wp (synchronize_external_journal (W := T) x allow) log Q.
Proof.
  intros HE HQ. unfold synchronize_external_journal.
  apply wp_bind, wp_map_err, wp_logged. intros [database|e]; cbn [map_err note_value];
    [|apply HE; constructor].
  apply wp_bind, wp_try, wp_logged. intros [external|e]; cbn [note_value]; rewrite <- app_assoc.
  2: { apply wp_lock, HE. by repeat constructor. }
  destruct (_ || _) eqn:Hprefix; [apply wp_lock, HE; by repeat constructor|].
  apply orb_false_iff in Hprefix as [Hlen%Nat.ltb_ge Heq%negb_false_iff].
  destruct (_ && _) eqn:Hmissing; [apply wp_lock, HE; by repeat constructor|].
  apply wp_bind, wp_append_missing.
  { intros extra He. rewrite <- app_assoc. apply HE. by repeat constructor. }
  apply wp_bind, wp_try, wp_logged. intros [u|e]; cbn [is_err is_ok negb].
  - apply wp_ret. rewrite <- !app_assoc. apply HQ. split; [by apply prefix_of_zip|].
    apply andb_false_iff in Hmissing as [H%Nat.ltb_ge|H%orb_false_iff]; [destruct allow; lia|].
    destruct H as [->%negb_false_iff H%negb_false_iff%Nat.eqb_eq]. lia.
  - apply wp_lock. rewrite <- !app_assoc. apply HE.
    repeat (apply Forall_app; split); try by repeat constructor. by apply Forall_fmap, Forall_true.
Qed.

Lemma sync_log_quiet database external : Forall quiet (sync_log database external).
Proof.
  unfold sync_log. repeat (apply Forall_app; split); try by repeat constructor.
  by apply Forall_fmap, Forall_true.
Qed.

Lemma adds_synchronize x allow : adds quiet (synchronize_external_journal (W := T) x allow).
Proof.
  intros log. apply wp_synchronize; [eauto|]. intros database external _.
  exists (sync_log database external). split; [done|apply sync_log_quiet].
Qed.
#[local] Hint Resolve adds_synchronize : adds.

(** ** Storing an event *)

(** What is stored, before the external journal is brought in step with it. *)
Lemma wp_commit x event warning cursor log
    (Q : res ApplicationError (CommittedJournalEventBinding * JournalCursor) -> list CoEffect -> Prop) :
  (forall e extra, Forall quiet extra -> Q (Err e) (log ++ extra)) ->
  (forall database external, in_step true database external ->
    Q (Ok (committed_binding event,
        {| jc_sequence := u64_saturating_add (jc_sequence cursor) 1;
           jc_previous := Some (ev_event_digest event) |}))
      (log ++ sync_log database external)) ->
  wp (commit_event (W := T) x event warning cursor) log Q.
Proof.
  intros HE HQ. unfold commit_event. apply wp_bind, wp_try, wp_synchronize.
  - intros e extra He. apply wp_bind, wp_try, wp_passing. intros _. apply wp_fail. by apply HE.
  - intros database external Hs. by apply wp_ret, HQ.
Qed.

Lemma adds_commit x event warning cursor :
  adds quiet (commit_event (W := T) x event warning cursor).
Proof.
  intros log. apply wp_commit; [eauto|]. intros database external _.
  exists (sync_log database external). split; [done|apply sync_log_quiet].
Qed.
#[local] Hint Resolve adds_commit : adds.

Lemma adds_next P x operation kind payload cursor :
  adds P (next_event (W := T) x operation kind payload cursor).
Proof. unfold next_event. adding. Qed.
#[local] Hint Resolve adds_next : adds.

Lemma adds_persist_event x operation kind payload update cursor :
  adds quiet (persist_event (W := T) x operation kind payload update cursor).
Proof. unfold persist_event. adding. Qed.
#[local] Hint Resolve adds_persist_event : adds.

Lemma adds_finish x status message cursor :
  adds quiet (finish_execution (W := T) x status message cursor).
Proof. unfold finish_execution. adding. Qed.
#[local] Hint Resolve adds_finish : adds.

Lemma adds_fail_with operation category code message audit reason cursor :
  adds quiet (fail_with (W := T) operation category code message audit reason cursor).
Proof. unfold fail_with. adding. Qed.
Lemma adds_mark direction status message operation code detail audit cursor :
  adds quiet (mark_recovery_required (W := T) direction status message operation code detail audit cursor).
Proof. unfold mark_recovery_required. adding. Qed.
#[local] Hint Resolve adds_fail_with adds_mark : adds.
End coordinator.

#[export] Hint Resolve adds_now_ms adds_now_iso adds_diagnose adds_lock adds_valid_journal
  adds_synchronize adds_commit adds_next adds_persist_event adds_finish adds_fail_with adds_mark : adds.
