(* ===== verification/Asked.v ===== *)
(** * What a run was answered

    The world of the coordinator with a log of the answers a consent rests on,
    and of the three calls it allows: that a consent is attested, that it is
    consumed, and that a mutation is dispatched.  A property of a computation
    may thus speak of what this very run was answered, and when. *)

From S2P Require Export CoSteps CoTrace.
#[local] Open Scope Z_scope.

(** ** Answers *)

Inductive Answer :=
  (* the database: the stored execution, and whether its proposal is current *)
  | AnDetail (x : ExecutionId) (detail : ExecutionDetail)
  | AnCurrent (x : ExecutionId) (current : bool)
  (* the file system: an entry, the volume of a root, the state of a file *)
  | AnMetadata (path : PathBuf) (metadata : Metadata)
  | AnVolume (root : PathBuf) (volume : VolumeIdentity)
  | AnFingerprint (path : PathBuf) (maximum : Z) (fingerprint : FileFingerprint)
  (* the three calls *)
  | AnAttest (x : ExecutionId) (nonce : bytes32) (issued expires : Z) (mac : bytes32) (now : Z)
      (done : bool)
  | AnConsume (x : ExecutionId) (nonce : bytes32) (issued expires : Z) (mac : bytes32) (now : Z)
      (done : bool)
  | AnDispatch (request : ExecutorRequestIdentity) (binding : CommittedJournalEventBinding).

Notation Asked := (Logged Answer).

Definition note_answer {E A} (note : A -> Answer) (r : res E A) : list Answer :=
  match r with Ok a => [note a] | Err _ => [] end.

#[export] Instance asked_journal {W} `{DurableJournal W} : DurableJournal (Asked W) := {
  journal_append event := passing (journal_append event);
  journal_flush := passing journal_flush;
  journal_events x := passing (journal_events x);
  journal_diagnostics w := journal_diagnostics (fst w)
}.
#[export] Instance asked_reads {W} `{ReadOnlyPlatform W} : ReadOnlyPlatform (Asked W) := {
  inspect_volume root := logged (inspect_volume root) (note_answer (AnVolume root));
  fingerprint path content maximum := passing (fingerprint path content maximum);
  fingerprint_streaming path maximum :=
    logged (fingerprint_streaming path maximum) (note_answer (AnFingerprint path maximum))
}.
#[export] Instance asked_fs {W} `{StdFs W} : StdFs (Asked W) := {
  symlink_metadata path := logged (symlink_metadata path) (note_answer (AnMetadata path));
  canonicalize path := passing (canonicalize path);
  read_dir_first path := passing (read_dir_first path)
}.
#[export] Instance asked_service {W} `{ServiceHost W} : ServiceHost (Asked W) := {
  diagnostics_read w := diagnostics_read (fst w);
  diagnostics_push diagnostic w := (diagnostics_push diagnostic (fst w), snd w);
  execution_now_iso := below execution_now_iso
}.
#[export] Instance asked_host {W} `{CoordinatorHost W} : CoordinatorHost (Asked W) := {
  execution_now_unix_ms := below execution_now_unix_ms;
  fill_nonce := passing fill_nonce;
  recovery_in_progress w := recovery_in_progress (fst w);
  set_recovery_in_progress flag w := (set_recovery_in_progress flag (fst w), snd w);
  on_progress progress w := (on_progress progress (fst w), snd w);
  diagnostics_start diagnostics w := (diagnostics_start diagnostics (fst w), snd w)
}.
#[export] Instance asked_database {W} `{ExecutionDatabase W} : ExecutionDatabase (Asked W) := {
  execution_detail x := logged (execution_detail x) (note_answer (AnDetail x));
  execution_root_by_id workspace root := passing (execution_root_by_id workspace root);
  active_root workspace := passing (active_root workspace);
  execution_ids_with_journal := passing execution_ids_with_journal;
  recovery_execution_ids := passing recovery_execution_ids;
  mark_interrupted_executions_for_recovery := passing mark_interrupted_executions_for_recovery;
  mark_execution_recovery_required x reason := passing (mark_execution_recovery_required x reason);
  validate_execution_journal x := passing (validate_execution_journal x);
  execution_journal_events x :=
    passing (execution_journal_events x);
  execution_proposal_approval_is_current x :=
    logged (execution_proposal_approval_is_current x) (note_answer (AnCurrent x));
  invalidate_execution_consent x reason now := passing (invalidate_execution_consent x reason now);
  issue_execution_consent_challenge x nonce issued expires :=
    passing (issue_execution_consent_challenge x nonce issued expires);
  expire_execution_consent x now := passing (expire_execution_consent x now);
  attest_execution_consent x nonce issued expires mac now :=
    logged (attest_execution_consent x nonce issued expires mac now)
      (fun r => [AnAttest x nonce issued expires mac now (is_ok r)]);
  clear_execution_consent_challenge x nonce issued expires now :=
    passing (clear_execution_consent_challenge x nonce issued expires now);
  consume_execution_consent x nonce issued expires mac now :=
    logged (consume_execution_consent x nonce issued expires mac now)
      (fun r => [AnConsume x nonce issued expires mac now (is_ok r)]);
  execution_control x := passing (execution_control x);
  request_execution_pause x := passing (request_execution_pause x);
  request_execution_cancel x := passing (request_execution_cancel x);
  cancel_unstarted_execution x now := passing (cancel_unstarted_execution x now);
  persist_executor_session session := passing (persist_executor_session session);
  persist_execution_event event payload update now :=
    passing (persist_execution_event event payload update now);
  persist_executor_request_intent event payload update request now :=
    passing (persist_executor_request_intent event payload update request now);
  persist_execution_event_with_request_proof event payload update now request_id state :=
    passing (persist_execution_event_with_request_proof event payload update now request_id state);
  db_record_executor_response request_id digest class attempts error state now :=
    passing (db_record_executor_response request_id digest class attempts error state now);
  transition_executor_request_proof request_id state now :=
    passing (transition_executor_request_proof request_id state now);
  add_execution_error x operation category code message detail now :=
    passing (add_execution_error x operation category code message detail now);
  executor_session_facts x := passing (executor_session_facts x);
  executor_request_facts x := passing (executor_request_facts x);
  db_persist_recovery_assessment x state not_started applied ambiguous text now :=
    passing (db_persist_recovery_assessment x state not_started applied ambiguous text now)
}.
#[export] Instance asked_client {W} `{ExecutorClient W} : ExecutorClient (Asked W) := {
  ExecutorSession := ExecutorSession (W := W);
  open_executor_session envelope authorization := passing (open_executor_session envelope authorization);
  session_identity session w := session_identity session (fst w);
  prepare_operation session operation_id direction :=
    passing (prepare_operation session operation_id direction);
  dispatch_prepared session request binding :=
    logged (dispatch_prepared session request binding) (fun _ => [AnDispatch request binding])
}.

(** ** How the log grows *)

(** None of the three calls. *)
Definition harmless (answer : Answer) : Prop :=
  match answer with
  | AnAttest _ _ _ _ _ _ _ | AnConsume _ _ _ _ _ _ _ | AnDispatch _ _ => False
  | _ => True
  end.
#[export] Instance harmless_dec answer : Decision (harmless answer).
Proof. destruct answer; apply _. Defined.

(** From one moment to a later one, only answers that satisfy [P] were added. *)
Definition grew {W} (P : Answer -> Prop) (t t' : Asked W) : Prop :=
  exists extra, snd t' = snd t ++ extra /\ Forall P extra.

#[export] Instance grew_preorder {W} P : PreOrder (grew (W := W) P).
Proof.
  split.
  - intros t. exists []. by rewrite app_nil_r.
  - intros t1 t2 t3 (e1 & H1 & P1) (e2 & H2 & P2). exists (e1 ++ e2).
    rewrite H2, H1, app_assoc. split; [done|]. by apply Forall_app.
Qed.

(** Every answer but the calls may be added. *)
Class Admits (P : Answer -> Prop) : Prop := admits : forall answer, harmless answer -> P answer.
#[export] Instance admits_harmless : Admits harmless.
Proof. by intros answer. Qed.
Definition anything (answer : Answer) : Prop := True.
#[export] Instance admits_anything : Admits anything.
Proof. by intros answer. Qed.

Section grew.
Context {W : Type} (P : Answer -> Prop).
Notation T := (Asked W).

Lemma grew_same (t t' : T) : snd t' = snd t -> grew P t t'.
Proof. intros H. exists []. by rewrite H, app_nil_r. Qed.
Lemma grew_passing {E A} (m : SE W E A) : respects (grew P) (passing m).
Proof. intros [w log]. apply grew_same. unfold passing. by destruct (m w). Qed.
Lemma grew_below {A} (f : W -> A * W) (t : T) : grew P t (snd (below f t)).
Proof. destruct t as [w log]. apply grew_same. unfold below. by destruct (f w). Qed.
Lemma grew_logged {E A} (m : SE W E A) note :
  (forall r, Forall P (note r)) -> respects (grew P) (logged m note).
Proof.
  intros H [w log]. unfold logged. destruct (m w) as [r w'].
  exists (note r). split; [done|apply H].
Qed.
Lemma grew_answer {E A} (m : SE W E A) (note : A -> Answer) :
  (forall a, P (note a)) -> respects (grew P) (logged m (note_answer note)).
Proof. intros H. apply grew_logged. intros [a|e]; by repeat constructor. Qed.

Context `{FS : StdFs W} `{RO : ReadOnlyPlatform W} `{SH : ServiceHost W} `{CH : CoordinatorHost W}.
Context `{DB : ExecutionDatabase W} `{DJ : DurableJournal W} `{EX : ExecutorClient W}.

#[export] Instance grew_looks `{AP : !Admits P} : Looks (V := T) (grew P).
Proof.
  split; intros; first [apply grew_passing | apply grew_answer; intros; by apply AP | apply _].
Qed.
#[export] Instance grew_respected `{AP : !Admits P} : Respected (V := T) (grew P).
Proof.
  split; intros; first [apply grew_passing | apply grew_answer; intros; by apply AP
    | apply grew_below | by apply grew_same | apply _].
Qed.
End grew.

#[export] Instance anything_attests {W} `{DB : ExecutionDatabase W} :
  RespectedAttest (V := Asked W) (grew anything).
Proof. intros x nonce issued expires mac now. apply grew_logged. by repeat constructor. Qed.
#[export] Instance anything_consumes {W} `{DB : ExecutionDatabase W} :
  RespectedConsume (V := Asked W) (grew anything).
Proof. intros x nonce issued expires mac now. apply grew_logged. by repeat constructor. Qed.
#[export] Instance anything_dispatches {W} `{EX : ExecutorClient W} :
  RespectedDispatch (V := Asked W) (grew anything).
Proof. intros session request binding. apply grew_logged. by repeat constructor. Qed.

(** ** What a successful run found *)

(** Whatever a successful run of [m] that ends with a log within [L] returns
    satisfies [P], which may speak of [L]. *)
Definition finds {W E A} (L : list Answer) (m : SE (Asked W) E A) (P : A -> Prop) : Prop :=
  forall t a t', m t = (Ok a, t') -> snd t' ⊆ L -> P a.

Section finds.
Context {W : Type} (L : list Answer).
Notation T := (Asked W).

Lemma finds_returns {E A} (m : SE T E A) P : returns m P -> finds L m P.
Proof. intros H t a t' Hm _. by eapply H. Qed.
Lemma finds_any {E A} (m : SE T E A) : finds L m (fun _ => True).
Proof. by intros t a t'. Qed.
Lemma finds_weaken {E A} (m : SE T E A) (P Q : A -> Prop) :
  finds L m P -> (forall a, P a -> Q a) -> finds L m Q.
Proof. intros H HPQ t a t' Hm Ht. by eapply HPQ, H. Qed.

Lemma finds_bind {E A B} (m : SE T E A) (k : A -> SE T E B) P Q :
  finds L m P -> (forall a, respects (grew anything) (k a)) -> (forall a, P a -> finds L (k a) Q) ->
  finds L (m ≫= k) Q.
Proof.
  intros Hm Hgrow Hk t b t' (a & t1 & Ha & Hb)%se_bind_Ok Ht. eapply Hk; [|exact Hb|exact Ht].
  eapply Hm; [exact Ha|]. destruct (Hgrow a t1) as (extra & He & _). rewrite Hb in He. cbn [snd] in He.
  intros answer Hin. apply Ht. rewrite He. apply elem_of_app. by left.
Qed.

Lemma finds_answer {E A} (m : SE W E A) (note : A -> Answer) :
  finds L (logged m (note_answer note)) (fun a => note a ∈ L).
Proof.
  intros [w log] a [w' log']. unfold logged. destruct (m w) as [r w1]. intros [= -> _ <-] Hl.
  apply Hl. cbn. apply elem_of_app. right. by left.
Qed.

Lemma finds_map_err {E F A} (f : E -> F) (m : SE T E A) P : finds L m P -> finds L (se_map_err f m) P.
Proof.
  intros H t a t'. unfold se_map_err. destruct (m t) as [r t1] eqn:Hm. intros [= Hr <-] Ht.
  apply map_err_Ok in Hr as ->. by eapply H.
Qed.
Lemma finds_try {E F A} (m : SE T E A) P :
  finds L m P -> finds L (se_try (F := F) m) (fun r => forall a, r = Ok a -> P a).
Proof.
  intros H t r t'. unfold se_try. destruct (m t) as [r1 t1] eqn:Hm. intros [= <- <-] Ht a ->.
  by eapply H.
Qed.

(** A loop, with an invariant of the elements done so far. *)
Lemma finds_fold {E A S} (f : S -> A -> SE T E S) (I : list A -> S -> Prop) l s :
  (forall s a, respects (grew anything) (f s a)) -> I [] s ->
  (forall done a todo s, l = done ++ a :: todo -> I done s ->
     finds L (f s a) (fun s' => I (done ++ [a]) s')) ->
  finds L (fold_se f s l) (I l).
Proof.
  intros Hgrow H0 Hstep.
  enough (forall todo done s, l = done ++ todo -> I done s -> finds L (fold_se f s todo) (I l)) as Hgen
    by (by apply (Hgen l [])).
  intros todo. induction todo as [|a todo IH]; intros done s' Hl HI; cbn [fold_se].
  - apply finds_returns, returns_ret. rewrite Hl, app_nil_r. done.
  - eapply finds_bind; [by apply (Hstep done a todo)| |].
    + intros s1. by apply respects_fold; [apply _|].
    + intros s1 H1. apply (IH (done ++ [a])); [by rewrite <- app_assoc|done].
Qed.
End finds.

(** A step of which both the result and what it adds to the log are known. *)
Lemma wp_found {W A B} (R : list Answer -> A -> Prop) (m : SE (Asked W) ApplicationError A)
    (k : A -> SE (Asked W) ApplicationError B) log
    (Q : res ApplicationError B -> list Answer -> Prop) :
  respects (grew harmless) m -> (forall L, finds L m (R L)) ->
  (forall e extra, Forall harmless extra -> Q (Err e) (log ++ extra)) ->
  (forall a extra, R (log ++ extra) a -> Forall harmless extra -> wp (k a) (log ++ extra) Q) ->
  wp (m ≫= k) log Q.
Proof.
  intros Hm HR HE HQ w. cbv [mbind se_bind]. destruct (Hm (w, log)) as (extra & Hlog & He).
  destruct (m (w, log)) as [[a|e] [w' log']] eqn:Hrun; cbn in Hlog; subst log'.
  - apply HQ; [by eapply HR|done].
  - by apply HE.
Qed.
