(* ===== verification/RequestStates.v ===== *)
(** * The states a request goes through

    What the coordinator makes of a request after it was dispatched: every
    state it gives it is one [may_transition_to] allows. *)

From S2P Require Export CoTrace.
#[local] Open Scope Z_scope.

Definition state_change (effect : CoEffect) : option (str * ExecutorRequestState) :=
  match effect with
  | CeEvent _ proof _ => proof
  | CeState request_id state _ => Some (request_id, state)
  | _ => None
  end.

(** The state of a request after the effects of a log; [None] when the log
    gives it a state it may not get, or changes another request. *)
Fixpoint walk (request_id : str) (state : ExecutorRequestState) (log : list CoEffect) :
    option ExecutorRequestState :=
  match log with
  | [] => Some state
  | effect :: log =>
      match state_change effect with
      | None => walk request_id state log
      | Some (changed, next) =>
          if bool_decide (changed = request_id) && may_transition_to state next
          then walk request_id next log else None
      end
  end.

(** The executor and the consent are left alone. *)
Definition settling (effect : CoEffect) : Prop :=
  match effect with
  | CeIntent _ _ _ | CeConsume _ | CeOpen _ _ | CePrepare _ _ _ | CeDispatch _ _ _ => False
  | _ => True
  end.

Lemma quiet_settling effect : quiet effect -> settling effect.
Proof. by destruct effect. Qed.
Lemma settling_undispatched effect : settling effect -> undispatched effect.
Proof. by destruct effect. Qed.

Definition walked (request_id : str) (s : ExecutorRequestState) (log : list CoEffect)
    (t : ExecutorRequestState) : Prop :=
  Forall settling log /\ walk request_id s log = Some t.

Lemma walk_app request_id s log log' :
  walk request_id s (log ++ log') = walk request_id s log ≫= fun t => walk request_id t log'.
Proof.
  revert s. induction log as [|effect log IH]; intros s; cbn; [done|].
  destruct (state_change effect) as [[changed next]|]; [|apply IH]. destruct (_ && _); [apply IH|done].
Qed.

Lemma walked_app request_id s t u log log' :
  walked request_id s log t -> walked request_id t log' u -> walked request_id s (log ++ log') u.
Proof.
  intros [H1 H2] [H3 H4]. split; [by apply Forall_app|]. by rewrite walk_app, H2.
Qed.

Lemma walked_quiet request_id s log : Forall quiet log -> walked request_id s log s.
Proof.
  induction 1 as [|effect log Hq _ [IH1 IH2]]; [by split|]. split; [constructor; [|done]|].
  - by apply quiet_settling.
  - by destruct effect as [| | | |? []| | | | | |].
Qed.

Lemma walked_change request_id s t effect :
  settling effect -> state_change effect = Some (request_id, t) -> may_transition_to s t = true ->
  walked request_id s [effect] t.
Proof.
  intros Hs He Hm. split; [by constructor|]. cbn. rewrite He, Hm. by rewrite bool_decide_eq_true_2.
Qed.

(** Computations whose log walks a request from [s] on. *)
Definition walks {W E A} (request_id : str) (s : ExecutorRequestState) (m : SE (CoTraced W) E A)
    (Q : A -> ExecutorRequestState -> Prop) : Prop :=
  forall log, wp m log (fun r log' => exists extra t, log' = log ++ extra
    /\ walked request_id s extra t /\ match r with Ok a => Q a t | Err _ => True end).

Section walks.
Context {W : Type} (request_id : str).
Notation T := (CoTraced W).

Lemma walks_weaken {E A} s (m : SE T E A) (Q Q' : A -> ExecutorRequestState -> Prop) :
  walks request_id s m Q -> (forall a t, Q a t -> Q' a t) -> walks request_id s m Q'.
Proof.
  intros H HQ log. eapply wp_weaken; [apply H|]. intros r log' (extra & t & -> & Hw & Hr).
  exists extra, t. split_and!; [done..|]. destruct r; auto.
Qed.

Lemma walks_bind {E A B} s (m : SE T E A) (k : A -> SE T E B) Q :
  walks request_id s m (fun a t => walks request_id t (k a) Q) -> walks request_id s (m ≫= k) Q.
Proof.
  intros H log. apply wp_bind. eapply wp_weaken; [apply H|].
  intros [a|e] log' (extra & t & -> & Hw & Hr); [|by exists extra, t].
  eapply wp_weaken; [apply Hr|]. intros r log' (extra' & u & -> & Hw' & Hr').
  exists (extra ++ extra'), u. rewrite app_assoc. split_and!; [done|by eapply walked_app|done].
Qed.

Lemma walks_adds {E A} s (m : SE T E A) Q :
  adds quiet m -> (forall a, Q a s) -> walks request_id s m Q.
Proof.
  intros H HQ log. eapply wp_weaken; [apply H|]. intros r log' (extra & -> & He).
  exists extra, s. split_and!; [done|by apply walked_quiet|destruct r; auto].
Qed.

Lemma walks_ret {E A} s (a : A) (Q : A -> ExecutorRequestState -> Prop) :
  Q a s -> walks (E := E) request_id s (mret (M := SE T E) a) Q.
Proof. intros H log. apply wp_ret. exists [], s. by rewrite app_nil_r. Qed.

Lemma walks_map_err {E F A} (f : E -> F) s (m : SE T E A) Q :
  walks request_id s m Q -> walks request_id s (se_map_err f m) Q.
Proof.
  intros H log. apply wp_map_err. eapply wp_weaken; [apply H|].
  intros r log' (extra & t & -> & Hw & Hr). exists extra, t. split_and!; [done..|]. by destruct r.
Qed.

(** A method that changes the state. *)
Lemma walks_change {E A} s t (m : SE W E A) note (Q : A -> ExecutorRequestState -> Prop) :
  may_transition_to s t = true ->
  (forall r, exists effect, note r = [effect] /\ settling effect
     /\ state_change effect = Some (request_id, t)) ->
  (forall a, Q a t) -> walks request_id s (logged m note) Q.
Proof.
  intros Hm Hnote HQ log. apply wp_logged. intros r.
  destruct (Hnote r) as (effect & -> & Hs & He). exists [effect], t.
  split_and!; [done|by apply walked_change|destruct r; auto].
Qed.
End walks.

Section states.
Context {W : Type} `{B3 : Blake3} `{BH : Blake3Hex} `{UU : UuidCrate} `{UC : UnicodeCase}.
Context `{JC : JsonCrate} `{TC : ToVec CanonicalSafetyPolicy}.
Context `{JF : ToJson FileFingerprint} `{JA : ToJson ExecutorAttemptAudit}.
Context `{JE : ToJson ExecutorErrorClass}.
Context `{FS : StdFs W} `{RO : ReadOnlyPlatform W} `{TG : Target}.
Context `{SH : ServiceHost W} `{CH : CoordinatorHost W} `{DB : ExecutionDatabase W}.
Context `{DJ : DurableJournal W} `{EX : ExecutorClient W}.
Variable policy : ExecutionSafetyPolicy.
Notation T := (CoTraced W).

(** A step that adds nothing to what a request is. *)
Lemma walks_step {A B} request_id s (m : SE T ApplicationError A) (k : A -> SE T ApplicationError B) Q :
  adds quiet m -> (forall a, walks request_id s (k a) Q) -> walks request_id s (m ≫= k) Q.
Proof. intros Hm Hk. by apply walks_bind, walks_adds. Qed.

Lemma walks_transition request s t (Q : unit -> ExecutorRequestState -> Prop) :
  may_transition_to s t = true -> Q tt t ->
  walks (eri_request_id request) s (transition_proof (W := T) request t) Q.
Proof.
  intros Hm HQ. unfold transition_proof. apply walks_step; [adding|]. intros now.
  apply walks_map_err, (walks_change _ s t); [done| |by intros []].
  intros r. eexists. by split_and!.
Qed.

Lemma walks_proof x operation kind payload update request_id s t cursor
    (Q : CommittedJournalEventBinding * JournalCursor -> ExecutorRequestState -> Prop) :
  may_transition_to s t = true -> (forall committed, Q committed t) ->
  walks request_id s (persist_event_with_request_proof (W := T) x operation kind payload update
    request_id t cursor) Q.
Proof.
  intros Hm HQ. unfold persist_event_with_request_proof.
  apply walks_step; [adding|]. intros []. apply walks_step; [adding|]. intros [event canonical].
  apply walks_step; [adding|]. intros now. apply walks_bind, walks_map_err, (walks_change _ s t); [done| |].
  - intros r. eexists. by split_and!.
  - intros []. apply walks_adds; [adding|done].
Qed.

Lemma walks_fail {A} request_id s (e : ApplicationError) (Q : A -> ExecutorRequestState -> Prop) :
  walks request_id s (se_fail (W := T) e) Q.
Proof. intros log. apply wp_fail. exists [], s. by rewrite app_nil_r. Qed.

Lemma adds_progress P progress : adds P (report_progress (W := T) progress).
Proof. by apply adds_nothing. Qed.
Lemma adds_session_of P session : adds P (session_of (W := T) session).
Proof. by apply adds_nothing. Qed.

(** *** The file system is only looked at *)

Lemma adds_fingerprint P path : adds P (execution_fingerprint (W := T) policy path).
Proof. unfold execution_fingerprint. adding. Qed.
#[local] Hint Resolve adds_progress adds_session_of adds_fingerprint : adds.
Lemma adds_if_present P path : adds P (fingerprint_if_present (W := T) policy path).
Proof. unfold fingerprint_if_present. adding. Qed.
Lemma adds_has_entries P path : adds P (has_entries (W := T) path).
Proof. unfold has_entries. adding. Qed.
Lemma adds_expected_state P expected changed path :
  adds P (expected_state (W := T) policy expected changed path).
Proof. unfold expected_state. adding. Qed.
Lemma adds_ancestors P current leaf n i rest :
  adds P (check_ancestors (W := T) current leaf n i rest).
Proof.
  revert current i. induction rest as [|component rest IH]; intros; cbn [check_ancestors]; adding.
Qed.
Lemma adds_nearest P candidates : adds P (nearest_existing (W := T) candidates).
Proof. induction candidates; cbn [nearest_existing]; adding. Qed.
Lemma adds_overlap P paths candidate : adds P (reject_overlap (W := T) paths candidate).
Proof. induction paths; cbn [reject_overlap]; unfold canonical_or_self; adding. Qed.
#[local] Hint Resolve adds_if_present adds_has_entries adds_expected_state adds_ancestors
  adds_nearest adds_overlap : adds.
Lemma adds_resolve_absent P root relative staging :
  adds P (resolve_absent_destination (W := T) policy root relative staging).
Proof.
  unfold resolve_absent_destination, validate_existing_ancestors, nearest_existing_parent,
    reject_app_owned_path. adding.
Qed.
Lemma adds_resolve_existing P root relative :
  adds P (resolve_existing_source (W := T) policy root relative).
Proof.
  unfold resolve_existing_source, validate_existing_ancestors, reject_app_owned_path. adding.
Qed.
Lemma adds_validate_root P root : adds P (validate_root (W := T) policy root).
Proof. unfold validate_root. adding. Qed.
#[local] Hint Resolve adds_resolve_absent adds_resolve_existing adds_validate_root : adds.

Lemma adds_revalidate P root operation : adds P (revalidate_operation (W := T) policy root operation).
Proof. unfold revalidate_operation. adding. Qed.
Lemma adds_postcondition P root operation : adds P (verify_postcondition (W := T) policy root operation).
Proof. unfold verify_postcondition. adding. Qed.
Lemma adds_revalidate_rollback P root operation :
  adds P (revalidate_rollback (W := T) policy root operation).
Proof. unfold revalidate_rollback. adding. Qed.
Lemma adds_rollback_postcondition P root operation :
  adds P (verify_rollback_postcondition (W := T) policy root operation).
Proof. unfold verify_rollback_postcondition. adding. Qed.
Lemma adds_observe P root operation : adds P (observe_recovery (W := T) policy root operation).
Proof. unfold observe_recovery, observe_directory. adding. Qed.
Lemma adds_observe_rollback P root operation :
  adds P (observe_rollback_recovery (W := T) policy root operation).
Proof. unfold observe_rollback_recovery, observe_directory. adding. Qed.
#[local] Hint Resolve adds_revalidate adds_postcondition adds_revalidate_rollback
  adds_rollback_postcondition : adds.

Lemma adds_fail_operation operation category code message cursor :
  adds quiet (fail_operation (W := T) operation category code message cursor).
Proof. unfold fail_operation. adding. Qed.
Lemma adds_fail_audit operation category code message audit cursor :
  adds quiet (fail_operation_with_executor_audit (W := T) operation category code message audit cursor).
Proof. unfold fail_operation_with_executor_audit. adding. Qed.
Lemma adds_require_recovery A operation code detail audit cursor :
  adds quiet (require_recovery (W := T) (A := A) operation code detail audit cursor).
Proof. unfold require_recovery, mark_executor_recovery_required. adding. Qed.
Lemma adds_require_rollback_recovery A operation code detail audit cursor :
  adds quiet (require_rollback_recovery (W := T) (A := A) operation code detail audit cursor).
Proof. unfold require_rollback_recovery, mark_rollback_recovery_required. adding. Qed.
Lemma adds_terminal P x cursor : adds P (terminal_detail (W := T) x cursor).
Proof. unfold terminal_detail. adding. Qed.
Lemma adds_block x operation fields code message reason cursor :
  adds quiet (block_rollback (W := T) x operation fields code message reason cursor).
Proof. unfold block_rollback. pose proof (adds_terminal quiet). adding. Qed.
#[local] Hint Resolve adds_terminal adds_fail_operation adds_fail_audit adds_require_recovery
  adds_require_rollback_recovery adds_block : adds.

(** A failing tail. *)
Lemma walks_recovery A operation code detail audit cursor request_id s
    (Q : A -> ExecutorRequestState -> Prop) :
  walks request_id s (require_recovery (W := T) operation code detail audit cursor) Q.
Proof.
  unfold require_recovery, mark_executor_recovery_required. apply walks_step; [adding|].
  intros c. apply walks_fail.
Qed.
Lemma walks_rollback_recovery A operation code detail audit cursor request_id s
    (Q : A -> ExecutorRequestState -> Prop) :
  walks request_id s (require_rollback_recovery (W := T) operation code detail audit cursor) Q.
Proof.
  unfold require_rollback_recovery, mark_rollback_recovery_required. apply walks_step; [adding|].
  intros c. apply walks_fail.
Qed.

(** *** After the dispatch *)

(** How the executor's answer is recorded. *)
Definition answered (outcome : ExecutorOutcome) : ExecutorRequestState :=
  (outcome_record outcome).1.2.

Lemma walks_response request dispatch s (Q : unit -> ExecutorRequestState -> Prop) :
  may_transition_to s (answered (edr_outcome dispatch)) = true ->
  Q tt (answered (edr_outcome dispatch)) ->
  walks (eri_request_id request) s (record_executor_response (W := T) request dispatch) Q.
Proof.
  intros Hm HQ. unfold record_executor_response, answered in *.
  destruct (outcome_record _) as [[class state] audit]. cbn in *.
  apply walks_step; [adding|]. intros now.
  apply walks_map_err, (walks_change _ s state); [done| |by intros []].
  intros r. eexists. by split_and!.
Qed.

Definition is_success (outcome : ExecutorOutcome) : bool :=
  match outcome with OutSuccess _ _ _ => true | _ => false end.

(** An operation counts as applied only after a success, and when its request
    is proven. *)
Definition settled (outcome : ExecutorOutcome) (result : ApplyScheduledOutcome * JournalCursor)
    (t : ExecutorRequestState) : Prop :=
  result.1 = AsoApplied -> is_success outcome = true /\ t = ProvenApplied.
Definition proven (result : ApplyScheduledOutcome * JournalCursor) (t : ExecutorRequestState) : Prop :=
  result.1 = AsoApplied -> t = ProvenApplied.
Definition unapplied (result : ApplyScheduledOutcome * JournalCursor) (t : ExecutorRequestState) : Prop :=
  result.1 <> AsoApplied.

Lemma walks_terminal request_id s (m : SE T ApplicationError JournalCursor) x :
  adds quiet m -> walks request_id s (m ≫= terminal_detail x) unapplied.
Proof.
  intros Hm. apply walks_step; [done|]. intros cursor. unfold terminal_detail.
  apply walks_step; [adding|]. intros detail. by apply walks_ret.
Qed.

(** The state of a request whose executor says that nothing happened. *)
Definition not_applied_state (audit : option ExecutorAttemptAudit) : ExecutorRequestState :=
  if audit then ProvenNotApplied else RecoveryRequired.

Lemma walks_contradicted request audit
    (m : SE T ApplicationError (ApplyScheduledOutcome * JournalCursor)) :
  (forall t, walks (eri_request_id request) t m unapplied) ->
  walks (eri_request_id request) (not_applied_state audit)
    ((if audit then transition_proof request RecoveryRequired else mret tt);; m) unapplied.
Proof.
  intros H. apply walks_bind. destruct audit; [by apply walks_transition|by apply walks_ret].
Qed.

Lemma walks_not_applied x root operation request code detail audit cursor :
  walks (eri_request_id request) (not_applied_state audit)
    (settle_not_applied (W := T) policy x root operation request code detail audit cursor) unapplied.
Proof.
  unfold settle_not_applied. apply walks_step; [adding|]. intros [current|error].
  - apply walks_bind, walks_transition; [by destruct audit|]. apply walks_terminal.
    destruct audit; adding.
  - apply walks_contradicted. intros t. apply walks_recovery.
Qed.

Lemma walks_success x root operation request audit total cursor :
  walks (eri_request_id request) AcknowledgedSuccess
    (settle_success (W := T) policy x root operation request audit total cursor) proven.
Proof.
  unfold settle_success. apply walks_step; [adding|]. intros [post|error].
  - apply walks_bind, walks_proof; [done|]. intros committed.
    apply walks_step; [adding|]. intros d. apply walks_step; [adding|]. intros []. by apply walks_ret.
  - apply walks_bind, walks_transition; [done|].
    apply walks_step; [adding|]. intros c. apply walks_fail.
Qed.

(** From the durable intent on, the states the request gets are allowed, and it
    is proven when the operation counts as applied. *)
Lemma walks_settle x root operation request dispatch total cursor :
  walks (eri_request_id request) IntentDurable
    (settle_dispatch (W := T) policy x root operation request dispatch total cursor)
    (settled (edr_outcome dispatch)).
Proof.
  unfold settle_dispatch. apply walks_bind, walks_response; [by destruct (edr_outcome dispatch)|].
  destruct (edr_outcome dispatch); unfold answered; cbn.
  - eapply walks_weaken; [apply walks_success|]. by intros r t Hp Hr%Hp.
  - eapply walks_weaken; [apply (walks_not_applied _ _ _ _ _ _ (Some audit))|]. by intros r t ? ?.
  - apply walks_recovery.
  - eapply walks_weaken; [apply (walks_not_applied _ _ _ _ _ _ None)|]. by intros r t ? ?.
Qed.

Lemma walks_rollback_not_applied x root operation request code detail audit cursor :
  walks (eri_request_id request) (not_applied_state audit)
    (settle_rollback_not_applied (W := T) policy x root operation request code detail audit cursor)
    unapplied.
Proof.
  unfold settle_rollback_not_applied. apply walks_step; [adding|]. intros [current|error].
  - apply walks_bind, walks_transition; [by destruct audit|]. unfold block_rollback.
    apply walks_step; [adding|]. intros persisted. apply walks_terminal. adding.
  - apply walks_contradicted. intros t. apply walks_rollback_recovery.
Qed.

Lemma walks_rollback_success x root operation request audit total cursor :
  walks (eri_request_id request) AcknowledgedSuccess
    (settle_rollback_success (W := T) policy x root operation request audit total cursor) proven.
Proof.
  unfold settle_rollback_success. apply walks_step; [adding|]. intros [post|error].
  - apply walks_bind, walks_proof; [done|]. intros committed.
    apply walks_step; [adding|]. intros d. apply walks_step; [adding|]. intros []. by apply walks_ret.
  - apply walks_bind, walks_transition; [done|]. apply walks_rollback_recovery.
Qed.

Lemma walks_rollback_settle x root operation request dispatch total cursor :
  walks (eri_request_id request) IntentDurable
    (settle_rollback_dispatch (W := T) policy x root operation request dispatch total cursor)
    (settled (edr_outcome dispatch)).
Proof.
  unfold settle_rollback_dispatch.
  apply walks_bind, walks_response; [by destruct (edr_outcome dispatch)|].
  destruct (edr_outcome dispatch); unfold answered; cbn.
  - eapply walks_weaken; [apply walks_rollback_success|]. by intros r t Hp Hr%Hp.
  - eapply walks_weaken; [apply (walks_rollback_not_applied _ _ _ _ _ _ (Some audit))|].
    by intros r t ? ?.
  - apply walks_rollback_recovery.
  - eapply walks_weaken; [apply (walks_rollback_not_applied _ _ _ _ _ _ None)|]. by intros r t ? ?.
Qed.
End states.

#[export] Hint Resolve adds_progress adds_session_of adds_fingerprint adds_if_present
  adds_has_entries adds_expected_state adds_resolve_absent adds_resolve_existing adds_validate_root
  adds_revalidate adds_postcondition adds_revalidate_rollback adds_rollback_postcondition
  adds_observe adds_observe_rollback adds_terminal adds_fail_operation adds_fail_audit
  adds_require_recovery adds_require_rollback_recovery adds_block : adds.
