(* ===== verification/WriteAhead.v ===== *)
(** * Nothing is dispatched that both journals do not know

    The protocol of an execution and of its rollback as a language of logs,
    and that the coordinator's runs are words of it: the consent is consumed
    first; every dispatched request was recorded in the database and in the
    flushed external journal right before; operations run in their order, with
    what they depend on applied, and only the last one may not succeed. *)

From S2P Require Export RequestStates.
#[local] Open Scope Z_scope.

(** ** The protocol *)

(** The event records the request, with its session. *)
Definition records `{UuidCrate, JsonCrate} (direction : OperationDirection)
    (session : ExecutorSessionIdentity) (request : ExecutorRequestIdentity)
    (event : OperationJournalEvent) : Prop :=
  eri_direction request = request_direction direction
  /\ eri_session_id request = esi_session_id session
  /\ ev_kind event = expected_intent_kind (request_direction direction)
  /\ ev_step_id event = Some (eri_operation_id request)
  /\ exists payload text, value_to_string payload = Some text /\ ev_payload event = utf8 text
     /\ get "executor_session" payload = Some (session_material session)
     /\ get "executor_request" payload = Some (request_identity_material request).

(** What one operation adds to the log; whether it counts as applied. *)
Inductive unit_log `{UuidCrate, JsonCrate} (direction : OperationDirection)
    (operation : ExecutionOperation) : bool -> list CoEffect -> Prop :=
  | unit_undispatched log :
      Forall undispatched log -> unit_log direction operation false log
  | unit_dispatched applied session request event database external before outcome after state :
      Forall undispatched before ->
      CePrepare (eo_id operation) direction (Some request) ∈ before ->
      records direction session request event ->
      in_step true database external ->
      walked (eri_request_id request) IntentDurable after state ->
      (applied = true -> state = ProvenApplied
        /\ exists success, outcome = Some success /\ is_success success = true) ->
      unit_log direction operation applied
        (before ++ [CeIntent event request true] ++ sync_log database external
         ++ [CeDispatch request (committed_binding event) outcome] ++ after).

(** What a list of operations adds: [may] says when an operation may run, given
    the ones that are applied; [true] when all of them were applied. *)
Inductive schedule_log `{UuidCrate, JsonCrate} (direction : OperationDirection)
    (may : gset uuid -> ExecutionOperation -> Prop) :
    gset uuid -> list ExecutionOperation -> bool -> list CoEffect -> Prop :=
  | schedule_done applied : schedule_log direction may applied [] true []
  | schedule_stop applied operations log :
      Forall undispatched log -> schedule_log direction may applied operations false log
  | schedule_last applied operation operations log :
      may applied operation -> unit_log direction operation false log ->
      schedule_log direction may applied (operation :: operations) false log
  | schedule_next applied operation operations completed log log' :
      may applied operation -> unit_log direction operation true log ->
      schedule_log direction may ({[eo_id operation]} ∪ applied) operations completed log' ->
      schedule_log direction may applied (operation :: operations) completed (log ++ log').

(** Nothing is dispatched, and no consent is consumed successfully. *)
Definition unauthorised (effect : CoEffect) : Prop :=
  match effect with CeDispatch _ _ _ | CeConsume (Some _) => False | _ => True end.

Definition depends_on_applied (applied : gset uuid) (operation : ExecutionOperation) : Prop :=
  Forall (fun dependency => dependency ∈ applied) (eo_dependencies operation).

Inductive start_log `{UuidCrate, JsonCrate} : list CoEffect -> Prop :=
  | start_refused log : Forall unauthorised log -> start_log log
  | start_run opening detail before completed units after :
      Forall unauthorised opening -> CeOpen AuthForward true ∈ opening ->
      Forall quiet before -> Forall quiet after ->
      schedule_log DirForward depends_on_applied (applied_operation_ids detail)
        (schedulable_operations detail) completed units ->
      start_log (opening ++ [CeConsume (Some detail)] ++ before ++ units ++ after).

(** A rollback of the execution the database holds. *)
Inductive rollback_log `{UuidCrate, JsonCrate} (stored : option ExecutionDetail) :
    list CoEffect -> Prop :=
  | rollback_refused log : Forall undispatched log -> rollback_log stored log
  | rollback_run opening detail eligible completed units after :
      stored = Some detail -> Forall undispatched opening -> CeOpen (AuthRollback eligible) true ∈ opening ->
      re_operation_id <$> eligible = (fun operation => uuid_to_string (eo_id operation))
        <$> rollback_operations detail ->
      Forall quiet after ->
      schedule_log DirRollback (fun _ _ => True) ∅ (rollback_operations detail) completed units ->
      rollback_log stored (opening ++ units ++ after).

(** ** The coordinator follows it *)

Section write_ahead.
Context {W : Type} `{B3 : Blake3} `{BH : Blake3Hex} `{UU : UuidCrate} `{UC : UnicodeCase}.
Context `{JC : JsonCrate} `{AS : AuthSerde}.
Context `{TM : ToVec CanonicalPlanMaterial} `{TC : ToVec CanonicalSafetyPolicy}.
Context `{JF : ToJson FileFingerprint} `{JA : ToJson ExecutorAttemptAudit}.
Context `{JE : ToJson ExecutorErrorClass}.
Context `{FS : StdFs W} `{RO : ReadOnlyPlatform W} `{TG : Target}.
Context `{SH : ServiceHost W} `{CH : CoordinatorHost W} `{DB : ExecutionDatabase W}.
Context `{DJ : DurableJournal W} `{EX : ExecutorClient W}.
Variable policy : ExecutionSafetyPolicy.
Variable gate : ApplyGate.
Variable consent_authority : bytes32.
Notation T := (CoTraced W).

(** A step before anything is dispatched. *)
Lemma wp_step {A B} (P : CoEffect -> Prop) (m : SE T ApplicationError A)
    (k : A -> SE T ApplicationError B) log (Q : res ApplicationError B -> list CoEffect -> Prop) :
  adds P m ->
  (forall e extra, Forall P extra -> Q (Err e) (log ++ extra)) ->
  (forall a extra, Forall P extra -> wp (k a) (log ++ extra) Q) -> wp (m ≫= k) log Q.
Proof. intros Hm HE HQ. apply wp_bind. eapply wp_adds; [done|]. intros [a|e] extra H; auto. Qed.

(** Past a step that adds nothing. *)
Tactic Notation "quietly" "as" simple_intropattern(a) :=
  apply (wp_step (fun _ => False));
  [ solve [adding]
  | let extra := fresh "extra" in let He := fresh "He" in
    intros ? extra He; destruct extra; [rewrite app_nil_r|by inversion He]; clear He
  | let extra := fresh "extra" in let He := fresh "He" in
    intros a extra He; destruct extra; [rewrite app_nil_r|by inversion He]; clear He ].
Tactic Notation "quietly" := quietly as ?.


Lemma wp_lift_bind {A B} (m : res ApplicationError A) (k : A -> SE T ApplicationError B) log
    (Q : res ApplicationError B -> list CoEffect -> Prop) :
  (forall e, Q (Err e) log) -> (forall a, m = Ok a -> wp (k a) log Q) -> wp (se_lift m ≫= k) log Q.
Proof. intros HE HQ. apply wp_bind, wp_lift. destruct m as [a|e]; [by apply HQ|apply HE]. Qed.

(** The event that is stored next. *)
Lemma wp_next x operation kind payload cursor log
    (Q : res ApplicationError (OperationJournalEvent * str) -> list CoEffect -> Prop) :
  (forall e, Q (Err e) log) ->
  (forall text now, value_to_string payload = Some text ->
    Q (Ok (new_event x (jc_sequence cursor) operation kind (utf8 text) (jc_previous cursor) now, text))
      log) ->
  wp (next_event (W := T) x operation kind payload cursor) log Q.
Proof.
  intros HE HQ. unfold next_event. apply wp_lift_bind; [done|]. intros text Ht%ok_or_Ok.
  quietly; [apply HE|].
  apply wp_ret, HQ, Ht.
Qed.

Lemma insert_then_get payload session request inner outer :
  insert_object "executor_session" session payload = Some inner ->
  insert_object "executor_request" request inner = Some outer ->
  get "executor_session" outer = Some session /\ get "executor_request" outer = Some request.
Proof.
  intros Hi Ho. rewrite !(get_insert_object _ _ _ _ _ Ho), (get_insert_object _ _ _ _ _ Hi).
  by rewrite !decide_False, !decide_True by (done || by vm_compute).
Qed.

(** [persist_request_intent] ends well only when the intent is in both
    journals, and the external one is flushed. *)
Lemma wp_intent direction kind payload request session cursor log
    (Q : res ApplicationError (CommittedJournalEventBinding * JournalCursor) -> list CoEffect -> Prop) :
  kind = expected_intent_kind (request_direction direction) ->
  (forall e extra, Forall undispatched extra -> Q (Err e) (log ++ extra)) ->
  (forall event cursor' database external, records direction session request event ->
    in_step true database external ->
    Q (Ok (committed_binding event, cursor'))
      (log ++ [CeIntent event request true] ++ sync_log database external)) ->
  wp (persist_request_intent (W := T) kind payload request session cursor) log Q.
Proof.
  intros Hkind HE HQ. unfold persist_request_intent.
  assert (forall e, Q (Err e) log) as HE0 by (intros e; rewrite <- (app_nil_r log); by apply HE).
  quietly; [done|].
  apply wp_lift_bind; [done|]. intros [] [Hses%negb_false_iff Hdir%negb_false_iff]%reject_if_Ok%orb_false_iff.
  apply bool_decide_eq_true in Hses.
  apply wp_lift_bind; [done|]. intros inner Hi%ok_or_Ok.
  apply wp_lift_bind; [done|]. intros outer Ho%ok_or_Ok.
  destruct (insert_then_get _ _ _ _ _ Hi Ho) as [Hgs Hgr].
  apply wp_bind, wp_next; [done|]. intros text now Ht.
  quietly; [done|].
  apply wp_lift_bind; [done|]. intros update _.
  apply wp_bind, wp_map_err, wp_logged. intros [u|e]; cbn [map_err is_ok].
  2: { apply HE. by repeat constructor. }
  apply wp_commit.
  - intros e extra He. rewrite <- app_assoc. apply HE. constructor; [done|].
    eapply Forall_impl; [done|apply quiet_undispatched].
  - intros database external Hs. rewrite <- app_assoc. apply HQ; [|done].
    split_and!; [|done|done|done|by exists outer, text].
    subst kind. by destruct direction, (eri_direction request).
Qed.

(** *** One operation *)

Definition counts (r : res ApplicationError (ApplyScheduledOutcome * JournalCursor)) : bool :=
  match r with Ok (AsoApplied, _) => true | _ => false end.

Definition unit_run (direction : OperationDirection) (operation : ExecutionOperation)
    (m : SE T ApplicationError (ApplyScheduledOutcome * JournalCursor)) : Prop :=
  forall log, wp m log (fun r log' =>
    exists extra, log' = log ++ extra /\ unit_log direction operation (counts r) extra).

Lemma quiet_all_undispatched log : Forall quiet log -> Forall undispatched log.
Proof. intros H. eapply Forall_impl; [done|apply quiet_undispatched]. Qed.

(** What ends without a dispatch. *)
Lemma unit_run_stop direction operation m :
  adds undispatched m -> (forall w, counts (fst (m w)) = false) -> unit_run direction operation m.
Proof.
  intros Hm Hc log w. destruct (Hm log w) as (extra & Heq & He). exists extra.
  split; [done|]. rewrite Hc. by constructor.
Qed.

Lemma counts_terminal (m : SE T ApplicationError JournalCursor) x w :
  counts (fst ((m ≫= terminal_detail x) w)) = false.
Proof.
  cbv [mbind se_bind terminal_detail]. destruct (m w) as [[c|e] w']; [|done].
  destruct (se_map_err _ _ w') as [[d|e] w'']; done.
Qed.

(** From the preparation of the request on. *)
Lemma wp_request {A} direction operation payload (session : ExecutorSession (W := T)) cursor
    (proceed : ExecutorRequestIdentity -> CommittedJournalEventBinding -> JournalCursor ->
       SE T ApplicationError A) log (Q : res ApplicationError A -> list CoEffect -> Prop) :
  (forall e extra, Forall undispatched extra -> Q (Err e) (log ++ extra)) ->
  (forall request identity event cursor' database external before,
    Forall undispatched before -> CePrepare (eo_id operation) direction (Some request) ∈ before ->
    records direction identity request event -> in_step true database external ->
    wp (proceed request (committed_binding event) cursor')
      (log ++ before ++ [CeIntent event request true] ++ sync_log database external) Q) ->
  wp (prepared ← se_map_err ApApprovedExecutor
        (prepare_operation session (eo_id operation) direction);
      identity ← session_of session;
      committed ← persist_request_intent (expected_intent_kind (request_direction direction))
        payload prepared identity cursor;
      let '(intent_binding, cursor) := committed in proceed prepared intent_binding cursor) log Q.
Proof.
  intros HE HQ. apply wp_bind, wp_map_err, wp_logged.
  intros [request|e]; cbn [map_err value_of]; [|apply HE; by repeat constructor].
  quietly as fact; [apply HE; by repeat constructor|].
  apply wp_bind, (wp_intent direction); [done| |].
  - intros e extra He. rewrite <- app_assoc. apply HE. by constructor.
  - intros event cursor' database external Hr Hs. rewrite <- app_assoc.
    apply (HQ request fact); [by repeat constructor|by left|done|done].
Qed.

(** What follows the dispatch of a recorded request. *)
Lemma wp_dispatch direction operation identity request event database external before log
    (session : ExecutorSession (W := T))
    (settle : res ApprovedExecutorError ExecutorDispatchResult ->
       SE T ApplicationError (ApplyScheduledOutcome * JournalCursor)) :
  Forall undispatched before -> CePrepare (eo_id operation) direction (Some request) ∈ before ->
  records direction identity request event -> in_step true database external ->
  (forall dispatch, walks (eri_request_id request) IntentDurable (settle dispatch)
    (fun result state => result.1 = AsoApplied -> state = ProvenApplied
       /\ exists d, dispatch = Ok d /\ is_success (edr_outcome d) = true)) ->
  wp (se_try (dispatch_prepared session request (committed_binding event)) ≫= settle)
    (log ++ before ++ [CeIntent event request true] ++ sync_log database external)
    (fun r log' => exists extra, log' = log ++ extra /\ unit_log direction operation (counts r) extra).
Proof.
  intros Hb Hp Hr Hs Hw. apply wp_bind, wp_try, wp_logged. intros dispatch.
  eapply wp_weaken; [apply Hw|]. intros r log' (after & state & -> & Hwalk & HQ).
  eexists. split; [by rewrite <- !app_assoc|].
  eapply unit_dispatched; [done..|]. intros Hc. destruct r as [[[|d] c]|e]; try done.
  destruct (HQ eq_refl) as (-> & d & -> & Hd). split; [done|]. cbn. by eexists.
Qed.

Lemma apply_unit x root operation session total cursor :
  unit_run DirForward operation
    (apply_scheduled_operation (W := T) policy x root operation session total cursor).
Proof.
  intros log. unfold apply_scheduled_operation.
  quietly as current.
  { exists []. rewrite app_nil_r. split; [done|]. by constructor. }
  destruct current as [current|error].
  2: { apply unit_run_stop; [|intros w; apply counts_terminal].
       eapply adds_weaken; [|apply quiet_undispatched]. adding. }
  apply (wp_step quiet); [adding| |].
  { intros e extra He. exists extra. split; [done|]. by apply unit_undispatched, quiet_all_undispatched. }
  intros persisted pre Hpre.
  apply (wp_request DirForward).
  - intros e extra He. exists (pre ++ extra). rewrite app_assoc. split; [done|].
    apply unit_undispatched, Forall_app. split; [by apply quiet_all_undispatched|done].
  - intros request identity event cursor' database external before Hb Hp Hr Hs.
    rewrite <- app_assoc, (app_assoc pre before).
    apply (wp_dispatch _ _ identity); [|by set_solver|done|done|].
    { apply Forall_app. split; [by apply quiet_all_undispatched|done]. }
    intros [dispatch|e].
    + eapply walks_weaken; [apply walks_settle|]. intros r t Hset Hr1.
      destruct (Hset Hr1) as [Hsucc ->]. eauto.
    + apply walks_bind, walks_transition; [done|]. apply walks_recovery.
Qed.

Lemma counts_block x operation fields code message reason cursor w :
  counts (fst (block_rollback (W := T) x operation fields code message reason cursor w)) = false.
Proof.
  unfold block_rollback, terminal_detail. cbv [mbind se_bind].
  repeat case_match; simplify_eq; done.
Qed.

Lemma rollback_unit x root operation session total cursor :
  unit_run DirRollback operation
    (roll_back_operation (W := T) policy x root operation session total cursor).
Proof.
  intros log. unfold roll_back_operation.
  quietly as current.
  { exists []. rewrite app_nil_r. split; [done|]. by constructor. }
  destruct current as [current|error].
  2: { apply unit_run_stop; [|intros w; apply counts_block].
       eapply adds_weaken; [|apply quiet_undispatched]. adding. }
  apply (wp_step quiet); [adding| |].
  { intros e extra He. exists extra. split; [done|]. by apply unit_undispatched, quiet_all_undispatched. }
  intros persisted pre Hpre.
  apply (wp_request DirRollback).
  - intros e extra He. exists (pre ++ extra). rewrite app_assoc. split; [done|].
    apply unit_undispatched, Forall_app. split; [by apply quiet_all_undispatched|done].
  - intros request identity event cursor' database external before Hb Hp Hr Hs.
    rewrite <- app_assoc, (app_assoc pre before).
    assert (Forall undispatched (pre ++ before)) as Hpb.
    { apply Forall_app. split; [by apply quiet_all_undispatched|done]. }
    assert (Forall undispatched ((pre ++ before) ++ [CeIntent event request true]
      ++ sync_log database external)) as Hall.
    { apply Forall_app; split; [done|]. apply Forall_app; split; [by repeat constructor|].
      apply quiet_all_undispatched, sync_log_quiet. }
    quietly as checked.
    { eexists. split; [done|]. by constructor. }
    destruct checked as [checked|error].
    + apply (wp_dispatch _ _ identity); [done|by set_solver|done|done|].
      intros [dispatch|e].
      * eapply walks_weaken; [apply walks_rollback_settle|]. intros r t Hset Hr1.
        destruct (Hset Hr1) as [Hsucc ->]. eauto.
      * apply walks_bind, walks_transition; [done|]. apply walks_rollback_recovery.
    + apply (wp_step undispatched).
      { unfold transition_proof. adding. }
      { intros e extra He. eexists. rewrite <- app_assoc. split; [done|].
        apply unit_undispatched, Forall_app. by split. }
      intros [] extra He w.
      destruct (adds_block x operation ["error" ↦ application_error_text error;
        "phase" ↦ lit "immediately_before_worker_dispatch"] (lit "rollback_precondition_failed")
        (application_error_text error)
        (lit "Rollback stopped because the exact destination identity changed.") cursor'
        ((log ++ (pre ++ before) ++ [CeIntent event request true] ++ sync_log database external)
           ++ extra) w) as (extra' & -> & He').
      exists ((((pre ++ before) ++ [CeIntent event request true] ++ sync_log database external)
        ++ extra) ++ extra'). split; [by rewrite <- !app_assoc|]. rewrite counts_block.
      apply unit_undispatched. apply Forall_app. split; [|by apply quiet_all_undispatched].
      apply Forall_app. by split.
Qed.

(** *** The schedule *)

(** What a loop over operations adds; it is complete when it returns a cursor. *)
Definition schedule_run {A} (direction : OperationDirection)
    (may : gset uuid -> ExecutionOperation -> Prop) (applied : gset uuid)
    (operations : list ExecutionOperation) (m : SE T ApplicationError (A + JournalCursor)) : Prop :=
  forall log, wp m log (fun r log' => exists extra, log' = log ++ extra
    /\ schedule_log direction may applied operations
         match r with Ok (inr _) => true | _ => false end extra).

(** One round: the unit, and then the rest when it counts as applied. *)
Lemma wp_round {A} direction (may : gset uuid -> ExecutionOperation -> Prop) applied operation
    operations (m : SE T ApplicationError (ApplyScheduledOutcome * JournalCursor))
    (next : ApplyScheduledOutcome * JournalCursor -> SE T ApplicationError (A + JournalCursor)) log :
  may applied operation -> unit_run direction operation m ->
  (forall detail cursor, exists a, next (AsoTerminal detail, cursor) = mret (inl a)) ->
  (forall cursor, schedule_run direction may ({[eo_id operation]} ∪ applied) operations
     (next (AsoApplied, cursor))) ->
  wp (m ≫= next) log (fun r log' => exists extra, log' = log ++ extra
    /\ schedule_log direction may applied (operation :: operations)
         match r with Ok (inr _) => true | _ => false end extra).
Proof.
  intros Hmay Hm Hterm Hnext. apply wp_bind. eapply wp_weaken; [apply Hm|].
  intros [[[|detail] cursor]|e] log' (extra & -> & Hu); cbn [counts] in Hu.
  - eapply wp_weaken; [apply Hnext|]. intros r log' (extra' & -> & Hs).
    exists (extra ++ extra'). rewrite app_assoc. split; [done|]. by apply schedule_next.
  - destruct (Hterm detail cursor) as [a ->]. apply wp_ret. exists extra. split; [done|].
    by apply schedule_last.
  - exists extra. split; [done|]. by apply schedule_last.
Qed.

(** Ends without a dispatch, and not with a cursor. *)
Lemma wp_stop {A} direction may applied operations (m : SE T ApplicationError (A + JournalCursor)) log :
  adds undispatched m -> (forall w c, fst (m w) <> Ok (inr c)) ->
  wp m log (fun r log' => exists extra, log' = log ++ extra
    /\ schedule_log direction may applied operations
         match r with Ok (inr _) => true | _ => false end extra).
Proof.
  intros Hm Hc w. destruct (Hm log w) as (extra & Heq & He). exists extra. split; [done|].
  specialize (Hc (w, log)). destruct (fst (m (w, log))) as [[a|c]|e]; try by apply schedule_stop.
  by destruct (Hc c).
Qed.

Lemma run_schedule_run x root session total cycle_group operations : forall state,
  schedule_run DirForward depends_on_applied (scs_applied state) operations
    (run_schedule (W := T) policy x root session total cycle_group state operations).
Proof.
  induction operations as [|operation operations IH]; intros state log; cbn [run_schedule].
  { apply wp_ret. exists []. rewrite app_nil_r. split; [done|]. constructor. }
  quietly as control.
  { exists []. rewrite app_nil_r. split; [done|]. by apply schedule_stop. }
  destruct control as [pause cancel]. destruct (_ && _); [|destruct (existsb _ _) eqn:Hdeps].
  - apply wp_stop.
    + eapply adds_weaken; [|apply quiet_undispatched]. unfold finish_with_detail. adding.
    + intros w c. cbv [mbind se_bind]. repeat case_match; simplify_eq; done.
  - apply wp_stop.
    + eapply adds_weaken; [|apply quiet_undispatched]. adding.
    + intros w c. cbv [mbind se_bind]. repeat case_match; simplify_eq; done.
  - apply wp_round; [|apply apply_unit|by eauto|intros cursor; apply IH].
    apply Forall_forall. intros dependency Hin. apply not_true_iff_false in Hdeps.
    destruct (decide (dependency ∈ scs_applied state)) as [|Hn]; [done|]. destruct Hdeps.
    apply existsb_exists. exists dependency. split; [by apply list_elem_of_In|].
    by rewrite bool_decide_eq_false_2.
Qed.

Lemma run_rollback_run x root session total operations : forall applied cursor,
  schedule_run DirRollback (fun _ _ => True) applied operations
    (run_rollback (W := T) policy x root session total cursor operations).
Proof.
  induction operations as [|operation operations IH]; intros applied cursor log; cbn [run_rollback].
  { apply wp_ret. exists []. rewrite app_nil_r. split; [done|]. constructor. }
  apply wp_round; [done|apply rollback_unit|by eauto|intros c; apply IH].
Qed.

(** *** The whole run *)

Lemma quiet_unauthorised effect : quiet effect -> unauthorised effect.
Proof. by destruct effect as [| | | |? []| | | | | |]. Qed.

Lemma adds_invalidate P x reason : adds P (invalidate_unstarted_consent (W := T) x reason).
Proof. unfold invalidate_unstarted_consent. adding. Qed.
#[local] Hint Resolve adds_invalidate : adds.
Lemma adds_refuse P A detail reason error :
  adds P (refuse_consent (W := T) (A := A) detail reason error).
Proof. unfold refuse_consent. adding. Qed.
#[local] Hint Resolve adds_refuse : adds.
Lemma adds_or_refuse P A detail reason (attempt : SE T ApplicationError A) :
  adds P attempt -> adds P (or_refuse detail reason attempt).
Proof. intros H. unfold or_refuse. adding. Qed.
Lemma adds_sources P detail root : adds P (revalidate_approved_sources (W := T) policy detail root).
Proof.
  unfold revalidate_approved_sources. apply adds_bind; [|intros; adding].
  apply adds_fold. intros observed operation. unfold revalidate_approved_source. adding.
Qed.
#[local] Hint Resolve adds_sources : adds.
Lemma adds_context P detail :
  adds P (revalidate_consent_context_or_invalidate (W := T) policy detail).
Proof.
  unfold revalidate_consent_context_or_invalidate. cbv zeta.
  repeat (apply adds_bind; [|intros ?]); try apply adds_or_refuse; adding.
Qed.
Lemma adds_stored P detail :
  adds P (verify_stored_consent_attestation (W := T) consent_authority detail).
Proof. unfold verify_stored_consent_attestation. adding. Qed.
Lemma adds_gate P : adds P (require_apply_gate (W := T) gate).
Proof.
  unfold require_apply_gate, require_mutations_unlocked. apply adds_bind; [|intros; adding].
  by apply adds_nothing.
Qed.
Lemma adds_cursor x : adds quiet (journal_cursor (W := T) x).
Proof. unfold journal_cursor. adding. Qed.
Lemma adds_finish_detail x status message cursor :
  adds quiet (finish_with_detail (W := T) x status message cursor).
Proof. unfold finish_with_detail. adding. Qed.
#[local] Hint Resolve adds_context adds_stored adds_gate adds_cursor adds_finish_detail : adds.

Lemma adds_complete x total cursor : adds quiet (complete_execution (W := T) x total cursor).
Proof. unfold complete_execution. adding. Qed.
#[local] Hint Resolve adds_complete : adds.

(** [authorise_start] opens the session, and then consumes the consent. *)
Lemma wp_authorise x detail now log
    (Q : res ApplicationError (PathBuf * ExecutorSession (W := T) * ExecutionDetail) ->
       list CoEffect -> Prop) :
  (forall e extra, Forall unauthorised extra -> Q (Err e) (log ++ extra)) ->
  (forall root session detail' opening, Forall unauthorised opening ->
    CeOpen AuthForward true ∈ opening ->
    Q (Ok (root, session, detail')) (log ++ opening ++ [CeConsume (Some detail')])) ->
  wp (authorise_start (W := T) policy consent_authority x detail now) log Q.
Proof.
  intros HE HQ. unfold authorise_start.
  assert (forall e, Q (Err e) log) as HE0 by (intros e; rewrite <- (app_nil_r log); by apply HE).
  do 9 (quietly; [done|]).
  apply wp_bind. unfold open_stored_session.
  apply wp_bind, wp_map_err, wp_logged. intros [session|e]; cbn [map_err is_ok].
  2: { apply HE. by repeat constructor. }
  quietly; [apply HE; by repeat constructor|].
  quietly; [apply HE; by repeat constructor|].
  apply wp_ret, wp_bind, wp_map_err, wp_logged.
  intros [detail'|e]; cbn [map_err value_of]; rewrite <- app_assoc; [|apply HE; by repeat constructor].
  apply wp_ret, HQ; [by repeat constructor|by left].
Qed.

(** A log that follows the protocol, for [wp]. *)
Lemma wp_start x now :
  wp (start_execution_at (W := T) policy gate consent_authority x now) []
    (fun _ log => start_log log).
Proof.
  unfold start_execution_at.
  do 4 (quietly; [by apply start_refused|]).
  apply (wp_step quiet); [adding| |].
  { intros e extra He. apply start_refused. eapply Forall_impl; [done|apply quiet_unauthorised]. }
  intros [] opening Ho. cbn [app].
  assert (Forall unauthorised opening) as Hop.
  { eapply Forall_impl; [done|apply quiet_unauthorised]. }
  apply wp_bind. destruct (ses_status _); try by apply wp_fail, start_refused.
  apply wp_authorise.
  { intros e extra He. apply start_refused, Forall_app. by split. }
  intros root session detail opening' Ho' Hopen.
  apply (wp_step quiet); [adding| |].
  { intros e before Hb.
    assert (start_log ((opening ++ opening') ++ [CeConsume (Some detail)] ++ before ++ [] ++ [])) as H.
    { eapply start_run; [by apply Forall_app|by set_solver|done|done|]. by apply schedule_stop. }
    rewrite !app_nil_r in H. by rewrite <- !app_assoc in *. }
  intros cursor before Hb. apply wp_bind.
  eapply wp_weaken; [apply run_schedule_run|].
  intros r log' (units & -> & Hs). cbn [scs_applied] in Hs.
  assert (forall after, Forall quiet after ->
    start_log (((opening ++ opening' ++ [CeConsume (Some detail)]) ++ before) ++ units ++ after)) as Hend.
  { intros after Ha. rewrite <- !app_assoc, (app_assoc opening opening').
    eapply start_run; [by apply Forall_app|by set_solver|done..]. }
  assert (start_log (((opening ++ opening' ++ [CeConsume (Some detail)]) ++ before) ++ units)) as Hnone.
  { specialize (Hend [] (Forall_nil_2 _)). by rewrite app_nil_r in Hend. }
  destruct r as [[d|c]|e]; [by apply wp_ret| |done].
  eapply wp_adds; [apply (adds_complete x)|]. intros r after Ha. rewrite <- app_assoc. by apply Hend.
Qed.

Lemma adds_mutations P : adds P (require_mutations_unlocked (W := T)).
Proof. by apply adds_nothing. Qed.
Lemma adds_root P detail : adds P (execution_root (W := T) policy detail).
Proof. unfold execution_root. adding. Qed.
Lemma adds_authorization detail rollback : adds quiet (rollback_authorization (W := T) detail rollback).
Proof. unfold rollback_authorization. adding. Qed.
#[local] Hint Resolve adds_root : adds.

(** The eligible operations are the ones that are rolled back. *)
Lemma eligible_ids events rollback eligible :
  collect (rollback_eligibility events) rollback = Ok eligible ->
  re_operation_id <$> eligible = (fun operation => uuid_to_string (eo_id operation)) <$> rollback.
Proof.
  revert eligible. induction rollback as [|operation rollback IH]; intros eligible; cbn [collect];
    [by intros [= <-]|].
  intros (e & He & (es & Hes & [= <-])%bind_Ok)%bind_Ok. cbn. rewrite (IH es Hes). f_equal.
  unfold rollback_eligibility in He.
  apply bind_Ok in He as ([] & _ & (state & _ & (event & _ & [= <-])%bind_Ok)%bind_Ok). done.
Qed.

Lemma wp_authorization detail rollback log (Q : res ApplicationError SessionAuthorization ->
    list CoEffect -> Prop) :
  (forall e extra, Forall quiet extra -> Q (Err e) (log ++ extra)) ->
  (forall eligible extra, Forall quiet extra ->
    re_operation_id <$> eligible = (fun operation => uuid_to_string (eo_id operation)) <$> rollback ->
    Q (Ok (AuthRollback eligible)) (log ++ extra)) ->
  wp (rollback_authorization (W := T) detail rollback) log Q.
Proof.
  intros HE HQ. unfold rollback_authorization. apply (wp_step quiet); [adding|done|].
  intros events extra He. apply wp_lift_bind; [by intros e; apply HE|].
  intros eligible Hel%eligible_ids. by apply wp_ret, HQ.
Qed.

(** A computation of the run's world, bound first. *)
Lemma run_cases {E A B} (m : SE T E A) (k : A -> SE T E B) w :
  (m ≫= k) w = match m w with (Ok a, w') => k a w' | (Err e, w') => (Err e, w') end.
Proof. done. Qed.

Lemma apply_gate_reads (w : T) : exists r, require_apply_gate gate w = (r, w).
Proof.
  unfold require_apply_gate, require_mutations_unlocked. cbv [mbind se_bind se_lift se_fail].
  repeat case_match; simplify_eq; eauto.
Qed.

(** The execution that is rolled back is the one the database answers with when
    the rollback begins. *)
Lemma rollback_word x w :
  rollback_log (value_of (fst (execution_detail x w)))
    (snd (snd (rollback_execution (W := T) policy gate x (w, [])))).
Proof.
  unfold rollback_execution. rewrite run_cases.
  destruct (apply_gate_reads (w, [])) as [[[]|e] ->]; [|by apply rollback_refused]. cbv beta iota.
  rewrite run_cases. unfold se_map_err at 1. cbn [execution_detail cotraced_database passing].
  destruct (execution_detail x w) as [[detail|e] w1]; cbn [fst snd value_of map_err];
    [|by apply rollback_refused].
  revert w1.
  match goal with |- forall w1, rollback_log _ (snd (snd (?m (w1, [])))) =>
    change (wp m [] (fun _ log => rollback_log (Some detail) log)) end.
  assert (forall log, Forall quiet log -> rollback_log (Some detail) log) as Hq.
  { intros log Hl. by apply rollback_refused, quiet_all_undispatched. }
  do 2 (quietly; [by apply Hq|]).
  apply (wp_step quiet); [adding|intros; by apply Hq|]. intros [] opening Ho. cbn [app].
  quietly as root; [by apply Hq|].
  apply (wp_step quiet); [adding| |].
  { intros e extra He. apply Hq, Forall_app. by split. }
  intros cursor extra He. quietly as total; [apply Hq, Forall_app; by split|].
  assert (Forall quiet (opening ++ extra)) as Hoe by (apply Forall_app; by split).
  destruct (rollback_operations detail) as [|operation operations] eqn:Hops.
  { eapply wp_adds; [apply adds_finish_detail|]. intros r after Ha. apply Hq, Forall_app. by split. }
  rewrite <- Hops. apply wp_bind, wp_authorization.
  { intros e more Hm. apply Hq, Forall_app. by split. }
  intros eligible more Hm Heligible.
  assert (Forall quiet ((opening ++ extra) ++ more)) as Hoem by (apply Forall_app; by split).
  quietly as envelope; [by apply Hq|].
  apply wp_bind. unfold open_stored_session. apply wp_bind, wp_map_err, wp_logged.
  intros [session|e]; cbn [map_err is_ok].
  2: { apply rollback_refused, Forall_app. split; [by apply quiet_all_undispatched|by repeat constructor]. }
  set (before := ((opening ++ extra) ++ more) ++ [CeOpen (AuthRollback eligible) true]).
  assert (Forall undispatched before) as Hb.
  { apply Forall_app. split; [by apply quiet_all_undispatched|by repeat constructor]. }
  assert (CeOpen (AuthRollback eligible) true ∈ before) as Hopen by set_solver.
  do 2 (quietly; [by apply rollback_refused|]). apply wp_ret, wp_bind.
  eapply wp_weaken; [apply (run_rollback_run _ _ _ _ _ ∅)|].
  intros r log' (units & -> & Hs).
  assert (forall after, Forall quiet after -> rollback_log (Some detail) (before ++ units ++ after))
    as Hend.
  { intros after Ha. by eapply rollback_run. }
  assert (rollback_log (Some detail) (before ++ units)) as Hnone.
  { specialize (Hend [] (Forall_nil_2 _)). by rewrite app_nil_r in Hend. }
  destruct r as [[d|c]|e]; [by apply wp_ret| |done].
  apply (wp_step quiet); [adding| |]; [intros e after Ha; rewrite <- app_assoc; by apply Hend|].
  intros d after Ha. quietly; [rewrite <- app_assoc; by apply Hend|].
  apply wp_ret. rewrite <- app_assoc. by apply Hend.
Qed.
End write_ahead.
