(* ===== verification/Coordinated.v ===== *)
(** * The order of the mutations of an execution

    What the protocol of WriteAhead.v says about a run of
    [start_execution_at] or [rollback_execution]: what was recorded before a
    dispatch, which operations are dispatched, in which order, and after
    what; with a run on a concrete world. *)

From S2P Require Export ExecEnvelope WriteAhead.
#[local] Open Scope Z_scope.

(** ** Splitting logs *)

Lemma app_cons_cases {A} (l k before after : list A) x :
  l ++ k = before ++ x :: after ->
  (exists rest, l = before ++ x :: rest /\ after = rest ++ k)
  \/ (exists rest, before = l ++ rest /\ k = rest ++ x :: after).
Proof.
  revert before. induction l as [|y l IH]; intros before H; cbn in H; [right; by exists before|].
  destruct before as [|z before]; injection H as -> H; [left; by exists l|].
  destruct (IH before H) as [(rest & -> & ->)|(rest & -> & ->)]; [left|right]; by exists rest.
Qed.

(** Two decompositions at the only element with a property are the same. *)
Lemma split_unique {A} (P : A -> Prop) (l k before after : list A) x y :
  Forall (fun z => ~ P z) l -> Forall (fun z => ~ P z) k -> P y ->
  l ++ x :: k = before ++ y :: after -> l = before /\ x = y /\ k = after.
Proof.
  intros Hl Hk Hy. revert before. induction Hl as [|z l Hz Hl IH]; intros [|b before] H; cbn in H.
  - by injection H.
  - injection H as -> ->. exfalso. rewrite Forall_app, Forall_cons in Hk. tauto.
  - injection H as -> _. done.
  - injection H as -> H. destruct (IH _ H) as (-> & -> & ->). done.
Qed.

Definition is_dispatch (effect : CoEffect) : Prop :=
  match effect with CeDispatch _ _ _ => True | _ => False end.

#[export] Instance is_dispatch_dec effect : Decision (is_dispatch effect).
Proof. destruct effect; first [left; exact I | right; intros []]. Defined.

Lemma undispatched_not log : Forall undispatched log -> Forall (fun effect => ~ is_dispatch effect) log.
Proof. intros H. eapply Forall_impl; [done|]. intros [] H1 H2; done. Qed.
Lemma quiet_not log : Forall quiet log -> Forall (fun effect => ~ is_dispatch effect) log.
Proof. intros H. eapply Forall_impl; [done|]. intros [] H1 H2; done. Qed.
Lemma unauthorised_not log : Forall unauthorised log -> Forall (fun effect => ~ is_dispatch effect) log.
Proof. intros H. eapply Forall_impl; [done|]. intros [] H1 H2; done. Qed.

Lemma no_dispatch log before request binding outcome after :
  Forall (fun effect => ~ is_dispatch effect) log ->
  log <> before ++ CeDispatch request binding outcome :: after.
Proof. intros H ->. rewrite Forall_app, Forall_cons in H. by destruct H as (_ & [] & _). Qed.

(** The requests a log dispatches. *)
Definition dispatched (log : list CoEffect) : list ExecutorRequestIdentity :=
  omap (fun effect => match effect with CeDispatch request _ _ => Some request | _ => None end) log.

Lemma dispatched_app log log' : dispatched (log ++ log') = dispatched log ++ dispatched log'.
Proof. apply omap_app. Qed.

Lemma dispatched_none log : Forall (fun effect => ~ is_dispatch effect) log -> dispatched log = [].
Proof. induction 1 as [|[] log H _ IH]; cbn; done. Qed.

Section logs.
Context `{UU : UuidCrate} `{JC : JsonCrate}.

(** What stands right before a dispatch. *)
Definition written_ahead (direction : OperationDirection) (before : list CoEffect)
    (request : ExecutorRequestIdentity) (binding : CommittedJournalEventBinding) : Prop :=
  exists earlier session event database external,
    before = earlier ++ [CeIntent event request true] ++ sync_log database external
    /\ records direction session request event /\ in_step true database external
    /\ binding = committed_binding event.

Lemma written_ahead_later direction earlier before request binding :
  written_ahead direction before request binding ->
  written_ahead direction (earlier ++ before) request binding.
Proof.
  intros (e & session & event & database & external & -> & H).
  exists (earlier ++ e), session, event, database, external. by rewrite <- app_assoc.
Qed.

(** The one dispatch of a unit. *)
Lemma unit_at direction operation applied log before request binding outcome after :
  unit_log direction operation applied log ->
  log = before ++ CeDispatch request binding outcome :: after ->
  written_ahead direction before request binding
  /\ Forall (fun effect => ~ is_dispatch effect) before
  /\ Forall (fun effect => ~ is_dispatch effect) after
  /\ CePrepare (eo_id operation) direction (Some request) ∈ before
  /\ (applied = true -> exists success, outcome = Some success /\ is_success success = true).
Proof.
  intros [log' Hu|applied' session request' event database external pre outcome' post state
    Hpre Hprep Hrec Hstep Hwalk Happ] Heq.
  { by destruct (no_dispatch log' before request binding outcome after (undispatched_not _ Hu)). }
  rewrite !app_assoc, <- app_assoc in Heq. cbn [app] in Heq.
  assert (Forall (fun effect => ~ is_dispatch effect)
    ((pre ++ [CeIntent event request' true]) ++ sync_log database external)) as Hbefore.
  { rewrite !Forall_app, Forall_singleton. split_and!; [by apply undispatched_not|intros []|].
    apply quiet_not, sync_log_quiet. }
  assert (Forall (fun effect => ~ is_dispatch effect) post) as Hpost.
  { eapply Forall_impl; [exact (proj1 Hwalk)|]. intros [] H1 H2; done. }
  apply (split_unique is_dispatch) in Heq as (<- & [= <- <- <-] & <-); [|done..].
  split_and!; [|done|done|by set_solver|by intros [_ H]%Happ].
  exists pre, session, event, database, external. by rewrite <- app_assoc.
Qed.

Lemma unit_dispatches direction operation applied log :
  unit_log direction operation applied log ->
  exists done, dispatched log = done /\ (length done <= 1)%nat
  /\ (applied = true -> done <> [])
  /\ forall request, request ∈ done -> CePrepare (eo_id operation) direction (Some request) ∈ log.
Proof.
  intros [log' Hu|applied' session request event database external pre outcome post state
    Hpre Hprep Hrec Hstep Hwalk Happ].
  { exists []. rewrite dispatched_none by (by apply undispatched_not). split_and!; [done|cbn; lia|done|].
    by intros r Hr%not_elem_of_nil. }
  exists [request]. rewrite !dispatched_app. cbn [dispatched omap list_omap].
  rewrite !(dispatched_none pre), !(dispatched_none (sync_log _ _)), !(dispatched_none post).
  - split_and!; [done|done|done|]. intros r ->%list_elem_of_singleton. set_solver.
  - eapply Forall_impl; [exact (proj1 Hwalk)|]. intros [] H1 H2; done.
  - apply quiet_not, sync_log_quiet.
  - by apply undispatched_not.
Qed.

(** ** Schedules *)

Lemma schedule_written direction may applied operations completed log :
  schedule_log direction may applied operations completed log ->
  forall before request binding outcome after,
    log = before ++ CeDispatch request binding outcome :: after ->
    written_ahead direction before request binding.
Proof.
  induction 1 as [applied|applied operations log Hu|applied operation operations log Hmay Hu
    |applied operation operations completed log log' Hmay Hu Hs IH];
    intros before request binding outcome after Heq.
  - by destruct before.
  - by destruct (no_dispatch log before request binding outcome after (undispatched_not _ Hu)).
  - by destruct (unit_at _ _ _ _ _ _ _ _ _ Hu Heq).
  - apply app_cons_cases in Heq as [(rest & Heq & ->)|(rest & -> & Heq)].
    + by destruct (unit_at _ _ _ _ _ _ _ _ _ Hu Heq).
    + by apply written_ahead_later, (IH _ _ _ _ _ Heq).
Qed.

(** The client prepares requests for the operation it is asked about. *)
Definition prepares_as_asked (log : list CoEffect) : Prop := forall id direction request,
  CePrepare id direction (Some request) ∈ log -> eri_operation_id request = id.

Lemma schedule_in_order direction may applied operations completed log :
  schedule_log direction may applied operations completed log -> prepares_as_asked log ->
  (eri_operation_id <$> dispatched log) `prefix_of` (eo_id <$> operations)
  /\ (completed = true -> eri_operation_id <$> dispatched log = eo_id <$> operations).
Proof.
  induction 1 as [applied|applied operations log Hu|applied operation operations log Hmay Hu
    |applied operation operations completed log log' Hmay Hu Hs IH]; intros Hclient.
  - split; [apply prefix_nil|done].
  - rewrite dispatched_none by (by apply undispatched_not). split; [apply prefix_nil|done].
  - destruct (unit_dispatches _ _ _ _ Hu) as (done & -> & Hlen & _ & Hin). split; [|done].
    destruct done as [|request [|? ?]]; cbn in *; [apply prefix_nil| |lia].
    rewrite (Hclient _ _ _ (Hin request ltac:(by left))). apply prefix_cons, prefix_nil.
  - assert (prepares_as_asked log') as Hclient'.
    { intros id d r Hin. apply (Hclient id d r). set_solver. }
    destruct (IH Hclient') as [Hprefix Hall].
    destruct (unit_dispatches _ _ _ _ Hu) as (done & Hdone & Hlen & Hne & Hin).
    rewrite dispatched_app, Hdone, fmap_app.
    destruct done as [|request [|? ?]]; cbn in *; [by destruct (Hne eq_refl)| |lia].
    assert (eri_operation_id request = eo_id operation) as ->.
    { apply (Hclient _ direction). apply elem_of_app. left. apply Hin. by left. }
    split; [by apply prefix_cons|]. intros Hc. by rewrite (Hall Hc).
Qed.

Lemma schedule_stops direction may applied operations completed log :
  schedule_log direction may applied operations completed log ->
  forall before request binding outcome after,
    log = before ++ CeDispatch request binding outcome :: after ->
    Exists is_dispatch after ->
    exists success, outcome = Some success /\ is_success success = true.
Proof.
  assert (forall l, Forall (fun effect => ~ is_dispatch effect) l -> Exists is_dispatch l -> False)
    as Hno.
  { intros l Hall (effect & Hin & He)%Exists_exists. rewrite Forall_forall in Hall. by apply (Hall effect). }
  induction 1 as [applied|applied operations log Hu|applied operation operations log Hmay Hu
    |applied operation operations completed log log' Hmay Hu Hs IH];
    intros before request binding outcome after Heq Hex.
  - by destruct before.
  - by destruct (no_dispatch log before request binding outcome after (undispatched_not _ Hu)).
  - destruct (unit_at _ _ _ _ _ _ _ _ _ Hu Heq) as (_ & _ & Hafter & _). by destruct (Hno after).
  - apply app_cons_cases in Heq as [(rest & Heq & ->)|(rest & -> & Heq)].
    + destruct (unit_at _ _ _ _ _ _ _ _ _ Hu Heq) as (_ & _ & _ & _ & H). by apply H.
    + by apply (IH _ _ _ _ _ Heq).
Qed.

(** The requests of the operations that were applied before. *)
Definition succeeded_before (before : list CoEffect) (id : OperationStepId) : Prop :=
  exists request binding success, CeDispatch request binding (Some success) ∈ before
  /\ eri_operation_id request = id /\ is_success success = true.

Lemma unit_succeeds direction operation log :
  unit_log direction operation true log -> prepares_as_asked log ->
  succeeded_before log (eo_id operation).
Proof.
  intros Hu Hclient. inversion Hu as [|applied session request event database external pre outcome
    post state Hpre Hprep Hrec Hstep Hwalk Happ]; subst.
  destruct (Happ eq_refl) as (_ & success & -> & Hs).
  exists request, (committed_binding event), success. split_and!; [|apply (Hclient _ direction), elem_of_app; by left|done].
  apply elem_of_app. right. apply elem_of_app. right. apply elem_of_app. right. by left.
Qed.

Lemma schedule_depends applied operations completed log :
  schedule_log DirForward depends_on_applied applied operations completed log ->
  prepares_as_asked log ->
  forall before request binding outcome after,
    log = before ++ CeDispatch request binding outcome :: after ->
    exists operation, operation ∈ operations /\ eo_id operation = eri_operation_id request
    /\ forall dependency, dependency ∈ eo_dependencies operation ->
         dependency ∈ applied \/ succeeded_before before dependency.
Proof.
  induction 1 as [applied|applied operations log Hu|applied operation operations log Hmay Hu
    |applied operation operations completed log log' Hmay Hu Hs IH];
    intros Hclient before request binding outcome after Heq.
  - by destruct before.
  - by destruct (no_dispatch log before request binding outcome after (undispatched_not _ Hu)).
  - destruct (unit_at _ _ _ _ _ _ _ _ _ Hu Heq) as (_ & _ & _ & Hp & _). subst log.
    exists operation. split_and!; [by left|symmetry; apply (Hclient _ DirForward); set_solver|].
    intros dependency Hin. left. by apply (proj1 (Forall_forall _ _) Hmay).
  - pose proof Heq as Hsplit.
    apply app_cons_cases in Hsplit as [(rest & Hlog & ->)|(rest & -> & Hlog)].
    + destruct (unit_at _ _ _ _ _ _ _ _ _ Hu Hlog) as (_ & _ & _ & Hp & _). subst log.
      exists operation. split_and!; [by left|symmetry; apply (Hclient _ DirForward); set_solver|].
      intros dependency Hin. left. by apply (proj1 (Forall_forall _ _) Hmay).
    + assert (prepares_as_asked log') as Hclient'.
      { intros id d r Hin. apply (Hclient id d r). set_solver. }
      assert (prepares_as_asked log) as Hclient0.
      { intros id d r Hin. apply (Hclient id d r). set_solver. }
      destruct (IH Hclient' _ _ _ _ _ Hlog) as (op & Hop & Hid & Hdeps).
      exists op. split_and!; [by right|done|]. intros dependency Hin.
      destruct (Hdeps dependency Hin) as [H|(r & b & s & Hr & Hrest)].
      * apply elem_of_union in H as [->%elem_of_singleton|H]; [|by left]. right.
        destruct (unit_succeeds _ _ _ Hu Hclient0) as (r & b & s & Hr & Hrest).
        exists r, b, s. split; [set_solver|done].
      * right. exists r, b, s. split; [set_solver|done].
Qed.

(** ** Whole logs *)

(** Dispatches lie in the middle when they lie in neither end. *)
Lemma inside pre mid post before request binding outcome after :
  Forall (fun effect => ~ is_dispatch effect) pre ->
  Forall (fun effect => ~ is_dispatch effect) post ->
  pre ++ mid ++ post = before ++ CeDispatch request binding outcome :: after ->
  exists b a, before = pre ++ b /\ mid = b ++ CeDispatch request binding outcome :: a
    /\ after = a ++ post.
Proof.
  intros Hpre Hpost [(rest & Hl & _)|(b & -> & Hl)]%app_cons_cases;
    [by destruct (no_dispatch _ _ _ _ _ _ Hpre Hl)|].
  apply app_cons_cases in Hl as [(a & -> & ->)|(rest & _ & Hl)]; [by exists b, a|].
  by destruct (no_dispatch _ _ _ _ _ _ Hpost Hl).
Qed.

Lemma start_log_inside log :
  start_log log -> Forall (fun effect => ~ is_dispatch effect) log \/
  exists detail pre completed units post,
    log = pre ++ units ++ post
    /\ Forall (fun effect => ~ is_dispatch effect) pre
    /\ Forall (fun effect => ~ is_dispatch effect) post
    /\ CeConsume (Some detail) ∈ pre
    /\ schedule_log DirForward depends_on_applied (applied_operation_ids detail)
         (schedulable_operations detail) completed units.
Proof.
  intros [log' Hl|opening detail between completed units closing Ho _ Hb Hc Hs];
    [left; by apply unauthorised_not|right].
  exists detail, (opening ++ [CeConsume (Some detail)] ++ between), completed, units, closing.
  split_and!; [by rewrite <- !app_assoc| |by apply quiet_not|set_solver|done].
  rewrite !Forall_app, Forall_singleton.
  split_and!; [by apply unauthorised_not|intros []|by apply quiet_not].
Qed.

Lemma rollback_log_inside stored log :
  rollback_log stored log -> Forall (fun effect => ~ is_dispatch effect) log \/
  exists detail pre completed units post,
    stored = Some detail /\ log = pre ++ units ++ post
    /\ Forall (fun effect => ~ is_dispatch effect) pre
    /\ Forall (fun effect => ~ is_dispatch effect) post
    /\ schedule_log DirRollback (fun _ _ => True) ∅ (rollback_operations detail) completed units.
Proof.
  intros [log' Hl|opening detail eligible completed units closing Hd Ho _ _ Hc Hs];
    [left; by apply undispatched_not|right].
  exists detail, opening, completed, units, closing.
  split_and!; [done|done|by apply undispatched_not|by apply quiet_not|done].
Qed.

(** A run of either direction, for what is true of both. *)
Definition coordinated (direction : OperationDirection) (operations : list ExecutionOperation)
    (log : list CoEffect) : Prop :=
  exists may applied pre completed units post,
    log = pre ++ units ++ post
    /\ Forall (fun effect => ~ is_dispatch effect) pre
    /\ Forall (fun effect => ~ is_dispatch effect) post
    /\ schedule_log direction may applied operations completed units.

Lemma coordinated_none direction operations log :
  Forall (fun effect => ~ is_dispatch effect) log -> coordinated direction operations log.
Proof.
  intros H. exists (fun _ _ => True), ∅, log, false, [], []. rewrite app_nil_r.
  split_and!; [done|done|done|by apply schedule_stop].
Qed.

Lemma start_coordinated log :
  start_log log -> exists operations, coordinated DirForward operations log
    /\ (dispatched log <> [] -> exists detail, CeConsume (Some detail) ∈ log
          /\ operations = schedulable_operations detail).
Proof.
  intros [H|(detail & pre & completed & units & post & -> & Hpre & Hpost & Hc & Hs)]%start_log_inside.
  - exists []. split; [by apply coordinated_none|]. by rewrite (dispatched_none _ H).
  - exists (schedulable_operations detail). split; [by repeat eexists|]. intros _.
    exists detail. split; [apply elem_of_app; by left|done].
Qed.

Lemma rollback_coordinated stored log :
  rollback_log stored log -> exists operations, coordinated DirRollback operations log
    /\ (dispatched log <> [] -> exists detail, stored = Some detail
          /\ operations = rollback_operations detail).
Proof.
  intros [H|(detail & pre & completed & units & post & Hd & -> & Hpre & Hpost & Hs)]%rollback_log_inside.
  - exists []. split; [by apply coordinated_none|]. by rewrite (dispatched_none _ H).
  - exists (rollback_operations detail). split; [by repeat eexists|eauto].
Qed.

Lemma coordinated_written direction operations log before request binding outcome after :
  coordinated direction operations log ->
  log = before ++ CeDispatch request binding outcome :: after ->
  written_ahead direction before request binding.
Proof.
  intros (may & applied & pre & completed & units & post & -> & Hpre & Hpost & Hs) Heq.
  apply inside in Heq as (b & a & -> & Hu & _); [|done..].
  by eapply written_ahead_later, schedule_written.
Qed.

Lemma coordinated_in_order direction operations log :
  coordinated direction operations log -> prepares_as_asked log ->
  (eri_operation_id <$> dispatched log) `prefix_of` (eo_id <$> operations).
Proof.
  intros (may & applied & pre & completed & units & post & -> & Hpre & Hpost & Hs) Hclient.
  rewrite !dispatched_app, (dispatched_none pre), (dispatched_none post), app_nil_r by done.
  eapply schedule_in_order; [done|]. intros id d r Hin. apply (Hclient id d r).
  rewrite !elem_of_app. by auto.
Qed.

Lemma coordinated_stops direction operations log before request binding outcome after :
  coordinated direction operations log ->
  log = before ++ CeDispatch request binding outcome :: after -> Exists is_dispatch after ->
  exists success, outcome = Some success /\ is_success success = true.
Proof.
  intros (may & applied & pre & completed & units & post & -> & Hpre & Hpost & Hs) Heq Hex.
  apply inside in Heq as (b & a & -> & Hu & ->); [|done..].
  apply Exists_app in Hex as [Hex|(effect & Hin & He)%Exists_exists]; [by eapply schedule_stops|].
  rewrite Forall_forall in Hpost. by destruct (Hpost effect).
Qed.
End logs.

(** ** The runs of the coordinator *)

Lemma prefix_NoDup {A} (l k : list A) : NoDup k -> l `prefix_of` k -> NoDup l.
Proof. intros H [rest ->]. by apply NoDup_app in H as [? _]. Qed.

(** What a rollback undoes. *)
Lemma rollback_operations_applied detail :
  rollback_operations detail = filter (fun operation =>
    eo_status operation = EosApplied \/ eo_status operation = EosRecovered)
    (rev (ed_operations detail)).
Proof.
  unfold rollback_operations. apply list_filter_iff. intros operation. unfold is_applied.
  rewrite bool_decide_eq_true. set_solver.
Qed.

Section runs.
Context {W : Type} `{B3 : Blake3} `{BH : Blake3Hex} `{UU : UuidCrate} `{UC : UnicodeCase}.
Context `{JC : JsonCrate} `{AS : AuthSerde}.
Context `{TM : ToVec CanonicalPlanMaterial} `{TC : ToVec CanonicalSafetyPolicy}.
Context `{JF : ToJson FileFingerprint} `{JA : ToJson ExecutorAttemptAudit}.
Context `{JE : ToJson ExecutorErrorClass}.
Context `{FS : StdFs W} `{RO : ReadOnlyPlatform W} `{TG : Target}.
Context `{SH : ServiceHost W} `{CH : CoordinatorHost W} `{DB : ExecutionDatabase W}.
Context `{DJ : DurableJournal W} `{EX : ExecutorClient W}.
Variable policy : ExecutionSafetyPolicy.
Variable gate : ApplyGate.
Variable consent_authority : bytes32.

(** What a start and what a rollback ask for. *)
Definition start_asks (x : ExecutionId) (now : Z) (w : W) : list CoEffect :=
  snd (snd (start_execution_at (W := CoTraced W) policy gate consent_authority x now (w, []))).
Definition rollback_asks (x : ExecutionId) (w : W) : list CoEffect :=
  snd (snd (rollback_execution (W := CoTraced W) policy gate x (w, []))).

(** C9: Whatever the database, the external journal, the executor and the file
    system answer, a run of [start_execution_at] asks for a word of the
    protocol: nothing is dispatched until the session is open and the consent
    consumed; then, operation after operation, the request is prepared,
    recorded in both journals, dispatched, and given only states it may get;
    an operation counts as applied only after a success that was verified and
    recorded; and when one does not, the run dispatches nothing more. *)
Theorem start_follows_protocol x now w : start_log (start_asks x now w).
Proof. exact (wp_start policy gate consent_authority x now w). Qed.

(** A run of [rollback_execution] follows the same protocol over the applied
    operations in reverse order, in a session that is authorised for exactly
    these operations. *)
Theorem rollback_follows_protocol x w :
  rollback_log (value_of (fst (execution_detail x w))) (rollback_asks x w).
Proof. exact (rollback_word policy gate x w). Qed.

(** C5: Write-ahead: when the executor is asked for a mutation, the event that
    records the request and its session was stored in the database right
    before, the external journal was then brought in step with the database
    and flushed, and the binding the executor gets is that event's; and a
    forward mutation comes after the consent was consumed. *)
Theorem dispatch_is_written_ahead x now w :
  (forall before request binding outcome after,
     start_asks x now w = before ++ CeDispatch request binding outcome :: after ->
     written_ahead DirForward before request binding
     /\ exists detail, CeConsume (Some detail) ∈ before)
  /\ (forall before request binding outcome after,
     rollback_asks x w = before ++ CeDispatch request binding outcome :: after ->
     written_ahead DirRollback before request binding).
Proof.
  pose proof (wp_start policy gate consent_authority x now w) as Hstart.
  pose proof (rollback_word policy gate x w) as Hback. cbv beta in Hstart, Hback.
  split; intros before request binding outcome after Heq.
  - split; [destruct (start_coordinated _ Hstart) as (ops & H & _); by eapply coordinated_written|].
    destruct (start_log_inside _ Hstart)
      as [H|(detail & pre & completed & units & post & Hlog & Hpre & Hpost & Hc & Hs)].
    { by destruct (no_dispatch _ _ _ _ _ _ H Heq). }
    exists detail. unfold start_asks in Heq. rewrite Hlog in Heq.
    apply inside in Heq as (b & a & -> & _); [|done..]. apply elem_of_app. by left.
  - destruct (rollback_coordinated _ _ Hback) as (ops & H & _). by eapply coordinated_written.
Qed.

(** C8: When the client prepares requests for the operations it is asked about,
    the operations whose mutations a start dispatches are, in this order, the
    first ones that are ready in the plan whose consent was consumed in this
    very run; those a rollback dispatches are, in this order, the first ones of
    the operations that the database, asked when the rollback begins, holds as
    applied or recovered, the last one first.  So no operation of a plan is
    dispatched twice in a run. *)
Theorem dispatches_in_order x now w :
  (prepares_as_asked (start_asks x now w) -> dispatched (start_asks x now w) <> [] ->
     exists detail, CeConsume (Some detail) ∈ start_asks x now w
     /\ (eri_operation_id <$> dispatched (start_asks x now w))
         `prefix_of` (eo_id <$> schedulable_operations detail)
     /\ (NoDup (eo_id <$> ed_operations detail) ->
         NoDup (eri_operation_id <$> dispatched (start_asks x now w))))
  /\ (prepares_as_asked (rollback_asks x w) -> dispatched (rollback_asks x w) <> [] ->
     exists detail w1, execution_detail x w = (Ok detail, w1)
     /\ (eri_operation_id <$> dispatched (rollback_asks x w))
         `prefix_of` (eo_id <$> filter (fun operation =>
            eo_status operation = EosApplied \/ eo_status operation = EosRecovered)
            (rev (ed_operations detail)))
     /\ (NoDup (eo_id <$> ed_operations detail) ->
         NoDup (eri_operation_id <$> dispatched (rollback_asks x w)))).
Proof.
  pose proof (wp_start policy gate consent_authority x now w) as Hstart.
  pose proof (rollback_word policy gate x w) as Hback.
  split; intros Hclient Hne.
  - destruct (start_coordinated _ Hstart) as (ops & H & Hops).
    destruct (Hops Hne) as (detail & Hc & ->). exists detail.
    pose proof (coordinated_in_order _ _ _ H Hclient) as Hprefix. split_and!; [done|done|].
    intros Hnd. eapply prefix_NoDup; [|exact Hprefix]. eapply sublist_NoDup; [exact Hnd|].
    apply fmap_sublist, sublist_filter.
  - destruct (rollback_coordinated _ _ Hback) as (ops & H & Hops).
    destruct (Hops Hne) as (detail & Hd & ->).
    pose proof (coordinated_in_order _ _ _ H Hclient) as Hprefix.
    destruct (execution_detail x w) as [[stored|e] w1]; [|done]. injection Hd as ->.
    exists detail, w1. rewrite rollback_operations_applied in Hprefix. split_and!; [done|done|].
    intros Hnd. eapply prefix_NoDup; [|exact Hprefix].
    apply (sublist_NoDup _ (eo_id <$> rev (ed_operations detail))).
    { by rewrite <- (Permutation_rev (ed_operations detail)). }
    apply fmap_sublist, sublist_filter.
Qed.

(** C7: A mutation is dispatched only after every mutation dispatched before it,
    in the same run, was answered with a success; and a forward one only when
    what its operation depends on is applied already or was dispatched before,
    with success. *)
Theorem dispatch_after_success x now w :
  (forall before request binding outcome after,
     start_asks x now w = before ++ CeDispatch request binding outcome :: after ->
     (Exists is_dispatch after -> exists success, outcome = Some success /\ is_success success = true)
     /\ (prepares_as_asked (start_asks x now w) ->
          exists detail operation, CeConsume (Some detail) ∈ before
          /\ operation ∈ schedulable_operations detail
          /\ eo_id operation = eri_operation_id request
          /\ forall dependency, dependency ∈ eo_dependencies operation ->
               dependency ∈ applied_operation_ids detail \/ succeeded_before before dependency))
  /\ (forall before request binding outcome after,
     rollback_asks x w = before ++ CeDispatch request binding outcome :: after ->
     Exists is_dispatch after -> exists success, outcome = Some success /\ is_success success = true).
Proof.
  pose proof (wp_start policy gate consent_authority x now w) as Hstart.
  pose proof (rollback_word policy gate x w) as Hback. cbv beta in Hstart, Hback.
  fold (start_asks x now w) in Hstart. fold (rollback_asks x w) in Hback.
  split; intros before request binding outcome after Heq.
  - split; [destruct (start_coordinated _ Hstart) as (ops & H & _); by eapply coordinated_stops|].
    intros Hclient. destruct (start_log_inside _ Hstart)
      as [H|(detail & pre & completed & units & post & Hlog & Hpre & Hpost & Hc & Hs)].
    { by destruct (no_dispatch _ _ _ _ _ _ H Heq). }
    assert (prepares_as_asked units) as Hunits.
    { intros id d r Hin. apply (Hclient id d r). rewrite Hlog, !elem_of_app. by auto. }
    rewrite Hlog in Heq. apply inside in Heq as (b & a & -> & Hu & _); [|done..].
    destruct (schedule_depends _ _ _ _ Hs Hunits _ _ _ _ _ Hu) as (operation & Hop & Hid & Hdeps).
    exists detail, operation. split_and!; [apply elem_of_app; by left|done|done|].
    intros dependency Hin. destruct (Hdeps dependency Hin) as [?|(r & bi & su & Hr & ?)]; [by left|].
    right. exists r, bi, su. split; [apply elem_of_app; by right|done].
  - destruct (rollback_coordinated _ _ Hback) as (ops & H & _). by eapply coordinated_stops.
Qed.
End runs.

(** ** A run on a concrete world

    A folder is created, and a file is moved into it. *)

Record SampleDesk := {
  sd_events : list OperationJournalEvent;
  sd_external : list OperationJournalEvent;
  sd_done : list OperationStepId;
  sd_recovering : bool
}.

Definition desk_file : Metadata := {| md_is_symlink := false; md_is_dir := false; md_is_file := true |}.
Definition desk_directory : Metadata := {| md_is_symlink := false; md_is_dir := true; md_is_file := false |}.

Definition folder_step : OperationStepId := uid x51.
Definition move_step : OperationStepId := uid x41.

Definition desk_metadata (w : SampleDesk) (path : PathBuf) : res io_error Metadata :=
  let moved := bool_decide (move_step ∈ sd_done w) in
  if path_eq path (bstr "/data")
    || (path_eq path (bstr "/data/Clients") && bool_decide (folder_step ∈ sd_done w))
  then Ok desk_directory
  else if (path_eq path (bstr "/data/a.txt") && negb moved)
    || (path_eq path (bstr "/data/Clients/a.txt") && moved)
  then Ok desk_file
  else Err (IoError NotFound []).

#[local] Existing Instances sample_blake3 sample_uuid.
#[local] Instance desk_fs : StdFs SampleDesk := {|
  symlink_metadata path := fun w => (desk_metadata w path, w);
  canonicalize path := fun w => (Ok path, w);
  read_dir_first _ := fun w => (Ok None, w)
|}.
#[local] Instance desk_reads : ReadOnlyPlatform SampleDesk := {|
  inspect_volume _ := fun w => (Ok sample_volume, w);
  fingerprint _ _ _ := fun w => (Ok sample_fingerprint, w);
  fingerprint_streaming path _ := fun w =>
    (if is_ok (desk_metadata w path) then Ok sample_fingerprint else Err (PeUnsupported []), w)
|}.
#[local] Instance desk_target : Target := false.
#[local] Instance desk_hex : Blake3Hex := fun h => encode_hex (barr h).
#[local] Instance desk_case : UnicodeCase := ascii_unicode_case.
#[local] Instance desk_json : JsonCrate := {|
  value_to_string _ := Some (lit "{}"); value_from_slice _ := None |}.
#[local] Instance desk_serde : AuthSerde := {|
  as_hello _ := Ok []; as_open _ := Ok []; as_opened _ := Ok []; as_key _ := Ok [];
  as_request _ := Ok []; as_response _ := Ok []; as_refusal _ := Ok [];
  as_consent _ := Ok [x7b; x7d] |}.
#[local] Instance desk_plan : ToVec CanonicalPlanMaterial := fun _ => Ok [x7b; x7d].
#[local] Instance desk_policy : ToVec CanonicalSafetyPolicy := fun _ => Ok [x7b; x7d].
#[local] Instance desk_fingerprint : ToJson FileFingerprint := fun _ => JNull.
#[local] Instance desk_audit : ToJson ExecutorAttemptAudit := fun _ => JNull.
#[local] Instance desk_class : ToJson ExecutorErrorClass := fun _ => JNull.
#[local] Instance desk_service : ServiceHost SampleDesk := {|
  diagnostics_read _ := Some []; diagnostics_push _ := fun w => w;
  execution_now_iso := fun w => ([], w) |}.
#[local] Instance desk_host : CoordinatorHost SampleDesk := {|
  execution_now_unix_ms := fun w => (3000, w);
  fill_nonce := fun w => (Ok (fill 32 x03), w);
  recovery_in_progress w := sd_recovering w;
  set_recovery_in_progress flag := fun w =>
    {| sd_events := sd_events w; sd_external := sd_external w; sd_done := sd_done w;
       sd_recovering := flag |};
  on_progress _ := fun w => w;
  diagnostics_start _ := fun w => w
|}.
#[local] Instance desk_journal : DurableJournal SampleDesk := {|
  journal_append event := fun w => (Ok tt,
    {| sd_events := sd_events w; sd_external := sd_external w ++ [event]; sd_done := sd_done w;
             sd_recovering := sd_recovering w |});
  journal_flush := fun w => (Ok tt, w);
  journal_events _ := fun w => (Ok (sd_external w), w);
  journal_diagnostics _ := []
|}.

Definition desk_gate : ApplyGate := {| gate_enabled := true; gate_reason := [] |}.
Definition desk_authority : bytes32 := fill 32 x21.
Definition desk_digest : str := encode_hex (barr (blake3_hash [x7b; x7d])).
Definition desk_root : RootRecord := {|
  rtr_id := uid x0a; rtr_workspace_id := uid x02; rtr_display_label := lit "data";
  rtr_absolute_path := lit "/data"; rtr_absolute_path_native := bstr "/data" |}.

Definition desk_folder : ExecutionOperation := {|
  eo_id := folder_step; eo_execution_id := uid x40; eo_proposal_operation_id := None;
  eo_kind := EokCreateDirectory; eo_source_relative_path := None;
  eo_destination_relative_path := lit "Clients"; eo_original_source_relative_path := None;
  eo_expected_source_hash := None; eo_expected_source_size := None;
  eo_expected_source_modified_at := None; eo_live_fingerprint := None; eo_post_fingerprint := None;
  eo_preconditions := []; eo_dependencies := []; eo_sequence := 0; eo_status := EosPreflightOk;
  eo_directory_existed_before := Some false; eo_reason := None; eo_error_code := None;
  eo_error_message := None; eo_started_at := None; eo_completed_at := None;
  eo_rolled_back_at := None |}.

Definition desk_move : ExecutionOperation :=
  replanned (Some (lit "a.txt")) (Some sample_fingerprint) [folder_step] 1 None
    (sample_stored_operation []).

Definition desk_approval (policy_binding : ExecutionSafetyPolicyBinding) : ApprovedExecutionPlan := {|
  aep_material_version := 2; aep_execution_id := uid x40; aep_plan_id := uid x42;
  aep_proposal_id := uid x03; aep_proposal_revision_id := uid x43; aep_proposal_revision := 1;
  aep_source_snapshot_version := uid x04; aep_approved_operation_ids := [uid x31];
  aep_operation_count := 1;
  aep_destination_root := root_binding_of (bstr "/data") sample_volume;
  aep_safety_policy := policy_binding;
  aep_approval_timestamp := Some (lit "2025-01-01T00:00:00Z"); aep_user_confirmed := true;
  aep_digest_hex := desk_digest
|}.

(** The policy's binding, and the plan without and with its attestation. *)
Definition desk_binding : ExecutionSafetyPolicyBinding :=
  match binding sample_policy with
  | Ok x => x
  | Err _ => aep_safety_policy sample_execution_plan
  end.

Definition desk_session (status : OrganizationExecutionStatus) (mac : bytes32) : ExecutionSession := {|
  ses_id := uid x40; ses_plan_id := uid x42; ses_proposal_id := uid x03;
  ses_proposal_revision_id := uid x43; ses_proposal_revision := 1; ses_workspace_id := uid x02;
  ses_root_id := uid x0a; ses_source_scan_id := uid x04; ses_status := status;
  ses_recovery_state := ErsRecoveryNotRequired; ses_plan_digest_hex := desk_digest;
  ses_approval := desk_approval desk_binding;
  ses_consent := {|
    ec_state := match status with OesAwaitingConfirmation => EcsPending | _ => EcsAttested end;
    ec_issued_at_unix_ms := Some 1000;
    ec_expires_at_unix_ms := Some 900000; ec_attested_at_unix_ms := Some 2000;
    ec_consumed_at_unix_ms := None; ec_invalidated_at_unix_ms := None;
    ec_invalidation_reason := None; ec_nonce := Some (fill 32 x03);
    ec_attestation_mac := Some mac |};
  ses_summary := ses_summary (ed_session (sample_detail []));
  ses_current_operation := None; ses_rollback_available := false;
  ses_confirmation_phrase_required := false; ses_created_at := lit "2025-01-01T00:00:00Z";
  ses_approved_at := None; ses_started_at := None; ses_completed_at := None;
  ses_rolled_back_at := None; ses_error := None
|}.

Definition desk_mac : bytes32 :=
  blake3_keyed desk_authority (CONSENT_ATTESTATION_MAC_DOMAIN ++ [x7b; x7d]).

Definition desk_detail_in (status : OrganizationExecutionStatus) : ExecutionDetail := {|
  ed_session := desk_session status desk_mac;
  ed_operations := [desk_folder; desk_move]
|}.
Definition desk_detail : ExecutionDetail := desk_detail_in OesApproved.

Definition desk_store (event : OperationJournalEvent) : SE SampleDesk str unit := fun w =>
  (Ok tt, {| sd_events := sd_events w ++ [event]; sd_external := sd_external w;
             sd_done := sd_done w;
             sd_recovering := sd_recovering w |}).

(** The database holds one plan; how a proof is stored is left open. *)
Definition desk_database_with (detail : ExecutionDetail)
    (store_proof : OperationJournalEvent -> SE SampleDesk str unit) : ExecutionDatabase SampleDesk := {|
  execution_detail _ := fun w => (Ok detail, w);
  execution_root_by_id _ _ := fun w => (Ok desk_root, w);
  active_root _ := fun w => (Ok desk_root, w);
  execution_ids_with_journal := fun w => (Ok [uid x40], w);
  recovery_execution_ids := fun w => (Ok [], w);
  mark_interrupted_executions_for_recovery := fun w => (Ok tt, w);
  mark_execution_recovery_required _ _ := fun w => (Ok tt, w);
  validate_execution_journal _ := fun w => (Ok true, w);
  execution_journal_events _ := fun w => (Ok (sd_events w), w);
  execution_proposal_approval_is_current _ := fun w => (Ok true, w);
  invalidate_execution_consent _ _ _ := fun w => (Ok true, w);
  issue_execution_consent_challenge _ _ _ _ := fun w => (Ok tt, w);
  expire_execution_consent _ _ := fun w => (Ok true, w);
  attest_execution_consent _ _ _ _ _ _ := fun w => (Ok detail, w);
  clear_execution_consent_challenge _ _ _ _ _ := fun w => (Ok true, w);
  consume_execution_consent _ _ _ _ _ _ := fun w => (Ok detail, w);
  execution_control _ := fun w => (Ok (false, false), w);
  request_execution_pause _ := fun w => (Ok true, w);
  request_execution_cancel _ := fun w => (Ok true, w);
  cancel_unstarted_execution _ _ := fun w => (Ok true, w);
  persist_executor_session _ := fun w => (Ok tt, w);
  persist_execution_event event _ _ _ := desk_store event;
  persist_executor_request_intent event _ _ _ _ := desk_store event;
  persist_execution_event_with_request_proof event _ _ _ _ _ := store_proof event;
  db_record_executor_response _ _ _ _ _ _ _ := fun w => (Ok tt, w);
  transition_executor_request_proof _ _ _ := fun w => (Ok tt, w);
  add_execution_error _ _ _ _ _ _ _ := fun w => (Ok tt, w);
  executor_session_facts _ := fun w => (Ok [], w);
  executor_request_facts _ := fun w => (Ok [], w);
  db_persist_recovery_assessment _ _ _ _ _ _ _ := fun w => (Ok tt, w)
|}.
#[local] Instance desk_database : ExecutionDatabase SampleDesk := desk_database_with desk_detail desk_store.

Definition desk_identity : ExecutorSessionIdentity := {|
  esi_session_id := lit "session"; esi_execution_id := uid x40; esi_plan_id := uid x42;
  esi_plan_digest_hex := desk_digest; esi_purpose := EspForward; esi_coordinator_pid := 20;
  esi_child_pid := Some 10; esi_worker_nonce_hash_hex := []; esi_coordinator_nonce_hash_hex := [];
  esi_response_nonce_hash_hex := None; esi_opened_at_unix_ms := 3000
|}.

Definition desk_request (operation_id : OperationStepId) : ExecutorRequestIdentity := {|
  eri_request_id := uuid_to_string operation_id; eri_session_id := lit "session";
  eri_execution_id := uid x40; eri_operation_id := operation_id; eri_direction := ErdForward;
  eri_request_sequence := 1; eri_request_nonce := fill 32 x07; eri_request_digest_hex := []
|}.

(** The executor does what it is asked. *)
#[local] Instance desk_client : ExecutorClient SampleDesk := {|
  ExecutorSession := unit;
  open_executor_session _ _ := fun w => (Ok tt, w);
  session_identity _ _ := desk_identity;
  prepare_operation _ operation_id _ := fun w => (Ok (desk_request operation_id), w);
  dispatch_prepared _ request _ := fun w =>
    (Ok {| edr_outcome := OutSuccess 3000 (fill 32 x08)
             {| eaa_attempt_count := 1; eaa_error_class := None |};
           edr_response_digest_hex := [] |},
     {| sd_events := sd_events w; sd_external := sd_external w;
        sd_done := sd_done w ++ [eri_operation_id request]; sd_recovering := sd_recovering w |})
|}.

Definition desk_start : list CoEffect :=
  start_asks sample_policy desk_gate desk_authority (uid x40) 3000
    {| sd_events := []; sd_external := []; sd_done := []; sd_recovering := false |}.

(** The folder is created first, and the file is then moved into it. *)
Example desk_run :
  eri_operation_id <$> dispatched desk_start = [folder_step; move_step]
  /\ is_ok (fst (start_execution_at sample_policy desk_gate desk_authority (uid x40) 3000
       {| sd_events := []; sd_external := []; sd_done := []; sd_recovering := false |})) = true.
Proof. split; vm_compute; reflexivity. Qed.

(** *** Witnesses *)

Fixpoint first_dispatch (log : list CoEffect) :
    option (list CoEffect * (ExecutorRequestIdentity * CommittedJournalEventBinding
      * option ExecutorOutcome) * list CoEffect) :=
  match log with
  | [] => None
  | CeDispatch request binding outcome :: log => Some ([], (request, binding, outcome), log)
  | effect :: log =>
      '(before, dispatch, after) ← first_dispatch log; Some (effect :: before, dispatch, after)
  end.

Lemma first_dispatch_spec log before request binding outcome after :
  first_dispatch log = Some (before, (request, binding, outcome), after) ->
  log = before ++ CeDispatch request binding outcome :: after.
Proof.
  revert before. induction log as [|effect log IH]; intros before H; [done|].
  destruct effect; cbn in H; try (
    destruct (first_dispatch log) as [[[b d] a]|]; [|done]; cbn in H; injection H as <- -> ->;
    cbn; f_equal; by apply IH).
  by injection H as <- <- <- <- <-.
Qed.

Definition prepares_as_asked_b (log : list CoEffect) : bool :=
  forallb (fun effect => match effect with
    | CePrepare id _ (Some request) => bool_decide (eri_operation_id request = id)
    | _ => true
    end) log.
Lemma prepares_as_asked_check log : prepares_as_asked_b log = true -> prepares_as_asked log.
Proof.
  unfold prepares_as_asked_b. rewrite forallb_forall. intros H id direction request Hin.
  apply list_elem_of_In, H in Hin. by apply bool_decide_eq_true in Hin.
Qed.

Definition desk : SampleDesk := {| sd_events := []; sd_external := []; sd_done := []; sd_recovering := false |}.

Lemma dispatch_is_written_ahead_witness : exists before request binding outcome after,
  desk_start = before ++ CeDispatch request binding outcome :: after
  /\ written_ahead DirForward before request binding.
Proof.
  destruct (first_dispatch desk_start) as [[[b [[r bi] o]] a]|] eqn:H;
    [|vm_compute in H; discriminate H].
  apply first_dispatch_spec in H. exists b, r, bi, o, a. split; [exact H|].
  destruct (dispatch_is_written_ahead sample_policy desk_gate desk_authority (uid x40) 3000 desk)
    as [Hstart _].
  destruct (Hstart b r bi o a H) as [Hw _]. exact Hw.
Defined.

Lemma dispatches_in_order_witness : exists detail,
  (eri_operation_id <$> dispatched desk_start) `prefix_of` (eo_id <$> schedulable_operations detail).
Proof.
  destruct (dispatches_in_order sample_policy desk_gate desk_authority (uid x40) 3000 desk)
    as [Hstart _].
  destruct Hstart as (detail & _ & Hprefix & _).
  - apply prepares_as_asked_check. vm_compute. reflexivity.
  - intros H. vm_compute in H. discriminate H.
  - exists detail. exact Hprefix.
Defined.

Lemma dispatch_after_success_witness : exists before request binding outcome after,
  desk_start = before ++ CeDispatch request binding outcome :: after
  /\ exists success, outcome = Some success /\ is_success success = true.
Proof.
  destruct (first_dispatch desk_start) as [[[b [[r bi] o]] a]|] eqn:H;
    [|vm_compute in H; discriminate H].
  assert (dispatched a <> []) as Ha.
  { intros Hd. assert ((fun x => dispatched (snd x)) <$> first_dispatch desk_start = Some []) as Hf
      by (rewrite H; cbn [fmap option_fmap option_map snd]; by rewrite Hd). vm_compute in Hf. discriminate Hf. }
  apply first_dispatch_spec in H. exists b, r, bi, o, a. split; [exact H|].
  destruct (dispatch_after_success sample_policy desk_gate desk_authority (uid x40) 3000 desk)
    as [Hstart _].
  destruct (Hstart b r bi o a H) as [Hs _]. apply Hs.
  destruct (decide (Exists is_dispatch a)) as [|Hn]; [done|]. destruct Ha.
  apply dispatched_none. by apply Forall_Exists_neg.
Defined.
