(* ===== verification/ConsentFacts.v ===== *)
(** * What a consent guarantees

    A consent is only attested, and an execution only started, for a challenge
    the coordinator authenticated, that has not expired, of a plan whose digest,
    policy, root and sources are the ones the user was shown.  The theorems
    speak of one run: the facts are the answers this very run was given before
    the call the consent allows. *)

From S2P Require Export Coordinated Asked.
#[local] Open Scope Z_scope.

(** ** Guards *)

Lemma returns_reject {V E} (bad : bool) (e : E) :
  returns (W := V) (se_lift (reject_if bad e)) (fun _ => bad = false).
Proof. apply returns_lift. by destruct bad. Qed.

(** A guard that ends in an error when [bad]. *)
Lemma returns_guard {V E} (bad : bool) (m : SE V E unit) :
  (bad = true -> returns m (fun _ => False)) ->
  returns (if bad then m else mret tt) (fun _ => bad = false).
Proof. destruct bad; intros H; [|by apply returns_ret]. eapply returns_weaken; [by apply H|done]. Qed.

Lemma returns_ok {V E A} (o : option A) (e : E) :
  returns (W := V) (se_lift (ok_or o e)) (fun a => o = Some a).
Proof. apply returns_lift. intros a. by destruct o as [?|]; [intros [= ->]|]. Qed.

Lemma bool_decide_negb_false P `{Decision P} : negb (bool_decide P) = false <-> P.
Proof. rewrite negb_false_iff. apply bool_decide_eq_true. Qed.

(** ** What is approved *)

Definition approved_operations (detail : ExecutionDetail) : list ExecutionOperation :=
  filter (fun operation =>
    is_approved (aep_approved_operation_ids (ses_approval (ed_session detail))) operation = true)
    (ed_operations detail).

(** The file that was fingerprinted for the plan: the same object of the same
    volume, with one link, and with the content it had. *)
Definition same_file (expected observed : FileFingerprint) : Prop :=
  let e := fp_native_identity expected in
  let o := fp_native_identity observed in
  vi_stable_identifier (ni_volume e) = vi_stable_identifier (ni_volume o)
  /\ ni_object_key e = ni_object_key o
  /\ ni_link_count o = 1 /\ ni_reparse_tag o = None
  /\ fp_byte_size expected = fp_byte_size observed
  /\ fp_modified_at_ns expected = fp_modified_at_ns observed
  /\ fp_attributes expected = fp_attributes observed
  /\ fp_content_digest expected = fp_content_digest observed
  /\ fp_content_digest expected <> None.

Lemma same_file_state_iff expected observed :
  same_file_state expected observed = true <-> same_file expected observed.
Proof.
  unfold same_file_state, same_file. cbv zeta.
  rewrite !andb_true_iff, !bool_decide_eq_true, !Z.eqb_eq, <- not_eq_None_Some. tauto.
Qed.

(** Where the file of an operation lay when the user approved it. *)
Definition approved_at (operation : ExecutionOperation) (text : str) : Prop :=
  eo_original_source_relative_path operation = Some text
  \/ eo_original_source_relative_path operation = None
     /\ eo_source_relative_path operation = Some text.

Lemma approved_source_at operation text :
  approved_source operation = Ok text -> approved_at operation text.
Proof.
  unfold approved_source, approved_at.
  destruct (eo_original_source_relative_path operation); cbn; [intros [= ->]; by left|].
  intros ->%ok_or_Ok. by right.
Qed.

Section facts.
Context `{B3 : Blake3} `{BH : Blake3Hex} `{UU : UuidCrate} `{UC : UnicodeCase} `{AS : AuthSerde}.
Context `{TM : ToVec CanonicalPlanMaterial} `{TC : ToVec CanonicalSafetyPolicy}.
Variable policy : ExecutionSafetyPolicy.
Variable consent_authority : bytes32.

(** The file an operation moves lies where the user approved it, below the
    root, and still has the approved state: so the run was answered. *)
Definition source_unchanged (L : list Answer) (root : PathBuf) (operation : ExecutionOperation) : Prop :=
  exists text relative metadata expected observed,
    approved_at operation text /\ relative_path text = Ok relative /\ only_names relative
    /\ AnMetadata (path_join root relative) metadata ∈ L
    /\ md_is_file metadata = true /\ md_is_symlink metadata = false
    /\ AnFingerprint (path_join root relative) (esp_maximum_rehash_bytes policy) observed ∈ L
    /\ eo_live_fingerprint operation = Some expected
    /\ same_file expected observed.

(** The stored digest is the digest of the stored plan. *)
Definition digest_holds (detail : ExecutionDetail) : Prop :=
  exists encoded, to_vec (detail_material detail) = Ok encoded
    /\ ses_plan_digest_hex (ed_session detail) = hash_to_hex (blake3_hash encoded).

(** The context of a consent is the one that was approved. *)
Definition context_holds (L : list Answer) (detail : ExecutionDetail) (root : PathBuf) : Prop :=
  let approval := ses_approval (ed_session detail) in
  digest_holds detail
  /\ AnCurrent (ses_id (ed_session detail)) true ∈ L
  /\ binding policy = Ok (aep_safety_policy approval)
  /\ (exists volume, AnVolume root volume ∈ L
        /\ root_binding_of root volume = aep_destination_root approval)
  /\ Forall (source_unchanged L root) (approved_operations detail)
  /\ NoDup (eo_proposal_operation_id <$> approved_operations detail)
  /\ forall id, id ∈ aep_approved_operation_ids approval <->
       Some id ∈ (eo_proposal_operation_id <$> approved_operations detail).

(** What the coordinator signs is the plan, the execution and the validity. *)
Definition signs (material : ConsentAttestationBinding) (mac : bytes32) : Prop :=
  exists encoded, to_vec material = Ok encoded
    /\ mac = blake3_keyed consent_authority (CONSENT_ATTESTATION_MAC_DOMAIN ++ encoded).

Definition material_of (detail : ExecutionDetail) (nonce : bytes32) (issued expires : Z)
    (material : ConsentAttestationBinding) : Prop :=
  let approval := ses_approval (ed_session detail) in
  from_hex (aep_digest_hex approval) = Ok (cab_plan_digest material)
  /\ cab_execution_id material = uuid_to_string (ses_id (ed_session detail))
  /\ cab_plan_id material = uuid_to_string (aep_plan_id approval)
  /\ cab_proposal_revision material = aep_proposal_revision approval
  /\ cab_approved_operation_ids material = uuid_to_string <$> aep_approved_operation_ids approval
  /\ cab_root_id material = uuid_to_string (ses_root_id (ed_session detail))
  /\ root_from_live (aep_destination_root approval) = Ok (cab_destination_root material)
  /\ safety_policy_from_live (aep_safety_policy approval) = Ok (cab_safety_policy material)
  /\ cab_consent_nonce material = nonce
  /\ cab_issued_at_unix_ms material = issued /\ cab_expires_at_unix_ms material = expires.

(** The attestation stored with a plan is the coordinator's, for this plan. *)
Definition attestation (detail : ExecutionDetail) (nonce : bytes32) (issued expires : Z)
    (mac : bytes32) : Prop :=
  let consent := ses_consent (ed_session detail) in
  ec_nonce consent = Some nonce /\ ec_issued_at_unix_ms consent = Some issued
  /\ ec_expires_at_unix_ms consent = Some expires /\ ec_attestation_mac consent = Some mac
  /\ exists material, material_of detail nonce issued expires material /\ signs material mac.

(** The plan is attested, and the attestation has not expired at [now]. *)
Definition attested (detail : ExecutionDetail) (nonce : bytes32) (issued expires : Z) (mac : bytes32)
    (now : Z) : Prop :=
  ec_state (ses_consent (ed_session detail)) = EcsAttested
  /\ attestation detail nonce issued expires mac /\ now < expires.

(** The challenge was signed by the coordinator, has not expired at [now], and
    is the challenge of this plan. *)
Definition genuine (challenge : ExecutionConsentChallenge) (detail : ExecutionDetail) (now : Z) : Prop :=
  let material := ecc_material challenge in
  signs material (ecc_authenticator challenge)
  /\ now < cab_expires_at_unix_ms material
  /\ material_of detail (cab_consent_nonce material) (cab_issued_at_unix_ms material)
       (cab_expires_at_unix_ms material) material.

(** *** More answers leave the facts as they are *)

Lemma source_unchanged_mono L L' root operation :
  L ⊆ L' -> source_unchanged L root operation -> source_unchanged L' root operation.
Proof.
  intros HL (text & relative & md & e & o & H). exists text, relative, md, e, o. naive_solver.
Qed.

Lemma context_holds_mono L L' detail root :
  L ⊆ L' -> context_holds L detail root -> context_holds L' detail root.
Proof.
  intros HL (H1 & H2 & H3 & (volume & H4 & H5) & H6 & H7 & H8).
  split_and!; [done|by apply HL|done|exists volume; by split; [apply HL|]| |done|done].
  eapply Forall_impl; [exact H6|]. intros operation. by apply source_unchanged_mono.
Qed.

(** *** The checks of the code *)

Lemma sign_signs material mac :
  sign_consent_attestation material consent_authority = Ok mac -> signs material mac.
Proof.
  unfold sign_consent_attestation, keyed_mac.
  intros (? & _ & (encoded & He%map_err_Ok & [= <-])%bind_Ok)%bind_Ok. by exists encoded.
Qed.

Lemma binding_material detail nonce issued expires material :
  consent_binding_from_detail detail nonce issued expires = Ok material ->
  material_of detail nonce issued expires material.
Proof.
  unfold consent_binding_from_detail. cbv zeta.
  intros (digest & Hd & (root & Hr & (safety & Hs & (? & _ & [= <-])%bind_Ok)%bind_Ok)%bind_Ok)%bind_Ok.
  by split_and!.
Qed.
End facts.

(** ** What the checks find *)

Section found.
Context {W : Type} `{B3 : Blake3} `{BH : Blake3Hex} `{UU : UuidCrate} `{UC : UnicodeCase}.
Context `{JC : JsonCrate} `{AS : AuthSerde}.
Context `{TM : ToVec CanonicalPlanMaterial} `{TC : ToVec CanonicalSafetyPolicy}.
Context `{FS : StdFs W} `{RO : ReadOnlyPlatform W} `{TG : Target}.
Context `{SH : ServiceHost W} `{CH : CoordinatorHost W} `{DB : ExecutionDatabase W}.
Context `{DJ : DurableJournal W} `{EX : ExecutorClient W}.
Variable policy : ExecutionSafetyPolicy.
Variable gate : ApplyGate.
Variable consent_authority : bytes32.
Variable L : list Answer.
Notation T := (Asked W).
Notation looking := (respects (grew (W := W) anything)).
#[local] Hint Resolve mv_ancestors mv_overlap mv_resolve_existing mv_expected mv_refuse
  mv_sources mv_validate_root mv_journal_approval : moves.
#[local] Ltac going := repeat first [progress moving | eapply mv_or_refuse].

Lemma refuse_returns {A} detail reason error (P : A -> Prop) :
  returns (W := T) (refuse_consent detail reason error) P.
Proof. unfold refuse_consent. eapply returns_bind; [apply returns_any|]. intros. apply returns_fail. Qed.

(** A check whose failure withdraws the consent. *)
Lemma finds_refuse detail reason error (bad : bool) :
  finds (W := W) L (if bad then refuse_consent detail reason error else mret tt) (fun _ => bad = false).
Proof. apply finds_returns, returns_guard. intros _. apply refuse_returns. Qed.

Lemma looks_refuse detail reason error (bad : bool) :
  looking (if bad then refuse_consent detail reason error else mret tt).
Proof. destruct bad; [eapply mv_refuse|eapply respects_ret]; exact _. Qed.

Lemma finds_or_refuse {A} detail reason (m : SE T ApplicationError A) P :
  finds L m P -> finds L (or_refuse detail reason m) P.
Proof.
  intros H. unfold or_refuse. eapply finds_bind; [by apply finds_try| |].
  - intros [a|e]; [eapply respects_ret|eapply mv_refuse]; exact _.
  - intros [a|e] Ha; apply finds_returns; [by apply returns_ret, Ha|apply refuse_returns].
Qed.

Lemma finds_existing_source root relative :
  finds (W := W) L (resolve_existing_source policy root relative) (fun path =>
    only_names relative /\ path = path_join root relative
    /\ exists metadata, AnMetadata path metadata ∈ L
       /\ md_is_file metadata = true /\ md_is_symlink metadata = false).
Proof.
  unfold resolve_existing_source, validate_existing_ancestors, reject_app_owned_path.
  eapply finds_bind; [apply finds_returns, returns_lift; intros joined H; exact H|intros; moving|].
  intros joined (_ & Hn & ->)%resolve_lexically_Ok.
  eapply finds_bind; [apply finds_map_err, finds_answer|intros; moving|]. intros metadata Hmd.
  eapply finds_bind; [apply finds_returns, returns_reject|intros; moving|].
  intros [] [Hlink Hfile%negb_false_iff]%orb_false_iff. apply finds_returns.
  do 5 (eapply returns_bind; [apply returns_any|intros ? _]).
  apply returns_ret. split_and!; [done|done|by exists metadata].
Qed.

Lemma finds_expected expected changed path :
  finds (W := W) L (expected_state policy expected changed path) (fun observed =>
    exists fp, expected = Some fp
    /\ AnFingerprint path (esp_maximum_rehash_bytes policy) observed ∈ L /\ same_file fp observed).
Proof.
  unfold expected_state, execution_fingerprint.
  eapply finds_bind; [apply finds_map_err, finds_answer|intros; moving|]. intros observed Ho.
  apply finds_returns. eapply returns_bind; [apply returns_ok|]. intros fp ->.
  eapply returns_bind; [apply returns_reject|]. intros [] Hs%negb_false_iff%same_file_state_iff.
  apply returns_ret. by exists fp.
Qed.

Lemma finds_source root observed operation :
  finds (W := W) L (revalidate_approved_source policy root observed operation) (fun observed' =>
    exists id, eo_proposal_operation_id operation = Some id /\ id ∉ observed
    /\ observed' = {[id]} ∪ observed /\ source_unchanged policy L root operation).
Proof.
  unfold revalidate_approved_source.
  eapply finds_bind; [apply finds_returns, returns_ok|intros; moving|]. intros id Hid.
  eapply finds_bind; [apply finds_returns, returns_reject|intros; moving|].
  intros [] Hn%bool_decide_eq_false.
  eapply finds_bind; [apply finds_returns, returns_lift; intros text H; exact H|intros; moving|].
  intros text Htext%approved_source_at.
  eapply finds_bind; [apply finds_returns, returns_lift; intros relative H; exact H|intros; moving|].
  intros relative Hrelative.
  eapply finds_bind; [apply finds_map_err, finds_existing_source|intros; moving|].
  intros path (Hnames & -> & metadata & Hmd & Hfile & Hlink).
  eapply finds_bind; [apply finds_expected|intros; moving|]. intros observed' (fp & Hfp & Ho & Hs).
  apply finds_returns, returns_ret. exists id. split_and!; [done|done|done|].
  by exists text, relative, metadata, fp, observed'.
Qed.

Lemma finds_sources detail root :
  finds (W := W) L (revalidate_approved_sources policy detail root) (fun _ =>
    Forall (source_unchanged policy L root) (approved_operations detail)
    /\ NoDup (eo_proposal_operation_id <$> approved_operations detail)
    /\ forall id, id ∈ aep_approved_operation_ids (ses_approval (ed_session detail)) <->
         Some id ∈ (eo_proposal_operation_id <$> approved_operations detail)).
Proof.
  unfold revalidate_approved_sources. cbv zeta. fold (approved_operations detail).
  eapply finds_bind; [|intros; moving|].
  - apply (finds_fold _ _ (fun done (observed : gset uuid) =>
      Forall (source_unchanged policy L root) done /\ NoDup (eo_proposal_operation_id <$> done)
      /\ forall id, id ∈ observed <-> Some id ∈ (eo_proposal_operation_id <$> done))).
    + intros. unfold revalidate_approved_source. moving.
    + split_and!; [constructor|constructor|]. intros id. cbn. set_solver.
    + intros done operation todo observed _ (Hd & Hnd & Hset).
      eapply finds_weaken; [apply finds_source|].
      intros observed' (id & Hid & Hn & -> & Hs). rewrite fmap_app. cbn. rewrite Hid.
      split_and!; [by apply Forall_app, conj; [|constructor]| |].
      * apply NoDup_app. split_and!; [done| |by apply NoDup_singleton].
        intros o Ho ->%list_elem_of_singleton. by apply Hset in Ho.
      * intros id'. rewrite elem_of_union, elem_of_singleton, elem_of_app, list_elem_of_singleton, Hset.
        naive_solver.
  - intros observed (Hd & Hnd & Hset). apply finds_returns.
    eapply returns_weaken; [apply returns_reject|].
    intros [] Heq%bool_decide_negb_false. split_and!; [done|done|].
    intros id. by rewrite <- Hset, Heq, elem_of_list_to_set.
Qed.

Lemma finds_context detail :
  finds (W := W) L (revalidate_consent_context_or_invalidate policy detail)
    (context_holds policy L detail).
Proof.
  unfold revalidate_consent_context_or_invalidate. cbv zeta.
  eapply finds_bind; [apply finds_refuse|intros; going|]. intros [] Hdigest.
  eapply finds_bind; [apply finds_map_err, finds_answer|intros; going|]. intros current Hcurrent.
  eapply finds_bind; [apply finds_refuse|intros; going|]. intros [] ->%negb_false_iff.
  eapply finds_bind; [apply finds_returns, returns_lift; intros b Hb; exact Hb|intros; going|].
  intros b Hb%map_err_Ok.
  eapply finds_bind; [apply finds_refuse|intros; going|]. intros [] ->%bool_decide_negb_false.
  eapply finds_bind; [apply finds_any|intros; going|]. intros record _.
  eapply finds_bind; [apply finds_any|intros; going|]. intros [] _.
  eapply finds_bind; [apply finds_any|intros; going|]. intros root _.
  eapply finds_bind; [apply finds_or_refuse, finds_map_err, finds_answer|intros; going|].
  intros volume Hvolume.
  eapply finds_bind; [apply finds_refuse|intros; going|]. intros [] Hroot%bool_decide_negb_false.
  eapply finds_bind; [apply finds_or_refuse, finds_sources|intros; going|].
  intros [] (Hs & Hnd & Hset). apply finds_returns, returns_ret.
  split_and!; [|done|done|by exists volume|done|done|done].
  destruct (verify_plan_digest detail) as [[]|] eqn:Hv; [|done].
  by apply verify_plan_digest_inv in Hv as [H _].
Qed.

(** The stored attestation. *)
Lemma stored_returns detail :
  returns (W := T) (verify_stored_consent_attestation consent_authority detail) (fun _ =>
    exists nonce issued expires mac, attestation consent_authority detail nonce issued expires mac).
Proof.
  unfold verify_stored_consent_attestation. cbv zeta.
  eapply returns_bind; [apply returns_ok|]. intros nonce Hn.
  eapply returns_bind; [apply returns_ok|]. intros issued Hi.
  eapply returns_bind; [apply returns_ok|]. intros expires He.
  eapply returns_bind; [apply returns_lift; intros m Hm; exact Hm|].
  intros material Hm%map_err_Ok%binding_material.
  eapply returns_bind; [apply returns_lift; intros m Hs; exact Hs|].
  intros expected Hs%map_err_Ok%sign_signs.
  eapply returns_bind; [apply returns_ok|]. intros mac Hmac.
  eapply returns_weaken; [apply returns_guard; intros; apply refuse_returns|].
  intros [] ->%negb_false_iff%constant_time_equal_iff. exists nonce, issued, expires, mac.
  split_and!; [done..|by exists material].
Qed.
End found.

(** ** The call a consent allows *)

(** The log is that of a run that made the [call] with [facts] established,
    and after it only what [P] admits; nothing follows a call that failed. *)
Definition called (call : bool -> Answer) (P : Answer -> Prop) (facts : list Answer -> Prop)
    (log : list Answer) : Prop :=
  exists opening done tail, log = opening ++ call done :: tail
    /\ Forall harmless opening /\ facts opening /\ Forall P tail /\ (done = false -> tail = []).

(** The first call is the one that was checked; a later one follows its success. *)
Lemma called_at call P facts before effect after :
  called call P facts (before ++ effect :: after) -> ~ harmless effect ->
  exists opening, opening ⊆ before /\ facts opening
    /\ ((exists done, effect = call done) \/ call true ∈ before /\ P effect).
Proof.
  intros (opening & done & tail & Heq & Ho & Hf & Ht & Hd) Hbad. exists opening.
  symmetry in Heq. apply app_eq_inv in Heq as [(k & -> & Hk)|(k & -> & Hk)]; destruct k as [|a k].
  - rewrite app_nil_r in Hf |- *. split_and!; [done|done|]. left. exists done. cbn in Hk. congruence.
  - injection Hk as -> ->. apply Forall_app in Ho as [_ Ho]. by inversion Ho.
  - rewrite app_nil_r. split_and!; [done|done|]. left. exists done. cbn in Hk. congruence.
  - injection Hk as <- ->. split_and!; [by set_solver|done|]. right.
    destruct done; [|by destruct k; discriminate (Hd eq_refl)].
    split; [set_solver|]. apply Forall_app in Ht as [_ Ht]. by inversion Ht.
Qed.

(** After the consent was consumed, the only calls are dispatches. *)
Definition dispatching (answer : Answer) : Prop :=
  match answer with AnAttest _ _ _ _ _ _ _ | AnConsume _ _ _ _ _ _ _ => False | _ => True end.
#[export] Instance admits_dispatching : Admits dispatching.
Proof. by intros []. Qed.
#[export] Instance dispatching_dispatches {W} `{EX : ExecutorClient W} :
  RespectedDispatch (V := Asked W) (grew dispatching).
Proof. intros session request binding. apply grew_logged. by repeat constructor. Qed.

Lemma dispatching_call answer : dispatching answer -> ~ harmless answer ->
  exists request binding, answer = AnDispatch request binding.
Proof. destruct answer; cbn; try tauto. eauto. Qed.

(** A run that only adds what [P] admits. *)
Lemma wp_grew {W E A} P (m : SE (Asked W) E A) log (Q : res E A -> list Answer -> Prop) :
  respects (grew P) m -> (forall r extra, Forall P extra -> Q r (log ++ extra)) -> wp m log Q.
Proof.
  intros Hm HQ w. destruct (Hm (w, log)) as (extra & Hlog & He). rewrite Hlog. by apply HQ.
Qed.

(** A step before any call: what it found, and that the log only grew. *)
Lemma wp_asking {W A B} (R : list Answer -> A -> Prop) (m : SE (Asked W) ApplicationError A)
    (k : A -> SE (Asked W) ApplicationError B) log
    (Q : res ApplicationError B -> list Answer -> Prop) :
  Forall harmless log -> respects (grew harmless) m -> (forall L, finds L m (R L)) ->
  (forall e log', Forall harmless log' -> Q (Err e) log') ->
  (forall a log', R log' a -> Forall harmless log' -> log ⊆ log' -> wp (k a) log' Q) ->
  wp (m ≫= k) log Q.
Proof.
  intros Hlog Hm HR HE HQ. eapply (wp_found R); [done|done| |].
  - intros e extra He. apply HE. by apply Forall_app.
  - intros a extra Ha He. apply HQ; [done|by apply Forall_app|set_solver].
Qed.

(** Nothing is asked while the journals are locked or mutations are disabled. *)
Lemma gate_opened {W B} `{SH : ServiceHost W} gate (k : unit -> SE (Asked W) ApplicationError B) w :
  snd (snd ((require_apply_gate gate ≫= k) (w, []))) <> [] ->
  journal_is_locked w = false /\ gate_enabled gate = true.
Proof.
  cbv [mbind se_bind]. unfold require_apply_gate, require_mutations_unlocked, se_lift.
  cbv [mbind se_bind]. change (journal_is_locked (w, [])) with (journal_is_locked w).
  destruct (journal_is_locked w); [done|]. by destruct (gate_enabled gate).
Qed.

Section runs.
Context {W : Type} `{B3 : Blake3} `{BH : Blake3Hex} `{UU : UuidCrate} `{UC : UnicodeCase}.
Context `{JC : JsonCrate} `{AS : AuthSerde}.
Context `{TM : ToVec CanonicalPlanMaterial} `{TC : ToVec CanonicalSafetyPolicy}.
Context `{JF : ToJson FileFingerprint} `{JA : ToJson ExecutorAttemptAudit}.
Context `{JE : ToJson ExecutorErrorClass}.
Context `{FS : StdFs W} `{RO : ReadOnlyPlatform W} `{TG : Target}.
Context `{SH : ServiceHost W} `{CH : CoordinatorHost W} `{DB : ExecutionDatabase W}.
Context `{DJ : DurableJournal W} `{EX : ExecutorClient W}.
Variable policy : ExecutionSafetyPolicy.
Variable gate : ApplyGate.
Variable consent_authority : bytes32.
Notation T := (Asked W).
#[local] Hint Resolve mv_gate mv_require_valid mv_synchronize mv_context mv_stored_attestation
  mv_open_stored mv_journal_approval mv_cursor mv_run_schedule mv_complete : moves.

(** ** Starting *)

(** The answers a run of [start_execution_at] was given. *)
Definition start_answers (x : ExecutionId) (now : Z) (w : W) : list Answer :=
  snd (snd (start_execution_at (W := T) policy gate consent_authority x now (w, []))).

(** What was found before the consent of [x] was consumed. *)
Definition may_start (x : ExecutionId) (nonce : bytes32) (issued expires : Z) (mac : bytes32) (now : Z)
    (L : list Answer) : Prop :=
  exists detail root, AnDetail x detail ∈ L
  /\ ses_status (ed_session detail) = OesApproved
  /\ ses_recovery_state (ed_session detail) = ErsRecoveryNotRequired
  /\ attested consent_authority detail nonce issued expires mac now
  /\ context_holds policy L detail root.

Lemma may_start_mono x nonce issued expires mac now L L' :
  L ⊆ L' -> may_start x nonce issued expires mac now L -> may_start x nonce issued expires mac now L'.
Proof.
  intros HL (detail & root & H1 & H2 & H3 & H4 & H5). exists detail, root.
  split_and!; [by apply HL|done|done|done|by eapply context_holds_mono].
Qed.

(** A run that asked for nothing, or consumed the consent of [x]. *)
Definition start_run (x : ExecutionId) (now : Z) (log : list Answer) : Prop :=
  Forall harmless log
  \/ exists nonce issued expires mac,
       called (AnConsume x nonce issued expires mac now) dispatching
         (may_start x nonce issued expires mac now) log.

#[local] Ltac asking R := eapply (wp_asking R); [done|moving|..].
#[local] Ltac pure_step R := eapply (wp_asking (fun _ => R)); [done|moving|intros L; apply finds_returns|..].

Lemma wp_authorise_answers x detail now log :
  Forall harmless log -> AnDetail x detail ∈ log ->
  ses_status (ed_session detail) = OesApproved ->
  ses_recovery_state (ed_session detail) = ErsRecoveryNotRequired ->
  wp (authorise_start (W := T) policy consent_authority x detail now) log (fun r log' =>
    match r with
    | Ok _ => exists nonce issued expires mac opening,
        log' = opening ++ [AnConsume x nonce issued expires mac now true]
        /\ Forall harmless opening /\ may_start x nonce issued expires mac now opening
    | Err _ => start_run x now log'
    end).
Proof.
  intros Hlog Hdetail Hstatus Hrecovery. unfold authorise_start. cbv zeta.
  pure_step (fun _ : unit => ec_state (ses_consent (ed_session detail)) = EcsAttested).
  { eapply returns_weaken; [apply returns_reject|]. by intros [] H%bool_decide_negb_false. }
  { by left. }
  intros [] l1 Hstate Hl1 H01.
  asking (fun L root => context_holds policy L detail root); [intros L; apply finds_context|by left|].
  intros root l2 Hroot Hl2 H12.
  pure_step (fun _ : unit => exists nonce issued expires mac,
    attestation consent_authority detail nonce issued expires mac).
  { apply stored_returns. }
  { by left. }
  intros [] l3 (nonce & issued & expires & mac & Hatt) Hl3 H23.
  pose proof Hatt as (Hn & Hi & He & Hmac & _).
  rewrite He, Hn, Hi, Hmac. cbn [ok_or].
  pure_step (fun expires' => expires' = expires).
  { apply returns_lift. by intros a [= ->]. }
  { by left. }
  intros ? l4 -> Hl4 H34.
  pure_step (fun _ : unit => now < expires).
  { eapply returns_weaken; [apply returns_guard|by intros [] H%Z.leb_gt]. intros _.
    eapply returns_bind; [apply returns_any|]. intros. apply returns_fail. }
  { by left. }
  intros [] l5 Htime Hl5 H45.
  do 3 (apply wp_bind, wp_lift; cbn beta iota).
  pure_step (fun _ : ImmutableExecutionEnvelope => True); [apply returns_any|by left|].
  intros envelope l6 _ Hl6 H56.
  pure_step (fun _ : ExecutorSession (W := T) => True); [apply returns_any|by left|].
  intros session l7 _ Hl7 H67.
  assert (may_start x nonce issued expires mac now l7) as Hmay.
  { exists detail, root. split_and!; [set_solver|done|done|done|].
    eapply context_holds_mono, Hroot. set_solver. }
  apply wp_bind, wp_map_err, wp_logged. intros [d|e]; cbn.
  - apply wp_ret. by exists nonce, issued, expires, mac, l7.
  - right. exists nonce, issued, expires, mac, l7, false, []. by split_and!.
Qed.

Lemma wp_start_answers x now :
  wp (start_execution_at (W := T) policy gate consent_authority x now) []
    (fun _ log => start_run x now log).
Proof.
  unfold start_execution_at. assert (Forall harmless []) as Hl0 by constructor.
  pure_step (fun _ : unit => True); [apply returns_any|by left|]. intros [] l1 _ Hl1 _.
  asking (fun (L : list Answer) detail => AnDetail x detail ∈ L); [intros L; apply finds_map_err, finds_answer|by left|].
  intros detail l2 Hdetail Hl2 _.
  pure_step (fun _ : unit => ses_recovery_state (ed_session detail) = ErsRecoveryNotRequired).
  { eapply returns_weaken; [apply returns_reject|]. by intros [] H%bool_decide_negb_false. }
  { by left. }
  intros [] l3 Hrecovery Hl3 H23.
  pure_step (fun _ : unit => True); [apply returns_any|by left|]. intros [] l4 _ Hl4 H34.
  pure_step (fun _ : unit => True); [apply returns_any|by left|]. intros [] l5 _ Hl5 H45.
  destruct (ses_status (ed_session detail)) eqn:Hstatus; try by apply wp_bind, wp_fail; left.
  apply wp_bind. eapply wp_weaken; [apply (wp_authorise_answers x detail now l5)|];
    [done|set_solver|done|done|].
  intros [[[root session] detail']|e] log; [|done].
  intros (nonce & issued & expires & mac & opening & -> & Ho & Hmay).
  apply (wp_grew dispatching); [moving|]. intros r extra He. right.
  exists nonce, issued, expires, mac, opening, true, extra. rewrite <- app_assoc. by split_and!.
Qed.

(** C6: Nothing happens without consent.  Whenever a run of [start_execution_at]
    consumes a consent or asks the executor for a mutation, the journals are
    unlocked and mutations are enabled, and before that the run was answered
    with an execution that was approved and needed no recovery, whose stored
    attestation was the coordinator's for exactly this plan and had not
    expired, and whose digest, policy, root and sources were the approved ones:
    each approved file was inspected and fingerprinted where the user approved
    it.  The call is the consumption of that attestation, or a dispatch after
    the consumption succeeded. *)
Theorem start_needs_consent x now w before effect after :
  start_answers x now w = before ++ effect :: after -> ~ harmless effect ->
  journal_is_locked w = false /\ gate_enabled gate = true
  /\ exists nonce issued expires mac,
       may_start x nonce issued expires mac now before
       /\ ((exists done, effect = AnConsume x nonce issued expires mac now done)
           \/ AnConsume x nonce issued expires mac now true ∈ before
              /\ exists request binding, effect = AnDispatch request binding).
Proof.
  intros Hlog Hbad. assert (journal_is_locked w = false /\ gate_enabled gate = true) as [Hlock Hgate].
  { unfold start_answers, start_execution_at in Hlog. eapply gate_opened. rewrite Hlog. by destruct before. }
  split_and!; [done|done|].
  destruct (wp_start_answers x now w) as [H|(nonce & issued & expires & mac & H)];
    fold (start_answers x now w) in H; rewrite Hlog in H.
  { apply Forall_app in H as [_ H]. by inversion H. }
  exists nonce, issued, expires, mac. apply called_at in H as (opening & Hsub & Hmay & Hcall); [|done].
  split; [by eapply may_start_mono|]. destruct Hcall as [H|[H Hd]]; [by left|right].
  split; [done|by apply dispatching_call].
Qed.

(** ** Attesting *)

(** The answers a run of [finalize_execution_consent] was given. *)
Definition finalize_answers (challenge : ExecutionConsentChallenge) (now : Z) (w : W) :
    res ApplicationError ExecutionDetail * list Answer :=
  let '(r, (_, log)) :=
    finalize_execution_consent_at (W := T) policy gate consent_authority challenge now (w, []) in
  (r, log).

(** What was found before the attestation of [x] was stored. *)
Definition may_attest (challenge : ExecutionConsentChallenge) (x : ExecutionId) (now : Z)
    (L : list Answer) : Prop :=
  uuid_parse (cab_execution_id (ecc_material challenge)) = Some x
  /\ exists detail root, AnDetail x detail ∈ L
     /\ ses_status (ed_session detail) = OesAwaitingConfirmation
     /\ ec_state (ses_consent (ed_session detail)) = EcsPending
     /\ genuine consent_authority challenge detail now
     /\ context_holds policy L detail root.

Lemma may_attest_mono challenge x now L L' :
  L ⊆ L' -> may_attest challenge x now L -> may_attest challenge x now L'.
Proof.
  intros HL (Hx & detail & root & H1 & H2 & H3 & H4 & H5). split; [done|]. exists detail, root.
  split_and!; [by apply HL|done|done|done|by eapply context_holds_mono].
Qed.

Definition attest_call (challenge : ExecutionConsentChallenge) (x : ExecutionId) (now : Z)
    (done : bool) : Answer :=
  let material := ecc_material challenge in
  AnAttest x (cab_consent_nonce material) (cab_issued_at_unix_ms material)
    (cab_expires_at_unix_ms material) (ecc_authenticator challenge) now done.

Lemma wp_finalize_answers challenge now :
  wp (finalize_execution_consent_at (W := T) policy gate consent_authority challenge now) []
    (fun r log =>
      Forall harmless log /\ is_ok r = false
      \/ exists x, called (attest_call challenge x now) harmless (may_attest challenge x now) log
         /\ (is_ok r = true -> attest_call challenge x now true ∈ log)).
Proof.
  unfold finalize_execution_consent_at. cbv zeta. assert (Forall harmless []) as Hl0 by constructor.
  pure_step (fun _ : unit => True); [apply returns_any|by left|]. intros [] l1 _ Hl1 _.
  pure_step (fun x => uuid_parse (cab_execution_id (ecc_material challenge)) = Some x);
    [apply returns_ok|by left|]. intros x l2 Hx Hl2 _.
  pure_step (fun _ : unit => True); [apply returns_any|by left|]. intros [] l3 _ Hl3 _.
  pure_step (fun _ : unit => True); [apply returns_any|by left|]. intros [] l4 _ Hl4 _.
  pure_step (fun mac => sign_consent_attestation (ecc_material challenge) consent_authority = Ok mac);
    [apply returns_lift; by intros mac H%map_err_Ok|by left|]. intros mac l5 Hmac Hl5 _.
  pure_step (fun _ : unit => mac = ecc_authenticator challenge); [|by left|].
  { eapply returns_weaken; [apply returns_reject|]. by intros [] H%negb_false_iff%constant_time_equal_iff. }
  intros [] l6 -> Hl6 _.
  pure_step (fun _ : unit => now < cab_expires_at_unix_ms (ecc_material challenge)); [|by left|].
  { eapply returns_weaken; [apply returns_guard|by intros [] H%Z.leb_gt]. intros _.
    eapply returns_bind; [apply returns_any|]. intros. apply returns_fail. }
  intros [] l7 Htime Hl7 _.
  asking (fun (L : list Answer) detail => AnDetail x detail ∈ L);
    [intros L; apply finds_map_err, finds_answer|by left|]. intros detail l8 Hdetail Hl8 _.
  pure_step (fun _ : unit => ses_status (ed_session detail) = OesAwaitingConfirmation
    /\ ec_state (ses_consent (ed_session detail)) = EcsPending); [|by left|].
  { eapply returns_weaken; [apply returns_reject|]. intros [] [H1 H2]%orb_false_iff.
    by apply bool_decide_negb_false in H1, H2. }
  intros [] l9 [Hstatus Hstate] Hl9 H89.
  asking (fun L root => context_holds policy L detail root); [intros L; apply finds_context|by left|].
  intros root l10 Hroot Hl10 H910.
  pure_step (fun expected => consent_binding_from_detail detail
    (cab_consent_nonce (ecc_material challenge)) (cab_issued_at_unix_ms (ecc_material challenge))
    (cab_expires_at_unix_ms (ecc_material challenge)) = Ok expected);
    [apply returns_lift; by intros m H%map_err_Ok|by left|]. intros expected l11 Hm Hl11 H1011.
  pure_step (fun _ : bytes32 => True); [apply returns_any|by left|]. intros mac' l12 _ Hl12 H1112.
  pure_step (fun _ : unit => expected = ecc_material challenge); [|by left|].
  { eapply returns_weaken; [apply returns_reject|]. by intros [] [H%bool_decide_negb_false _]%orb_false_iff. }
  intros [] l13 -> Hl13 H1213.
  assert (may_attest challenge x now l13) as Hmay.
  { split; [done|]. exists detail, root. split_and!; [set_solver|done|done| |].
    - split_and!; [by apply sign_signs|done|by apply binding_material].
    - eapply context_holds_mono, Hroot. set_solver. }
  apply wp_bind, wp_map_err, wp_logged. intros [d|e]; cbn [map_err is_ok].
  - apply (wp_grew harmless); [moving|]. intros r extra He. right. exists x. split; [|set_solver].
    exists l13, true, extra. rewrite <- app_assoc. by split_and!.
  - right. exists x. split; [|done]. exists l13, false, []. by split_and!.
Qed.

(** C10: Only a genuine challenge becomes a consent.  A run of
    [finalize_execution_consent_at] that succeeds stored the attestation of its
    challenge; and a run that asks the database to store one, which is the only
    call it makes, has the journals unlocked and mutations enabled, and was
    before that answered with a plan that awaited its confirmation, for which
    the challenge was signed by this coordinator and had not expired, and whose
    digest, policy, root and sources were still the approved ones. *)
Theorem attested_consent_is_genuine challenge now w r log :
  finalize_answers challenge now w = (r, log) ->
  (is_ok r = true -> exists x, attest_call challenge x now true ∈ log)
  /\ (forall before effect after, log = before ++ effect :: after -> ~ harmless effect ->
       journal_is_locked w = false /\ gate_enabled gate = true
       /\ exists x done, effect = attest_call challenge x now done
            /\ may_attest challenge x now before).
Proof.
  intros Hrun. pose proof (wp_finalize_answers challenge now w) as H.
  unfold finalize_answers in Hrun.
  destruct (finalize_execution_consent_at (W := T) policy gate consent_authority challenge now (w, [])) as [r' [w' log']] eqn:Hrun'.
  injection Hrun as -> ->. cbn [fst snd] in H. split.
  - intros Hok. destruct H as [[_ H]|(x & _ & H)]; [congruence|exists x; by apply H].
  - intros before effect after -> Hbad.
    assert (journal_is_locked w = false /\ gate_enabled gate = true) as [Hlock Hgate].
    { unfold finalize_execution_consent_at in Hrun'. eapply gate_opened. rewrite Hrun'. by destruct before. }
    split_and!; [done|done|]. destruct H as [[H _]|(x & H & _)].
    { apply Forall_app in H as [_ H]. by inversion H. }
    apply called_at in H as (opening & Hsub & Hmay & Hcall); [|done].
    destruct Hcall as [(stored & ->)|[_ H]]; [|done]. exists x, stored. split; [done|].
    by eapply may_attest_mono.
Qed.
End runs.

(** ** Witnesses *)

(** The log split at the first answer that passes [test]. *)
Fixpoint split_at (test : Answer -> bool) (log : list Answer) : option (list Answer * Answer * list Answer) :=
  match log with
  | [] => None
  | answer :: log =>
      if test answer then Some ([], answer, log)
      else '(before, found, after) ← split_at test log; Some (answer :: before, found, after)
  end.

Lemma split_at_spec test log before found after :
  split_at test log = Some (before, found, after) ->
  log = before ++ found :: after /\ test found = true.
Proof.
  revert before. induction log as [|answer log IH]; intros before H; [done|]. cbn in H.
  destruct (test answer) eqn:Ht; [by injection H as <- <- <-|].
  destruct (split_at test log) as [[[b f] a]|]; [|done]. cbn in H. injection H as <- -> ->.
  destruct (IH b eq_refl) as [-> Hf]. done.
Qed.

Definition is_attest (answer : Answer) : bool :=
  match answer with AnAttest _ _ _ _ _ _ done => done | _ => false end.
Definition is_request (answer : Answer) : bool :=
  match answer with AnDispatch _ _ => true | _ => false end.

#[local] Existing Instances sample_blake3 sample_uuid desk_fs desk_reads desk_target desk_hex desk_case
  desk_json desk_serde desk_plan desk_policy desk_fingerprint desk_audit desk_class desk_service
  desk_host desk_journal desk_client.

Section awaiting.
#[local] Instance desk_awaiting : ExecutionDatabase SampleDesk :=
  desk_database_with (desk_detail_in OesAwaitingConfirmation) desk_store.

(** A challenge the service issued, and its attestation a second later. *)
Definition desk_attestation : option (ExecutionConsentChallenge * list Answer) :=
  match fst (create_execution_consent_challenge_at sample_policy desk_gate desk_authority (uid x40) None
    3000 desk) with
  | Ok challenge =>
      match finalize_answers sample_policy desk_gate desk_authority challenge 4000 desk with
      | (Ok _, log) => Some (challenge, log)
      | _ => None
      end
  | Err _ => None
  end.

Lemma attested_consent_is_genuine_witness : exists challenge x before after,
  desk_attestation = Some (challenge, before ++ attest_call challenge x 4000 true :: after)
  /\ may_attest sample_policy desk_authority challenge x 4000 before.
Proof.
  destruct (option_bind _ _ (fun p => split_at is_attest (snd p)) desk_attestation)
    as [[[before found] after]|] eqn:Hs.
  2: { vm_compute in Hs. discriminate Hs. }
  unfold desk_attestation in *.
  destruct (fst (create_execution_consent_challenge_at _ _ _ _ _ _ _)) as [challenge|e]; [|discriminate Hs].
  destruct (finalize_answers sample_policy desk_gate desk_authority challenge 4000 desk) as [[d|e] log]
    eqn:Hf; [|discriminate Hs].
  apply split_at_spec in Hs as [Hlog Ht]. cbn [snd] in Hlog.
  destruct (attested_consent_is_genuine sample_policy desk_gate desk_authority challenge 4000 desk (Ok d)
    log Hf) as [_ H].
  destruct (H before found after Hlog) as (_ & _ & x & stored & -> & Hmay).
  { intros Hh. destruct found; first [discriminate Ht | exact Hh]. }
  exists challenge, x, before, after. cbn in Ht. rewrite Hlog, Ht. split; [reflexivity|exact Hmay].
Defined.
End awaiting.

#[local] Existing Instance desk_database.

Lemma start_needs_consent_witness : exists before request binding after nonce issued expires mac,
  start_answers sample_policy desk_gate desk_authority (uid x40) 3000 desk
    = before ++ AnDispatch request binding :: after
  /\ may_start sample_policy desk_authority (uid x40) nonce issued expires mac 3000 before
  /\ AnConsume (uid x40) nonce issued expires mac 3000 true ∈ before.
Proof.
  destruct (split_at is_request (start_answers sample_policy desk_gate desk_authority (uid x40) 3000 desk))
    as [[[before found] after]|] eqn:Hs.
  2: { vm_compute in Hs. discriminate Hs. }
  apply split_at_spec in Hs as [Hlog Ht]. destruct found as [| | | | | | |request binding]; try discriminate Ht.
  destruct (start_needs_consent sample_policy desk_gate desk_authority (uid x40) 3000 desk before
    (AnDispatch request binding) after Hlog) as (_ & _ & nonce & issued & expires & mac & Hmay & Hcall).
  { intros []. }
  exists before, request, binding, after, nonce, issued, expires, mac.
  split; [exact Hlog|split; [exact Hmay|]]. destruct Hcall as [(done & Hc)|[Hin _]]; [discriminate Hc|exact Hin].
Defined.
