(* ===== verification/RecoveryFacts.v ===== *)
(** * What recovery may do, and what it concludes

    Recovery never asks for a mutation; it recognises the requests the
    coordinator recorded; what it concludes about a request is, but for one
    case, a state the request may get; and what an assessment says. *)

From S2P Require Export Coordinated.
#[local] Open Scope Z_scope.

(** ** Hexadecimal digests *)

Lemma drop_bytes_ascii (s : str) (n : nat) :
  Forall (fun c => is_ascii c = true) s -> (n <= length s)%nat ->
  drop_bytes (Z.of_nat n) s = Some (drop n s).
Proof.
  revert n. induction s as [|c s IH]; intros n Hs Hn; inversion Hs as [|? ? Hc Hs']; subst.
  - by destruct n; [|cbn in Hn; lia].
  - destruct n as [|n]; [done|]. cbn [drop_bytes drop].
    rewrite (proj2 (Z.eqb_neq _ _)) by lia.
    assert (zlen (utf8_char c) = 1) as Hlen.
    { pose proof (len_ascii [c] ltac:(by repeat constructor)) as H. cbn in H.
      unfold len, utf8 in H. cbn in H. by rewrite app_nil_r in H. }
    rewrite Hlen. rewrite (proj2 (Z.ltb_ge _ _)) by lia.
    replace (Z.of_nat (S n) - 1) with (Z.of_nat n) by lia. apply IH; [done|cbn in Hn; lia].
Qed.

Lemma str_slice_ascii (s : str) (a b : nat) :
  Forall (fun c => is_ascii c = true) s -> (a <= b <= length s)%nat ->
  str_slice s (Z.of_nat a) (Z.of_nat b) = Some (take (b - a) (drop a s)).
Proof.
  intros Hs Hab. unfold str_slice. rewrite !drop_bytes_ascii by (done || lia). cbn [mbind option_bind].
  rewrite !length_drop. do 2 f_equal. lia.
Qed.

Definition hex_pair (b : byte) : str := encode_hex_bytes [b].
Lemma encode_hex_bytes_cons b l : encode_hex_bytes (b :: l) = hex_pair b ++ encode_hex_bytes l.
Proof. done. Qed.
Lemma hex_pair_length b : length (hex_pair b) = 2%nat.
Proof. done. Qed.
Lemma hex_pair_value b : u8_from_hex (hex_pair b) = Some (byte_to_Z b).
Proof. by destruct b; vm_compute. Qed.
Lemma hex_pair_ascii b : Forall (fun c => is_ascii c = true) (hex_pair b).
Proof. by destruct b; repeat constructor. Qed.

Lemma encode_hex_bytes_length l : length (encode_hex_bytes l) = (2 * length l)%nat.
Proof.
  induction l as [|b l IH]; [done|]. rewrite encode_hex_bytes_cons, length_app, IH, hex_pair_length.
  cbn. lia.
Qed.
Lemma encode_hex_bytes_ascii l : Forall (fun c => is_ascii c = true) (encode_hex_bytes l).
Proof.
  induction l as [|b l IH]; [constructor|]. rewrite encode_hex_bytes_cons.
  apply Forall_app. split; [apply hex_pair_ascii|done].
Qed.
Lemma encode_hex_bytes_drop n l : drop (2 * n) (encode_hex_bytes l) = encode_hex_bytes (drop n l).
Proof.
  revert l. induction n as [|n IH]; intros l; [done|]. destruct l as [|b l]; [by rewrite !drop_nil|].
  replace (2 * S n)%nat with (2 + 2 * n)%nat by lia. rewrite encode_hex_bytes_cons.
  rewrite <- drop_drop. exact (IH l).
Qed.

Lemma decode_digest_pairs_encode l count : forall index, (index + count <= length l)%nat ->
  decode_hex_pairs (encode_hex_bytes l) index count = Ok (Some (take count (drop index l))).
Proof.
  induction count as [|count IH]; intros index Hlen; [done|]. cbn [decode_hex_pairs].
  replace (2 * Z.of_nat index) with (Z.of_nat (2 * index)) by lia.
  replace (Z.of_nat (2 * index) + 2) with (Z.of_nat (2 * index + 2)) by lia.
  rewrite str_slice_ascii; [|apply encode_hex_bytes_ascii|rewrite encode_hex_bytes_length; lia].
  rewrite encode_hex_bytes_drop. replace (2 * index + 2 - 2 * index)%nat with 2%nat by lia.
  destruct (drop index l) as [|b rest] eqn:Hd.
  { apply (f_equal length) in Hd. rewrite length_drop in Hd. cbn in Hd. lia. }
  rewrite encode_hex_bytes_cons. change (take 2 (hex_pair b ++ encode_hex_bytes rest)) with (hex_pair b).
  rewrite hex_pair_value, IH by lia. cbn. rewrite byte_of_to_Z.
  replace (S index) with (index + 1)%nat by lia. by rewrite <- drop_drop, Hd.
Qed.

Lemma decode_encode_digest (digest : bytes32) :
  decode_hex_digest (encode_hex_bytes (barr digest)) = Ok (Some digest).
Proof.
  unfold decode_hex_digest. rewrite len_ascii by apply encode_hex_bytes_ascii.
  unfold zlen. rewrite encode_hex_bytes_length, barr_len. cbn [negb Z.eqb].
  change (Z.of_nat (2 * 32) =? 64) with true. cbn [negb].
  rewrite decode_digest_pairs_encode by (by rewrite barr_len). cbn [mbind res_bind option_bind].
  rewrite drop_0, take_ge by (by rewrite barr_len). cbn. by rewrite barray_of_barr.
Qed.

(** ** Recorded requests are recognised *)

(** What the database keeps of a recorded request: its fields, the hash of its
    nonce, and where its intent is. *)
Definition stored_fact `{Blake3, Blake3Hex} (request : ExecutorRequestIdentity)
    (event : OperationJournalEvent) (fact : ExecutorRequestFact) : Prop :=
  erf_request_id fact = eri_request_id request
  /\ erf_session_id fact = eri_session_id request
  /\ erf_operation_id fact = eri_operation_id request
  /\ erf_direction fact = eri_direction request
  /\ erf_request_sequence fact = eri_request_sequence request
  /\ erf_request_nonce_hash_hex fact = executor_nonce_hash (eri_request_nonce request)
  /\ erf_request_digest_hex fact = eri_request_digest_hex request
  /\ erf_intent_event_sequence fact = ev_sequence event
  /\ erf_intent_event_digest_hex fact = encode_hex_bytes (barr (ev_event_digest event)).

Section recognised.
Context `{B3 : Blake3} `{BH : Blake3Hex} `{UU : UuidCrate} `{JC : JsonCrate} `{JL : !JsonLaws}.

Lemma session_material_matches session :
  is_u64 (esi_coordinator_pid session) -> (forall pid, esi_child_pid session = Some pid -> is_u64 pid) ->
  session_mismatch session (session_material session) = false.
Proof.
  intros Hpid Hchild. unfold session_mismatch. repeat rewrite orb_false_iff.
  assert (forall {A} `{EqDecision A} (x y : A), x = y -> bool_decide (x <> y) = false) as Heq.
  { intros A ? x y ->. rewrite bool_decide_eq_false. tauto. }
  split_and!; apply Heq; try reflexivity.
  - change (as_u64 (to_json (esi_coordinator_pid session)) = Some (esi_coordinator_pid session)).
    by apply as_u64_small.
  - change (as_u64 (to_json (esi_child_pid session)) = esi_child_pid session).
    destruct (esi_child_pid session) as [pid|]; [|done]. by apply (as_u64_small pid), Hchild.
  - change (as_str (to_json (esi_response_nonce_hash_hex session)) = esi_response_nonce_hash_hex session).
    by destruct (esi_response_nonce_hash_hex session).
Qed.

Lemma request_material_matches request event fact :
  stored_fact request event fact -> is_u64 (eri_request_sequence request) ->
  nonce_matches fact (request_identity_material request) = Ok true
  /\ request_mismatch fact true (request_identity_material request) = false.
Proof.
  intros (Hid & Hsid & Hop & Hdir & Hseq & Hnonce & Hdigest & _) Hrange. split.
  - unfold nonce_matches.
    change (str_field "request_nonce" (request_identity_material request))
      with (Some (encode_hex_bytes (barr (eri_request_nonce request)))).
    cbn iota. rewrite decode_encode_digest. cbn. by rewrite Hnonce, bool_decide_eq_true_2.
  - unfold request_mismatch. rewrite Hid, Hsid, Hop, Hdir, Hseq, Hdigest.
    repeat rewrite orb_false_iff.
    assert (forall {A} `{EqDecision A} (x y : A), x = y -> bool_decide (x <> y) = false) as Heq.
    { intros A ? x y ->. rewrite bool_decide_eq_false. tauto. }
    split_and!; try apply Heq; try reflexivity.
    change (as_u64 (to_json (eri_request_sequence request)) = Some (eri_request_sequence request)).
    by apply as_u64_small.
Qed.

Lemma find_unique {A} (P : A -> bool) l x :
  x ∈ l -> P x = true -> (forall y, y ∈ l -> P y = true -> y = x) -> find P l = Some x.
Proof.
  intros Hin Hx Hu. destruct (find P l) as [y|] eqn:Hf.
  - apply find_some in Hf as [Hy HP]. f_equal. apply Hu; [by apply list_elem_of_In|done].
  - eapply find_none in Hf; [|by apply list_elem_of_In]. congruence.
Qed.

Lemma bind_step {E A B} (m : res E A) (k : A -> res E B) a r : m = Ok a -> k a = r -> (m ≫= k) = r.
Proof. by intros -> <-. Qed.
Lemma distrust_some {A} (found : option A) a reason : found = Some a -> distrust found reason = Ok a.
Proof. by intros ->. Qed.
Lemma distrust_if_not bad reason : bad = false -> distrust_if bad reason = Ok tt.
Proof. by intros ->. Qed.

Lemma recorded_request_is_bound direction session request event fact sessions events :
  records direction session request event -> stored_fact request event fact ->
  find (fun session => bool_decide (esi_session_id session = erf_session_id fact)
      && bool_decide (esi_purpose session = expected_purpose (erf_direction fact))) sessions
    = Some session ->
  find (fun event => ev_sequence event =? erf_intent_event_sequence fact) events = Some event ->
  is_u64 (eri_request_sequence request) -> is_u64 (esi_coordinator_pid session) ->
  (forall pid, esi_child_pid session = Some pid -> is_u64 pid) ->
  check_request_binding fact sessions events = Ok tt.
Proof.
  intros (Hdir & Hses & Hkind & Hstep & payload & text & Htext & Hpayload & Hgs & Hgr) Hfact
    Hfs Hfe Hseq Hpid Hchild.
  pose proof Hfact as (_ & _ & Hop & Hfdir & _ & _ & _ & _ & Hidg).
  destruct (request_material_matches _ _ _ Hfact Hseq) as [Hnm Hrm].
  unfold check_request_binding.
  eapply bind_step; [by apply distrust_some, Hfs|]. eapply bind_step; [by apply distrust_some, Hfe|].
  eapply bind_step.
  { apply distrust_if_not. by rewrite Hstep, Hop, Hkind, Hfdir, Hdir, Hidg, !bool_decide_eq_true_2. }
  eapply bind_step; [apply distrust_some; rewrite Hpayload; by apply value_roundtrip|].
  eapply bind_step; [by apply distrust_some, Hgs|].
  eapply bind_step; [by apply distrust_if_not, session_material_matches|].
  eapply bind_step; [by apply distrust_some, Hgr|].
  eapply bind_step; [by rewrite Hnm|]. by apply distrust_if_not.
Qed.

(** C18: Recovery recognises what the coordinator recorded: a request whose intent
    the journal holds as [persist_request_intent] writes it, and whose facts
    and session the database holds, has no binding error, whatever else is in
    the journal and whatever other sessions there are. *)
Theorem recorded_request_is_recognised direction session request event fact sessions events :
  records direction session request event -> stored_fact request event fact ->
  esi_purpose session = expected_purpose (request_direction direction) ->
  session ∈ sessions ->
  (forall other, other ∈ sessions -> esi_session_id other = esi_session_id session -> other = session) ->
  event ∈ events ->
  (forall other, other ∈ events -> ev_sequence other = ev_sequence event -> other = event) ->
  is_u64 (eri_request_sequence request) -> is_u64 (esi_coordinator_pid session) ->
  (forall pid, esi_child_pid session = Some pid -> is_u64 pid) ->
  executor_request_binding_error fact sessions events = Ok None.
Proof.
  intros Hrec Hfact Hpurpose Hin Hunique Hev Huniqueev Hseq Hpid Hchild.
  unfold executor_request_binding_error.
  erewrite recorded_request_is_bound; [done|done|done| | |done|done|done].
  - destruct Hfact as (_ & Hsid & _ & Hfdir & _). destruct Hrec as (Hdir & Hses & _).
    apply find_unique; [done| |].
    + by rewrite Hsid, Hses, Hfdir, Hdir, Hpurpose, !bool_decide_eq_true_2.
    + intros other Ho [Hb _]%andb_true_iff. apply bool_decide_eq_true in Hb.
      apply Hunique; [done|congruence].
  - destruct Hfact as (_ & _ & _ & _ & _ & _ & _ & Hisq & _).
    apply find_unique; [done|by rewrite Hisq, Z.eqb_refl|].
    intros other Ho Hb%Z.eqb_eq. apply Huniqueev; [done|congruence].
Qed.
End recognised.

(** ** Recovery never asks for a mutation *)

(** What recovery may ask for: the journals are read and completed, and an event
    that gives a request a final state. *)
Definition observing (effect : CoEffect) : Prop :=
  match effect with
  | CeEvent event (Some (_, state)) _ =>
      ev_kind event = (if bool_decide (state = ProvenApplied) then AppliedObserved else Conflict)
      /\ state ∈ [ProvenApplied; ProvenNotStarted; Ambiguous]
  | _ => quiet effect
  end.

Lemma quiet_observing effect : quiet effect -> observing effect.
Proof. by destruct effect as [| | | |? [[? ?]|] ?| | | | | |]. Qed.

Lemma verdict_cases state rollback observation :
  let v := verdict state rollback observation in
  ve_kind v = (if bool_decide (ve_request_state v = ProvenApplied) then AppliedObserved else Conflict)
  /\ ve_request_state v ∈ [ProvenApplied; ProvenNotStarted; Ambiguous].
Proof.
  destruct observation as [|fingerprint|reason]; cbn; [case_bool_decide..|];
    (split; [done|]; rewrite !elem_of_cons; tauto).
Qed.

Section recovery.
Context {W : Type} `{B3 : Blake3} `{BH : Blake3Hex} `{UU : UuidCrate} `{UC : UnicodeCase}.
Context `{JC : JsonCrate} `{TC : ToVec CanonicalSafetyPolicy}.
Context `{JI : ToJson RecoveryItem} `{JS : ToJson ExecutorSessionIdentity}.
Context `{JR : ToJson ExecutorRequestFact}.
Context `{FS : StdFs W} `{RO : ReadOnlyPlatform W} `{TG : Target}.
Context `{SH : ServiceHost W} `{CH : CoordinatorHost W} `{DB : ExecutionDatabase W}.
Context `{DJ : DurableJournal W}.
Variable policy : ExecutionSafetyPolicy.
Notation T := (CoTraced W).

Lemma adds_quiet {E A} (m : SE T E A) : adds quiet m -> adds observing m.
Proof. intros H. eapply adds_weaken; [exact H|apply quiet_observing]. Qed.

Lemma adds_proof x operation kind payload update request_id state cursor :
  kind = (if bool_decide (state = ProvenApplied) then AppliedObserved else Conflict) ->
  state ∈ [ProvenApplied; ProvenNotStarted; Ambiguous] ->
  adds observing (persist_event_with_request_proof (W := T) x operation kind payload update
    request_id state cursor).
Proof.
  intros Hkind Hstate log. unfold persist_event_with_request_proof.
  assert (forall e : ApplicationError, exists extra, log = log ++ extra /\ Forall observing extra) as Hnone.
  { intros _. exists []. by rewrite app_nil_r. }
  apply (wp_step (fun _ => False)); [adding| |]; intros r [|] He; try by inversion He.
  { exists []. by rewrite app_nil_r. }
  rewrite app_nil_r. apply wp_bind, wp_next; [by apply Hnone|]. intros text now Ht.
  apply (wp_step (fun _ => False)); [adding| |]; intros iso [|] He'; try by inversion He'.
  { exists []. by rewrite app_nil_r. }
  rewrite app_nil_r. apply wp_bind, wp_map_err, wp_logged. intros [u|e].
  - eapply wp_adds; [apply adds_commit|]. intros r' extra Hq.
    exists (CeEvent (new_event x (jc_sequence cursor) operation kind (utf8 text) (jc_previous cursor) now)
      (Some (request_id, state)) true :: extra).
    rewrite <- app_assoc. split; [done|]. constructor; [by split|].
    eapply Forall_impl; [exact Hq|apply quiet_observing].
  - exists [CeEvent (new_event x (jc_sequence cursor) operation kind (utf8 text) (jc_previous cursor) now)
      (Some (request_id, state)) false].
    split; [done|]. constructor; [by split|constructor].
Qed.

Lemma adds_record_verdict x request operation state rollback observation cursor :
  adds observing (record_verdict (W := T) x request operation (verdict state rollback observation) cursor).
Proof.
  destruct (verdict_cases state rollback observation) as [Hk Hs].
  unfold record_verdict. apply adds_bind; [by apply adds_proof|]. intros persisted. apply adds_ret.
Qed.

Lemma adds_record_ambiguous x request operation code reason cursor :
  adds observing (record_verdict (W := T) x request operation (ambiguous_verdict code reason) cursor).
Proof.
  unfold record_verdict. apply adds_bind; [|intros; apply adds_ret].
  apply adds_proof; [done|]. by repeat constructor.
Qed.

Lemma adds_reconcile x root request operation sessions events cursor :
  adds observing (reconcile_one_interrupted_request (W := T) policy x root request operation sessions
    events cursor).
Proof.
  unfold reconcile_one_interrupted_request. apply adds_bind; [apply adds_lift|]. intros [reason|].
  - apply adds_map_err, adds_record_ambiguous.
  - apply adds_map_err. unfold reconcile_bound_request.
    destruct (reconciliation _ _ _); try apply adds_ret. apply adds_bind.
    + unfold observe_request. destruct (erf_direction request); adding.
    + intros observation. apply adds_record_verdict.
Qed.

Lemma adds_recover_guarded x : adds observing (recover_guarded (W := T) policy x).
Proof.
  unfold recover_guarded. apply adds_bind.
  - apply adds_map_err, adds_quiet.
    apply adds_bind; [by apply adds_nothing|intros []].
    apply adds_bind; [adding|intros detail]. apply adds_bind; [adding|intros []].
    apply adds_bind; [adding|intros []]. apply adds_bind; [adding|intros []].
    unfold execution_root, journal_cursor. adding.
  - intros [[[[[detail root] cursor] events] sessions] requests]. apply adds_bind.
    + apply adds_fold. intros [found c] request. apply adds_bind; [apply adds_lift|].
      intros operation. apply adds_bind; [apply adds_reconcile|]. intros r. apply adds_ret.
    + intros r. apply adds_map_err, adds_quiet.
      unfold assess_recovery, persist_recovery_assessment_result.
      assert (adds quiet (journal_diagnostic_state (W := T))) as Hd.
      { apply adds_nothing. intros w log. unfold journal_diagnostic_state.
        destruct (diagnostics_read _); [done|].
        unfold execution_now_unix_ms. cbv [cotraced_host below].
        by destruct (execution_now_unix_ms w). }
      adding.
Qed.

(** C17: Recovery asks the executor for nothing and consumes no consent: it reads
    the journals, brings the external one up to date, and stores observations,
    each of which leaves its request proven or ambiguous. *)
Theorem recovery_only_observes x w log :
  Forall observing (drop (length log) (snd (snd (recover_execution (W := T) policy x (w, log))))).
Proof.
  unfold recover_execution. destruct (recovery_in_progress (W := T) (w, log)).
  { change (Forall observing (drop (length log) log)). rewrite drop_all. constructor. }
  cbn [set_recovery_in_progress cotraced_host fst snd].
  destruct (adds_recover_guarded x log (set_recovery_in_progress true w)) as (extra & Heq & He).
  destruct (recover_guarded (W := T) policy x (set_recovery_in_progress true w, log)) as [r w'].
  cbn [fst snd] in *. by rewrite Heq, drop_app_length.
Qed.

(** ** What recovery concludes *)

(** C19: When recovery looks at the file system for a request, the state it then
    gives it is one the request may get, except that it wants a request whose
    success was acknowledged, and whose mutation is not there, to be proven not
    started: [may_transition_to] does not allow this. *)
Theorem recovery_verdict_allowed_iff interrupted observed_before state rollback observation :
  reconciliation interrupted observed_before state = RcObserve ->
  may_transition_to state (ve_request_state (verdict state rollback observation)) = true
  <-> ~ (state = AcknowledgedSuccess /\ observation = RoNotStarted).
Proof.
  intros H. destruct state; destruct interrupted, observed_before; try discriminate H;
    (destruct observation; cbn; vm_compute;
     (split; [intros ?; try discriminate; intros [? ?]; discriminate|]);
     intros Hn; first [reflexivity | by destruct Hn]).
Qed.

(** The counts of an assessment are those of its items. *)
Definition consistent (assessment : RecoveryAssessment) : Prop :=
  ra_state assessment
    = (if bool_decide (ra_ambiguous_items assessment = []) then ErsRecoveryAvailable
       else ErsRecoveryAmbiguous)
  /\ ra_not_started assessment = zlen (ra_verified_not_started_items assessment)
  /\ ra_applied assessment = zlen (ra_verified_applied_items assessment)
  /\ ra_ambiguous assessment = zlen (ra_ambiguous_items assessment)
  /\ ra_affected_count assessment
     = ra_not_started assessment + ra_applied assessment + ra_ambiguous assessment
  /\ is_u64 (ra_affected_count assessment)
  /\ (ra_rollback_available assessment = true ->
       ra_ambiguous_items assessment = [] /\ ra_verified_applied_items assessment <> []).

Lemma zlen_pos {A} `{EqDecision A} (l : list A) : (0 <? zlen l) = negb (bool_decide (l = [])).
Proof. by destruct l. Qed.

Lemma u64_try_from_Some n m : u64_try_from n = Some m -> m = n.
Proof. unfold u64_try_from. destruct (_ && _); [by intros [= ->]|done]. Qed.

Lemma u64_sum_Some a b c n :
  0 <= a -> 0 <= b -> 0 <= c ->
  (v ← u64_checked_add a b; u64_checked_add v c) = Some n -> n = a + b + c /\ is_u64 n.
Proof.
  unfold u64_checked_add, is_u64. intros ? ? ?. destruct (a + b <=? u64_max); [|done]. cbn.
  destruct (_ <=? _) eqn:Hle; [|done]. apply Z.leb_le in Hle. intros [= <-]. lia.
Qed.

Lemma returns_ok_or {A E} (o : option A) (e : E) :
  returns (W := W) (se_lift (ok_or o e)) (fun a => o = Some a).
Proof. apply returns_lift. intros a. by destruct o as [?|]; [intros [= ->]|]. Qed.

#[local] Instance RecoveryItem_eq_dec : EqDecision RecoveryItem.
Proof. solve_decision. Defined.

Lemma assess_consistent x found sessions : returns (assess_recovery (W := W) x found sessions) consistent.
Proof.
  unfold assess_recovery. eapply returns_bind; [apply returns_any|]. intros facts _.
  eapply returns_bind; [apply returns_ok_or|]. intros n ->%u64_try_from_Some.
  eapply returns_bind; [apply returns_ok_or|]. intros a ->%u64_try_from_Some.
  eapply returns_bind; [apply returns_ok_or|]. intros b ->%u64_try_from_Some.
  eapply returns_bind; [apply returns_ok_or|].
  intros total [-> Htotal]%u64_sum_Some; try apply zlen_nonneg.
  unfold persist_recovery_assessment_result.
  do 4 (eapply returns_bind; [apply returns_any|]; intros ? _).
  eapply returns_bind; [apply returns_any|]. intros diagnostics _. apply returns_ret.
  unfold consistent, recovery_state. cbn. rewrite !zlen_pos.
  split_and!; try done; [by case_bool_decide|].
  intros [[Hb%Z.eqb_eq _]%andb_true_iff Ha]%andb_true_iff. split.
  - destruct (fi_ambiguous found); [done|]. unfold zlen in Hb. cbn in Hb. lia.
  - by apply negb_true_iff, bool_decide_eq_false in Ha.
Qed.

(** What an assessment says: it is ambiguous exactly when an item is, its
    counts are those of its items and do not overflow, and a rollback is
    offered only when nothing is ambiguous and something was applied. *)
Theorem recovery_assessment_spec x w assessment w' :
  recover_execution policy x w = (Ok assessment, w') -> consistent assessment.
Proof.
  unfold recover_execution. destruct (recovery_in_progress w); [done|].
  destruct (recover_guarded policy x _) as [r w1] eqn:Hrun. intros [= -> _]. revert Hrun.
  enough (returns (recover_guarded (W := W) policy x) consistent) as H by apply H.
  unfold recover_guarded. eapply returns_bind; [apply returns_any|].
  intros [[[[[detail root] cursor] events] sessions] requests] _.
  eapply returns_bind; [apply returns_any|]. intros [found c] _.
  apply returns_map_err, assess_consistent.
Qed.

End recovery.

(** ** Witnesses *)

Fixpoint value_eqb (a b : Value) {struct a} : bool :=
  match a, b with
  | JNull, JNull => true
  | JBool x, JBool y => Bool.eqb x y
  | JNumber x, JNumber y => x =? y
  | JString x, JString y => bool_decide (x = y)
  | JArray l, JArray m =>
      (fix all l m := match l, m with
        | [], [] => true
        | x :: l, y :: m => value_eqb x y && all l m
        | _, _ => false
        end) l m
  | JObject l, JObject m =>
      (fix all l m := match l, m with
        | [], [] => true
        | (k, x) :: l, (k', y) :: m => bool_decide (k = k') && value_eqb x y && all l m
        | _, _ => false
        end) l m
  | _, _ => false
  end.

#[local] Existing Instances sample_blake3 sample_uuid desk_fs desk_reads desk_target desk_hex desk_case
  desk_serde desk_plan desk_policy desk_fingerprint desk_audit desk_class desk_service desk_host
  desk_journal.
#[local] Instance desk_item : ToJson RecoveryItem := fun _ => JNull.
#[local] Instance desk_session_json : ToJson ExecutorSessionIdentity := fun _ => JNull.
#[local] Instance desk_request_json : ToJson ExecutorRequestFact := fun _ => JNull.

(** The payload of the intent of the desk's move, and a crate that knows it. *)
Definition desk_payload : Value := json_object
  ["executor_session" ↦ session_material desk_identity;
   "executor_request" ↦ request_identity_material (desk_request move_step)].

Lemma value_eqb_eq : forall a b, value_eqb a b = true -> a = b.
Proof.
  fix IH 1. intros a b. destruct a as [|x|n|s|l|l], b as [|y|m|t|k|k]; try done; cbn.
  - by destruct x, y.
  - by intros ->%Z.eqb_eq.
  - by intros ->%bool_decide_eq_true.
  - intros H. f_equal. revert k H. induction l as [|a l IHl]; intros [|b k] H; try done.
    apply andb_true_iff in H as [Ha%IH Hl]. subst. f_equal. by apply IHl.
  - intros H. f_equal. revert k H. induction l as [|[f a] l IHl]; intros [|[g b] k] H; try done.
    apply andb_true_iff in H as [[->%bool_decide_eq_true Ha%IH]%andb_true_iff Hl]. subst.
    f_equal. by apply IHl.
Qed.

#[local] Instance desk_one_value : JsonCrate := {|
  value_to_string v := if value_eqb v desk_payload then Some (lit "{}") else None;
  value_from_slice text := if bool_decide (text = utf8 (lit "{}")) then Some desk_payload else None
|}.
#[local] Instance desk_one_value_laws : JsonLaws.
Proof.
  intros v s. cbn. destruct (value_eqb v desk_payload) eqn:Hv; [|done].
  apply value_eqb_eq in Hv as ->. by intros [= <-].
Qed.

Definition desk_intent : OperationJournalEvent :=
  new_event (uid x40) 0 (Some move_step) IntentDurableEvent (utf8 (lit "{}")) None 3000.

Definition desk_fact (state : ExecutorRequestState) : ExecutorRequestFact := {|
  erf_request_id := eri_request_id (desk_request move_step); erf_session_id := lit "session";
  erf_operation_id := move_step; erf_direction := ErdForward; erf_request_sequence := 1;
  erf_request_nonce_hash_hex := executor_nonce_hash (fill 32 x07); erf_request_digest_hex := [];
  erf_intent_event_sequence := 0;
  erf_intent_event_digest_hex := encode_hex_bytes (barr (ev_event_digest desk_intent));
  erf_state := state; erf_response_digest_hex := None; erf_outcome_class := None;
  erf_attempt_count := None; erf_error_class := None |}.

Lemma desk_intent_records :
  records DirForward desk_identity (desk_request move_step) desk_intent
  /\ stored_fact (desk_request move_step) desk_intent (desk_fact AcknowledgedSuccess).
Proof.
  split; [|by split_and!]. split_and!; try reflexivity.
  exists desk_payload, (lit "{}"). split_and!; vm_compute; reflexivity.
Qed.

Lemma recorded_request_is_recognised_witness :
  executor_request_binding_error (desk_fact AcknowledgedSuccess) [desk_identity] [desk_intent] = Ok None.
Proof.
  destruct desk_intent_records as [Hrec Hfact].
  apply (recorded_request_is_recognised DirForward desk_identity (desk_request move_step) desk_intent
    (desk_fact AcknowledgedSuccess) [desk_identity] [desk_intent]); try done.
  - apply list_elem_of_here.
  - by intros other ->%list_elem_of_singleton.
  - apply list_elem_of_here.
  - by intros other ->%list_elem_of_singleton.
  - by intros pid [= <-].
Defined.

Lemma recovery_verdict_allowed_iff_witness :
  may_transition_to IntentDurable (ve_request_state (verdict IntentDurable false RoNotStarted)) = true
  <-> ~ (IntentDurable = AcknowledgedSuccess /\ RoNotStarted = RoNotStarted).
Proof. exact (recovery_verdict_allowed_iff false false IntentDurable false RoNotStarted eq_refl). Defined.

(** A database in which the interrupted execution has no request. *)
#[local] Instance desk_interrupted : ExecutionDatabase SampleDesk :=
  desk_database_with (desk_detail_in OesRecoveryRequired) desk_store.
#[local] Instance desk_json_all : JsonCrate | 0 := {|
  value_to_string _ := Some (lit "{}"); value_from_slice _ := None |}.

Lemma recovery_assessment_spec_witness : exists assessment w,
  recover_execution sample_policy (uid x40) desk = (Ok assessment, w) /\ consistent assessment.
Proof.
  destruct (recover_execution sample_policy (uid x40) desk) as [[assessment|error] w] eqn:Hrun.
  - exists assessment, w. split; [reflexivity|].
    exact (recovery_assessment_spec sample_policy (uid x40) desk assessment w Hrun).
  - apply (f_equal (fun r => is_ok (fst r))) in Hrun. vm_compute in Hrun. discriminate Hrun.
Defined.
