(* ===== verification/StoredWorld.v ===== *)
(** * The coordinator on its database

    The world of the coordinator with the modelled database of executions in
    it, and what it means that a computation of the coordinator changes this
    database only by calls of the store. *)

From Stdlib Require Import DecimalString.
From S2P Require Export StoreRequests.
From S2P Require Export Coordinated.
#[local] Open Scope Z_scope.

(** ** The world *)

Record Stored (W : Type) := { st_db : Db; st_world : W }.
Arguments Build_Stored {W} _ _.
Arguments st_db {W} _.
Arguments st_world {W} _.

(** The display text of a [PersistenceError]. *)
Definition persistence_error_text (error : PersistenceError) : str :=
  match error with
  | PrSql text => lit "database failure: " ++ text
  | PrWriterPoisoned => lit "database writer mutex was poisoned"
  | PrUnsupportedSchema version =>
      lit "database schema version " ++ lit (NilZero.string_of_int (Z.to_int version)) ++ lit " is newer than this application"
  | PrInvalidCipher => lit "database key is invalid or SQLCipher is unavailable"
  | PrNotFound => lit "requested record does not exist"
  | PrInvalidIdentifier text => lit "stored identifier is invalid: " ++ text
  | PrInvalidNativePath => lit "filesystem value cannot be represented safely"
  | PrNumericOverflow => lit "numeric value exceeds SQLite range"
  | PrInvalidSemanticOutput => lit "semantic output failed bounded schema validation"
  | PrInvalidIdentityInput => lit "identity resolution input failed bounded validation"
  | PrIdentityConflict => lit "identity operation conflicts with confirmed or current state"
  | PrInvalidProposal => lit "organization proposal failed bounded schema validation"
  | InvalidExecution =>
      lit "filesystem execution state failed bounded or integrity validation"
  | PrInvalidRule => lit "local rule or learning record failed bounded validation"
  | PrRuleConflict => lit "local rule operation conflicts with current ordered state"
  | PrInvalidMonitoringInput => lit "monitoring state failed bounded or integrity validation"
  end.

(** A call of the database, with the text of its error. *)
Definition on_database {W A} (m : SE Db PersistenceError A) : SE (Stored W) str A := fun w =>
  let '(r, db) := m (st_db w) in
  (map_err persistence_error_text r, {| st_db := db; st_world := st_world w |}).

(** What the rest of the world does. *)
Definition beside {W E A} (m : SE W E A) : SE (Stored W) E A := fun w =>
  let '(r, w') := m (st_world w) in (r, {| st_db := st_db w; st_world := w' |}).
Definition beside_pure {W A} (f : W -> A * W) : Stored W -> A * Stored W := fun w =>
  let '(a, w') := f (st_world w) in (a, {| st_db := st_db w; st_world := w' |}).
Definition beside_set {W} (f : W -> W) (w : Stored W) : Stored W :=
  {| st_db := st_db w; st_world := f (st_world w) |}.

(** The roots of a workspace, which are other tables of the database. *)
Class RootRegistry (W : Type) : Type := {
  registered_root : WorkspaceId -> RootId -> SE W str RootRecord;
  newest_root : WorkspaceId -> SE W str RootRecord
}.

#[export] Instance stored_journal {W} `{DurableJournal W} : DurableJournal (Stored W) := {
  journal_append event := beside (journal_append event);
  journal_flush := beside journal_flush;
  journal_events x := beside (journal_events x);
  journal_diagnostics w := journal_diagnostics (st_world w)
}.
#[export] Instance stored_reads {W} `{ReadOnlyPlatform W} : ReadOnlyPlatform (Stored W) := {
  inspect_volume root := beside (inspect_volume root);
  fingerprint path content maximum := beside (fingerprint path content maximum);
  fingerprint_streaming path maximum := beside (fingerprint_streaming path maximum)
}.
#[export] Instance stored_fs {W} `{StdFs W} : StdFs (Stored W) := {
  symlink_metadata path := beside (symlink_metadata path);
  canonicalize path := beside (canonicalize path);
  read_dir_first path := beside (read_dir_first path)
}.
#[export] Instance stored_service {W} `{ServiceHost W} : ServiceHost (Stored W) := {
  diagnostics_read w := diagnostics_read (st_world w);
  diagnostics_push diagnostic := beside_set (diagnostics_push diagnostic);
  execution_now_iso := beside_pure execution_now_iso
}.
#[export] Instance stored_host {W} `{CoordinatorHost W} : CoordinatorHost (Stored W) := {
  execution_now_unix_ms := beside_pure execution_now_unix_ms;
  fill_nonce := beside fill_nonce;
  recovery_in_progress w := recovery_in_progress (st_world w);
  set_recovery_in_progress flag := beside_set (set_recovery_in_progress flag);
  on_progress progress := beside_set (on_progress progress);
  diagnostics_start diagnostics := beside_set (diagnostics_start diagnostics)
}.
#[export] Instance stored_client {W} `{ExecutorClient W} : ExecutorClient (Stored W) := {
  ExecutorSession := ExecutorSession (W := W);
  open_executor_session envelope authorization :=
    beside (open_executor_session envelope authorization);
  session_identity session w := session_identity session (st_world w);
  prepare_operation session operation_id direction :=
    beside (prepare_operation session operation_id direction);
  dispatch_prepared session request binding := beside (dispatch_prepared session request binding)
}.

Section database.
Context {W : Type} `{EN : SqlEngine} `{JT1 : JsonText (list ProposalItemId)}.
Context `{JT2 : JsonText VolumeIdentity} `{JT3 : JsonText FileFingerprint}.
Context `{JT4 : JsonText (list str)} `{UC : UnicodeCase}.
Context `{B3 : Blake3} `{BH : Blake3Hex} `{UU : UuidCrate} `{JC : JsonCrate} `{RR : RootRegistry W}.

(** [persist_execution_event] and its variants, with what an update holds. *)
Definition store_event (event : OperationJournalEvent) (canonical_data : str) (update : EventUpdate)
    (created_at : str) (intent : option ExecutorRequestIdentity)
    (proof : option (str * ExecutorRequestState)) : SE Db PersistenceError unit :=
  EventStore.persist_execution_event_inner event canonical_data (eu_operation_status update)
    (eu_session_status update) (eu_post_fingerprint update) (eu_error_code update)
    (eu_error_message update) created_at intent proof.

#[export] Instance stored_database : ExecutionDatabase (Stored W) := {
  execution_detail x := on_database (Store.stored_execution_detail x);
  execution_root_by_id workspace root := beside (registered_root workspace root);
  active_root workspace := beside (newest_root workspace);
  execution_ids_with_journal := on_database EventStore.execution_ids_with_journal;
  recovery_execution_ids := on_database ConsentStore.recovery_execution_ids;
  mark_interrupted_executions_for_recovery :=
    on_database (forget ConsentStore.mark_interrupted_executions_for_recovery);
  mark_execution_recovery_required x message :=
    on_database (forget (ConsentStore.mark_execution_recovery_required x message));
  validate_execution_journal x := on_database (EventStore.validate_execution_journal x);
  execution_journal_events x := on_database (EventStore.execution_journal_events x);
  execution_proposal_approval_is_current x :=
    on_database (ConsentStore.execution_proposal_approval_is_current x);
  invalidate_execution_consent x reason now :=
    on_database (ConsentStore.invalidate_execution_consent x reason now);
  issue_execution_consent_challenge x nonce issued expires :=
    on_database (forget (ConsentStore.issue_execution_consent_challenge x nonce issued expires));
  expire_execution_consent x now := on_database (ConsentStore.expire_execution_consent x now);
  attest_execution_consent x nonce issued expires mac now :=
    on_database (ConsentStore.attest_execution_consent x nonce issued expires mac now);
  clear_execution_consent_challenge x nonce issued expires now :=
    on_database (ConsentStore.clear_execution_consent_challenge x nonce issued expires now);
  consume_execution_consent x nonce issued expires mac now :=
    on_database (ConsentStore.consume_execution_consent x nonce issued expires mac now);
  execution_control x := on_database (ConsentStore.execution_control x);
  request_execution_pause x := on_database (ConsentStore.request_execution_pause x);
  request_execution_cancel x := on_database (ConsentStore.request_execution_cancel x);
  cancel_unstarted_execution x now := on_database (EventStore.cancel_unstarted_execution x now);
  persist_executor_session session := on_database (EventStore.persist_executor_session session);
  persist_execution_event event payload update now :=
    on_database (store_event event payload update now None None);
  persist_executor_request_intent event payload update request now :=
    on_database (store_event event payload update now (Some request) None);
  persist_execution_event_with_request_proof event payload update now request_id state :=
    on_database (store_event event payload update now None (Some (request_id, state)));
  db_record_executor_response request_id digest class attempts error state now :=
    on_database (EventStore.record_executor_response request_id digest class attempts error state now);
  transition_executor_request_proof request_id state now :=
    on_database (EventStore.transition_executor_request_proof request_id state now);
  add_execution_error x operation category code message detail now :=
    on_database (EventStore.add_execution_error x operation category code message detail now);
  executor_session_facts x := on_database (EventStore.executor_session_facts x);
  executor_request_facts x := on_database (EventStore.executor_request_facts x);
  db_persist_recovery_assessment x state not_started applied ambiguous text now :=
    on_database (EventStore.persist_recovery_assessment x state not_started applied ambiguous text now)
}.
End database.
