(* ===== verification/StoredMoves.v ===== *)
(** * What the coordinator does to its database

    Every computation of the coordinator, on a database that is the modelled
    one, is a sequence of calls of the store; the intents its log holds are the
    intents these calls record. *)

From S2P Require Export CoSteps StoredWorld.
#[local] Open Scope Z_scope.

(** The events a log holds as stored, with the requests of the intents. *)
Definition records_in (log : list CoEffect) :
    list (OperationJournalEvent * option ExecutorRequestIdentity) :=
  omap (fun effect => match effect with
    | CeEvent event _ true => Some (event, None)
    | CeIntent event request true => Some (event, Some request)
    | _ => None
    end) log.

Lemma records_in_app log log' : records_in (log ++ log') = records_in log ++ records_in log'.
Proof. apply omap_app. Qed.

(** The events the successful calls of the store stored. *)
Definition records_stored (done : list StoreCall) :
    list (OperationJournalEvent * option ExecutorRequestIdentity) :=
  omap (fun call => match call with
    | ScEvent event _ _ _ _ _ _ _ intent _ => Some (event, intent)
    | _ => None
    end) done.

Lemma records_stored_app done done' :
  records_stored (done ++ done') = records_stored done ++ records_stored done'.
Proof. apply omap_app. Qed.

Lemma intents_of_records done : intents_stored done = omap snd (records_stored done).
Proof.
  unfold intents_stored, records_stored. induction done as [|call done IH]; [done|].
  destruct call; cbn; try done. by destruct request_intent; cbn; rewrite IH.
Qed.

(** The events of one execution. *)
Definition events_recorded (x : ExecutionId)
    (records : list (OperationJournalEvent * option ExecutorRequestIdentity)) :
    list OperationJournalEvent :=
  filter (fun event => ev_execution_id event = x) (fst <$> records).

Lemma events_recorded_stored x done : events_stored x done = events_recorded x (records_stored done).
Proof.
  unfold events_stored, events_recorded, records_stored. induction done as [|call done IH]; [done|].
  destruct call; cbn [omap list_omap]; try done. rewrite fmap_cons, filter_cons, <- IH. cbn [fst].
  case_bool_decide; case_decide; done.
Qed.

Section linked.
Context {W : Type} `{EN : SqlEngine} `{JT1 : JsonText (list ProposalItemId)}.
Context `{JT2 : JsonText VolumeIdentity} `{JT3 : JsonText FileFingerprint}.
Context `{JT4 : JsonText (list str)} `{UC : UnicodeCase}.
Context `{B3 : Blake3} `{BH : Blake3Hex} `{UU : UuidCrate} `{JC : JsonCrate}.
Notation T := (CoTraced (Stored W)).

Lemma perform_all_app calls calls' db :
  perform_all (calls ++ calls') db =
  let '(done, db1) := perform_all calls db in
  let '(done', db2) := perform_all calls' db1 in (done ++ done', db2).
Proof.
  revert db. induction calls as [|call calls IH]; intros db; cbn [app perform_all].
  { by destruct (perform_all calls' db). }
  destruct (perform call db) as [r db1]. rewrite IH.
  destruct (perform_all calls db1) as [done_ db2], (perform_all calls' db2) as [done' db3].
  by destruct (is_ok r).
Qed.

(** From one moment to a later one: what the database was called for, and what
    was logged; [may_dispatch] when something may have been dispatched. *)
Definition linked (may_dispatch : bool) (t t' : T) : Prop :=
  exists calls done extra,
    perform_all calls (st_db (fst t)) = (done, st_db (fst t'))
    /\ snd t' = snd t ++ extra
    /\ records_in extra = records_stored done
    /\ (may_dispatch = false -> dispatched extra = []).

Lemma linked_same b t t' :
  st_db (fst t') = st_db (fst t) -> snd t' = snd t -> linked b t t'.
Proof. intros Hdb Hlog. exists [], [], []. cbn. by rewrite Hdb, Hlog, app_nil_r. Qed.

#[export] Instance linked_preorder b : PreOrder (linked b).
Proof.
  split; [intros t; by apply linked_same|].
  intros t1 t2 t3 (c1 & d1 & e1 & H1 & L1 & I1 & N1) (c2 & d2 & e2 & H2 & L2 & I2 & N2).
  exists (c1 ++ c2), (d1 ++ d2), (e1 ++ e2). split_and!.
  - by rewrite perform_all_app, H1, H2.
  - by rewrite L2, L1, app_assoc.
  - by rewrite records_in_app, records_stored_app, I1, I2.
  - intros Hb. rewrite dispatched_app, N1, N2 by done. done.
Qed.

(** ** Computations of the coordinator *)

Notation moves may_dispatch := (respects (linked may_dispatch)).

Section moves.
Context (b : bool).

Lemma moves_still {E A} (m : SE T E A) :
  (forall t, st_db (fst (snd (m t))) = st_db (fst t) /\ snd (snd (m t)) = snd t) -> moves b m.
Proof. intros H t. destruct (H t). by apply linked_same. Qed.

(** What is done beside the database. *)
Lemma moves_beside {E A} (m : SE W E A) : moves b (passing (beside m)).
Proof.
  apply moves_still. intros [w log]. unfold passing, beside. cbn. by destruct (m (st_world w)).
Qed.
Lemma moves_beside_logged {E A} (m : SE W E A) note :
  (forall r, records_in (note r) = [] /\ (b = false -> dispatched (note r) = [])) ->
  moves b (logged (beside m) note).
Proof.
  intros H [w log]. unfold logged, beside. cbn. destruct (m (st_world w)) as [r w'].
  destruct (H r) as [H1 H2]. by exists [], [], (note r).
Qed.

(** What reads the database. *)
Lemma moves_read {A} (m : SE Db PersistenceError A) : steps eq m -> moves b (passing (on_database m)).
Proof.
  intros H. apply moves_still. intros [w log]. unfold passing, on_database. cbn.
  specialize (H (st_db w)). by destruct (m (st_db w)).
Qed.
Lemma moves_read_logged {A} (m : SE Db PersistenceError A) note :
  steps eq m -> (forall r, records_in (note r) = [] /\ dispatched (note r) = []) ->
  moves b (logged (on_database m) note).
Proof.
  intros Hm H [w log]. unfold logged, on_database. cbn. specialize (Hm (st_db w)).
  destruct (m (st_db w)) as [r db]. cbn in Hm. subst db.
  destruct (H (map_err persistence_error_text r)) as [H1 H2].
  by exists [], [], (note (map_err persistence_error_text r)).
Qed.

(** What calls the database. *)
Definition performs {A} (call : StoreCall) (m : SE Db PersistenceError A) : Prop :=
  forall db, snd (perform call db) = snd (m db) /\ is_ok (fst (perform call db)) = is_ok (fst (m db)).

Lemma performs_forget {A} call (m : SE Db PersistenceError A) :
  perform call = forget m -> performs call m.
Proof.
  intros H db. rewrite H. unfold forget. cbv [mbind se_bind]. by destruct (m db) as [[] ?].
Qed.

Lemma moves_call_logged {A} call (m : SE Db PersistenceError A) note :
  performs call m ->
  (forall r, records_in (note r) = (if is_ok r then records_stored [call] else [])
    /\ dispatched (note r) = []) ->
  moves b (logged (on_database m) note).
Proof.
  intros Hm H [w log]. unfold logged, on_database. cbn. destruct (Hm (st_db w)) as [Hdb Hok].
  destruct (perform call (st_db w)) as [r' db'] eqn:Hcall, (m (st_db w)) as [r db]. cbn in *. subst db'.
  destruct (H (map_err persistence_error_text r)) as [H1 H2].
  exists [call], (if is_ok r then [call] else []), (note (map_err persistence_error_text r)).
  cbn [perform_all fst snd st_db]. rewrite Hcall, Hok. split_and!; [by destruct (is_ok r)|done| |done].
  rewrite H1. by destruct r.
Qed.
Lemma moves_call {A} call (m : SE Db PersistenceError A) :
  performs call m -> records_stored [call] = [] -> moves b (passing (on_database m)).
Proof.
  intros Hm H. eapply (moves_call_logged call m (fun _ => [])) in Hm.
  - intros t. specialize (Hm t). unfold logged, passing in *. destruct t as [w log].
    destruct (on_database m w) as [r w']. cbn in *. by rewrite app_nil_r in Hm.
  - intros r. rewrite H. by destruct (is_ok r).
Qed.
End moves.
End linked.

Notation moves may_dispatch := (respects (linked may_dispatch)).

Create HintDb linked discriminated.
#[export] Hint Constants Opaque : linked.

(** ** The methods of the world *)

Section methods.
Context {W : Type} `{EN : SqlEngine} `{JT1 : JsonText (list ProposalItemId)}.
Context `{JT2 : JsonText VolumeIdentity} `{JT3 : JsonText FileFingerprint}.
Context `{JT4 : JsonText (list str)} `{UC : UnicodeCase}.
Context `{B3 : Blake3} `{BH : Blake3Hex} `{UU : UuidCrate} `{JC : JsonCrate} `{RR : RootRegistry W}.
Context (b : bool).
Notation T := (CoTraced (Stored W)).

Lemma linked_detail x : moves b (execution_detail (W := T) x).
Proof. apply moves_read, steps_detail. apply _. Qed.
Lemma linked_root workspace root : moves b (execution_root_by_id (W := T) workspace root).
Proof. apply moves_beside. Qed.
Lemma linked_active_root workspace : moves b (active_root (W := T) workspace).
Proof. apply moves_beside. Qed.
Lemma linked_journal_ids : moves b (execution_ids_with_journal (W := T)).
Proof. apply moves_read. unfold EventStore.execution_ids_with_journal. steps_walk. Qed.
Lemma linked_recovery_ids : moves b (recovery_execution_ids (W := T)).
Proof. apply moves_read. unfold ConsentStore.recovery_execution_ids. steps_walk. Qed.
Lemma steps_events (R : Db -> Db -> Prop) `{PO : !PreOrder R} x :
  steps R (EventStore.execution_journal_events x).
Proof. unfold EventStore.execution_journal_events. steps_walk. Qed.
Lemma linked_valid x : moves b (validate_execution_journal (W := T) x).
Proof.
  apply moves_read. unfold EventStore.validate_execution_journal.
  apply steps_bind; [apply _|apply steps_events; apply _|]. intros events. steps_walk.
Qed.
Lemma linked_events x : moves b (execution_journal_events (W := T) x).
Proof. apply moves_read_logged; [apply steps_events; apply _|by intros []]. Qed.
Lemma linked_current x : moves b (execution_proposal_approval_is_current (W := T) x).
Proof. apply moves_read. unfold ConsentStore.execution_proposal_approval_is_current. steps_walk. Qed.
Lemma linked_control x : moves b (execution_control (W := T) x).
Proof. apply moves_read. unfold ConsentStore.execution_control. steps_walk. Qed.
Lemma linked_sessions x : moves b (executor_session_facts (W := T) x).
Proof. apply moves_read. unfold EventStore.executor_session_facts. steps_walk. Qed.
Lemma linked_requests x : moves b (executor_request_facts (W := T) x).
Proof. apply moves_read. unfold EventStore.executor_request_facts. steps_walk. Qed.

Lemma linked_interrupted : moves b (mark_interrupted_executions_for_recovery (W := T)).
Proof. by apply (moves_call b ScInterrupted). Qed.
Lemma linked_recovery_required x message : moves b (mark_execution_recovery_required (W := T) x message).
Proof. by apply (moves_call b (ScRecoveryRequired x message)). Qed.
Lemma linked_invalidate x reason now : moves b (invalidate_execution_consent (W := T) x reason now).
Proof. by apply (moves_call b (ScInvalidate x reason now)); [apply performs_forget|]. Qed.
Lemma linked_issue x nonce issued expires :
  moves b (issue_execution_consent_challenge (W := T) x nonce issued expires).
Proof. by apply (moves_call b (ScIssue x nonce issued expires)). Qed.
Lemma linked_expire x now : moves b (expire_execution_consent (W := T) x now).
Proof. by apply (moves_call b (ScExpire x now)); [apply performs_forget|]. Qed.
Lemma linked_attest x nonce issued expires mac now :
  moves b (attest_execution_consent (W := T) x nonce issued expires mac now).
Proof. by apply (moves_call b (ScAttest x nonce issued expires mac now)); [apply performs_forget|]. Qed.
Lemma linked_clear x nonce issued expires now :
  moves b (clear_execution_consent_challenge (W := T) x nonce issued expires now).
Proof. by apply (moves_call b (ScClear x nonce issued expires now)); [apply performs_forget|]. Qed.
Lemma linked_consume x nonce issued expires mac now :
  moves b (consume_execution_consent (W := T) x nonce issued expires mac now).
Proof.
  apply (moves_call_logged b (ScConsume x nonce issued expires mac now)); [by apply performs_forget|].
  by intros [].
Qed.
Lemma linked_pause x : moves b (request_execution_pause (W := T) x).
Proof. by apply (moves_call b (ScControl x true false)); [apply performs_forget|]. Qed.
Lemma linked_cancel x : moves b (request_execution_cancel (W := T) x).
Proof. by apply (moves_call b (ScControl x false true)); [apply performs_forget|]. Qed.
Lemma linked_unstarted x now : moves b (cancel_unstarted_execution (W := T) x now).
Proof. by apply (moves_call b (ScCancelUnstarted x now)); [apply performs_forget|]. Qed.
Lemma linked_session session : moves b (persist_executor_session (W := T) session).
Proof. by apply (moves_call b (ScSession session)). Qed.

(** The call that stores an event. *)
Definition event_stored (event : OperationJournalEvent) (canonical_data : str)
    (update : EventUpdate) (created_at : str) (intent : option ExecutorRequestIdentity)
    (proof : option (str * ExecutorRequestState)) : StoreCall :=
  ScEvent event canonical_data (eu_operation_status update) (eu_session_status update)
    (eu_post_fingerprint update) (eu_error_code update) (eu_error_message update) created_at
    intent proof.

Lemma linked_event event payload update now :
  moves b (persist_execution_event (W := T) event payload update now).
Proof.
  by apply (moves_call_logged b (event_stored event payload update now None None)); [|intros []].
Qed.
Lemma linked_intent event payload update request now :
  moves b (persist_executor_request_intent (W := T) event payload update request now).
Proof.
  by apply (moves_call_logged b (event_stored event payload update now (Some request) None));
    [|intros []].
Qed.
Lemma linked_proved event payload update now request_id state :
  moves b (persist_execution_event_with_request_proof (W := T) event payload update now request_id state).
Proof.
  by apply (moves_call_logged b (event_stored event payload update now None (Some (request_id, state))));
    [|intros []].
Qed.
Lemma linked_response request_id digest class attempts error state now :
  moves b (db_record_executor_response (W := T) request_id digest class attempts error state now).
Proof.
  by apply (moves_call_logged b (ScResponse request_id digest class attempts error state now));
    [|intros []].
Qed.
Lemma linked_transition request_id state now :
  moves b (transition_executor_request_proof (W := T) request_id state now).
Proof. by apply (moves_call_logged b (ScProof request_id state now)); [|intros []]. Qed.
Lemma linked_error x operation category code message detail now :
  moves b (add_execution_error (W := T) x operation category code message detail now).
Proof. by apply (moves_call b (ScError x operation category code message detail now)). Qed.
Lemma linked_assessment x state not_started applied ambiguous text now :
  moves b (db_persist_recovery_assessment (W := T) x state not_started applied ambiguous text now).
Proof. by apply (moves_call b (ScAssessment x state not_started applied ambiguous text now)). Qed.

Lemma linked_metadata `{StdFs W} path : moves b (symlink_metadata (W := T) path).
Proof. apply moves_beside. Qed.
Lemma linked_canonicalize `{StdFs W} path : moves b (canonicalize (W := T) path).
Proof. apply moves_beside. Qed.
Lemma linked_read_dir `{StdFs W} path : moves b (read_dir_first (W := T) path).
Proof. apply moves_beside. Qed.
Lemma linked_volume `{ReadOnlyPlatform W} root : moves b (inspect_volume (W := T) root).
Proof. apply moves_beside. Qed.
Lemma linked_streaming `{ReadOnlyPlatform W} path maximum :
  moves b (fingerprint_streaming (W := T) path maximum).
Proof. apply moves_beside. Qed.
Lemma linked_nonce `{CoordinatorHost W} : moves b (fill_nonce (W := T)).
Proof. apply moves_beside. Qed.
Lemma linked_external `{DurableJournal W} x : moves b (journal_events (W := T) x).
Proof. apply moves_beside_logged. by intros []. Qed.
Lemma linked_append `{DurableJournal W} event : moves b (journal_append (W := T) event).
Proof. apply moves_beside_logged. by intros []. Qed.
Lemma linked_flush `{DurableJournal W} : moves b (journal_flush (W := T)).
Proof. apply moves_beside_logged. by intros []. Qed.
Lemma linked_open `{ExecutorClient W} envelope authorization :
  moves b (open_executor_session (W := T) envelope authorization).
Proof. apply moves_beside_logged. by intros []. Qed.
Lemma linked_prepare `{ExecutorClient W} (session : ExecutorSession (W := T)) operation_id direction :
  moves b (prepare_operation (W := T) session operation_id direction).
Proof. apply moves_beside_logged. by intros []. Qed.
Lemma linked_dispatch `{ExecutorClient W} (session : ExecutorSession (W := T)) request binding :
  moves true (dispatch_prepared (W := T) session request binding).
Proof. apply moves_beside_logged. by intros []. Qed.

(** *** The relation is respected *)

#[local] Hint Resolve linked_detail linked_root linked_active_root linked_journal_ids
  linked_recovery_ids linked_valid linked_events linked_current linked_control linked_sessions
  linked_requests linked_interrupted linked_recovery_required linked_invalidate linked_issue
  linked_expire linked_attest linked_clear linked_consume linked_pause linked_cancel
  linked_unstarted linked_session linked_event linked_intent linked_proved linked_response
  linked_transition linked_error linked_assessment linked_metadata linked_canonicalize
  linked_read_dir linked_volume linked_streaming linked_nonce linked_external linked_append
  linked_flush linked_open linked_prepare linked_dispatch : linked.

Context `{SH : ServiceHost W} `{CH : CoordinatorHost W} `{DJ : DurableJournal W}.
Context `{EX : ExecutorClient W} `{FS : StdFs W} `{RO : ReadOnlyPlatform W}.

#[export] Instance linked_looks : Looks (linked b).
Proof. split; intros; [apply _|eauto with linked..]. Qed.

#[export] Instance linked_respected : Respected (linked b).
Proof.
  split; intros; try solve [eauto with linked | by apply linked_same].
  - apply _.
  - destruct t as [w log]. cbn. unfold below, beside_pure. cbn.
    by destruct (execution_now_iso (st_world w)); apply linked_same.
  - destruct t as [w log]. cbn. unfold below, beside_pure. cbn.
    by destruct (execution_now_unix_ms (st_world w)); apply linked_same.
Qed.

#[export] Instance linked_attests : RespectedAttest (linked b).
Proof. intros x nonce issued expires mac now. apply linked_attest. Qed.
#[export] Instance linked_consumes : RespectedConsume (linked b).
Proof. intros x nonce issued expires mac now. apply linked_consume. Qed.
End methods.

#[export] Instance linked_dispatches {W} `{EX : ExecutorClient W} `{B3 : Blake3} `{SqlEngine}
    `{JsonText (list ProposalItemId)} `{JsonText VolumeIdentity} `{JsonText FileFingerprint}
    `{JsonText (list str)} `{UnicodeCase} `{Blake3Hex} `{UuidCrate} `{JsonCrate} :
  RespectedDispatch (V := CoTraced (Stored W)) (linked true).
Proof. intros session request binding. apply linked_dispatch. Qed.
