(* ===== verification/StoredRecovery.v ===== *)
(** * A recovery the database refuses

    On the modelled database, the recovery of a request whose success was
    acknowledged and whose mutation is not on disk wants a state the request may
    not get: it fails and leaves the database as it was, each time it is tried. *)

From S2P Require Export StoredMoves.
#[local] Open Scope Z_scope.

(** ** Statements that fail while the requests are what they are *)

Section refused.
Context `{EN : SqlEngine} `{JT1 : JsonText (list ProposalItemId)} `{JT2 : JsonText VolumeIdentity}.
Context `{JT3 : JsonText FileFingerprint} `{JT4 : JsonText (list str)} `{UC : UnicodeCase}.
Context `{B3 : Blake3} `{UU : UuidCrate} `{JC : JsonCrate}.
Notation Sql A := (SE Db PersistenceError A).

Definition refused {A} (rows : list RequestRow) (m : Sql A) : Prop :=
  forall db, db_requests db = rows -> is_err (fst (m db)) = true.

Lemma refused_first {A B} rows (m : Sql A) (k : A -> Sql B) : refused rows m -> refused rows (m ≫= k).
Proof. intros H db Hdb. specialize (H db Hdb). cbv [mbind se_bind]. by destruct (m db) as [[] ?]. Qed.

Lemma refused_next {A B} rows (m : Sql A) (k : A -> Sql B) :
  steps (kept db_requests) m -> (forall a, refused rows (k a)) -> refused rows (m ≫= k).
Proof.
  intros Hm Hk db Hdb. specialize (Hm db). unfold kept in Hm. cbv [mbind se_bind].
  destruct (m db) as [[a|e] db']; [|done]. apply Hk. cbn in Hm. congruence.
Qed.

Lemma lifted_first {A B} (m : res PersistenceError A) (k : A -> Sql B) db :
  (se_lift m ≫= k) db = match m with Ok a => k a db | Err e => (Err e, db) end.
Proof. by destruct m. Qed.

(** A failed transaction leaves the database as it was. *)
Lemma refused_transaction {A} rows (m : Sql A) db :
  refused rows m -> db_requests db = rows -> exists e, transaction m db = (Err e, db).
Proof.
  intros Hm Hdb. unfold transaction.
  assert (refused rows (engine;; value ← m; engine;; mret value)) as H.
  { apply refused_next; [apply steps_engine; apply _|intros []]. by apply refused_first. }
  specialize (H db Hdb). destruct ((engine;; value ← m; engine;; mret value) db) as [[a|e] db']; [done|].
  by exists e.
Qed.

Lemma transition_refused request_id next recorded_at proof rows row :
  find (request_of request_id) rows = Some row -> may_transition_to (rqr_state row) next = false ->
  refused rows (transition_executor_request_state request_id next recorded_at proof).
Proof.
  intros Hrow Hnot db Hdb. unfold transition_executor_request_state, executor_request_state, query_row.
  cbv [mbind se_bind]. unfold query, engine. cbv [mbind se_bind].
  destruct (engine_error db); [done|]. cbn. rewrite Hdb, Hrow. cbn. by rewrite Hnot.
Qed.

(** An event that would give a request a state it may not get is not stored. *)
Lemma proof_refused event data operation session post code message created_at request_id next row db :
  find (request_of request_id) (db_requests db) = Some row ->
  may_transition_to (rqr_state row) next = false ->
  exists e, EventStore.persist_execution_event_inner event data operation session post code message
    created_at None (Some (request_id, next)) db = (Err e, db).
Proof.
  intros Hrow Hnot. unfold EventStore.persist_execution_event_inner.
  rewrite lifted_first. destruct (reject_if _ _); [|by eexists].
  apply (refused_transaction (db_requests db)); [|done].
  do 8 (apply refused_next; [solve [unfold update_event_session, update_event_operation,
    insert_rollback_record, refresh_execution_counts; steps_walk; kept_view]|intros ?]).
  by apply refused_first, (transition_refused _ _ _ _ _ row).
Qed.
End refused.

(** ** The coordinator on that database *)

Section recovery.
Context {W : Type} `{EN : SqlEngine} `{JT1 : JsonText (list ProposalItemId)}.
Context `{JT2 : JsonText VolumeIdentity} `{JT3 : JsonText FileFingerprint}.
Context `{JT4 : JsonText (list str)} `{UC : UnicodeCase} `{RR : RootRegistry W}.
Context `{B3 : Blake3} `{BH : Blake3Hex} `{UU : UuidCrate} `{JC : JsonCrate} `{AS : AuthSerde}.
Context `{TM : ToVec CanonicalPlanMaterial} `{TC : ToVec CanonicalSafetyPolicy}.
Context `{JF : ToJson FileFingerprint} `{JA : ToJson ExecutorAttemptAudit}.
Context `{JE : ToJson ExecutorErrorClass} `{JI : ToJson RecoveryItem}.
Context `{JS : ToJson ExecutorSessionIdentity} `{JR : ToJson ExecutorRequestFact}.
Context `{FS : StdFs W} `{RO : ReadOnlyPlatform W} `{TG : Target}.
Context `{SH : ServiceHost W} `{CH : CoordinatorHost W} `{DJ : DurableJournal W}.
Variable policy : ExecutionSafetyPolicy.
Notation V := (Stored W).

(** The database is the same. *)
Definition same_database (w w' : V) : Prop := st_db w' = st_db w.

#[local] Instance same_database_preorder : PreOrder same_database.
Proof. split; [done|]. intros w1 w2 w3 H1 H2. unfold same_database in *. congruence. Qed.

Lemma beside_same {E A} (m : SE W E A) : respects same_database (beside m).
Proof. intros w. unfold beside. by destruct (m (st_world w)). Qed.

Lemma read_same {A} (m : SE Db PersistenceError A) :
  steps eq m -> respects same_database (on_database (W := W) m).
Proof. intros H w. specialize (H (st_db w)). unfold on_database. by destruct (m (st_db w)). Qed.

#[local] Instance looks_same : Looks same_database.
Proof. split; intros; [apply _|apply beside_same..]. Qed.

Lemma observe_same root request operation :
  respects same_database (observe_request (W := V) policy root request operation).
Proof.
  unfold observe_request. destruct (erf_direction request);
    [apply (mv_observe same_database policy)|apply (mv_observe_rollback same_database policy)].
Qed.

Lemma valid_same x : respects same_database (require_valid_database_journal (W := V) x).
Proof.
  assert (respects same_database (validate_execution_journal (W := V) x)) as Hvalid.
  { apply read_same. unfold EventStore.validate_execution_journal.
    apply steps_bind; [apply _|apply steps_events; apply _|]. intros events. steps_walk. }
  assert (forall A scope code message,
    respects same_database (lock_journal (W := V) (A := A) scope x code message)) as Hlock.
  { intros A scope code message. unfold lock_journal, diagnose.
    assert (respects same_database (now_ms (W := V))) as Hnow.
    { intros w. unfold now_ms, execution_now_unix_ms. cbn. unfold beside_pure.
      by destruct (execution_now_unix_ms (st_world w)). }
    assert (forall diagnostic, respects same_database
      (update_world (W := V) (record_journal_diagnostic diagnostic))) as Hrecord.
    { intros diagnostic. apply respects_update. intros w. unfold record_journal_diagnostic.
      by repeat case_match. }
    moving. }
  unfold require_valid_database_journal. moving.
Qed.

Lemma next_same x operation kind payload cursor :
  respects same_database (next_event (W := V) x operation kind payload cursor).
Proof.
  unfold next_event. apply respects_bind; [apply _|apply respects_lift; apply _|intros canonical].
  apply respects_bind; [apply _| |intros; apply respects_ret; apply _].
  intros w. unfold now_ms, execution_now_unix_ms. cbn. unfold beside_pure.
  by destruct (execution_now_unix_ms (st_world w)).
Qed.

(** Computations that fail and leave the database as it is, whenever it holds
    these requests. *)
Definition fails_in {E A} (rows : list RequestRow) (m : SE V E A) : Prop :=
  forall w, db_requests (st_db w) = rows ->
    is_err (fst (m w)) = true /\ same_database w (snd (m w)).

Lemma fails_first {E A B} rows (m : SE V E A) (k : A -> SE V E B) :
  fails_in rows m -> fails_in rows (m ≫= k).
Proof.
  intros H w Hw. specialize (H w Hw). cbv [mbind se_bind]. by destruct (m w) as [[a|e] w'], H.
Qed.

Lemma fails_next {E A B} rows (m : SE V E A) (k : A -> SE V E B) :
  respects same_database m -> (forall a, fails_in rows (k a)) -> fails_in rows (m ≫= k).
Proof.
  intros Hm Hk w Hw. specialize (Hm w). cbv [mbind se_bind].
  destruct (m w) as [[a|e] w1]; [|done]. cbn in Hm.
  destruct (Hk a w1) as [H1 H2]; [by rewrite Hm|]. split; [done|]. by etrans.
Qed.

Lemma verdict_fails x request operation v cursor rows row :
  find (request_of (erf_request_id request)) rows = Some row ->
  may_transition_to (rqr_state row) (ve_request_state v) = false ->
  fails_in rows (record_verdict (W := V) x request operation v cursor).
Proof.
  intros Hrow Hnot. unfold record_verdict. apply fails_first. unfold persist_event_with_request_proof.
  apply fails_next; [apply valid_same|intros []].
  apply fails_next; [apply next_same|intros [event canonical]].
  apply fails_next.
  { intros w. unfold now_iso, execution_now_iso. cbn. unfold beside_pure.
    by destruct (execution_now_iso (st_world w)). }
  intros now. apply fails_first. intros w Hw. unfold se_map_err.
  cbn [persist_execution_event_with_request_proof stored_database]. unfold on_database, store_event.
  rewrite <- Hw in Hrow.
  match goal with |- context [EventStore.persist_execution_event_inner ?a ?b ?c ?d ?e ?f ?g ?h None
      (Some (?i, ?j)) ?k] =>
    destruct (proof_refused a b c d e f g h i j row k Hrow Hnot) as [error ->] end.
  done.
Qed.

(** C20: The recovery of an acknowledged request whose mutation is not on disk is
    stuck: in every world whose database holds the request as acknowledged and
    whose file system shows that the mutation did not happen, reconciling the
    request fails and leaves the database exactly as it was, so that the
    request is still held as acknowledged and the next attempt fails the same
    way. *)
Theorem acknowledged_but_absent_fails x root request operation sessions events cursor (w : V) row :
  find (request_of (erf_request_id request)) (db_requests (st_db w)) = Some row ->
  rqr_state row = AcknowledgedSuccess -> erf_state request = AcknowledgedSuccess ->
  executor_request_binding_error request sessions events = Ok None ->
  fst (observe_request policy root request operation w) = Ok RoNotStarted ->
  exists e w', reconcile_one_interrupted_request policy x root request operation sessions events cursor w
    = (Err e, w')
    /\ st_db w' = st_db w
    /\ rqr_state <$> find (request_of (erf_request_id request)) (db_requests (st_db w'))
       = Some AcknowledgedSuccess.
Proof.
  intros Hrow Hheld Hstate Hb Hobs. unfold reconcile_one_interrupted_request. rewrite Hb.
  cbv [mbind se_bind se_lift map_err]. unfold se_map_err, reconcile_bound_request.
  rewrite Hstate. replace (reconciliation _ _ AcknowledgedSuccess) with RcObserve
    by (by destruct (operation_interrupted _ _), (request_has_recovery_observation _ _)).
  cbv [mbind se_bind]. pose proof (observe_same root request operation w) as Hsame.
  destruct (observe_request policy root request operation w) as [observed w1]. cbn in Hobs, Hsame.
  subst observed.
  destruct (verdict_fails x request operation (verdict AcknowledgedSuccess
    (bool_decide (erf_direction request = ErdRollback)) RoNotStarted) cursor (db_requests (st_db w)) row
    Hrow ltac:(by rewrite Hheld; destruct (bool_decide _)) w1) as [Herr Hdb]; [by rewrite Hsame|].
  destruct (record_verdict _ _ _ _ _ w1) as [[c|e] w2]; [done|]. cbn in Hdb.
  assert (st_db w2 = st_db w) as Hw by (unfold same_database in *; congruence).
  exists (Failed e), w2. split_and!; [done|done|]. rewrite Hw, Hrow. cbn. by rewrite Hheld.
Qed.
End recovery.
