(* ===== verification/StoredService.v ===== *)
(** * The service on its database

    Every computation of the execution service moves its database by calls of
    the store; so what holds of any calls of the store holds of any runs of
    the service, and with the protocol of a run: over any number of starts,
    rollbacks, recoveries and restarts, a step of a plan is dispatched forward
    at most once. *)

From S2P Require Export StoredMoves.
#[local] Open Scope Z_scope.

(** ** Runs of the service *)

(** What is asked of the service, one after the other; a restart is [SrNew].
    Of [prepare_execution] it is the last step, which writes the execution. *)
Inductive ServiceRun :=
  | SrNew
  | SrPrepared (detail : ExecutionDetail)
  | SrChallenge (x : ExecutionId) (confirmation_phrase : option str)
  | SrFinalize (challenge : ExecutionConsentChallenge)
  | SrDiscard (challenge : ExecutionConsentChallenge)
  | SrPause (x : ExecutionId)
  | SrCancel (x : ExecutionId)
  | SrStart (x : ExecutionId)
  | SrRollback (x : ExecutionId)
  | SrRecover (x : ExecutionId).

Definition dispatches_run (run : ServiceRun) : bool :=
  match run with SrStart _ | SrRollback _ => true | _ => false end.

Lemma sublist_omap {A B} (f : A -> option B) l k :
  l `sublist_of` k -> omap f l `sublist_of` omap f k.
Proof.
  induction 1 as [|x l k H IH|x l k H IH]; cbn; [done| |].
  - destruct (f x); [by apply sublist_skip|done].
  - destruct (f x); [by apply sublist_cons|done].
Qed.

Section runs.
Context {W : Type} `{EN : SqlEngine} `{JT1 : JsonText (list ProposalItemId)}.
Context `{JT2 : JsonText VolumeIdentity} `{JT3 : JsonText FileFingerprint}.
Context `{JT4 : JsonText (list str)} `{UC : UnicodeCase} `{RR : RootRegistry W}.
Context `{B3 : Blake3} `{BH : Blake3Hex} `{UU : UuidCrate} `{JC : JsonCrate} `{AS : AuthSerde}.
Context `{TM : ToVec CanonicalPlanMaterial} `{TC : ToVec CanonicalSafetyPolicy}.
Context `{JF : ToJson FileFingerprint} `{JA : ToJson ExecutorAttemptAudit}.
Context `{JE : ToJson ExecutorErrorClass} `{JI : ToJson RecoveryItem}.
Context `{JS : ToJson ExecutorSessionIdentity} `{JR : ToJson ExecutorRequestFact}.
Context `{FS : StdFs W} `{RO : ReadOnlyPlatform W} `{TG : Target}.
Context `{SH : ServiceHost W} `{CH : CoordinatorHost W} `{DJ : DurableJournal W}.
Context `{EX : ExecutorClient W}.
Variable policy : ExecutionSafetyPolicy.
Variable gate : ApplyGate.
Variable consent_authority : bytes32.
Notation T := (CoTraced (Stored W)).

(** One of them, whatever it answers. *)
Definition run_once (run : ServiceRun) (t : T) : T :=
  match run with
  | SrNew => snd (new_service policy t)
  | SrPrepared detail => snd (passing (on_database (perform (ScPrepare detail))) t)
  | SrChallenge x phrase =>
      snd (create_execution_consent_challenge policy gate consent_authority x phrase t)
  | SrFinalize challenge =>
      snd (finalize_execution_consent policy gate consent_authority challenge t)
  | SrDiscard challenge => snd (discard_execution_consent_challenge consent_authority challenge t)
  | SrPause x => snd (pause_execution x t)
  | SrCancel x => snd (cancel_execution x t)
  | SrStart x => snd (start_execution policy gate consent_authority x t)
  | SrRollback x => snd (rollback_execution policy gate x t)
  | SrRecover x => snd (recover_execution policy x t)
  end.

(** All of them: their logs, one after the other, and the world they leave. *)
Fixpoint service_runs (runs : list ServiceRun) (w : Stored W) : list CoEffect * Stored W :=
  match runs with
  | [] => ([], w)
  | run :: runs =>
      let '(w', log) := run_once run (w, []) in
      let '(log', w'') := service_runs runs w' in (log ++ log', w'')
  end.

Lemma run_moves run t : linked (dispatches_run run) t (run_once run t).
Proof.
  destruct run; cbn [run_once dispatches_run]; revert t.
  - exact (mv_new_service (linked false) policy).
  - by apply (moves_call false (ScPrepare detail)).
  - exact (mv_create (linked false) policy gate consent_authority x confirmation_phrase).
  - exact (mv_finalize (linked false) policy gate consent_authority challenge).
  - exact (mv_discard (linked false) consent_authority challenge).
  - exact (mv_pause_execution (linked false) x).
  - exact (mv_cancel_execution (linked false) x).
  - exact (mv_start (linked true) policy gate consent_authority x).
  - exact (mv_rollback (linked true) policy gate x).
  - exact (mv_recover (linked false) policy x).
Qed.

(** *** Dispatches were recorded *)

Definition intents_in (log : list CoEffect) : list ExecutorRequestIdentity :=
  omap snd (records_in log).
Lemma intents_in_app log log' : intents_in (log ++ log') = intents_in log ++ intents_in log'.
Proof. unfold intents_in. by rewrite records_in_app, omap_app. Qed.

Lemma unit_recorded direction operation applied log :
  unit_log direction operation applied log -> dispatched log `sublist_of` intents_in log.
Proof.
  intros [log' Hu|applied' session request event database external pre outcome post state
    Hpre Hprep Hrec Hstep Hwalk Happ].
  { rewrite dispatched_none by (by apply undispatched_not). apply sublist_nil_l. }
  rewrite !dispatched_app, !intents_in_app. cbn [dispatched omap list_omap].
  rewrite (dispatched_none pre), (dispatched_none (sync_log _ _)), (dispatched_none post).
  - change (intents_in [CeIntent event request true]) with [request]. cbn [app]. apply sublist_inserts_l, sublist_skip, sublist_nil_l.
  - eapply Forall_impl; [exact (proj1 Hwalk)|]. intros [] H1 H2; done.
  - apply quiet_not, sync_log_quiet.
  - by apply undispatched_not.
Qed.

Lemma coordinated_recorded direction operations log :
  coordinated direction operations log -> dispatched log `sublist_of` intents_in log.
Proof.
  intros (may & applied & pre & completed & units & post & -> & Hpre & Hpost & Hs).
  rewrite !dispatched_app, !intents_in_app, (dispatched_none pre), (dispatched_none post), app_nil_r
    by done.
  apply sublist_inserts_l, sublist_inserts_r. cbn [app]. clear Hpre Hpost.
  induction Hs as [|? ? log Hu|? ? ? log ? Hu|? ? ? ? log log' ? Hu _ IH].
  - done.
  - rewrite dispatched_none by (by apply undispatched_not). apply sublist_nil_l.
  - by eapply unit_recorded.
  - rewrite dispatched_app, intents_in_app. apply sublist_app; [by eapply unit_recorded|done].
Qed.

(** A start and a rollback follow the protocol. *)
Lemma run_coordinated run (w : Stored W) :
  dispatches_run run = true ->
  exists direction operations, coordinated direction operations (snd (run_once run (w, []))).
Proof.
  destruct run; try done; intros _; cbn [run_once].
  - assert (wp (start_execution (W := T) policy gate consent_authority x) [] (fun _ log => start_log log))
      as H.
    { unfold start_execution. apply wp_bind. eapply wp_weaken.
      { apply (adds_now_ms (W := Stored W) (fun _ => False)). }
      intros [now|e] log' (extra & -> & He); (destruct extra; [|by inversion He]).
      - apply wp_start.
      - apply start_refused. constructor. }
    destruct (start_coordinated _ (H w)) as (operations & Hc & _). by exists DirForward, operations.
  - destruct (rollback_coordinated _ _ (rollback_word (W := Stored W) policy gate x w))
      as (operations & Hc & _). by exists DirRollback, operations.
Qed.

Lemma run_dispatches_nothing run (w : Stored W) :
  dispatches_run run = false -> dispatched (snd (run_once run (w, []))) = [].
Proof.
  intros Hrun. destruct (run_moves run (w, [])) as (calls & done_ & extra & _ & Hlog & _ & Hnone).
  rewrite Hlog. cbn [snd app]. by apply Hnone.
Qed.

Lemma run_recorded run (w : Stored W) :
  let log := snd (run_once run (w, [])) in dispatched log `sublist_of` intents_in log.
Proof.
  destruct (dispatches_run run) eqn:Hrun; cbv zeta.
  - destruct (run_coordinated run w Hrun) as (direction & operations & Hc). by eapply coordinated_recorded.
  - rewrite run_dispatches_nothing by done. apply sublist_nil_l.
Qed.

(** The event that records a dispatched request, in the same log. *)
Definition dispatch_recorded (log : list CoEffect) (request : ExecutorRequestIdentity)
    (binding : CommittedJournalEventBinding) : Prop :=
  exists direction session event, (event, Some request) ∈ records_in log
  /\ records direction session request event /\ binding = committed_binding event.

Lemma dispatch_recorded_app log log' request binding :
  dispatch_recorded log request binding \/ dispatch_recorded log' request binding ->
  dispatch_recorded (log ++ log') request binding.
Proof.
  intros [(d & s & e & Hin & H)|(d & s & e & Hin & H)]; exists d, s, e; (split; [|done]);
    rewrite records_in_app; apply elem_of_app; first [by left | by right].
Qed.

Lemma run_dispatch_recorded run (w : Stored W) request binding outcome :
  CeDispatch request binding outcome ∈ snd (run_once run (w, [])) ->
  dispatch_recorded (snd (run_once run (w, []))) request binding.
Proof.
  intros Hin. destruct (dispatches_run run) eqn:Hrun.
  - destruct (run_coordinated run w Hrun) as (direction & operations & Hc).
    pose proof Hin as (before & after & Hlog)%list_elem_of_split.
    destruct (coordinated_written _ _ _ _ _ _ _ _ Hc Hlog)
      as (earlier & session & event & database & external & Hb & Hr & _ & ->).
    exists direction, session, event. split; [|done]. rewrite Hlog, Hb, !records_in_app.
    cbn. set_solver.
  - assert (request ∈ dispatched (snd (run_once run (w, [])))) as Hd.
    { apply list_elem_of_omap. by eexists. }
    rewrite run_dispatches_nothing in Hd by done. by apply elem_of_nil in Hd.
Qed.

Lemma runs_recorded runs w log w' :
  service_runs runs w = (log, w') ->
  dispatched log `sublist_of` intents_in log
  /\ forall request binding outcome, CeDispatch request binding outcome ∈ log ->
       dispatch_recorded log request binding.
Proof.
  revert w log. induction runs as [|run runs IH]; intros w log; cbn [service_runs].
  { intros [= <- <-]. split; [done|]. by intros ? ? ? ?%elem_of_nil. }
  pose proof (run_recorded run w) as H1. pose proof (run_dispatch_recorded run w) as H2.
  destruct (run_once run (w, [])) as [w1 log1]. cbn [snd] in H1, H2.
  destruct (service_runs runs w1) as [log2 w2] eqn:Hrest. intros [= <- <-].
  destruct (IH _ _ Hrest) as [H3 H4]. split.
  - rewrite dispatched_app, intents_in_app. by apply sublist_app.
  - intros request binding outcome [Hin|Hin]%elem_of_app; apply dispatch_recorded_app; eauto.
Qed.

Lemma runs_linked runs w log w' :
  service_runs runs w = (log, w') ->
  exists calls done, perform_all calls (st_db w) = (done, st_db w') /\ records_in log = records_stored done.
Proof.
  revert w log. induction runs as [|run runs IH]; intros w log; cbn [service_runs].
  { intros [= <- <-]. by exists [], []. }
  destruct (run_moves run (w, [])) as (calls & done_ & extra & Hcalls & Hlog & Hin & _).
  destruct (run_once run (w, [])) as [w1 log1]. cbn in Hcalls, Hlog. subst log1.
  destruct (service_runs runs w1) as [log2 w2] eqn:Hrest. intros [= <- <-].
  destruct (IH _ _ Hrest) as (calls' & done' & Hcalls' & Hin').
  exists (calls ++ calls'), (done_ ++ done'). split.
  - by rewrite perform_all_app, Hcalls, Hcalls'.
  - by rewrite records_in_app, records_stored_app, Hin, Hin'.
Qed.

(** The request of a recorded intent is of the execution of its event. *)
Lemma perform_all_intents calls db done_ db' :
  perform_all calls db = (done_, db') ->
  forall event request, (event, Some request) ∈ records_stored done_ ->
    eri_execution_id request = ev_execution_id event.
Proof.
  revert db done_. induction calls as [|call calls IH]; intros db done_; cbn.
  { intros [= <- <-] event request ?%elem_of_nil. done. }
  destruct (perform call db) as [r db1] eqn:Hcall.
  destruct (perform_all calls db1) as [done1 db2] eqn:Hrest. intros [= <- <-] event request Hin.
  specialize (IH _ _ Hrest event request). destruct r as [[]|e]; cbn [is_ok] in Hin; [|by apply IH].
  change (call :: done1) with ([call] ++ done1) in Hin.
  rewrite records_stored_app in Hin. apply elem_of_app in Hin as [Hin|Hin]; [|by apply IH].
  destruct call; cbn in Hin; try by apply elem_of_nil in Hin.
  apply list_elem_of_singleton in Hin. injection Hin as -> <-. cbn [perform] in Hcall.
  apply event_asks in Hcall as [_ Ha]. by destruct (Ha request eq_refl).
Qed.

(** C1: At most once, across runs: whatever is asked of the service, in any order,
    with restarts and recoveries in between, and whatever the file system, the
    external journal and the executor answer, the mutation of a step is
    dispatched forward at most once; and every request that was dispatched,
    in either direction, is still in the database at the end. *)
Theorem forward_dispatched_once runs w log w' :
  db_requests (st_db w) = [] -> service_runs runs w = (log, w') ->
  NoDup (omap forward_slot (dispatched log))
  /\ forall request, request ∈ dispatched log -> request ∈ asked_requests (st_db w').
Proof.
  intros Hnone Hrun. destruct (runs_recorded _ _ _ _ Hrun) as [Hsub _].
  destruct (runs_linked _ _ _ _ Hrun) as (calls & done_ & Hcalls & Hrecords).
  destruct (perform_all_asks _ _ _ _ Hcalls) as [Hnd Hasked].
  { unfold asked_requests. rewrite Hnone. constructor. }
  unfold intents_in in Hsub. rewrite Hrecords, <- intents_of_records in Hsub.
  assert (asked_requests (st_db w') = intents_stored done_) as Hall.
  { rewrite Hasked. unfold asked_requests. by rewrite Hnone. }
  rewrite Hall in *. split.
  - eapply sublist_NoDup; [exact Hnd|]. by apply sublist_omap.
  - intros request Hin. by eapply elem_of_sublist.
Qed.

(** C2: The journal after any runs: what the database gives back for an execution
    are exactly the events the logs of the runs say were stored, they validate,
    and each mutation that was ever dispatched for it is bound to one of them,
    which names the request and the session it went through. *)
Theorem service_journal_is_complete runs w log w' x :
  db_sessions (st_db w) = [] -> db_journal (st_db w) = [] ->
  service_runs runs w = (log, w') ->
  engine_error (st_db w') = None -> x ∈ ssr_id <$> db_sessions (st_db w') ->
  EventStore.execution_journal_events x (st_db w') = (Ok (events_recorded x (records_in log)), st_db w')
  /\ EventStore.validate_execution_journal x (st_db w') = (Ok true, st_db w')
  /\ forall request binding outcome,
       CeDispatch request binding outcome ∈ log -> eri_execution_id request = x ->
       exists direction session event, event ∈ events_recorded x (records_in log)
         /\ records direction session request event /\ binding = committed_binding event.
Proof.
  intros Hs Hj Hrun Hengine Hx. destruct (runs_recorded _ _ _ _ Hrun) as [_ Hdispatch].
  destruct (runs_linked _ _ _ _ Hrun) as (calls & done_ & Hcalls & Hrecords).
  assert (journaled (st_db w)) as HJ.
  { unfold journaled, journal_view. rewrite Hs, Hj. repeat split; constructor. }
  destruct (perform_all_keeps_journaled _ _ _ _ Hcalls HJ) as [HJ' He].
  destruct (journal_read x _ HJ' Hengine Hx) as [Hread _]. split_and!.
  - rewrite Hread, He, Hrecords, <- events_recorded_stored. unfold stored_events. by rewrite Hj.
  - by apply journal_validates.
  - intros request binding outcome Hin Hexec.
    destruct (Hdispatch _ _ _ Hin) as (direction & session & event & Hevent & Hr & ->).
    exists direction, session, event. split; [|done]. unfold events_recorded.
    apply list_elem_of_filter. split.
    + rewrite Hrecords in Hevent. by rewrite <- (perform_all_intents _ _ _ _ Hcalls _ _ Hevent).
    + apply list_elem_of_fmap. by exists (event, Some request).
Qed.
End runs.
