(* ===== verification/StoredFacts.v ===== *)
(** * A service at work on its database

    One execution, from its preparation through the consent of the user to the
    dispatch of its mutation, with a second start, a rollback and a restart
    after it, and a recovery the database refuses; the witnesses of the theorems
    about runs of the service. *)

From S2P Require Export StoredService StoredRecovery.
From S2P Require Import StoreFacts Coordinated RecoveryFacts.
#[local] Open Scope Z_scope.

#[local] Existing Instances sample_blake3 sample_uuid desk_fs desk_reads desk_target desk_hex
  desk_serde desk_plan desk_policy desk_fingerprint desk_audit desk_class desk_service desk_host
  desk_journal store_engine store_case store_ids store_volume store_fingerprint store_texts.
#[local] Instance room_item : ToJson RecoveryItem := fun _ => JNull.
#[local] Instance room_session_json : ToJson ExecutorSessionIdentity := fun _ => JNull.
#[local] Instance room_request_json : ToJson ExecutorRequestFact := fun _ => JNull.
#[local] Instance room_roots : RootRegistry SampleDesk := {|
  registered_root _ _ := fun w => (Ok desk_root, w); newest_root _ := fun w => (Ok desk_root, w) |}.

(** One session and one request in each direction. *)
Definition room_identity (back : bool) : ExecutorSessionIdentity := {|
  esi_session_id := hex64 (if back then x76 else x70); esi_execution_id := uid x40;
  esi_plan_id := uid x42; esi_plan_digest_hex := desk_digest;
  esi_purpose := if back then EspRollback else EspForward;
  esi_coordinator_pid := 7; esi_child_pid := Some 8; esi_worker_nonce_hash_hex := hex64 x74;
  esi_coordinator_nonce_hash_hex := hex64 x75; esi_response_nonce_hash_hex := None;
  esi_opened_at_unix_ms := 3000 |}.
Definition room_request (back : bool) : ExecutorRequestIdentity := {|
  eri_request_id := hex64 (if back then x77 else x71);
  eri_session_id := esi_session_id (room_identity back); eri_execution_id := uid x40;
  eri_operation_id := uid x41; eri_direction := if back then ErdRollback else ErdForward;
  eri_request_sequence := 1; eri_request_nonce := fill 32 x72; eri_request_digest_hex := hex64 x73 |}.

(** The texts of payloads tell the requests apart. *)
Definition names_back (v : Value) : bool :=
  bool_decide (from_option (fun request => get "request_id" request ≫= as_str) None
    (get "executor_request" v) = Some (hex64 x77)).
Definition payload_of (back : bool) : Value := json_object [(lit "executor_request", json_object [
  (lit "request_id", JString (eri_request_id (room_request back)));
  (lit "session_id", JString (eri_session_id (room_request back)));
  (lit "request_sequence", JNumber (eri_request_sequence (room_request back)));
  (lit "request_digest", JString (eri_request_digest_hex (room_request back)))])].
#[local] Instance room_json : JsonCrate := {|
  value_to_string v := Some (if names_back v then lit "[]" else lit "{}");
  value_from_slice text := Some (payload_of (bool_decide (text = utf8 (lit "[]")))) |}.

(** The executor moves the file, and moves it back. *)
#[local] Instance room_client : ExecutorClient SampleDesk := {|
  ExecutorSession := bool;
  open_executor_session _ authorization := fun w =>
    (Ok match authorization with AuthRollback _ => true | _ => false end, w);
  session_identity back _ := room_identity back;
  prepare_operation back _ _ := fun w => (Ok (room_request back), w);
  dispatch_prepared back request _ := fun w =>
    (Ok {| edr_outcome := OutSuccess 3000 (fill 32 x08)
             {| eaa_attempt_count := 1; eaa_error_class := None |};
           edr_response_digest_hex := hex64 x79 |},
     {| sd_events := sd_events w; sd_external := sd_external w;
        sd_done := if back then [] else [eri_operation_id request];
        sd_recovering := sd_recovering w |})
|}.

(** The plan of StoreFacts.v, bound to the root and the policy of the desk. *)
Definition room_session : ExecutionSession :=
  let s := store_session in {|
  ses_id := ses_id s; ses_plan_id := ses_plan_id s; ses_proposal_id := ses_proposal_id s;
  ses_proposal_revision_id := ses_proposal_revision_id s;
  ses_proposal_revision := ses_proposal_revision s; ses_workspace_id := ses_workspace_id s;
  ses_root_id := ses_root_id s; ses_source_scan_id := ses_source_scan_id s;
  ses_status := OesAwaitingConfirmation; ses_recovery_state := ErsRecoveryNotRequired;
  ses_plan_digest_hex := desk_digest;
  ses_approval := {|
    aep_material_version := 2; aep_execution_id := uid x40; aep_plan_id := uid x42;
    aep_proposal_id := uid x03; aep_proposal_revision_id := uid x43; aep_proposal_revision := 1;
    aep_source_snapshot_version := uid x04; aep_approved_operation_ids := [uid x31];
    aep_operation_count := 1;
    aep_destination_root := root_binding_of (bstr "/data") sample_volume;
    aep_safety_policy := desk_binding; aep_approval_timestamp := None;
    aep_user_confirmed := false; aep_digest_hex := desk_digest |};
  ses_consent := ExecutionConsent_pending; ses_summary := ses_summary s;
  ses_current_operation := None; ses_rollback_available := false;
  ses_confirmation_phrase_required := false; ses_created_at := ses_created_at s;
  ses_approved_at := None; ses_started_at := None; ses_completed_at := None;
  ses_rolled_back_at := None; ses_error := None |}.

Definition room_detail : ExecutionDetail := {|
  ed_session := room_session;
  ed_operations := [replanned (Some (lit "a.txt")) (Some sample_fingerprint) [] 0 None
    (sample_stored_operation [])] |}.

Definition room : Stored SampleDesk := {| st_db := store_catalog; st_world := desk |}.

(** The challenge the user confirms. *)
Definition room_challenge : option ExecutionConsentChallenge :=
  let before := snd (service_runs sample_policy desk_gate desk_authority
    [SrNew; SrPrepared room_detail] room) in
  match fst (create_execution_consent_challenge sample_policy desk_gate desk_authority (uid x40) None
    (before, [] : list CoEffect)) with
  | Ok challenge => Some challenge
  | Err _ => None
  end.

(** From the preparation to the rollback; the second and the third start, and
    the second rollback, are refused. *)
Definition room_asked : list ServiceRun :=
  [SrNew; SrPrepared room_detail; SrChallenge (uid x40) None]
  ++ option_list (SrFinalize <$> room_challenge)
  ++ [SrStart (uid x40); SrStart (uid x40); SrNew; SrRollback (uid x40); SrRollback (uid x40);
      SrStart (uid x40)].

Definition room_run : list CoEffect * Stored SampleDesk :=
  service_runs sample_policy desk_gate desk_authority room_asked room.

Lemma room_run_pair :
  service_runs sample_policy desk_gate desk_authority room_asked room = (fst room_run, snd room_run).
Proof. apply surjective_pairing. Qed.

Lemma room_dispatches : dispatched (fst room_run) = [room_request false; room_request true].
Proof. vm_compute. reflexivity. Qed.

Lemma forward_dispatched_once_witness :
  NoDup (omap forward_slot (dispatched (fst room_run)))
  /\ omap forward_slot (dispatched (fst room_run)) = [(uid x40, uid x41)]
  /\ (room_request true ∈ asked_requests (st_db (snd room_run))).
Proof.
  destruct (forward_dispatched_once sample_policy desk_gate desk_authority room_asked room _ _ eq_refl
    room_run_pair) as [H1 H2].
  split; [exact H1|]. rewrite room_dispatches in *. split; [reflexivity|].
  apply H2. right. left.
Defined.

Lemma service_journal_is_complete_witness :
  EventStore.validate_execution_journal (uid x40) (st_db (snd room_run)) = (Ok true, st_db (snd room_run))
  /\ (ev_kind <$> events_recorded (uid x40) (records_in (fst room_run)))
     = [ApprovedDurable; PreconditionsValidated; IntentDurableEvent; AppliedObserved; ExecutionFinished;
        PreconditionsValidated; RollbackIntent; RolledBackObserved; ExecutionFinished].
Proof.
  assert (uid x40 ∈ ssr_id <$> db_sessions (st_db (snd room_run))) as Hx
    by (apply (bool_decide_unpack _); vm_compute; exact I).
  destruct (service_journal_is_complete sample_policy desk_gate desk_authority room_asked room _ _ (uid x40)
    eq_refl eq_refl room_run_pair eq_refl Hx) as (_ & H & _).
  split; [exact H|]. vm_compute. reflexivity.
Defined.

(** ** An acknowledged move that is not on disk *)

Section stuck.
#[local] Existing Instances desk_one_value desk_client.

Definition stuck_row : RequestRow :=
  with_request_state AcknowledgedSuccess None (new_request (desk_request move_step) desk_intent []).
Definition stuck : Stored SampleDesk :=
  {| st_db := with_requests [stuck_row] store_catalog; st_world := desk |}.

Lemma acknowledged_but_absent_fails_witness : exists e w',
  reconcile_one_interrupted_request sample_policy (uid x40) (bstr "/data")
    (desk_fact AcknowledgedSuccess) desk_move [desk_identity] [desk_intent]
    {| jc_sequence := 1; jc_previous := Some (ev_event_digest desk_intent) |} stuck = (Err e, w')
  /\ st_db w' = st_db stuck.
Proof.
  destruct (acknowledged_but_absent_fails sample_policy (uid x40) (bstr "/data")
    (desk_fact AcknowledgedSuccess) desk_move [desk_identity] [desk_intent]
    {| jc_sequence := 1; jc_previous := Some (ev_event_digest desk_intent) |} stuck stuck_row)
    as (e & w' & Hrun & Hdb & _).
  - vm_compute. reflexivity.
  - reflexivity.
  - reflexivity.
  - vm_compute. reflexivity.
  - vm_compute. reflexivity.
  - exists e, w'. split; [exact Hrun|exact Hdb].
Defined.
End stuck.
