(* ===== verification/Framing.v ===== *)
(** * Framing of the executor protocol

    crates/ipc-contracts/src/executor_v2/framing.rs: length-prefixed frames
    over a byte stream.  A reader is what the operating system will deliver:
    chunks of any size, faults (interruptions among them), and then the end of
    the stream. *)

From S2P Require Export ExecManifest.
From S2P Require Import Samples.
#[local] Open Scope Z_scope.

(** ** [std::io::Read] *)

Inductive read_event :=
  | Chunk (b : byte) (l : bytes)
  | Fault (error : io_error).
Notation Reader := (list read_event).

(** What a short read left of a chunk stays in front of the stream. *)
Definition put_back (rest : bytes) (r : Reader) : Reader :=
  match rest with [] => r | b :: l => Chunk b l :: r end.

(** [Read::read] into a buffer of [n] bytes; an empty result is the end. *)
Definition read (n : nat) : SE Reader io_error bytes := fun r =>
  match r with
  | [] => (Ok [], [])
  | Chunk b l :: r => (Ok (take n (b :: l)), put_back (drop n (b :: l)) r)
  | Fault e :: r => (Err e, r)
  end.

Definition is_interrupted (e : io_error) : bool := bool_decide (io_kind e = Interrupted).

Definition unexpected_eof : io_error :=
  IoError UnexpectedEof (lit "failed to fill whole buffer").

(** [Read::read_exact], of the standard library: [read] again until the buffer
    is full, retrying when interrupted. *)
Fixpoint read_exact (n : nat) (r : Reader) : res io_error bytes * Reader :=
  if decide (n = 0%nat) then (Ok [], r)
  else match r with
  | [] => (Err unexpected_eof, [])
  | Chunk b l :: r' =>
      if (n <=? length (b :: l))%nat then (Ok (take n (b :: l)), put_back (drop n (b :: l)) r')
      else let '(x, r'') := read_exact (n - length (b :: l)) r' in
        (app (b :: l) <$> x, r'')
  | Fault e :: r' => if is_interrupted e then read_exact n r' else (Err e, r')
  end.

(** The loop over the first byte of a header: [None] is a clean end. *)
Fixpoint read_first (r : Reader) : res io_error (option byte) * Reader :=
  match r with
  | [] => (Ok None, [])
  | Chunk b l :: r => (Ok (Some b), put_back l r)
  | Fault e :: r => if is_interrupted e then read_first r else (Err e, r)
  end.

(** ** [std::io::Write] *)
Class Writer (W : Type) : Type := {
  write_all : bytes -> SE W io_error unit;
  write_flush : SE W io_error unit
}.

(** ** Frames *)

Inductive FrameError := FeOversized | FeTruncated | FeDecode | FeEncode | FeIo (error : io_error).

Definition write_frame {W} `{Writer W} {T} `{ToVec T} (value : T) : SE W FrameError unit :=
  payload ← se_lift (map_err (fun _ => FeEncode) (to_vec value));
  se_lift (reject_if (bool_decide (payload = []) || (MAX_FRAME_BYTES <? zlen payload)) FeOversized);;
  length ← se_lift (ok_or (u32_try_from (zlen payload)) FeOversized);
  se_map_err FeIo (write_all (be_bytes 4 length));;
  se_map_err FeIo (write_all payload);;
  se_map_err FeIo write_flush;;
  mret tt.

(** The [map_err] after each [read_exact]. *)
Definition truncated_or_io (e : io_error) : FrameError :=
  if decide (io_kind e = UnexpectedEof) then FeTruncated else FeIo e.

Definition bad_length (length : Z) : bool := (length =? 0) || (MAX_FRAME_BYTES <? length).

Definition read_frame {T} `{FromSlice T} : SE Reader FrameError (option T) :=
  first ← se_map_err FeIo read_first;
  match first with
  | None => mret None
  | Some b =>
      rest ← se_map_err truncated_or_io (read_exact 3);
      let length := from_be_bytes (b :: rest) in
      se_lift (reject_if (bad_length length) FeOversized);;
      payload ← se_map_err truncated_or_io (read_exact (Z.to_nat length));
      value ← se_lift (map_err (fun _ => FeDecode) (from_slice payload));
      mret (Some value)
  end.

(** ** Specification *)

(** The bytes a reader has to deliver, and whether it delivers them all. *)
Definition content (r : Reader) : bytes :=
  concat ((fun ev => match ev with Chunk b l => b :: l | Fault _ => [] end) <$> r).

Definition quiet (r : Reader) : Prop :=
  Forall (fun ev => match ev with Chunk _ _ => True | Fault e => io_kind e = Interrupted end) r.

Definition frame_size_ok (n : Z) : bool := bool_decide (1 <= n <= MAX_FRAME_BYTES).

(** Reading a frame from a byte string: the value and the bytes after it. *)
Definition parse_frame {T} `{FromSlice T} (l : bytes) : res FrameError (option (T * bytes)) :=
  match l with
  | [] => Ok None
  | _ =>
      reject_if (length l <? 4)%nat FeTruncated;;
      let n := from_be_bytes (take 4 l) in
      reject_if (negb (frame_size_ok n)) FeOversized;;
      reject_if (length (drop 4 l) <? Z.to_nat n)%nat FeTruncated;;
      value ← map_err (fun _ => FeDecode) (from_slice (take (Z.to_nat n) (drop 4 l)));
      Ok (Some (value, drop (Z.to_nat n) (drop 4 l)))
  end.

Lemma bad_length_spec l : bad_length (from_be_bytes l) = negb (frame_size_ok (from_be_bytes l)).
Proof.
  pose proof (from_be_bytes_range l) as H. unfold bad_length, frame_size_ok.
  case_bool_decide; bools; lia.
Qed.

(** ** The primitives on quiet readers *)

Lemma content_put_back l r : content (put_back l r) = l ++ content r.
Proof. by destruct l. Qed.

Lemma quiet_put_back l r : quiet r -> quiet (put_back l r).
Proof. destruct l; [done|]. by constructor. Qed.

(** The loops are those of the source, on [read]. *)
Lemma read_first_loop r :
  read_first r = match read 1 r with
    | (Ok [], r') => (Ok None, r')
    | (Ok (b :: _), r') => (Ok (Some b), r')
    | (Err e, r') => if is_interrupted e then read_first r' else (Err e, r')
    end.
Proof. by destruct r as [|[b l|e] r]. Qed.

Lemma read_exact_loop n r :
  n <> 0%nat ->
  read_exact n r = match read n r with
    | (Ok [], r') => (Err unexpected_eof, r')
    | (Ok l, r') => let '(x, r'') := read_exact (n - length l) r' in (app l <$> x, r'')
    | (Err e, r') => if is_interrupted e then read_exact n r' else (Err e, r')
    end.
Proof.
  intros Hn. destruct r as [|[b l|e] r]; cbn [read]; try by destruct n.
  destruct n as [|n]; [done|]. cbn [read_exact take]. rewrite decide_False by done.
  destruct (Nat.leb_spec (S n) (length (b :: l))) as [Hle|Hgt]; cbn [length] in *.
  - change (length (b :: take n l)) with (S (length (take n l))).
    rewrite firstn_length_le by lia. rewrite Nat.sub_diag.
    assert (forall r0, read_exact 0 r0 = (Ok [], r0)) as -> by by intros [].
    cbn [fmap res_fmap]. by rewrite app_nil_r.
  - rewrite firstn_all2 by lia. rewrite drop_ge by (cbn; lia). done.
Qed.

Lemma read_first_quiet r :
  quiet r ->
  exists r', quiet r' /\
  match content r with
  | [] => read_first r = (Ok None, r') /\ content r' = []
  | b :: l => read_first r = (Ok (Some b), r') /\ content r' = l
  end.
Proof.
  induction 1 as [|[b l|e] r He Hr IH]; [exists []; split; [constructor|done]| |].
  - exists (put_back l r). split; [by apply quiet_put_back|]. cbn. by rewrite content_put_back.
  - destruct IH as (r' & Hq & H). exists r'. split; [done|]. cbn [read_first content].
    unfold is_interrupted. by rewrite bool_decide_true.
Qed.

Lemma read_exact_quiet n r :
  quiet r ->
  exists r', quiet r' /\
  if (n <=? length (content r))%nat
  then read_exact n r = (Ok (take n (content r)), r') /\ content r' = drop n (content r)
  else read_exact n r = (Err unexpected_eof, r').
Proof.
  intros Hr. revert n. induction Hr as [|[b l|e] r He Hr IH]; intros n.
  - exists []. split; [constructor|]. destruct n; by repeat split.
  - destruct n as [|n]; [exists (Chunk b l :: r); split; [by constructor|done]|].
    cbn [read_exact]. rewrite decide_False by done.
    change (content (Chunk b l :: r)) with ((b :: l) ++ content r). rewrite length_app.
    destruct (Nat.leb_spec (S n) (length (b :: l))) as [Hle|Hgt].
    + exists (put_back (drop (S n) (b :: l)) r). split; [by apply quiet_put_back|].
      rewrite (proj2 (Nat.leb_le _ _)) by lia. rewrite content_put_back.
      rewrite take_app_le, drop_app_le by done. done.
    + destruct (IH (S n - length (b :: l))%nat) as (r' & Hq & H). exists r'. split; [done|].
      destruct (Nat.leb_spec (S n - length (b :: l)) (length (content r))) as [Hc|Hc].
      * rewrite (proj2 (Nat.leb_le _ _)) by lia. destruct H as [-> ->]. cbn [fmap res_fmap].
        rewrite take_app_ge, drop_app_ge by lia. done.
      * rewrite (proj2 (Nat.leb_gt _ _)) by lia. by rewrite H.
  - destruct (IH n) as (r' & Hq & H). destruct n as [|n].
    { exists (Fault e :: r). split; [by constructor|done]. }
    exists r'. split; [done|]. cbn [read_exact]. rewrite decide_False by done.
    unfold is_interrupted. by rewrite bool_decide_true.
Qed.

(** ** Frames *)

Lemma read_frame_parses_aux {T} `{FS : FromSlice T} r :
  quiet r ->
  exists r', quiet r' /\
  match parse_frame (T := T) (content r) with
  | Ok None => read_frame (T := T) r = (Ok None, r')
  | Ok (Some (value, rest)) => read_frame r = (Ok (Some value), r') /\ content r' = rest
  | Err e => read_frame (T := T) r = (Err e, r')
  end.
Proof.
  intros Hr. destruct (read_first_quiet r Hr) as (r1 & Hq1 & H1). unfold parse_frame.
  destruct (content r) as [|b l]; destruct H1 as [H1 Hc1].
  { exists r1. split; [done|]. unfold read_frame. cbv [mbind se_bind se_map_err]. by rewrite H1. }
  destruct (read_exact_quiet 3 r1 Hq1) as (r2 & Hq2 & H2). rewrite Hc1 in H2.
  change (drop 4 (b :: l)) with (drop 3 l). change (take 4 (b :: l)) with (b :: take 3 l).
  change (length (b :: l) <? 4)%nat with (length l <? 3)%nat. unfold reject_if at 1.
  destruct (Nat.leb_spec 3 (length l)) as [Hle|Hgt].
  2: { exists r2. split; [done|]. rewrite (proj2 (Nat.ltb_lt (length l) 3)) by lia. unfold read_frame.
       cbv [mbind se_bind se_map_err]. rewrite H1. cbn [map_err]. by rewrite H2. }
  rewrite (proj2 (Nat.ltb_ge (length l) 3)) by lia. cbn [mbind res_bind].
  rewrite <- bad_length_spec.
  destruct H2 as [H2 Hc2]. destruct (bad_length (from_be_bytes (b :: take 3 l))) eqn:Hbad.
  { exists r2. split; [done|]. cbn [reject_if]. unfold read_frame.
    cbv [mbind se_bind se_map_err]. rewrite H1. cbn [map_err]. rewrite H2. cbn [map_err].
    by rewrite Hbad. }
  set (n := Z.to_nat (from_be_bytes (b :: take 3 l))).
  destruct (read_exact_quiet n r2 Hq2) as (r3 & Hq3 & H3). rewrite Hc2 in H3.
  cbn [reject_if mbind res_bind]. exists r3. split; [done|]. unfold reject_if.
  destruct (Nat.leb_spec n (length (drop 3 l))) as [Hn|Hn].
  - rewrite (proj2 (Nat.ltb_ge _ _)) by lia. cbn [mbind res_bind]. destruct H3 as [H3 Hc3].
    unfold read_frame. cbv [mbind se_bind se_map_err se_lift res_bind].
    rewrite H1. cbn [map_err]. rewrite H2. cbn [map_err]. rewrite Hbad. cbn [reject_if].
    fold n. rewrite H3. cbn [map_err]. by destruct (from_slice (take n (drop 3 l))).
  - rewrite (proj2 (Nat.ltb_lt _ _)) by lia.
    unfold read_frame. cbv [mbind se_bind se_map_err se_lift res_bind].
    rewrite H1. cbn [map_err]. rewrite H2. cbn [map_err]. rewrite Hbad. cbn [reject_if].
    fold n. by rewrite H3.
Qed.

(** C27: Reading a frame does not depend on how the operating system cuts the
    stream or how often it interrupts: it is the parse of the bytes delivered,
    and on success leaves exactly the bytes after the frame.  A stream that
    ends inside a frame is truncated, a length of zero or beyond the limit is
    refused before anything more is read. *)
Theorem read_frame_parses {T} `{FS : FromSlice T} r :
  quiet r ->
  exists r', quiet r' /\
  match parse_frame (T := T) (content r) with
  | Ok None => read_frame (T := T) r = (Ok None, r')
  | Ok (Some (value, rest)) => read_frame r = (Ok (Some value), r') /\ content r' = rest
  | Err e => read_frame (T := T) r = (Err e, r')
  end.
Proof. apply read_frame_parses_aux. Qed.

(** A [Vec<u8>] as the writer. *)
#[export] Instance vec_writer : Writer bytes := {|
  write_all l := fun out => (Ok tt, out ++ l);
  write_flush := fun out => (Ok tt, out)
|}.

Lemma write_frame_vec {T} `{TV : ToVec T} (value : T) (out out' : bytes) :
  write_frame value out = (Ok tt, out') ->
  exists payload, to_vec value = Ok payload /\ payload <> [] /\ zlen payload <= MAX_FRAME_BYTES
    /\ out' = out ++ be_bytes 4 (zlen payload) ++ payload.
Proof.
  unfold write_frame. cbv [mbind se_bind se_map_err se_lift mret se_ret].
  destruct (to_vec value) as [payload|e] eqn:Hp; cbn [map_err]; [|done].
  destruct (_ || _) eqn:Hb; cbn [reject_if]; [done|]. bools.
  destruct (u32_try_from (zlen payload)) as [n|] eqn:Hu; cbn [ok_or]; [|done].
  unfold u32_try_from in Hu. destruct (_ && _); [|done]. injection Hu as <-.
  cbn [write_all write_flush vec_writer map_err]. intros [= <-].
  exists payload. by rewrite <- (assoc_L (++)).
Qed.

Lemma parse_frame_app {T} `{FS : FromSlice T} header body :
  length header = 4%nat ->
  parse_frame (T := T) (header ++ body) =
    (let n := from_be_bytes header in
     reject_if (negb (frame_size_ok n)) FeOversized;;
     reject_if (length body <? Z.to_nat n)%nat FeTruncated;;
     value ← map_err (fun _ => FeDecode) (from_slice (take (Z.to_nat n) body));
     Ok (Some (value, drop (Z.to_nat n) body))).
Proof. by destruct header as [|b0 [|b1 [|b2 [|b3 [|]]]]]. Qed.

(** What one side writes the other reads: a frame that was written, however
    it is delivered and whatever follows it, is read back as the value that was
    written, and the bytes that follow are left for the next frame. *)
Theorem frame_roundtrip {T} `{TV : ToVec T} `{FS : FromSlice T} `{RT : !SerdeRoundtrip T}
    (value : T) (out out' : bytes) :
  write_frame value out = (Ok tt, out') ->
  exists frame, out' = out ++ frame /\
    forall r rest, quiet r -> content r = frame ++ rest ->
      exists r', quiet r' /\ read_frame r = (Ok (Some value), r') /\ content r' = rest.
Proof.
  intros (payload & Hp & Hne & Hmax & ->)%write_frame_vec.
  exists (be_bytes 4 (zlen payload) ++ payload). split; [done|]. intros r rest Hr Hc.
  destruct (read_frame_parses_aux (T := T) r Hr) as (r' & Hq & H). exists r'. split; [done|].
  pose proof (be_bytes_length 4 (zlen payload)) as Hlen.
  assert (0 < zlen payload) as Hpos by (unfold zlen; destruct payload; cbn; [done|lia]).
  assert (from_be_bytes (be_bytes 4 (zlen payload)) = zlen payload) as Hfrom.
  { apply from_be_bytes_of. unfold MAX_FRAME_BYTES in Hmax. lia. }
  enough (parse_frame (T := T) (content r) = Ok (Some (value, rest))) as Hparse
    by (by rewrite Hparse in H).
  rewrite Hc, <- (assoc_L (++)), parse_frame_app, Hfrom by done.
  cbv zeta. rewrite (reject_if_false (negb _));
    [|unfold frame_size_ok; rewrite bool_decide_true by lia; done].
  cbn [mbind res_bind]. unfold zlen. rewrite Nat2Z.id.
  rewrite reject_if_false by (apply Nat.ltb_ge; rewrite length_app; lia).
  cbn [mbind res_bind]. rewrite take_app_length, drop_app_length.
  by rewrite (from_slice_to_vec _ _ Hp).
Qed.

(** ** Progress *)

(** What reading a frame decreases. *)
Definition input_size (r : Reader) : nat := length r + length (content r).

Lemma input_size_cons ev r :
  input_size (ev :: r) = match ev with
    | Chunk b l => (2 + length l + input_size r)%nat | Fault _ => S (input_size r) end.
Proof.
  unfold input_size. destruct ev; cbn; [rewrite length_app|]; unfold content; lia.
Qed.

Lemma input_size_put_back l r : (input_size (put_back l r) <= 1 + length l + input_size r)%nat.
Proof. destruct l; cbn [put_back]; [lia|]. rewrite input_size_cons. cbn. lia. Qed.

Lemma read_first_shrinks r :
  match read_first r with
  | (Ok (Some _), r') => (input_size r' < input_size r)%nat
  | (_, r') => (input_size r' <= input_size r)%nat
  end.
Proof.
  induction r as [|[b l|e] r IH]; cbn [read_first]; rewrite ?input_size_cons; [done| |].
  - pose proof (input_size_put_back l r). lia.
  - destruct (is_interrupted e); [|lia]. destruct (read_first r) as [[[]|] ?]; lia.
Qed.

Lemma read_exact_shrinks n r : (input_size (snd (read_exact n r)) <= input_size r)%nat.
Proof.
  revert n. induction r as [|[b l|e] r IH]; intros n; cbn [read_exact];
    case_decide; try done; rewrite ?input_size_cons.
  - destruct (_ <=? _)%nat; cbn [snd].
    + pose proof (input_size_put_back (drop n (b :: l)) r). rewrite length_drop in *.
      cbn [length] in *. lia.
    + specialize (IH (n - length (b :: l))%nat). destruct (read_exact _ r). cbn in *. lia.
  - destruct (is_interrupted e); cbn [snd]; [|lia]. specialize (IH n). lia.
Qed.

(** A frame that was read consumed input. *)
Lemma read_frame_shrinks {T} `{FromSlice T} r (value : T) r' :
  read_frame r = (Ok (Some value), r') -> (input_size r' < input_size r)%nat.
Proof.
  unfold read_frame. cbv [mbind se_bind se_map_err se_lift mret se_ret].
  pose proof (read_first_shrinks r) as H1. destruct (read_first r) as [[[b|]|] r1]; try done.
  cbn [map_err]. pose proof (read_exact_shrinks 3 r1) as H2.
  destruct (read_exact 3 r1) as [[rest|] r2]; cbn [map_err snd] in *; [|done].
  destruct (reject_if _ _); [|done].
  pose proof (read_exact_shrinks (Z.to_nat (from_be_bytes (b :: rest))) r2) as H3.
  destruct (read_exact _ r2) as [[payload|] r3]; cbn [map_err snd] in *; [|done].
  destruct (from_slice payload); cbn [map_err]; [|done]. intros [= _ <-]. lia.
Qed.

(** ** Witnesses *)

#[local] Instance raw_to_vec : ToVec bytes := fun l => Ok l.
#[local] Instance raw_from_slice : FromSlice bytes := fun l => Ok l.
#[local] Instance raw_roundtrip : SerdeRoundtrip bytes.
Proof. by intros a l [= <-]. Qed.

(** A frame of two bytes in three pieces, with an interruption, then more. *)
Definition sample_reader : Reader :=
  [Chunk x00 [x00; x00]; Fault (IoError Interrupted []); Chunk x02 [x61]; Chunk x62 [x00]].

Lemma sample_reader_quiet : quiet sample_reader.
Proof. by repeat constructor. Qed.

Lemma read_frame_parses_witness :
  exists r', read_frame sample_reader = (Ok (Some [x61; x62]), r') /\ content r' = [x00].
Proof.
  destruct (read_frame_parses (T := bytes) sample_reader sample_reader_quiet) as (r' & _ & H).
  exists r'. exact H.
Defined.

Lemma frame_roundtrip_witness :
  exists frame, [x00; x00; x00; x02; x61; x62] = [] ++ frame /\
    exists r', read_frame sample_reader = (Ok (Some [x61; x62]), r') /\ content r' = [x00].
Proof.
  assert (write_frame [x61; x62] ([] : bytes) = (Ok tt, [x00; x00; x00; x02; x61; x62])) as Hw
    by (vm_compute; reflexivity).
  destruct (frame_roundtrip (T := bytes) [x61; x62] [] [x00; x00; x00; x02; x61; x62] Hw)
    as (frame & Hf & H).
  exists frame. split; [exact Hf|]. cbn in Hf. subst frame.
  destruct (H sample_reader [x00] sample_reader_quiet eq_refl) as (r' & _ & Hr & Hc).
  by exists r'.
Defined.
