(* ===== verification/ExecHandler.v ===== *)
(** * The executor's handler

    workers/operation-executor/src/lib.rs, from [ExecutorHandler] to
    [attempt_audit]: how one authenticated operation of an envelope is carried
    out on the file system, verified before and after, retried and classified.
    The development takes the [cfg(unix)] branches; macOS is the Unix target
    with a native platform, so [cfg!(target_os = "macos")] is a parameter. *)

From S2P Require Export ExecEnvelope HostFs Apply.
From S2P Require Import Samples.
#[local] Open Scope Z_scope.

(** ** Interfaces *)

(** What the handler uses of [trait ReadOnlyPlatform] and the preflight check
    of [trait SafeFileOperations].  The fingerprint always includes the content
    digest; the cancellation callback it is given is part of the world. *)
Class VerifyingPlatform (W : Type) : Type := {
  verifying_reads :: ReadOnlyPlatform W;
  validate_destination_absent : PathBuf -> SE W PlatformError unit
}.

(** [std::fs], the cancellation callback and the environment. *)
Class HandlerHost (W : Type) : Type := {
  handler_fs :: StdFs W;
  is_cancelled : W -> bool * W;
  qualification_crash_env : option str
}.

(** ** Outcomes *)

Inductive HandlerOutcome :=
  | HoSuccess (observed_state_digest : FixedBytes32) (audit : ExecutorAttemptAudit)
  | HoProvenNotApplied (code detail : str) (audit : ExecutorAttemptAudit)
  | HoRecoveryRequired (code detail : str) (audit : ExecutorAttemptAudit).

Definition attempt_audit (attempt_count : Z) (error_class : option ExecutorErrorClass) :
    ExecutorAttemptAudit :=
  {| eaa_attempt_count := attempt_count; eaa_error_class := error_class |}.

Definition proven_not_applied (code detail : str) : HandlerOutcome :=
  HoProvenNotApplied code detail (attempt_audit 1 None).

Definition recovery_required (code detail : str) : HandlerOutcome :=
  HoRecoveryRequired code detail (attempt_audit 1 None).

Definition executor_error_class (class : PlatformErrorClass) : ExecutorErrorClass :=
  match class with
  | PecSharingViolation => EecSharingViolation
  | PecLockViolation => EecLockViolation
  | PecPermissionDenied => EecPermissionDenied
  | PecDiskFull => EecDiskFull
  | PecDestinationCollision => EecDestinationCollision
  | PecSourceMissing => EecSourceMissing
  | PecPathPolicyRefusal => EecPathPolicyRefusal
  | PecPrecondition => EecPrecondition
  | PecVerificationLimit => EecVerificationLimit
  | PecCancelled => EecCancelled
  | PecUnsupported => EecUnsupported
  | PecAmbiguousMutationOutcome => EecAmbiguousMutationOutcome
  | PecIo | PecSecretStore => EecIo
  end.

Definition mutation_error (error : PlatformError) (attempt_count : Z) : HandlerOutcome :=
  let audit := attempt_audit attempt_count (Some (executor_error_class (error_class error))) in
  match error with
  | PeSharingViolation | PeLockViolation =>
      HoProvenNotApplied (lit "file_in_use")
        (lit "This file is currently in use and was not moved.") audit
  | PeDestinationExists =>
      HoProvenNotApplied (lit "destination_exists") (lit "The destination already exists.") audit
  | PePrecondition detail => HoProvenNotApplied (lit "source_precondition_failed") detail audit
  | PeSourceMissing =>
      HoProvenNotApplied (lit "source_missing") (lit "The source no longer exists.") audit
  | PeOutsideRoot | PeReparsePoint | PeCloudPlaceholder | PePathPolicyRefusal | PeUnsupported _ =>
      HoProvenNotApplied (lit "native_primitive_refused") (platform_error_text error) audit
  | PePermissionDenied =>
      HoProvenNotApplied (lit "permission_denied")
        (lit "Permission policy refused the operation; no permissions were changed.") audit
  | PeDiskFull =>
      HoProvenNotApplied (lit "disk_full")
        (lit "The destination volume is full and the file was not moved.") audit
  | PeCancelled =>
      HoProvenNotApplied (lit "verification_cancelled")
        (lit "Streaming verification was cancelled before mutation.") audit
  | PeVerificationLimitExceeded _ =>
      HoProvenNotApplied (lit "verification_limit_exceeded")
        (lit "The file exceeds the authenticated execution verification bound.") audit
  | PeAmbiguousMutationOutcome | PeIo _ | PeSecretStore _ =>
      HoRecoveryRequired (lit "native_mutation_ambiguous") (platform_error_text error) audit
  end.

(** [retry_transient_before_mutation]: [Some] is [true], with the class that is
    then remembered; the pause before a retry has no effect on the state. *)
Definition retry_transient_before_mutation (error : PlatformError) (attempt : Z) :
    option ExecutorErrorClass :=
  if negb (retryable_before_mutation error) || (3 <=? attempt) then None
  else Some (executor_error_class (error_class error)).

(** The display text of a [ValidationError]. *)
Definition validation_error_text (e : ValidationError) : str :=
  match e with
  | UnsupportedSchema => lit "unsupported executor protocol schema"
  | BoundExceeded what => what ++ lit " exceeds its protocol bound"
  | InvalidField what => lit "invalid protocol field: " ++ what
  | DuplicateOrUnordered what => lit "duplicate or unordered protocol field: " ++ what
  | InvalidHex => lit "invalid hexadecimal encoding"
  end.

(** ** Paths *)

(** [resolve_relative]; [push] of a name is [path_join]. *)
Definition resolve_relative (root : PathBuf) (relative : str) : res str PathBuf :=
  reject_if (bool_decide (relative = []) || starts_with_any [47; 92]%N relative
    || ends_with_any [47; 92]%N relative || contains 58%N relative)
    (lit "relative path is malformed");;
  path ← fold_res (fun path component =>
      reject_if (bad_component component) (lit "relative path contains an unsafe component");;
      Ok (path_join path (utf8 component))) [] (split is_separator relative);
  reject_if (existsb (fun c => negb (is_normal c)) (components path))
    (lit "relative path contains a non-normal component");;
  Ok (path_join root path).

(** [decode_native_path]. *)
Definition decode_manifest_path (path : NativePathManifest) : res str PathBuf :=
  match npm_encoding path with
  | NpeWindowsUtf16Le =>
      units ← ok_or (utf16_units (npm_bytes path))
        (lit "Windows native path has an odd byte length");
      s ← ok_or (from_utf16 units) (lit "Windows native path is invalid UTF-16");
      Ok (utf8 s)
  | NpeUnixBytes => Ok (npm_bytes path)
  end.

(** ** Expected state *)

Definition manifest_platform (p : PlatformKindManifest) : PlatformKind :=
  match p with PkmWindows => Windows | PkmMacOs => MacOs | PkmLinux => Linux | PkmOther => Other end.

Definition manifest_volume (value : VolumeIdentityManifest) : VolumeIdentity := {|
  vi_platform := manifest_platform (vim_platform value);
  vi_stable_identifier := vim_stable_identifier value;
  vi_filesystem_type := vim_filesystem_type value;
  vi_case_sensitive := vim_case_sensitive value;
  vi_removable := vim_removable value;
  vi_local := vim_local value
|}.

Definition manifest_encoding (e : NativePathEncoding) : PathEncoding :=
  match e with NpeWindowsUtf16Le => WindowsUtf16Le | NpeUnixBytes => UnixBytes end.

Definition expected_matches (expected : ExpectedFileStateManifest) (observed : FileFingerprint)
    (require_original_location : bool) : bool :=
  let identity := fp_native_identity observed in
  let wanted := efsm_native_identity expected in
  bool_decide (ni_volume identity = manifest_volume (nfim_volume wanted))
  && bool_decide (ni_object_key identity = nfim_object_key wanted)
  && (negb require_original_location
      || bool_decide (ni_parent_key identity = nfim_parent_key wanted)
         && bool_decide (np_encoding (ni_leaf_name identity)
              = manifest_encoding (npm_encoding (nfim_leaf_name wanted)))
         && bool_decide (np_bytes (ni_leaf_name identity) = npm_bytes (nfim_leaf_name wanted)))
  && (nfim_link_count wanted =? 1)
  && (ni_link_count identity =? 1)
  && bool_decide (nfim_reparse_tag wanted = None)
  && bool_decide (ni_reparse_tag identity = None)
  && (fp_byte_size observed =? efsm_byte_size expected)
  && bool_decide (fp_modified_at_ns observed = efsm_modified_at_ns expected)
  && (fp_attributes observed =? efsm_attributes expected)
  && bool_decide (fp_content_digest observed = Some (efsm_content_digest expected)).

Definition rename_request (source destination : PathBuf) (expected : ExpectedFileStateManifest)
    (observed : FileFingerprint) (maximum_hash_bytes : Z) : res str RenameRequest :=
  Ok {| rr_source := source;
        rr_destination := destination;
        rr_expected_identity := fp_native_identity observed;
        rr_expected_byte_size := efsm_byte_size expected;
        rr_expected_modified_at_ns := efsm_modified_at_ns expected;
        rr_expected_attributes := efsm_attributes expected;
        rr_expected_content_digest := efsm_content_digest expected;
        rr_maximum_hash_bytes := maximum_hash_bytes |}.

(** ** Case-only renames *)

Section case_only.
Context `{UC : UnicodeCase}.

Definition operation_requires_qualified_case_only_staging
    (operation : ApprovedOperationManifest) : bool :=
  match aom_primitive operation with
  | OpmSameVolumeMove source destination original _
  | OpmSameVolumeRename source destination original _
  | OpmSameVolumeMoveAndRename source destination original _ =>
      (negb (bool_decide (source = destination))
       && bool_decide (to_lowercase source = to_lowercase destination))
      || (negb (bool_decide (original = destination))
          && bool_decide (to_lowercase original = to_lowercase destination))
  | OpmCreateDirectory _ | OpmRemoveDirectoryIfEmpty _ | OpmInternalStage _ _ _ _ => false
  end.

Definition same_journaled_file_identity (left right : ExpectedFileStateManifest) : bool :=
  let l := efsm_native_identity left in
  let r := efsm_native_identity right in
  negb (bool_decide (nfim_object_key l = []))
  && bool_decide (nfim_object_key l = nfim_object_key r)
  && bool_decide (nfim_volume l = nfim_volume r)
  && bool_decide (efsm_content_digest left = efsm_content_digest right)
  && (efsm_byte_size left =? efsm_byte_size right).

(** [value.bytes().enumerate().all(..)]. *)
Definition is_canonical_uuid_byte (entry : nat * byte) : bool :=
  let '(index, b) := entry in
  let z := byte_to_Z b in
  if bool_decide (index ∈ [8; 13; 18; 23]%nat) then z =? 45
  else ((48 <=? z) && (z <=? 57)) || ((97 <=? z) && (z <=? 102)).

Definition is_canonical_uuid (value : str) : bool :=
  (len value =? 36) && forallb is_canonical_uuid_byte (indexed (utf8 value)).

(** The internal staging step a case-only rename depends on. *)
Definition is_stage_of (envelope : ImmutableExecutionEnvelope)
    (operation : ApprovedOperationManifest) (source original : str)
    (expected : ExpectedFileStateManifest) (dependency : str) : bool :=
  match envelope_operation envelope dependency with
  | Some candidate =>
      match aom_primitive candidate with
      | OpmInternalStage stage_source stage_destination stage_original stage_expected =>
          bool_decide (stage_source = original)
          && bool_decide (stage_destination = source)
          && bool_decide (stage_original = original)
          && same_journaled_file_identity stage_expected expected
          && (aom_sequence candidate <? aom_sequence operation)
      | _ => false
      end
  | None => false
  end.

Definition qualified_case_only_stage_chain_valid (envelope : ImmutableExecutionEnvelope)
    (operation : ApprovedOperationManifest) : bool :=
  match aom_primitive operation with
  | OpmSameVolumeMove source destination original expected
  | OpmSameVolumeRename source destination original expected
  | OpmSameVolumeMoveAndRename source destination original expected =>
      negb (bool_decide (original = destination))
      && bool_decide (to_lowercase original = to_lowercase destination)
      && match split (fun c => (c =? 47)%N) source with
         | [first; second; third] =>
             bool_decide (first = lit ".supremacy-staging")
             && bool_decide (second = iee_execution_id envelope)
             && is_canonical_uuid third
         | _ => false
         end
      && (zlen (aom_dependencies operation) =? 1)
      && bool_decide (length (filter (fun d =>
           is_stage_of envelope operation source original expected d = true)
           (aom_dependencies operation)) = 1%nat)
  | OpmCreateDirectory _ | OpmRemoveDirectoryIfEmpty _ | OpmInternalStage _ _ _ _ => false
  end.
End case_only.

(** ** The handler

    A body with early returns runs in [SE W Early]: [Return] is [return
    outcome], [Exit] is [std::process::exit]. *)

Inductive Early :=
  | Return (outcome : HandlerOutcome)
  | Exit (code : Z).

Definition returning {W} (m : SE W Early HandlerOutcome) : SE W Z HandlerOutcome := fun w =>
  match m w with
  | (Ok outcome, w') => (Ok outcome, w')
  | (Err (Return outcome), w') => (Ok outcome, w')
  | (Err (Exit code), w') => (Err code, w')
  end.

(** [match m { Ok(v) => v, Err(error) => return outcome(error) }]. *)
Definition or_return {W E A} (outcome : E -> HandlerOutcome) (m : SE W E A) : SE W Early A :=
  se_map_err (fun e => Return (outcome e)) m.

Definition return_if {W} (bad : bool) (outcome : HandlerOutcome) : SE W Early unit :=
  se_lift (reject_if bad (Return outcome)).

Section handler.
Context {W : Type} `{B3 : Blake3} `{UU : UuidCrate} `{UC : UnicodeCase} `{TG : Target}.
Context `{SF : SafeFileOperations W} `{VP : VerifyingPlatform W} `{HH : HandlerHost W}.

Definition fingerprint_digest (value : FileFingerprint) : FixedBytes32 :=
  blake3_hash (bstr "com.workingname.operation-executor/v2/observed-file-state" ++ [x00]
    ++ utf8 (vi_stable_identifier (ni_volume (fp_native_identity value)))
    ++ ni_object_key (fp_native_identity value)
    ++ le_bytes 8 (fp_byte_size value)
    ++ match fp_content_digest value with Some digest => barr digest | None => [] end).

Definition state_digest (domain value : bytes) : FixedBytes32 :=
  blake3_hash (bstr "com.workingname.operation-executor/v2/observed-directory-state" ++ [x00]
    ++ domain ++ value).

Definition qualification_crash (phase : String.string) : SE W Early unit :=
  se_lift (reject_if (bool_decide (qualification_crash_env = Some (lit phase))) (Exit 76)).

(** [NativeExecutorHandler::validate_envelope_root]. *)
Definition validate_envelope_root (envelope : ImmutableExecutionEnvelope) : SE W str PathBuf :=
  let expected := rbm_volume (iee_root_binding envelope) in
  let policy := iee_safety_policy_binding envelope in
  se_lift (map_err validation_error_text (validate_envelope envelope));;
  root ← se_lift (decode_manifest_path (rbm_canonical_path (iee_root_binding envelope)));
  se_lift (reject_if (negb (is_absolute root)) (lit "approved root is not absolute"));;
  metadata ← se_map_err io_text (symlink_metadata root);
  se_lift (reject_if (md_is_symlink metadata || negb (md_is_dir metadata))
    (lit "approved root is linked or is not a directory"));;
  canonical ← se_map_err io_text (canonicalize root);
  se_lift (reject_if (negb (path_eq canonical root))
    (lit "approved root no longer matches its canonical binding"));;
  observed ← se_map_err platform_error_text (inspect_volume root);
  se_lift (reject_if ((spbm_maximum_rehash_bytes policy =? 0)
    || (MAX_EXECUTION_VERIFICATION_BYTES <? spbm_maximum_rehash_bytes policy))
    (lit "execution verification bound is invalid"));;
  se_lift (reject_if
    (negb (bool_decide (vi_platform observed = manifest_platform (vim_platform expected)))
     || negb (bool_decide (vi_stable_identifier observed = vim_stable_identifier expected))
     || negb (bool_decide (vi_filesystem_type observed = vim_filesystem_type expected))
     || negb (Bool.eqb (vi_case_sensitive observed) (vim_case_sensitive expected))
     || negb (Bool.eqb (vi_removable observed) (vim_removable expected))
     || negb (Bool.eqb (vi_local observed) (vim_local expected))
     || negb (vi_local observed)
     || vi_removable observed)
    (lit "approved root volume binding changed"));;
  se_lift (reject_if (target_macos
    && bool_decide (vim_platform expected = PkmMacOs)
    && negb match vim_filesystem_type expected with
       | Some value => eq_ignore_ascii_case value (lit "apfs") || eq_ignore_ascii_case value (lit "hfs")
       | None => false
       end)
    (lit "macOS mutation requires the approved local APFS or HFS volume"));;
  mret root.

(** [NativeExecutorHandler::create_directory]. *)
Definition create_directory (root : PathBuf) (relative : str) : SE W Early HandlerOutcome :=
  destination ← or_return (proven_not_applied (lit "relative_path_invalid"))
    (se_lift (resolve_relative root relative));
  found ← se_try (symlink_metadata destination);
  match found with
  | Ok _ => se_fail (Return (proven_not_applied (lit "destination_exists")
      (lit "directory destination already exists")))
  | Err error => return_if (negb (is_not_found error))
      (proven_not_applied (lit "destination_inspection_failed") (io_text error))
  end;;
  or_return (fun error => mutation_error error 1) (create_directory_no_replace destination);;
  created ← se_try (symlink_metadata destination);
  mret match created with
  | Ok metadata =>
      if md_is_dir metadata && negb (md_is_symlink metadata) then
        HoSuccess (state_digest (bstr "directory-present") (utf8 relative)) (attempt_audit 1 None)
      else recovery_required (lit "directory_postcondition_failed")
             (lit "created path is not an unlinked directory")
  | Err error => recovery_required (lit "directory_postcondition_failed") (io_text error)
  end.

(** [NativeExecutorHandler::remove_directory]. *)
Definition remove_directory (root : PathBuf) (relative : str) : SE W Early HandlerOutcome :=
  destination ← or_return (proven_not_applied (lit "relative_path_invalid"))
    (se_lift (resolve_relative root relative));
  found ← se_try (symlink_metadata destination);
  match found with
  | Ok metadata => return_if (negb (md_is_dir metadata && negb (md_is_symlink metadata)))
      (proven_not_applied (lit "rollback_directory_invalid")
        (lit "rollback path is not an unlinked directory"))
  | Err error => se_fail (Return (
      if is_not_found error then proven_not_applied (lit "rollback_directory_absent")
        (lit "rollback directory is already absent")
      else proven_not_applied (lit "rollback_directory_inspection_failed") (io_text error)))
  end;;
  entry ← or_return (fun error =>
      proven_not_applied (lit "rollback_directory_inspection_failed") (io_text error))
    (read_dir_first destination);
  match entry with
  | None => mret tt
  | Some (Ok _) => se_fail (Return (proven_not_applied (lit "rollback_directory_not_empty")
      (lit "rollback removes a directory only when it is empty")))
  | Some (Err error) => se_fail (Return (
      proven_not_applied (lit "rollback_directory_inspection_failed") (io_text error)))
  end;;
  or_return (fun error => mutation_error error 1) (remove_directory_if_empty destination);;
  gone ← se_try (symlink_metadata destination);
  mret match gone with
  | Err error =>
      if is_not_found error then
        HoSuccess (state_digest (bstr "directory-absent") (utf8 relative)) (attempt_audit 1 None)
      else recovery_required (lit "directory_rollback_postcondition_failed") (io_text error)
  | Ok _ => recovery_required (lit "directory_rollback_postcondition_failed")
      (lit "directory remains after the native rollback primitive returned success")
  end.

(** [m], or [continue] when the error is transient: [inr] carries the class
    that is remembered. *)
Definition transient {A} (attempt : Z) (m : SE W PlatformError A) :
    SE W Early (A + ExecutorErrorClass) :=
  r ← se_try m;
  match r with
  | Ok a => mret (inl a)
  | Err error =>
      match retry_transient_before_mutation error attempt with
      | Some class => mret (inr class)
      | None => se_fail (Return (mutation_error error attempt))
      end
  end.

Definition cancelled_outcome (attempt : Z) : HandlerOutcome :=
  HoProvenNotApplied (lit "verification_cancelled")
    (lit "Streaming verification was cancelled before mutation.")
    (attempt_audit attempt (Some EecCancelled)).

Definition poll_cancelled : SE W Early bool := fun w =>
  let '(c, w') := is_cancelled w in (Ok c, w').

(** The body of the loop of [rename]: [inl] breaks, [inr] continues. *)
Definition rename_attempt (source destination : PathBuf) (expected : ExpectedFileStateManifest)
    (maximum_hash_bytes : Z) (require_original_location : bool) (attempt : Z) :
    SE W Early (unit + ExecutorErrorClass) :=
  cancelled ← poll_cancelled;
  return_if cancelled (cancelled_outcome attempt);;
  absent ← transient attempt (validate_destination_absent destination);
  match absent with inr class => mret (inr class) | inl _ =>
  fingerprint ← transient attempt (fingerprint_streaming source maximum_hash_bytes);
  match fingerprint with inr class => mret (inr class) | inl observed =>
  return_if (negb (expected_matches expected observed require_original_location))
    (HoProvenNotApplied (lit "source_precondition_failed")
      (lit "Source identity, location, size, modified time, or content digest changed.")
      (attempt_audit attempt (Some EecPrecondition)));;
  request ← or_return (proven_not_applied (lit "operation_manifest_invalid"))
    (se_lift (rename_request source destination expected observed maximum_hash_bytes));
  renamed ← transient attempt (rename_same_volume_no_replace request);
  match renamed with inr class => mret (inr class) | inl _ => mret (inl tt) end
  end end.

(** [for attempt in 1..=3]: the successful attempt, zero when there is none,
    and the last transient error class. *)
Fixpoint rename_attempts (source destination : PathBuf) (expected : ExpectedFileStateManifest)
    (maximum_hash_bytes : Z) (require_original_location : bool) (attempts : list Z)
    (last_error_class : option ExecutorErrorClass) :
    SE W Early (Z * option ExecutorErrorClass) :=
  match attempts with
  | [] => mret (0, last_error_class)
  | attempt :: attempts =>
      r ← rename_attempt source destination expected maximum_hash_bytes require_original_location
        attempt;
      match r with
      | inl _ => mret (attempt, last_error_class)
      | inr class => rename_attempts source destination expected maximum_hash_bytes
          require_original_location attempts (Some class)
      end
  end.

(** [NativeExecutorHandler::rename]. *)
Definition rename (root : PathBuf) (source_relative destination_relative
    original_source_relative : str) (expected : ExpectedFileStateManifest)
    (maximum_hash_bytes : Z) : SE W Early HandlerOutcome :=
  return_if ((maximum_hash_bytes =? 0)
    || (MAX_EXECUTION_VERIFICATION_BYTES <? maximum_hash_bytes)
    || (maximum_hash_bytes <? efsm_byte_size expected))
    (HoProvenNotApplied (lit "verification_limit_exceeded")
      (lit "The source exceeds the authenticated execution verification bound.")
      (attempt_audit 1 (Some EecVerificationLimit)));;
  source ← or_return (proven_not_applied (lit "source_path_invalid"))
    (se_lift (resolve_relative root source_relative));
  destination ← or_return (proven_not_applied (lit "destination_path_invalid"))
    (se_lift (resolve_relative root destination_relative));
  let require_original_location := bool_decide (source_relative = original_source_relative) in
  result ← rename_attempts source destination expected maximum_hash_bytes
    require_original_location [1; 2; 3] None;
  let '(successful_attempt, last_error_class) := result in
  return_if (successful_attempt =? 0) (HoRecoveryRequired (lit "native_mutation_ambiguous")
    (lit "The bounded retry loop ended without a classified result.")
    (attempt_audit 3 (Some EecAmbiguousMutationOutcome)));;
  let failed detail := HoRecoveryRequired (lit "rename_postcondition_failed") detail
    (attempt_audit successful_attempt (Some EecAmbiguousMutationOutcome)) in
  or_return (fun error => failed (if decide (error = PeDestinationExists)
      then lit "source still exists after native rename returned success"
      else platform_error_text error))
    (validate_destination_absent source);;
  moved ← or_return (fun error => failed (platform_error_text error))
    (fingerprint_streaming destination maximum_hash_bytes);
  return_if (negb (expected_matches expected moved false))
    (failed (lit "destination identity, size, or content digest does not match the manifest"));;
  mret (HoSuccess (fingerprint_digest moved) (attempt_audit successful_attempt last_error_class)).

(** An outcome in hand: [let outcome = self.rename(..)]. *)
Definition outcome_of (m : SE W Early HandlerOutcome) : SE W Early HandlerOutcome := fun w =>
  match returning m w with
  | (Ok outcome, w') => (Ok outcome, w')
  | (Err code, w') => (Err (Exit code), w')
  end.

(** The forward branch of the four renaming primitives. *)
Definition rename_forward (root : PathBuf) (source_relative destination_relative
    original_source_relative : str) (expected : ExpectedFileStateManifest)
    (maximum_hash_bytes : Z) (internal_stage : bool) : SE W Early HandlerOutcome :=
  qualification_crash "before_mutation";;
  outcome ← outcome_of (rename root source_relative destination_relative
    original_source_relative expected maximum_hash_bytes);
  match outcome with
  | HoSuccess _ _ =>
      (if internal_stage then qualification_crash "after_stage" else mret tt);;
      qualification_crash "after_mutation"
  | _ => mret tt
  end;;
  mret outcome.

(** The final [match] of [handle]. *)
Definition dispatch (root : PathBuf) (envelope : ImmutableExecutionEnvelope)
    (primitive : OperationPrimitiveManifest) (direction : OperationDirection) :
    SE W Early HandlerOutcome :=
  let maximum := spbm_maximum_rehash_bytes (iee_safety_policy_binding envelope) in
  match primitive, direction with
  | OpmCreateDirectory destination, DirForward => create_directory root destination
  | OpmCreateDirectory destination, DirRollback => remove_directory root destination
  | OpmRemoveDirectoryIfEmpty source, DirForward => remove_directory root source
  | OpmRemoveDirectoryIfEmpty source, DirRollback => create_directory root source
  | OpmSameVolumeMove source destination original expected, DirForward
  | OpmSameVolumeRename source destination original expected, DirForward
  | OpmSameVolumeMoveAndRename source destination original expected, DirForward
  | OpmInternalStage source destination original expected, DirForward =>
      rename_forward root source destination original expected maximum (is_internal_stage primitive)
  | OpmSameVolumeMove source destination original expected, DirRollback
  | OpmSameVolumeRename source destination original expected, DirRollback
  | OpmSameVolumeMoveAndRename source destination original expected, DirRollback
  | OpmInternalStage source destination original expected, DirRollback =>
      rename root destination source original expected maximum
  end.

(** [NativeExecutorHandler::handle]. *)
Definition handle (envelope : ImmutableExecutionEnvelope) (operation : ApprovedOperationManifest)
    (direction : OperationDirection) : SE W Z HandlerOutcome := returning (
  root ← or_return (proven_not_applied (lit "root_binding_invalid")) (validate_envelope_root envelope);
  return_if (negb (bool_decide (envelope_operation envelope (aom_operation_id operation)
      = Some operation)))
    (proven_not_applied (lit "operation_manifest_invalid")
      (lit "The selected operation is not the exact manifest bound to this envelope."));;
  or_return (fun error =>
      proven_not_applied (lit "operation_manifest_invalid") (validation_error_text error))
    (se_lift (validate_primitive (aom_primitive operation) (rbm_volume (iee_root_binding envelope))));;
  (if operation_requires_qualified_case_only_staging operation then
     return_if (negb (spbm_allow_qualified_case_only_rename (iee_safety_policy_binding envelope)))
       (proven_not_applied (lit "case_only_rename_unqualified")
         (lit "The authenticated safety policy does not qualify case-only staging."));;
     return_if (negb (qualified_case_only_stage_chain_valid envelope operation))
       (proven_not_applied (lit "operation_manifest_invalid")
         (lit "The case-only operation is not bound to an internal staging transition."))
   else mret tt);;
  dispatch root envelope (aom_primitive operation) direction).
End handler.

(** ** Paths below the root *)

Section paths.
Context `{UU : UuidCrate}.

Lemma good_component_plain c :
  Forall (fun c => is_scalar c = true) c -> Forall (fun c => is_separator c = false) c ->
  bad_component c = false -> plain (utf8 c).
Proof.
  unfold bad_component. intros Hs Hsep Hb. bools.
  apply plain_utf8; [done|set_solver..|]. rewrite Forall_forall in Hsep. by intros ?%Hsep.
Qed.

(** The worker resolves exactly the relative paths that the validation of
    the protocol accepts, and what it resolves is the root followed by the
    names of the path, one component each: neither a parent or current
    directory nor an absolute path can appear. *)
Theorem resolve_relative_agrees root relative :
  Forall (fun c => is_scalar c = true) relative ->
  validate_string relative MAX_RELATIVE_PATH_BYTES (lit "relative path") = Ok tt ->
  if is_ok (validate_relative_path relative) then
    exists path, resolve_relative root relative = Ok path
      /\ components path
           = components root ++ ((fun c => Normal (utf8 c)) <$> split is_separator relative)
  else is_err (resolve_relative root relative) = true.
Proof.
  intros Hs Hv. pose proof Hv as Hne. unfold validate_string in Hne.
  apply reject_if_Ok, orb_false_iff in Hne as [Hne _]. apply orb_false_iff in Hne as [Hne _].
  unfold validate_relative_path, resolve_relative. rewrite Hv, Hne. cbn [mbind res_bind orb].
  destruct (starts_with_any _ _ || _ || _) eqn:Hform; [done|]. cbn [orb reject_if mbind res_bind].
  destruct (existsb bad_component _) eqn:Hbad; cbn [reject_if is_ok].
  { apply (push_bad _ (lit "relative path contains an unsafe component") []) in Hbad. by destruct (fold_res _ _ _). }
  assert (Forall (fun c => bad_component c = false) (split is_separator relative)) as Hgood.
  { apply Forall_forall. intros c Hc. destruct (bad_component c) eqn:Hb; [|done].
    rewrite <- Hbad. symmetry. apply existsb_exists. exists c. by rewrite list_elem_of_In in Hc. }
  assert (Forall plain (utf8 <$> split is_separator relative)) as Hplain.
  { apply Forall_fmap. pose proof (split_scalar is_separator relative Hs) as H1.
    pose proof (split_no_sep is_separator relative) as H2. rewrite Forall_forall in *.
    intros c Hc. apply good_component_plain; auto. }
  rewrite push_all by done. cbn [mbind res_bind].
  pose proof (only_names_pushed _ Hplain) as Hnames.
  destruct (existsb _ (components _)) eqn:He.
  { exfalso. apply existsb_exists in He as (c & Hc & Hn). unfold only_names in Hnames.
    rewrite Forall_forall in Hnames. apply list_elem_of_In, Hnames in Hc. by rewrite Hc in Hn. }
  cbn [reject_if mbind res_bind]. eexists. split; [done|].
  rewrite components_join, components_pushed by done. by rewrite <- list_fmap_compose.
Qed.
End paths.

(** ** Observing the handler

    The handler in the world that logs the mutations asked of the platform
    (Apply.v); inspections pass through. *)

#[export] Instance traced_platform {W} `{VerifyingPlatform W} : VerifyingPlatform (Traced W) := {
  verifying_reads := traced_reads;
  validate_destination_absent path := passing (validate_destination_absent path)
}.
#[export] Instance traced_host {W} `{HH : HandlerHost W} : HandlerHost (Traced W) := {
  handler_fs := traced_fs;
  is_cancelled := fun '(w, log) => let '(c, w') := is_cancelled w in (c, (w', log));
  qualification_crash_env := @qualification_crash_env W HH
}.

(** Errors after which the platform guarantees that nothing changed. *)
Definition harmless (e : PlatformError) : bool :=
  match e with PeAmbiguousMutationOutcome | PeIo _ | PeSecretStore _ => false | _ => true end.

Definition harmless_failure (eff : Effect) : Prop :=
  exists op e, eff = EffFs op (Some e) /\ harmless e = true.

(** What an outcome says about the mutations that were asked for: all but the
    last failed without effect, and the last one is as the outcome tells. *)
Definition truthful (outcome : HandlerOutcome) (log : list Effect) : Prop :=
  exists failed final, log = failed ++ final /\ Forall harmless_failure failed /\
    match outcome with
    | HoSuccess _ _ => exists op, final = [EffFs op None]
    | HoProvenNotApplied _ _ _ => final = []
    | HoRecoveryRequired _ _ _ => final = [] \/ exists op error, final = [EffFs op error]
    end.

(** The mutations a primitive stands for, below the root. *)
Definition resolves (root : PathBuf) (relative : str) (path : PathBuf) : Prop :=
  resolve_relative root relative = Ok path.

Definition primitive_allows (root : PathBuf) (primitive : OperationPrimitiveManifest)
    (direction : OperationDirection) (op : FsOp) : Prop :=
  match primitive, direction, op with
  | OpmCreateDirectory relative, DirForward, FsCreateDirectory path
  | OpmCreateDirectory relative, DirRollback, FsRemoveDirectory path
  | OpmRemoveDirectoryIfEmpty relative, DirForward, FsRemoveDirectory path
  | OpmRemoveDirectoryIfEmpty relative, DirRollback, FsCreateDirectory path =>
      resolves root relative path
  | OpmSameVolumeMove source destination _ expected, DirForward, FsRename request
  | OpmSameVolumeRename source destination _ expected, DirForward, FsRename request
  | OpmSameVolumeMoveAndRename source destination _ expected, DirForward, FsRename request
  | OpmInternalStage source destination _ expected, DirForward, FsRename request
  | OpmSameVolumeMove destination source _ expected, DirRollback, FsRename request
  | OpmSameVolumeRename destination source _ expected, DirRollback, FsRename request
  | OpmSameVolumeMoveAndRename destination source _ expected, DirRollback, FsRename request
  | OpmInternalStage destination source _ expected, DirRollback, FsRename request =>
      resolves root source (rr_source request) /\ resolves root destination (rr_destination request)
      /\ rr_expected_byte_size request = efsm_byte_size expected
      /\ rr_expected_content_digest request = efsm_content_digest expected
      /\ ni_object_key (rr_expected_identity request)
           = nfim_object_key (efsm_native_identity expected)
  | _, _, _ => False
  end.

(** ** Early returns *)

Section early_returns.
Context {W : Type}.

Lemma wp_return_if bad outcome log (Q : res Early unit -> list Effect -> Prop) :
  (bad = true -> Q (Err (Return outcome)) log) -> (bad = false -> Q (Ok tt) log) ->
  wp (W := W) (return_if bad outcome) log Q.
Proof. intros H1 H2 w. destruct bad; cbn; auto. Qed.

Lemma wp_returning (m : SE (Traced W) Early HandlerOutcome) log
    (Q : res Z HandlerOutcome -> list Effect -> Prop) :
  wp m log (fun r log' => match r with
    | Ok outcome | Err (Return outcome) => Q (Ok outcome) log'
    | Err (Exit code) => Q (Err code) log' end) ->
  wp (returning m) log Q.
Proof.
  intros H w. specialize (H w). unfold returning.
  by destruct (m (w, log)) as [[?|[]] [??]].
Qed.
End early_returns.

Section observed.
Context {W : Type} `{B3 : Blake3} `{UU : UuidCrate} `{UC : UnicodeCase} `{TG : Target}.
Context `{SF : SafeFileOperations W} `{VP : VerifyingPlatform W} `{HH : HandlerHost W}.

Lemma wp_transient {A} attempt (m : SE (Traced W) PlatformError A) log
    (Q : res Early (A + ExecutorErrorClass) -> list Effect -> Prop) :
  wp m log (fun r log' => match r with
    | Ok a => Q (Ok (inl a)) log'
    | Err e =>
        (retryable_before_mutation e = true -> attempt < 3 ->
          Q (Ok (inr (executor_error_class (error_class e)))) log')
        /\ Q (Err (Return (mutation_error e attempt))) log'
    end) ->
  wp (transient attempt m) log Q.
Proof.
  intros H. unfold transient. apply wp_bind, wp_try. eapply wp_weaken; [exact H|].
  intros [a|e] log' HQ; [by apply wp_ret|]. unfold retry_transient_before_mutation.
  destruct HQ as [HQ1 HQ2]. destruct (_ || _) eqn:Hb; [by apply wp_fail|].
  bools. apply wp_ret, HQ1; [done|lia].
Qed.

(** A failure reported by [mutation_error] before any mutation, or of the last
    mutation. *)
Lemma mutation_error_truthful e attempt log :
  Forall harmless_failure log -> truthful (mutation_error e attempt) log.
Proof.
  intros H. exists log, []. rewrite app_nil_r. split_and!; [done..|].
  destruct e; cbn; auto.
Qed.

Lemma mutation_error_truthful_last op e attempt log :
  Forall harmless_failure log ->
  truthful (mutation_error e attempt) (log ++ [EffFs op (Some e)]).
Proof.
  intros H. destruct (harmless e) eqn:He.
  - apply mutation_error_truthful, Forall_app_2; [done|].
    constructor; [|constructor]. by exists op, e.
  - exists log, [EffFs op (Some e)]. split_and!; [done..|].
    destruct e; try done; right; eauto.
Qed.

Lemma not_applied_truthful code detail audit log :
  Forall harmless_failure log -> truthful (HoProvenNotApplied code detail audit) log.
Proof. intros H. exists log, []. by rewrite app_nil_r. Qed.

Lemma recovery_truthful code detail audit log eff :
  Forall harmless_failure log -> (exists op error, eff = EffFs op error) ->
  truthful (HoRecoveryRequired code detail audit) (log ++ [eff]).
Proof.
  intros H (op & error & ->). exists log, [EffFs op error]. split_and!; [done..|]. right; eauto.
Qed.

Lemma success_truthful digest audit log op :
  Forall harmless_failure log -> truthful (HoSuccess digest audit) (log ++ [EffFs op None]).
Proof. intros H. exists log, [EffFs op None]. split_and!; [done..|]. eauto. Qed.

(** One attempt of [rename]: at most one more rename is asked for. *)
Definition rename_of (source destination : PathBuf) (expected : ExpectedFileStateManifest)
    (op : FsOp) : Prop :=
  exists request, op = FsRename request /\ rr_source request = source
    /\ rr_destination request = destination
    /\ rr_expected_byte_size request = efsm_byte_size expected
    /\ rr_expected_content_digest request = efsm_content_digest expected
    /\ ni_object_key (rr_expected_identity request)
         = nfim_object_key (efsm_native_identity expected).

Lemma expected_matches_object expected observed original :
  expected_matches expected observed original = true ->
  ni_object_key (fp_native_identity observed) = nfim_object_key (efsm_native_identity expected).
Proof. unfold expected_matches. cbv zeta. intros H. bools. done. Qed.

Lemma rename_attempt_wp source destination expected maximum original attempt log :
  Forall harmless_failure log ->
  wp (rename_attempt (W := Traced W) source destination expected maximum original attempt) log
    (fun r log' => exists more, log' = log ++ more /\ (length more <= 1)%nat
      /\ Forall (fun eff => exists op error, eff = EffFs op error
           /\ rename_of source destination expected op) more
      /\ match r with
         | Ok (inl _) => exists op, more = [EffFs op None]
         | Ok (inr _) => attempt < 3 /\ Forall harmless_failure log'
         | Err (Return outcome) => truthful outcome log'
         | Err (Exit _) => False
         end).
Proof.
  intros Hlog. unfold rename_attempt.
  assert (forall o, truthful o log ->
    exists more, log = log ++ more /\ (length more <= 1)%nat
      /\ Forall (fun eff => exists op error, eff = EffFs op error
           /\ rename_of source destination expected op) more /\ truthful o log) as Hnone.
  { intros o Ho. exists []. rewrite app_nil_r. split_and!; [done|cbn; lia|constructor|done]. }
  assert (attempt < 3 -> exists more, log = log ++ more /\ (length more <= 1)%nat
      /\ Forall (fun eff => exists op error, eff = EffFs op error
           /\ rename_of source destination expected op) more
      /\ attempt < 3 /\ Forall harmless_failure log) as Hagain.
  { intros Ha. exists []. rewrite app_nil_r. split_and!; [done|cbn; lia|constructor|done|done]. }
  apply wp_bind. intros w. unfold poll_cancelled. cbn [is_cancelled traced_host].
  destruct (is_cancelled w) as [cancelled w']. cbn [fst snd].
  revert w. clear w'. intros w. apply wp_bind, wp_return_if; intros _.
  { by apply Hnone, not_applied_truthful. }
  apply wp_bind, wp_transient, wp_passing. intros [[]|e].
  2: { split; [intros _ Ha; apply wp_ret; by apply Hagain|by apply Hnone, mutation_error_truthful]. }
  apply wp_bind, wp_transient, wp_passing. intros [observed|e].
  2: { split; [intros _ Ha; apply wp_ret; by apply Hagain|by apply Hnone, mutation_error_truthful]. }
  apply wp_bind, wp_return_if; intros Hm; [by apply Hnone, not_applied_truthful|].
  apply negb_false_iff, expected_matches_object in Hm.
  apply wp_bind. unfold or_return. apply wp_map_err, wp_lift. cbn [rename_request map_err].
  set (request := {| rr_source := source |}).
  assert (forall error, Forall (fun eff => exists op error, eff = EffFs op error
    /\ rename_of source destination expected op) [EffFs (FsRename request) error]) as Hof.
  { intros error. constructor; [|constructor]. eexists _, _. split; [done|]. by exists request. }
  apply wp_bind, wp_transient, wp_logged. intros [moved|e]; cbn [error_of].
  - apply wp_ret. eexists. split_and!; [done|done|apply Hof|]. eauto.
  - split.
    + intros Hr Ha. apply wp_ret. eexists. split_and!; [done|done|apply Hof|done|].
      apply Forall_app_2; [done|]. constructor; [|constructor]. exists (FsRename request), e.
      split; [done|]. by destruct e.
    + eexists. split_and!; [done|done|apply Hof|]. by apply mutation_error_truthful_last.
Qed.

Notation asked source destination expected := (Forall (fun eff => exists op error,
  eff = EffFs op error /\ rename_of source destination expected op)).

Lemma rename_attempts_wp source destination expected maximum original attempts last log :
  Forall harmless_failure log ->
  wp (rename_attempts (W := Traced W) source destination expected maximum original attempts last)
    log
    (fun r log' => exists more, log' = log ++ more /\ (length more <= length attempts)%nat
      /\ asked source destination expected more
      /\ match r with
         | Ok (n, _) =>
             (n = 0 /\ Forall (fun a => a < 3) attempts /\ Forall harmless_failure log')
             \/ (n ∈ attempts /\ exists failed op, log' = failed ++ [EffFs op None]
                   /\ Forall harmless_failure failed)
         | Err (Return outcome) => truthful outcome log'
         | Err (Exit _) => False
         end).
Proof.
  revert last log. induction attempts as [|attempt attempts IH]; intros last log Hlog;
    cbn [rename_attempts].
  - apply wp_ret. exists []. rewrite app_nil_r. split_and!; [done..|]. by left.
  - apply wp_bind. eapply wp_weaken; [by apply rename_attempt_wp|].
    intros r log1 (more & -> & Hlen & Hof & Hr). destruct r as [[[]|class]|[outcome|code]].
    + apply wp_ret. exists more. split_and!; [done|cbn; lia|done|]. right. split; [left|].
      destruct Hr as [op ->]. eauto.
    + destruct Hr as [Ha Hh]. eapply wp_weaken; [by apply IH|].
      intros r log2 (more2 & -> & Hlen2 & Hof2 & Hr2). exists (more ++ more2).
      split_and!; [by rewrite (assoc_L (++))|rewrite length_app; cbn; lia|by apply Forall_app_2|].
      destruct r as [[n c]|[]]; [|done..].
      destruct Hr2 as [(-> & Hall & Hh2)|[Hn Hex]]; [left|right].
      * split_and!; [done|by constructor|done].
      * split; [by right|done].
    + exists more. split_and!; [done|cbn; lia|done..].
    + done.
Qed.

(** [rename] asks for at most three renames, all of them the one of its
    arguments, and its outcome is truthful. *)
Lemma rename_wp root source_relative destination_relative original expected maximum :
  wp (rename (W := Traced W) root source_relative destination_relative original expected maximum)
    [] (fun r log => (length log <= 3)%nat
      /\ Forall (fun eff => exists op error source destination, eff = EffFs op error
           /\ resolves root source_relative source /\ resolves root destination_relative destination
           /\ rename_of source destination expected op) log
      /\ match r with
         | Ok outcome | Err (Return outcome) => truthful outcome log
         | Err (Exit _) => False
         end).
Proof.
  unfold rename. apply wp_bind, wp_return_if; intros _.
  { split_and!; [cbn; lia|constructor|by apply not_applied_truthful]. }
  apply wp_bind, wp_map_err, wp_lift. destruct (resolve_relative root source_relative)
    as [source|e] eqn:Hs; cbn [map_err].
  2: { split_and!; [cbn; lia|constructor|by apply not_applied_truthful]. }
  apply wp_bind, wp_map_err, wp_lift. destruct (resolve_relative root destination_relative)
    as [destination|e] eqn:Hd; cbn [map_err].
  2: { split_and!; [cbn; lia|constructor|by apply not_applied_truthful]. }
  cbv zeta. apply wp_bind. eapply wp_weaken; [by apply rename_attempts_wp|].
  intros r log (more & -> & Hlen & Hof & Hr). cbn [app length] in *.
  assert (Forall (fun eff => exists op error source destination, eff = EffFs op error
    /\ resolves root source_relative source /\ resolves root destination_relative destination
    /\ rename_of source destination expected op) more) as Hof'.
  { eapply Forall_impl; [exact Hof|]. intros eff (op & error & -> & ?).
    by exists op, error, source, destination. }
  destruct r as [[n last]|[outcome|code]]; [|done|done].
  destruct Hr as [(-> & Hall & _)|[Hn (failed & op & -> & Hh)]].
  { exfalso. rewrite !Forall_cons in Hall. lia. }
  apply wp_bind, wp_return_if; intros Hz.
  { exfalso. apply Z.eqb_eq in Hz as ->. set_solver. }
  assert (forall code detail audit, truthful (HoRecoveryRequired code detail audit)
    (failed ++ [EffFs op None])) as Hrec by (intros; apply recovery_truthful; eauto).
  apply wp_bind, wp_map_err, wp_passing. intros [[]|e]; cbn [map_err]; [|by auto].
  apply wp_bind, wp_map_err, wp_passing. intros [moved|e]; cbn [map_err]; [|by auto].
  apply wp_bind, wp_return_if; intros _; [by auto|].
  apply wp_ret. split_and!; [done..|]. by apply success_truthful.
Qed.

(** At most one mutation [op], which the outcome tells the truth about. *)
Definition single (op : FsOp -> Prop) (r : res Early HandlerOutcome) (log : list Effect) : Prop :=
  (length log <= 1)%nat
  /\ Forall (fun eff => exists o error, eff = EffFs o error /\ op o) log
  /\ match r with
     | Ok outcome | Err (Return outcome) => truthful outcome log
     | Err (Exit _) => False
     end.

Lemma single_refused op code detail :
  single op (Err (Return (proven_not_applied code detail))) [].
Proof. split_and!; [cbn; lia|constructor|by apply not_applied_truthful]. Qed.

Lemma single_failed (op : FsOp -> Prop) o e attempt :
  op o -> single op (Err (Return (mutation_error e attempt))) [EffFs o (Some e)].
Proof.
  intros Ho. split_and!; [cbn; lia|by repeat econstructor|].
  by apply (mutation_error_truthful_last _ _ _ []).
Qed.

Lemma single_done (op : FsOp -> Prop) o outcome :
  op o ->
  match outcome with HoProvenNotApplied _ _ _ => False | _ => True end ->
  single op (Ok outcome) [EffFs o None].
Proof.
  intros Ho Hout. split_and!; [cbn; lia|by repeat econstructor|].
  destruct outcome; [|done|]; [by apply (success_truthful _ _ [])|].
  apply (recovery_truthful _ _ _ []); eauto.
Qed.

Lemma create_directory_wp root relative :
  wp (create_directory (W := Traced W) root relative) []
    (single (fun op => exists path, op = FsCreateDirectory path /\ resolves root relative path)).
Proof.
  unfold create_directory. apply wp_bind, wp_map_err, wp_lift.
  destruct (resolve_relative root relative) as [path|e] eqn:Hr; cbn [map_err];
    [|by apply single_refused].
  apply wp_bind, wp_try, wp_passing. intros [m|e]; apply wp_bind.
  { apply wp_fail, single_refused. }
  apply wp_return_if; intros _; [apply single_refused|].
  apply wp_bind, wp_map_err, wp_logged. intros [[]|e']; cbn [map_err error_of app].
  2: { apply single_failed. eauto. }
  apply wp_bind, wp_try, wp_passing. intros r. apply wp_ret.
  apply single_done; [by eauto|]. destruct r as [m|]; [by destruct (_ && _)|done].
Qed.

Lemma remove_directory_wp root relative :
  wp (remove_directory (W := Traced W) root relative) []
    (single (fun op => exists path, op = FsRemoveDirectory path /\ resolves root relative path)).
Proof.
  unfold remove_directory. apply wp_bind, wp_map_err, wp_lift.
  destruct (resolve_relative root relative) as [path|e] eqn:Hr; cbn [map_err];
    [|by apply single_refused].
  apply wp_bind, wp_try, wp_passing. intros [m|e]; apply wp_bind.
  2: { apply wp_fail. destruct (is_not_found e); apply single_refused. }
  apply wp_return_if; intros _; [apply single_refused|].
  apply wp_bind, wp_map_err, wp_passing. intros [[[]|]|e]; cbn [map_err]; try apply single_refused;
    apply wp_bind; try (apply wp_fail, single_refused).
  apply wp_ret, wp_bind, wp_map_err, wp_logged. intros [[]|e']; cbn [map_err error_of app].
  2: { apply single_failed. eauto. }
  apply wp_bind, wp_try, wp_passing. intros r. apply wp_ret.
  apply single_done; [by eauto|]. destruct r as [|e]; [done|by destruct (is_not_found e)].
Qed.

(** What any run of the handler leaves behind. *)
Definition handled (allowed : FsOp -> Prop) (r : res Early HandlerOutcome) (log : list Effect) :
    Prop :=
  (length log <= 3)%nat
  /\ Forall (fun eff => exists op error, eff = EffFs op error /\ allowed op) log
  /\ match r with
     | Ok outcome | Err (Return outcome) => truthful outcome log
     | Err (Exit code) => code = 76 /\ qualification_crash_env <> None
         /\ (log = [] \/ exists digest audit, truthful (HoSuccess digest audit) log)
     end.

Lemma single_handled (op allowed : FsOp -> Prop) r log :
  (forall o, op o -> allowed o) -> single op r log -> handled allowed r log.
Proof.
  intros Ho (Hl & Hall & Hr). split_and!; [lia| |by destruct r as [|[]]].
  eapply Forall_impl; [exact Hall|]. naive_solver.
Qed.

Lemma handled_refused allowed code detail :
  handled allowed (Err (Return (proven_not_applied code detail))) [].
Proof. split_and!; [cbn; lia|constructor|by apply not_applied_truthful]. Qed.

Lemma wp_crash phase log (Q : res Early unit -> list Effect -> Prop) :
  (qualification_crash_env <> None -> Q (Err (Exit 76)) log) -> Q (Ok tt) log ->
  wp (qualification_crash (W := Traced W) phase) log Q.
Proof.
  intros H1 H2. apply wp_lift. cbn [qualification_crash_env traced_host] in *.
  case_bool_decide as Hp; cbn; [apply H1; by rewrite Hp | done].
Qed.

Lemma rename_handled root source destination original expected maximum (allowed : FsOp -> Prop) :
  (forall request, resolves root source (rr_source request) ->
     resolves root destination (rr_destination request) ->
     rename_of (rr_source request) (rr_destination request) expected (FsRename request) ->
     allowed (FsRename request)) ->
  wp (rename (W := Traced W) root source destination original expected maximum) []
    (fun r log => handled allowed r log
       /\ match r with Err (Exit _) => False | _ => True end).
Proof.
  intros Ha. eapply wp_weaken; [apply rename_wp|]. intros r log (Hl & Hof & Hr).
  split; [|by destruct r as [|[]]]. split_and!; [done| |by destruct r as [|[]]].
  eapply Forall_impl; [exact Hof|].
  intros eff (op & error & s & d & -> & Hs & Hd & request & -> & <- & <- & Hrest).
  eexists _, _. split; [done|]. apply Ha; [done..|]. by exists request.
Qed.

Lemma wp_outcome_of (m : SE (Traced W) Early HandlerOutcome) log
    (Q : res Early HandlerOutcome -> list Effect -> Prop) :
  wp m log (fun r log' => match r with
    | Ok outcome | Err (Return outcome) => Q (Ok outcome) log'
    | Err (Exit code) => Q (Err (Exit code)) log' end) ->
  wp (outcome_of m) log Q.
Proof.
  intros H w. specialize (H w). unfold outcome_of, returning.
  by destruct (m (w, log)) as [[?|[]] [??]].
Qed.

Lemma rename_forward_wp root source destination original expected maximum staged
    (allowed : FsOp -> Prop) :
  (forall request, resolves root source (rr_source request) ->
     resolves root destination (rr_destination request) ->
     rename_of (rr_source request) (rr_destination request) expected (FsRename request) ->
     allowed (FsRename request)) ->
  wp (rename_forward (W := Traced W) root source destination original expected maximum staged) []
    (handled allowed).
Proof.
  intros Ha. unfold rename_forward. apply wp_bind, wp_crash.
  { intros Hq. split_and!; [cbn; lia|constructor|done|done|by left]. }
  apply wp_bind, wp_outcome_of. eapply wp_weaken; [by apply rename_handled|].
  assert (forall outcome log, handled allowed (Ok outcome) log ->
    wp (match outcome with
      | HoSuccess _ _ => (if staged then qualification_crash "after_stage" else mret tt);;
          qualification_crash (W := Traced W) "after_mutation"
      | _ => mret tt end;; mret outcome) log (handled allowed)) as Hout.
  { intros outcome log (Hl & Hall & Ht).
    destruct outcome as [digest audit|code detail audit|code detail audit];
      [|by apply wp_bind, wp_ret, wp_ret..].
    assert (qualification_crash_env <> None -> handled allowed (Err (Exit 76)) log) as Hc.
    { intros Hq. split_and!; [done..|]. right. by exists digest, audit. }
    apply wp_bind, wp_bind. destruct staged.
    - apply wp_crash; [exact Hc|]. apply wp_crash; [exact Hc|]. by apply wp_ret.
    - apply wp_ret, wp_crash; [exact Hc|]. by apply wp_ret. }
  intros r log [Hh Hx]. by destruct r as [outcome|[outcome|code]]; [apply Hout..|].
Qed.

Lemma dispatch_wp root envelope primitive direction :
  wp (dispatch (W := Traced W) root envelope primitive direction) []
    (handled (primitive_allows root primitive direction)).
Proof.
  unfold dispatch. destruct primitive, direction; cbv zeta;
    try (apply rename_forward_wp; intros request Hs Hd (rq & [= <-] & _ & _ & ? & ? & ?); done);
    try (match goal with |- wp (rename _ _ _ _ _ _) _ (handled ?allowed) =>
      eapply wp_weaken; [apply (rename_handled _ _ _ _ _ _ allowed)|by intros r log [? ?]] end;
      intros request Hs Hd (rq & [= <-] & _ & _ & ? & ? & ?); done).
  all: eapply wp_weaken; [first [apply create_directory_wp | apply remove_directory_wp]|];
    intros r log; apply single_handled; by intros o (path & -> & ?).
Qed.

Lemma validate_envelope_root_wp envelope log :
  wp (validate_envelope_root (W := Traced W) envelope) log (fun r log' => log' = log /\
    match r with
    | Ok root => validate_envelope envelope = Ok tt /\ is_absolute root = true
        /\ decode_manifest_path (rbm_canonical_path (iee_root_binding envelope)) = Ok root
    | Err _ => True
    end).
Proof.
  assert (log = log /\ True) as Hno by by split.
  unfold validate_envelope_root.
  apply wp_bind, wp_lift. destruct (validate_envelope envelope) as [[]|] eqn:Hv; [|exact Hno].
  apply wp_bind, wp_lift. destruct (decode_manifest_path _) as [root|] eqn:Hd; [|exact Hno].
  apply wp_reject; intros Ha; [exact Hno|]. apply negb_false_iff in Ha.
  apply wp_bind, wp_map_err, wp_passing. intros [m|]; [|exact Hno].
  apply wp_reject; intros _; [exact Hno|].
  apply wp_bind, wp_map_err, wp_passing. intros [c|]; [|exact Hno].
  apply wp_reject; intros _; [exact Hno|].
  apply wp_bind, wp_map_err, wp_passing. intros [o|]; [|exact Hno].
  do 3 (apply wp_reject; intros _; [exact Hno|]).
  by apply wp_ret.
Qed.

(** What the handler may ask for: the operation is the one of a valid
    envelope, the root is the absolute one of its binding, and the mutation is
    one the primitive stands for in this direction. *)
Definition handler_allows (envelope : ImmutableExecutionEnvelope)
    (operation : ApprovedOperationManifest) (direction : OperationDirection) (op : FsOp) : Prop :=
  validate_envelope envelope = Ok tt
  /\ envelope_operation envelope (aom_operation_id operation) = Some operation
  /\ exists root, decode_manifest_path (rbm_canonical_path (iee_root_binding envelope)) = Ok root
       /\ is_absolute root = true
       /\ primitive_allows root (aom_primitive operation) direction op.

Lemma handle_wp envelope operation direction :
  wp (handle (W := Traced W) envelope operation direction) [] (fun r log =>
    (length log <= 3)%nat
    /\ Forall (fun eff => exists op error, eff = EffFs op error
         /\ handler_allows envelope operation direction op) log
    /\ match r with
       | Ok outcome => truthful outcome log
       | Err code => code = 76 /\ @qualification_crash_env W HH <> None
           /\ (log = [] \/ exists digest audit, truthful (HoSuccess digest audit) log)
       end).
Proof.
  unfold handle. apply wp_returning.
  apply (wp_weaken _ _ (handled (handler_allows envelope operation direction))).
  2: { intros [|[]] log' H; exact H. }
  apply wp_bind, wp_map_err. eapply wp_weaken; [apply validate_envelope_root_wp|].
  intros r log [-> Hr]. destruct r as [root|e]; cbn [map_err]; [|apply handled_refused].
  destruct Hr as (Hv & Ha & Hd).
  apply wp_bind, wp_return_if; intros Hop; [apply handled_refused|].
  apply negb_false_iff, bool_decide_eq_true in Hop.
  apply wp_bind, wp_map_err, wp_lift.
  destruct (validate_primitive _ _); cbn [map_err]; [|apply handled_refused].
  apply wp_bind. assert (wp (dispatch (W := Traced W) root envelope (aom_primitive operation) direction)
    [] (handled (handler_allows envelope operation direction))) as Hdisp.
  { eapply wp_weaken; [apply dispatch_wp|]. intros r log (Hl & Hall & Ht). split_and!; [done| |done].
    eapply Forall_impl; [exact Hall|]. intros eff (op & error & -> & Hp).
    exists op, error. split; [done|]. split_and!; [done..|]. by exists root. }
  destruct (operation_requires_qualified_case_only_staging operation).
  - apply wp_bind, wp_return_if; intros _; [apply handled_refused|].
    apply wp_return_if; intros _; [apply handled_refused|done].
  - by apply wp_ret.
Qed.

(** C28: The outcome of an operation is truthful: [Success] is reported only
    after a mutation that the platform reported done, preceded only by attempts
    that failed without effect; [ProvenNotApplied] only when every mutation
    that was asked for failed with an error that guarantees nothing changed;
    anything else is [RecoveryRequired].  At most three mutations are asked
    for, and the process exits early only at an injected crash. *)
Theorem handle_truthful envelope operation direction (w w' : W) r log :
  handle (W := Traced W) envelope operation direction (w, []) = (r, (w', log)) ->
  (length log <= 3)%nat /\
  match r with
  | Ok outcome => truthful outcome log
  | Err code => code = 76 /\ @qualification_crash_env W HH <> None
      /\ (log = [] \/ exists digest audit, truthful (HoSuccess digest audit) log)
  end.
Proof.
  intros H. pose proof (handle_wp envelope operation direction w) as Hw. rewrite H in Hw.
  by destruct Hw as (? & ? & ?).
Qed.

(** The handler mutates nothing but what the envelope says: whatever it is
    given, every mutation asked of the platform belongs to the exact operation
    of a valid envelope, is the one its primitive stands for in the requested
    direction, and names paths resolved below the absolute root of the
    envelope. *)
Theorem handle_confined envelope operation direction (w w' : W) r log :
  handle (W := Traced W) envelope operation direction (w, []) = (r, (w', log)) ->
  Forall (fun eff => exists op error, eff = EffFs op error
    /\ handler_allows envelope operation direction op) log.
Proof.
  intros H. pose proof (handle_wp envelope operation direction w) as Hw. rewrite H in Hw.
  by destruct Hw as (? & ? & ?).
Qed.
End observed.

(** ** Witnesses *)

#[local] Existing Instances sample_uuid sample_blake3 ascii_unicode_case.

(** A platform on which a rename first meets a sharing violation. *)
#[local] Instance sample_safe : SafeFileOperations nat := {|
  rename_same_volume_no_replace _ := fun n =>
    match n with
    | O => (Err PeSharingViolation, 1%nat)
    | S _ => (Ok {| ro_observed_identity := sample_identity |}, 2%nat)
    end;
  create_directory_no_replace _ := fun n => (Ok tt, n);
  remove_directory_if_empty _ := fun n => (Ok tt, n)
|}.
#[local] Instance sample_reads : ReadOnlyPlatform nat := {|
  inspect_volume _ := fun n => (Ok sample_volume, n);
  fingerprint _ _ _ := fun n => (Ok sample_fingerprint, n);
  fingerprint_streaming _ _ := fun n => (Ok sample_fingerprint, n)
|}.
#[local] Instance sample_verifying : VerifyingPlatform nat := {|
  verifying_reads := sample_reads;
  validate_destination_absent _ := fun n => (Ok tt, n)
|}.
#[local] Instance sample_fs : StdFs nat := {|
  symlink_metadata _ := fun n =>
    (Ok {| md_is_symlink := false; md_is_dir := true; md_is_file := false |}, n);
  canonicalize path := fun n => (Ok path, n);
  read_dir_first _ := fun n => (Ok None, n)
|}.
#[local] Instance sample_host : HandlerHost nat := {|
  handler_fs := sample_fs;
  is_cancelled n := (false, n);
  qualification_crash_env := None
|}.
#[local] Instance sample_target : Target := false.

Definition sample_manifest : option ApprovedOperationManifest :=
  head (iee_operations sample_envelope).

Definition sample_handled (direction : OperationDirection) :=
  match sample_manifest with
  | Some operation => handle (W := Traced nat) sample_envelope operation direction (0%nat, [])
  | None => (Err 0, (0%nat, []))
  end.

Lemma handle_truthful_witness :
  match sample_handled DirForward with
  | (Ok (HoSuccess digest audit), (_, log)) =>
      eaa_attempt_count audit = 2 /\ truthful (HoSuccess digest audit) log
  | _ => False
  end.
Proof.
  unfold sample_handled. destruct sample_manifest as [operation|] eqn:Ho; [|vm_compute in Ho; discriminate Ho].
  destruct (handle (W := Traced nat) sample_envelope operation DirForward (0%nat, []))
    as [r [w' log]] eqn:H.
  pose proof (proj2 (handle_truthful sample_envelope operation DirForward 0%nat w' r log H)) as Ht.
  vm_compute in Ho. injection Ho as <-. vm_compute in H. injection H as <- <- <-.
  split; [reflexivity|exact Ht].
Defined.

Lemma handle_confined_witness :
  match sample_handled DirRollback with
  | (_, (_, log)) => length log = 2%nat /\ Forall (fun eff => exists op error, eff = EffFs op error) log
  end.
Proof.
  unfold sample_handled. destruct sample_manifest as [operation|] eqn:Ho; [|vm_compute in Ho; discriminate Ho].
  destruct (handle (W := Traced nat) sample_envelope operation DirRollback (0%nat, []))
    as [r [w' log]] eqn:H.
  pose proof (handle_confined sample_envelope operation DirRollback 0%nat w' r log H) as Hc.
  split.
  - vm_compute in Ho. injection Ho as <-. vm_compute in H. injection H as <- <- <-. reflexivity.
  - eapply List.Forall_impl; [|exact Hc]. intros eff (op & error & He & _). by exists op, error.
Defined.

Lemma resolve_relative_agrees_witness :
  exists path, resolve_relative (bstr "/data") (lit "Clients/a.txt") = Ok path
    /\ components path = [RootDir; Normal (bstr "data"); Normal (bstr "Clients"); Normal (bstr "a.txt")].
Proof.
  assert (Forall (fun c => is_scalar c = true) (lit "Clients/a.txt")) as Hs
    by (apply List.Forall_forall, forallb_forall; vm_compute; reflexivity).
  assert (validate_string (lit "Clients/a.txt") MAX_RELATIVE_PATH_BYTES (lit "relative path") = Ok tt)
    as Hv by (vm_compute; reflexivity).
  assert (is_ok (validate_relative_path (lit "Clients/a.txt")) = true) as Hok
    by (vm_compute; reflexivity).
  pose proof (resolve_relative_agrees (bstr "/data") (lit "Clients/a.txt") Hs Hv) as H.
  rewrite Hok in H.
  destruct H as (path & Hr & Hc). exists path. split; [exact Hr|].
  rewrite Hc. vm_compute. reflexivity.
Defined.
