(* ===== verification/ExecSession.v ===== *)
(** * The executor's session

    workers/operation-executor/src/lib.rs, from [Clock] to
    [frame_error_code]: the handshake of a worker process and the loop that
    serves the authenticated requests of one session. *)

From S2P Require Export ExecAuth Framing ExecHandler.
From S2P Require Import Samples.
#[local] Open Scope Z_scope.

(** ** Frames *)

Inductive CoordinatorHandshakeFrame := ChOpenSession (open_session : OpenSession).
Inductive CoordinatorSessionFrame := CsExecuteOperation (request : AuthenticatedOperationRequest).
Inductive ExecutorFrame :=
  | EfHello (hello : Hello)
  | EfSessionOpened (opened : SessionOpened)
  | EfHandshakeRefusal (refusal : HandshakeRefusal)
  | EfOperationResponse (response : AuthenticatedOperationResponse).

(** ** Interfaces *)

Inductive ServerError :=
  | SeRootAuthorityUnavailable | SeClock | SeRandomness
  | SeFrame (error : FrameError) | SeAuthentication (error : AuthenticationError).

Inductive ServerExit := ExitCoordinatorEof | ExitRefused | ExitRecoveryRequired.

(** [serve] ends with an error or with the exit of the process. *)
Inductive Stop := ServerFails (error : ServerError) | ProcessExits (code : Z).

(** [trait Clock] and [trait NonceSource]. *)
Class ServerHost (W : Type) : Type := {
  now_unix_ms : SE W ServerError Z;
  next_nonce : SE W ServerError FixedBytes32
}.

(** [trait ExecutorHandler]. *)
Class ExecutorHandler (W : Type) : Type :=
  handler_handle : ImmutableExecutionEnvelope -> ApprovedOperationManifest -> OperationDirection ->
    SE W Z HandlerOutcome.

Definition frame_error_code (error : FrameError) : str :=
  match error with
  | FeOversized => lit "frame_oversized"
  | FeTruncated => lit "frame_truncated"
  | FeDecode => lit "frame_invalid"
  | FeEncode => lit "frame_encode_failed"
  | FeIo _ => lit "pipe_io_failed"
  end.

(** [root_authority_from_bytes]. *)
Definition root_authority_from_bytes (stored : bytes) : res ServerError bytes32 :=
  ok_or (barray_of 32 stored) SeRootAuthorityUnavailable.

(** What the loop of [serve_session] remembers. *)
Record SessionState := {
  ss_next_sequence : Z;
  ss_seen_nonces : gset FixedBytes32;
  ss_attempted_bindings : gset (str * bool);
  ss_applied_forward : gset str;
  ss_remaining_rollback : gset str
}.

Definition is_rollback (direction : OperationDirection) : bool :=
  match direction with DirRollback => true | DirForward => false end.

(** The conversion of a handler's outcome. *)
Definition executor_outcome (now : Z) (outcome : HandlerOutcome) : ExecutorOutcome :=
  match outcome with
  | HoSuccess observed_state_digest audit => OutSuccess now observed_state_digest audit
  | HoProvenNotApplied code detail audit => OutProvenNotApplied code detail audit
  | HoRecoveryRequired code detail audit => OutRecoveryRequired code detail audit
  end.

Definition succeeded (outcome : HandlerOutcome) : bool :=
  match outcome with HoSuccess _ _ => true | _ => false end.
Definition recovery_is_required (outcome : HandlerOutcome) : bool :=
  match outcome with HoRecoveryRequired _ _ _ => true | _ => false end.

(** The bookkeeping after a response was sent. *)
Definition note_outcome (st : SessionState) (operation : OperationBinding)
    (outcome : HandlerOutcome) : SessionState :=
  if succeeded outcome then
    match ob_direction operation with
    | DirForward => {|
        ss_next_sequence := ss_next_sequence st;
        ss_seen_nonces := ss_seen_nonces st;
        ss_attempted_bindings := ss_attempted_bindings st;
        ss_applied_forward := {[ob_operation_id operation]} ∪ ss_applied_forward st;
        ss_remaining_rollback := ss_remaining_rollback st |}
    | DirRollback => {|
        ss_next_sequence := ss_next_sequence st;
        ss_seen_nonces := ss_seen_nonces st;
        ss_attempted_bindings := ss_attempted_bindings st;
        ss_applied_forward := ss_applied_forward st;
        ss_remaining_rollback := ss_remaining_rollback st ∖ {[ob_operation_id operation]} |}
    end
  else st.

Section server.
Context {W : Type} `{B3 : Blake3} `{UU : UuidCrate} `{AS : AuthSerde}.
Context `{WR : Writer W} `{SH : ServerHost W} `{EH : ExecutorHandler W}.
Context `{TF : ToVec ExecutorFrame}.
Context `{FH : FromSlice CoordinatorHandshakeFrame} `{FC : FromSlice CoordinatorSessionFrame}.

(** The input and the rest of the world. *)
Notation IO := (Reader * W)%type.

Definition on_world {E A} (m : SE W E A) : SE IO E A :=
  fun '(r, w) => let '(x, w') := m w in (x, (r, w')).
Definition on_reader {E A} (m : SE Reader E A) : SE IO E A :=
  fun '(r, w) => let '(x, r') := m r in (x, (r', w)).

Definition authenticated {A} (m : res AuthenticationError A) : SE W ServerError A :=
  se_lift (map_err SeAuthentication m).

Definition send_frame (frame : ExecutorFrame) : SE W ServerError unit :=
  se_map_err SeFrame (write_frame frame).

(** [send_response]. *)
Definition send_response (open_session : OpenSession) (session_key : SessionKey) (sequence : Z)
    (operation : OperationBinding) (outcome : ExecutorOutcome) : SE W ServerError unit :=
  now ← now_unix_ms;
  let expires_at := Z.min (i64_saturating_add now MAX_MESSAGE_LIFETIME_MS)
    (os_expires_at_unix_ms open_session) in
  nonce ← next_nonce;
  response ← authenticated (response_signed open_session sequence nonce now expires_at operation
    outcome session_key);
  send_frame (EfOperationResponse response).

(** [send_protocol_refusal]. *)
Definition send_protocol_refusal (open_session : OpenSession) (session_key : SessionKey)
    (sequence : Z) (operation : OperationBinding) (category : ProtocolRefusalCategory)
    (code detail : str) : SE W ServerError unit :=
  send_response open_session session_key sequence operation (OutProtocolRefusal
    {| pref_category := category; pref_code := code; pref_detail := detail |}).

(** [refuse_handshake]. *)
Definition refuse_handshake (hello : Hello) (root_authority_key : bytes32)
    (category : ProtocolRefusalCategory) (code detail : str) : SE W ServerError ServerExit :=
  nonce ← next_nonce;
  now ← now_unix_ms;
  refusal ← authenticated (handshake_refusal_signed hello nonce now
    {| pref_category := category; pref_code := code; pref_detail := detail |} root_authority_key);
  send_frame (EfHandshakeRefusal refusal);;
  mret ExitRefused.

(** Why a request that verified is not executed: the guards of the loop, in
    their order. *)
Definition request_refusal (open_session : OpenSession) (st : SessionState)
    (request : AuthenticatedOperationRequest) :
    (ProtocolRefusalCategory * str * str) + ApprovedOperationManifest :=
  let binding := rq_operation request in
  let direction := ob_direction binding in
  if bool_decide (rq_message_nonce request ∈ ss_seen_nonces st) then
    inl (PrcReplay, lit "message_nonce_replay",
      lit "The operation request reused a session message nonce.")
  else if negb (permits (os_authorization open_session) (ob_operation_id binding) direction) then
    inl (PrcProtocol, lit "operation_direction_not_authorized",
      lit "The root-authenticated session does not authorize this operation direction.")
  else match envelope_operation (os_envelope open_session) (ob_operation_id binding) with
  | None => inl (PrcProtocol, lit "operation_not_in_envelope",
      lit "The requested operation is not in the immutable session envelope.")
  | Some operation =>
      if bool_decide ((ob_operation_id binding, is_rollback direction) ∈ ss_attempted_bindings st) then
        inl (PrcReplay, lit "operation_replay",
          lit "The operation direction was already attempted in this child process.")
      else if bool_decide (direction = DirForward)
          && existsb (fun dependency => negb (bool_decide (dependency ∈ ss_applied_forward st)))
               (aom_dependencies operation) then
        inl (PrcProtocol, lit "dependency_not_applied",
          lit "An approved dependency has not completed in this child session.")
      else if bool_decide (direction = DirRollback)
          && existsb (fun candidate =>
               bool_decide (aom_operation_id candidate ∈ ss_remaining_rollback st)
               && bool_decide (aom_operation_id operation ∈ aom_dependencies candidate))
               (iee_operations (os_envelope open_session)) then
        inl (PrcProtocol, lit "rollback_dependency_still_applied",
          lit "A dependent operation must be rolled back before this operation.")
      else inr operation
  end.

(** One turn of the loop of [serve_session]: the next state, or the exit.
    After a refusal the session is over, so what was already inserted in the
    sets is not read again. *)
Definition serve_one (open_session : OpenSession) (session_key : SessionKey) (hello : Hello)
    (root_authority_key : bytes32) (st : SessionState) : SE IO Stop (SessionState + ServerExit) :=
  let refuse operation category code detail :=
    on_world (se_map_err ServerFails (send_protocol_refusal open_session session_key
      (ss_next_sequence st) operation category code detail));;
    mret (inr ExitRefused) in
  frame ← on_reader (se_try read_frame);
  match frame with
  | Ok None => mret (inr ExitCoordinatorEof)
  | Err error =>
      exit ← on_world (se_map_err ServerFails (refuse_handshake hello root_authority_key PrcProtocol
        (frame_error_code error) (lit "The authenticated session frame was malformed.")));
      mret (inr exit)
  | Ok (Some (CsExecuteOperation request)) =>
      now ← on_world (se_map_err ServerFails now_unix_ms);
      match request_verify request open_session (ss_next_sequence st) session_key now with
      | Err error => refuse (rq_operation request) (refusal_category error) (refusal_code error)
          (lit "The operation request failed authenticated session validation.")
      | Ok _ =>
      match request_refusal open_session st request with
      | inl (category, code, detail) => refuse (rq_operation request) category code detail
      | inr operation =>
          let binding := rq_operation request in
          outcome ← on_world (se_map_err ProcessExits
            (handler_handle (os_envelope open_session) operation (ob_direction binding)));
          on_world (se_map_err ServerFails (send_response open_session session_key
            (ss_next_sequence st) binding (executor_outcome now outcome)));;
          next ← se_lift (ok_or (u64_checked_add (ss_next_sequence st) 1)
            (ServerFails (SeAuthentication AeSequenceMismatch)));
          if recovery_is_required outcome then mret (inr ExitRecoveryRequired)
          else mret (inl (note_outcome {|
            ss_next_sequence := next;
            ss_seen_nonces := {[rq_message_nonce request]} ∪ ss_seen_nonces st;
            ss_attempted_bindings :=
              {[(ob_operation_id binding, is_rollback (ob_direction binding))]}
                ∪ ss_attempted_bindings st;
            ss_applied_forward := ss_applied_forward st;
            ss_remaining_rollback := ss_remaining_rollback st |} binding outcome))
      end end
  end.

(** The loop, with fuel; [None] is the end of the fuel. *)
Fixpoint serve_loop (fuel : nat) (open_session : OpenSession) (session_key : SessionKey)
    (hello : Hello) (root_authority_key : bytes32) (st : SessionState) :
    SE IO Stop (option ServerExit) :=
  match fuel with
  | O => mret None
  | S fuel =>
      next ← serve_one open_session session_key hello root_authority_key st;
      match next with
      | inl st => serve_loop fuel open_session session_key hello root_authority_key st
      | inr exit => mret (Some exit)
      end
  end.

Definition initial_session (open_session : OpenSession) : SessionState := {|
  ss_next_sequence := 1;
  ss_seen_nonces := ∅;
  ss_attempted_bindings := ∅;
  ss_applied_forward := ∅;
  ss_remaining_rollback := rollback_eligible_ids (os_authorization open_session)
|}.

(** [serve_session]; every turn consumes input, which bounds the fuel. *)
Definition serve_session (open_session : OpenSession) (session_key : SessionKey) (hello : Hello)
    (root_authority_key : bytes32) : SE IO Stop (option ServerExit) := fun io =>
  serve_loop (S (input_size (fst io))) open_session session_key hello root_authority_key
    (initial_session open_session) io.

(** [serve]. *)
Definition serve (root_authority_key : bytes32) (worker_pid : Z) : SE IO Stop (option ServerExit) :=
  let server {A} (m : SE W ServerError A) := on_world (se_map_err ServerFails m) in
  let refuse hello category code detail :=
    exit ← server (refuse_handshake hello root_authority_key category code detail);
    mret (Some exit) in
  nonce ← server next_nonce;
  issued_at ← server now_unix_ms;
  hello ← server (authenticated (hello_signed worker_pid nonce issued_at root_authority_key));
  server (send_frame (EfHello hello));;
  frame ← on_reader (se_try read_frame);
  match frame with
  | Ok None => mret (Some ExitCoordinatorEof)
  | Err error => refuse hello PrcProtocol (frame_error_code error)
      (lit "The coordinator handshake frame was rejected.")
  | Ok (Some (ChOpenSession open_session)) =>
      now ← server now_unix_ms;
      match open_session_verify open_session hello root_authority_key now with
      | Err error => refuse hello (refusal_category error) (refusal_code error)
          (lit "The execution session could not be authenticated.")
      | Ok _ =>
          session_key ← server (authenticated
            (derive_session_key root_authority_key hello open_session));
          nonce ← server next_nonce;
          now ← server now_unix_ms;
          opened ← server (authenticated
            (session_opened_signed open_session nonce now session_key));
          server (send_frame (EfSessionOpened opened));;
          serve_session open_session session_key hello root_authority_key
      end
  end.
End server.

(** ** Termination *)

Section termination.
Context {W : Type} `{B3 : Blake3} `{UU : UuidCrate} `{AS : AuthSerde}.
Context `{WR : Writer W} `{SH : ServerHost W} `{EH : ExecutorHandler W}.
Context `{TF : ToVec ExecutorFrame}.
Context `{FH : FromSlice CoordinatorHandshakeFrame} `{FC : FromSlice CoordinatorSessionFrame}.

Lemma on_world_reader {E A} (m : SE W E A) (io : Reader * W) :
  fst (snd (on_world m io)) = fst io.
Proof. destruct io as [r w]. unfold on_world. by destruct (m w). Qed.

(** Runs a bind whose first computation leaves the reader alone. *)
Lemma on_world_bind {E A B} (m : SE W E A) (k : A -> SE (Reader * W) E B) r w :
  (on_world m ≫= k) (r, w) =
    match m w with (Ok a, w') => k a (r, w') | (Err e, w') => (Err e, (r, w')) end.
Proof. cbv [mbind se_bind on_world]. by destruct (m w) as [[]]. Qed.

Lemma on_reader_bind {E F A B} (m : SE Reader F A) (k : res F A -> SE (Reader * W) E B) r w :
  (on_reader (se_try m) ≫= k) (r, w) = let '(x, r') := m r in k x (r', w).
Proof. cbv [mbind se_bind on_reader se_try]. by destruct (m r). Qed.

(** A turn that goes on has consumed input. *)
Lemma serve_one_shrinks os key hello root st r w st' r' w' :
  serve_one (W := W) os key hello root st (r, w) = (Ok (inl st'), (r', w')) ->
  (input_size r' < input_size r)%nat.
Proof.
  unfold serve_one. intros (frame & [r1 w1] & Hf & H)%se_bind_Ok.
  unfold on_reader, se_try in Hf. destruct (read_frame r) as [x r2] eqn:Hr.
  injection Hf as <- <- <-. destruct x as [[[request]|]|error]; [|done|].
  2: { rewrite on_world_bind in H. by destruct (se_map_err _ _ _) as [[]]. }
  apply read_frame_shrinks in Hr. rewrite on_world_bind in H.
  destruct (se_map_err _ _ _) as [[now|] w2]; [|done].
  destruct (request_verify _ _ _ _ _) as [[]|error].
  2: { rewrite on_world_bind in H. by destruct (se_map_err _ _ _) as [[]]. }
  destruct (request_refusal os st request) as [[[category code] detail]|operation].
  { rewrite on_world_bind in H. by destruct (se_map_err _ _ _) as [[]]. }
  rewrite on_world_bind in H. destruct (se_map_err _ _ _) as [[outcome|] w3]; [|done].
  rewrite on_world_bind in H. destruct (se_map_err _ _ _) as [[]w4]; [|done].
  apply se_bind_Ok in H as (next & [r5 w5] & Hn & H).
  unfold se_lift in Hn. injection Hn as _ <- <-.
  destruct (recovery_is_required outcome); [done|]. by injection H as _ <- _.
Qed.

Lemma serve_loop_returns fuel os key hello root st (io : Reader * W) :
  (input_size (fst io) < fuel)%nat -> fst (serve_loop fuel os key hello root st io) <> Ok None.
Proof.
  revert st io. induction fuel as [|fuel IH]; intros st [r w] Hf; [lia|]. cbn [serve_loop].
  cbv [mbind se_bind]. destruct (serve_one os key hello root st (r, w)) as [[[st'|exit]|e] [r' w']]
    eqn:H; [|done..].
  apply serve_one_shrinks in H. apply IH. cbn [fst] in *. lia.
Qed.

(** C29: The worker process ends: whatever the coordinator sends, however the
    stream is cut and whatever the handler does, [serve] returns an exit or an
    error; the loop of a session runs at most once per frame received. *)
Theorem serve_returns root pid (io : Reader * W) :
  exists r io', serve root pid io = (r, io') /\ r <> Ok None.
Proof.
  destruct (serve root pid io) as [r io'] eqn:H. exists r, io'. split; [done|]. intros ->.
  unfold serve in H. destruct io as [rd w].
  repeat (rewrite on_world_bind in H; destruct (se_map_err _ _ _) as [[?|] ?]; [|done]).
  apply se_bind_Ok in H as (frame & [rdF wF] & _ & H).
  destruct frame as [[[os]|]|error]; [|done|].
  2: { rewrite on_world_bind in H. by destruct (se_map_err _ _ _) as [[]]. }
  rewrite on_world_bind in H. destruct (se_map_err _ _ _) as [[now|] ?]; [|done].
  destruct (open_session_verify _ _ _ _) as [[]|error].
  2: { rewrite on_world_bind in H. by destruct (se_map_err _ _ _) as [[]]. }
  repeat (rewrite on_world_bind in H; destruct (se_map_err _ _ _) as [[?|] ?]; [|done]).
  unfold serve_session in H. apply (f_equal fst) in H. revert H. apply serve_loop_returns.
  cbn [fst]. lia.
Qed.
End termination.

(** ** Specification: what a session may execute

    An abstract machine over the calls made so far, with no sequence numbers,
    nonces, frames or sets: it only says which operation may be attempted
    next. *)

Record Call := {
  call_operation : ApprovedOperationManifest;
  call_direction : OperationDirection;
  call_result : res Z HandlerOutcome
}.

Definition call_key (c : Call) : str * bool :=
  (aom_operation_id (call_operation c), is_rollback (call_direction c)).

Definition call_succeeded (c : Call) : bool :=
  match call_result c with Ok outcome => succeeded outcome | Err _ => false end.

(** The session goes on after a call that returned and needs no recovery. *)
Definition call_settled (c : Call) : bool :=
  match call_result c with Ok outcome => negb (recovery_is_required outcome) | Err _ => false end.

(** The identifiers that were carried out in a direction. *)
Definition done_in (rollback : bool) (calls : list Call) (id : str) : Prop :=
  Exists (fun c => call_succeeded c = true /\ call_key c = (id, rollback)) calls.
#[export] Instance done_in_dec rollback calls id : Decision (done_in rollback calls id) :=
  Exists_dec _ _.

Definition may_call (open_session : OpenSession) (calls : list Call)
    (operation : ApprovedOperationManifest) (direction : OperationDirection) : Prop :=
  envelope_operation (os_envelope open_session) (aom_operation_id operation) = Some operation
  /\ permits (os_authorization open_session) (aom_operation_id operation) direction = true
  /\ (aom_operation_id operation, is_rollback direction) ∉ call_key <$> calls
  /\ Forall (fun c => call_settled c = true) calls
  /\ match direction with
     | DirForward => forall d, d ∈ aom_dependencies operation -> done_in false calls d
     | DirRollback => forall candidate, candidate ∈ iee_operations (os_envelope open_session) ->
         aom_operation_id operation ∈ aom_dependencies candidate ->
         aom_operation_id candidate ∈ rollback_eligible_ids (os_authorization open_session) ->
         done_in true calls (aom_operation_id candidate)
     end.

Inductive session_trace (open_session : OpenSession) : list Call -> Prop :=
  | trace_start : session_trace open_session []
  | trace_call calls c :
      session_trace open_session calls ->
      may_call open_session calls (call_operation c) (call_direction c) ->
      session_trace open_session (calls ++ [c]).

(** ** Observing the calls of the handler *)

Definition Observed (W : Type) : Type := W * list Call.

Definition unobserved {W E A} (m : SE W E A) : SE (Observed W) E A :=
  fun '(w, calls) => let '(r, w') := m w in (r, (w', calls)).

#[export] Instance observed_writer {W} `{Writer W} : Writer (Observed W) := {|
  write_all l := unobserved (write_all l);
  write_flush := unobserved write_flush
|}.
#[export] Instance observed_server {W} `{ServerHost W} : ServerHost (Observed W) := {|
  now_unix_ms := unobserved now_unix_ms;
  next_nonce := unobserved next_nonce
|}.
#[export] Instance observed_handler {W} `{ExecutorHandler W} : ExecutorHandler (Observed W) :=
  fun envelope operation direction '(w, calls) =>
    let '(r, w') := handler_handle envelope operation direction w in
    (r, (w', calls ++ [{| call_operation := operation; call_direction := direction;
                          call_result := r |}])).

(** The concrete state stands for the calls that were made. *)
Definition represents (open_session : OpenSession) (st : SessionState) (calls : list Call) : Prop :=
  session_trace open_session calls
  /\ Forall (fun c => call_settled c = true) calls
  /\ (forall key, key ∈ ss_attempted_bindings st <-> key ∈ call_key <$> calls)
  /\ (forall id, id ∈ ss_applied_forward st <-> done_in false calls id)
  /\ (forall id, id ∈ ss_remaining_rollback st <->
        id ∈ rollback_eligible_ids (os_authorization open_session) /\ ~ done_in true calls id).

Lemma represents_initial os : represents os (initial_session os) [].
Proof.
  split_and!; cbn; [constructor|constructor|set_solver| |].
  - intros id. split; [set_solver|]. by intros ?%Exists_nil.
  - intros id. split; [|tauto]. intros H. split; [done|]. by intros ?%Exists_nil.
Qed.

Lemma done_in_snoc rollback calls c id :
  done_in rollback (calls ++ [c]) id <->
  done_in rollback calls id \/ (call_succeeded c = true /\ call_key c = (id, rollback)).
Proof. unfold done_in. rewrite Exists_app, Exists_cons, Exists_nil. tauto. Qed.

(** The guards of the loop decide [may_call]. *)
Lemma request_refusal_inr os st request operation calls :
  represents os st calls ->
  request_refusal os st request = inr operation ->
  aom_operation_id operation = ob_operation_id (rq_operation request)
  /\ may_call os calls operation (ob_direction (rq_operation request)).
Proof.
  intros (Htr & Hset & Hat & Hap & Hrem). unfold request_refusal. cbv zeta.
  case_bool_decide; [done|]. destruct (permits _ _ _) eqn:Hp; cbn [negb]; [|done].
  destruct (envelope_operation _ _) as [op|] eqn:He; [|done].
  case_bool_decide as Hnew; [done|]. rewrite Hat in Hnew.
  pose proof (envelope_operation_Some _ _ _ He) as [Hin Hid].
  destruct (ob_direction (rq_operation request)) eqn:Hd; cbn [is_rollback] in *;
    rewrite ?bool_decide_true, ?bool_decide_false by done; cbn [andb];
    destruct (existsb _ _) eqn:Hex; try done; intros [= <-]; (split; [done|]);
    (split_and!; [by rewrite Hid | by rewrite Hid | by rewrite Hid | done |]).
  - intros d Hdep. apply Hap. destruct (decide (d ∈ ss_applied_forward st)) as [|Hno]; [done|].
    enough (existsb (fun dependency => negb (bool_decide (dependency ∈ ss_applied_forward st)))
      (aom_dependencies op) = true) by congruence.
    apply existsb_exists. exists d. rewrite bool_decide_false by done.
    split; [by apply list_elem_of_In|done].
  - intros candidate Hc Hdep Hel.
    destruct (decide (aom_operation_id candidate ∈ ss_remaining_rollback st)) as [Hr|Hno].
    + exfalso. assert (existsb (fun candidate =>
        bool_decide (aom_operation_id candidate ∈ ss_remaining_rollback st)
        && bool_decide (aom_operation_id op ∈ aom_dependencies candidate))
        (iee_operations (os_envelope os)) = true) as Ht; [|congruence].
      apply existsb_exists. exists candidate. rewrite !bool_decide_true by done.
      split; [by apply list_elem_of_In|done].
    + rewrite Hrem in Hno. apply dec_stable. tauto.
Qed.

Section refinement.
Context {W : Type} `{B3 : Blake3} `{UU : UuidCrate} `{AS : AuthSerde}.
Context `{WR : Writer W} `{SH : ServerHost W} `{EH : ExecutorHandler W}.
Context `{TF : ToVec ExecutorFrame}.
Context `{FH : FromSlice CoordinatorHandshakeFrame} `{FC : FromSlice CoordinatorSessionFrame}.

(** Computations that do not call the handler. *)
Definition keeps {E A} (m : SE (Observed W) E A) : Prop :=
  forall w calls, snd (snd (m (w, calls))) = calls.

Lemma keeps_bind {E A B} (m : SE (Observed W) E A) (k : A -> SE (Observed W) E B) :
  keeps m -> (forall a, keeps (k a)) -> keeps (m ≫= k).
Proof.
  intros Hm Hk w calls. cbv [mbind se_bind]. specialize (Hm w calls).
  destruct (m (w, calls)) as [[a|e] [w' calls']]; cbn in *; subst; [apply Hk | done].
Qed.

Lemma keeps_lift {E A} (m : res E A) : keeps (se_lift m).
Proof. done. Qed.

Lemma keeps_ret {E A} (a : A) : keeps (E := E) (mret a).
Proof. done. Qed.

Lemma keeps_map_err {E F A} (f : E -> F) (m : SE (Observed W) E A) :
  keeps m -> keeps (se_map_err f m).
Proof. intros H w calls. specialize (H w calls). unfold se_map_err. by destruct (m (w, calls)). Qed.

Lemma keeps_unobserved {E A} (m : SE W E A) : keeps (unobserved m).
Proof. intros w calls. unfold unobserved. by destruct (m w). Qed.

Ltac keeps := repeat first
  [ apply keeps_unobserved | apply keeps_lift | apply keeps_ret | apply keeps_map_err
  | apply keeps_bind; [|intros ?] ].

Lemma keeps_send_frame frame : keeps (send_frame (W := Observed W) frame).
Proof. unfold send_frame, write_frame. keeps. Qed.

Lemma keeps_send_response os key sequence operation outcome :
  keeps (send_response (W := Observed W) os key sequence operation outcome).
Proof. unfold send_response, authenticated. keeps. Qed.

Lemma keeps_refuse_handshake hello root category code detail :
  keeps (refuse_handshake (W := Observed W) hello root category code detail).
Proof. unfold refuse_handshake, authenticated. keeps. Qed.

(** A computation of the world that keeps the calls, then the rest. *)
Lemma keeps_run {E A B} (m : SE (Observed W) E A) (k : A -> SE (Reader * Observed W) E B)
    r w calls x r' w' calls' :
  keeps m ->
  (on_world m ≫= k) (r, (w, calls)) = (x, (r', (w', calls'))) ->
  (exists e, x = Err e /\ calls' = calls)
  \/ exists a w1, k a (r, (w1, calls)) = (x, (r', (w', calls'))).
Proof.
  intros Hk H. rewrite on_world_bind in H. specialize (Hk w calls).
  destruct (m (w, calls)) as [[a|e] [w1 calls1]]; cbn in Hk; subst calls1.
  - right. by exists a, w1.
  - left. injection H as <- _ _ <-. by exists e.
Qed.

(** The state after a call that settled stands for one more call. *)
Lemma represents_call os st calls request operation outcome nonces next :
  represents os st calls ->
  aom_operation_id operation = ob_operation_id (rq_operation request) ->
  may_call os calls operation (ob_direction (rq_operation request)) ->
  recovery_is_required outcome = false ->
  represents os (note_outcome {|
      ss_next_sequence := next;
      ss_seen_nonces := nonces;
      ss_attempted_bindings :=
        {[(ob_operation_id (rq_operation request),
           is_rollback (ob_direction (rq_operation request)))]} ∪ ss_attempted_bindings st;
      ss_applied_forward := ss_applied_forward st;
      ss_remaining_rollback := ss_remaining_rollback st |} (rq_operation request) outcome)
    (calls ++ [{| call_operation := operation;
                  call_direction := ob_direction (rq_operation request);
                  call_result := Ok outcome |}]).
Proof.
  intros (Htr & Hset & Hat & Hap & Hrem) Hid Hmay Hrec.
  set (c := {| call_operation := operation |}).
  assert (call_key c = (ob_operation_id (rq_operation request),
    is_rollback (ob_direction (rq_operation request)))) as Hkey by (cbn; by rewrite <- Hid).
  assert (call_succeeded c = succeeded outcome) as Hsucc by done.
  unfold represents. split_and!; [by apply trace_call| | | |].
  - apply Forall_app_2; [done|]. constructor; [|constructor]. cbn. by rewrite Hrec.
  - intros key. rewrite fmap_app, elem_of_app, <- Hat. cbn [fmap list_fmap].
    rewrite Hkey, list_elem_of_singleton.
    unfold note_outcome. destruct (succeeded outcome), (ob_direction _); cbn; set_solver.
  - intros id. rewrite done_in_snoc, <- Hap, Hsucc, Hkey.
    unfold note_outcome. destruct (succeeded outcome), (ob_direction _); cbn; set_solver.
  - intros id. rewrite done_in_snoc, Hsucc, Hkey.
    unfold note_outcome. destruct (succeeded outcome), (ob_direction _); cbn;
      rewrite ?elem_of_difference, Hrem; set_solver.
Qed.

Lemma serve_one_refines os key hello root st r w calls x r' w' calls' :
  represents os st calls ->
  serve_one (W := Observed W) os key hello root st (r, (w, calls)) = (x, (r', (w', calls'))) ->
  session_trace os calls' /\ (forall st', x = Ok (inl st') -> represents os st' calls').
Proof.
  intros Hrep H. pose proof Hrep as (Htr & _).
  assert (forall calls0, session_trace os calls0 -> calls' = calls0 ->
    (forall st', x <> Ok (inl st')) ->
    session_trace os calls' /\ (forall st', x = Ok (inl st') -> represents os st' calls')) as Hend
    by (intros calls0 ? -> Hx; split; [done|]; intros st' ?; by destruct (Hx st')).
  assert (forall operation category code detail r0 w0,
    (on_world (se_map_err ServerFails (send_protocol_refusal (W := Observed W) os key
       (ss_next_sequence st) operation category code detail));;
     mret (inr ExitRefused)) (r0, (w0, calls)) = (x, (r', (w', calls'))) ->
    session_trace os calls' /\ (forall st', x = Ok (inl st') -> represents os st' calls')) as Hrefuse.
  { intros operation category code detail r0 w0 Hr. apply keeps_run in Hr
      as [(e & -> & ->)|([] & w1 & [= <- _ _ <-])]; [by apply (Hend calls)..|].
    apply keeps_map_err, keeps_send_response. }
  unfold serve_one in H. rewrite on_reader_bind in H.
  destruct (read_frame r) as [[[[request]|]|error] r1].
  2: { injection H as <- _ _ <-. by apply (Hend calls). }
  2: { apply keeps_run in H as [(e & -> & ->)|(exit & w1 & [= <- _ _ <-])]; [by apply (Hend calls)..|].
       apply keeps_map_err, keeps_refuse_handshake. }
  apply keeps_run in H as [(e & -> & ->)|(now & w1 & H)];
    [by apply (Hend calls)| |apply keeps_map_err, keeps_unobserved].
  destruct (request_verify _ _ _ _ _) as [[]|error]; [|by eapply Hrefuse].
  destruct (request_refusal os st request) as [[[category code] detail]|operation] eqn:Hreq;
    [by eapply Hrefuse|].
  apply (request_refusal_inr _ _ _ _ calls) in Hreq as [Hid Hmay]; [|done].
  rewrite on_world_bind in H. unfold se_map_err at 1 in H.
  cbn [handler_handle observed_handler] in H.
  destruct (handler_handle _ _ _ w1) as [result w2]. cbn [map_err] in H.
  set (c := {| call_operation := operation; call_direction := ob_direction (rq_operation request);
    call_result := result |}) in H.
  assert (session_trace os (calls ++ [c])) as Htr' by by apply trace_call.
  destruct result as [outcome|code]; cbn [map_err] in H.
  2: { injection H as <- _ _ <-. by apply (Hend (calls ++ [c])). }
  apply keeps_run in H as [(e & -> & ->)|([] & w3 & H)];
    [by apply (Hend (calls ++ [c]))| |apply keeps_map_err, keeps_send_response].
  destruct (u64_checked_add _ _) as [next|]; cbn in H.
  2: { injection H as <- _ _ <-. by apply (Hend (calls ++ [c])). }
  destruct (recovery_is_required outcome) eqn:Hrec; injection H as <- _ _ <-.
  - by apply (Hend (calls ++ [c])).
  - split; [done|]. intros st' [= <-]. by apply represents_call.
Qed.

Lemma serve_loop_refines fuel os key hello root : forall st r w calls x r' w' calls',
  represents os st calls ->
  serve_loop (W := Observed W) fuel os key hello root st (r, (w, calls)) = (x, (r', (w', calls'))) ->
  session_trace os calls'.
Proof.
  induction fuel as [|fuel IH]; intros st r w calls x r' w' calls' Hrep H; cbn [serve_loop] in H.
  { injection H as _ _ _ <-. apply Hrep. }
  cbv [mbind se_bind] in H.
  destruct (serve_one (W := Observed W) os key hello root st (r, (w, calls))) as [y [r1 [w1 calls1]]] eqn:H1.
  apply serve_one_refines in H1 as [Htr Hst]; [|done].
  destruct y as [[st1|exit]|e]; [exact (IH _ _ _ _ _ _ _ _ (Hst st1 eq_refl) H)| |];
    injection H as _ _ _ <-; done.
Qed.

Lemma serve_refines_aux root pid r w x r' w' calls :
  serve (W := Observed W) root pid (r, (w, [])) = (x, (r', (w', calls))) ->
  calls = [] \/ exists hello open_session now,
    hello_worker_pid (hello_material hello) = pid
    /\ open_session_verify open_session hello root now = Ok tt
    /\ session_trace open_session calls.
Proof.
  intros H. unfold serve in H. cbv zeta beta in H.
  assert (forall A (m : SE (Observed W) ServerError A), keeps m -> keeps (se_map_err ServerFails m))
    as Hk by (intros; by apply keeps_map_err).
  apply keeps_run in H as [(e & _ & ->)|(nonce & w1 & H)]; [by left| |apply Hk, keeps_unobserved].
  apply keeps_run in H as [(e & _ & ->)|(issued & w2 & H)]; [by left| |apply Hk, keeps_unobserved].
  rewrite on_world_bind in H. unfold se_map_err at 1, authenticated at 1, se_lift at 1 in H.
  destruct (hello_signed pid nonce issued root) as [hello|e] eqn:Hh; cbn [map_err] in H;
    [|injection H as _ _ _ <-; by left].
  apply keeps_run in H as [(e & _ & ->)|([] & w4 & H)]; [by left| |apply Hk, keeps_send_frame].
  rewrite on_reader_bind in H.
  destruct (read_frame r) as [[[[os]|]|error] r1].
  2: { injection H as _ _ _ <-. by left. }
  2: { apply keeps_run in H as [(e & _ & ->)|(exit & w5 & [= _ _ _ <-])]; [by left..|].
       apply Hk, keeps_refuse_handshake. }
  apply keeps_run in H as [(e & _ & ->)|(now & w5 & H)]; [by left| |apply Hk, keeps_unobserved].
  destruct (open_session_verify os hello root now) as [[]|error] eqn:Hv.
  2: { apply keeps_run in H as [(e & _ & ->)|(exit & w6 & [= _ _ _ <-])]; [by left..|].
       apply Hk, keeps_refuse_handshake. }
  apply keeps_run in H as [(e & _ & ->)|(key & w6 & H)]; [by left| |apply Hk, keeps_lift].
  apply keeps_run in H as [(e & _ & ->)|(nonce2 & w7 & H)]; [by left| |apply Hk, keeps_unobserved].
  apply keeps_run in H as [(e & _ & ->)|(now2 & w8 & H)]; [by left| |apply Hk, keeps_unobserved].
  apply keeps_run in H as [(e & _ & ->)|(opened & w9 & H)]; [by left| |apply Hk, keeps_lift].
  apply keeps_run in H as [(e & _ & ->)|([] & w10 & H)]; [by left| |apply Hk, keeps_send_frame].
  right. exists hello, os, now. split_and!; [|done|].
  - unfold hello_signed in Hh. inv_ok. done.
  - unfold serve_session in H. eapply serve_loop_refines; [apply represents_initial|exact H].
Qed.

(** C30: The worker refines the abstract machine of a session: whatever is sent
    to it, the operations it hands to its handler are none, or a run of the
    machine of one session that was authenticated under the root key for the
    [Hello] of this very process. *)
Theorem serve_refines_machine root pid r w x r' w' calls :
  serve (W := Observed W) root pid (r, (w, [])) = (x, (r', (w', calls))) ->
  calls = [] \/ exists hello open_session now,
    hello_worker_pid (hello_material hello) = pid
    /\ open_session_verify open_session hello root now = Ok tt
    /\ session_trace open_session calls.
Proof. apply serve_refines_aux. Qed.

Lemma session_trace_prefix os calls pre c post :
  session_trace os calls -> calls = pre ++ c :: post ->
  may_call os pre (call_operation c) (call_direction c).
Proof.
  intros H. revert post. induction H as [|calls c' H IH Hm]; intros post Hc.
  - by destruct pre.
  - apply snoc_split in Hc as [(-> & -> & ->)|(post' & -> & ->)]; [done|]. by eapply IH.
Qed.

(** An operation that depends on itself is never attempted forward. *)
Lemma self_dependency_never_served os calls c :
  session_trace os calls -> c ∈ calls -> call_direction c = DirForward ->
  aom_operation_id (call_operation c) ∉ aom_dependencies (call_operation c).
Proof.
  intros Htr (pre & post & Hc)%list_elem_of_split Hd Hdep.
  pose proof (session_trace_prefix _ _ _ _ _ Htr Hc) as (_ & _ & Hnew & _ & Hdeps).
  rewrite Hd in *. cbn in Hdeps. apply Hdeps, Exists_exists in Hdep as (c' & Hin & _ & Hkey).
  apply Hnew. cbn [is_rollback]. rewrite <- Hkey. apply list_elem_of_fmap. by exists c'.
Qed.

Lemma session_trace_nodup os calls : session_trace os calls -> NoDup (call_key <$> calls).
Proof.
  induction 1 as [|calls c H IH (_ & _ & Hn & _)]; [constructor|].
  rewrite fmap_app. apply NoDup_app. split_and!; [done| |cbn; by apply NoDup_singleton].
  intros k Hk ->%list_elem_of_singleton. done.
Qed.

(** An accepted opening of a session is the keyed MAC of its own fields and
    names the process and the nonce of the [Hello]. *)
Lemma open_session_verify_binds (open_session : OpenSession) hello root now :
  open_session_verify open_session hello root now = Ok tt ->
  (exists encoded, to_vec (os_material open_session) = Ok encoded
   /\ os_mac open_session = blake3_keyed root (OPEN_SESSION_MAC_DOMAIN ++ encoded))
  /\ os_child_pid open_session = hello_worker_pid hello
  /\ os_worker_nonce open_session = hello_worker_nonce hello
  /\ now < os_expires_at_unix_ms open_session.
Proof.
  intros (u & _ & (mac & Hm%keyed_mac_Ok & (u2 & <-%require_mac_Ok & (u3 & _ & (u4 & _ &
    (u5 & Hb%reject_if_Ok & (u6 & Ht%validate_session_time_Ok & _)%bind_Ok)%bind_Ok)%bind_Ok)
    %bind_Ok)%bind_Ok)%bind_Ok)%bind_Ok.
  bools. naive_solver lia.
Qed.

(** C31: What a worker executes: nothing, or operations of the envelope of one
    session that was opened under the root key for this very process, the same
    session for all of them.  Every operation is executed at most once in each
    direction, is frozen in that envelope and authorised for that session;
    forward only after each of its dependencies was carried out by this
    process; backward only after every operation of the envelope that depends
    on it and was eligible for rollback was rolled back; and nothing comes
    after an operation that failed or needs recovery. *)
Theorem served_operations_in_order root pid r w x r' w' calls :
  serve (W := Observed W) root pid (r, (w, [])) = (x, (r', (w', calls))) ->
  calls = [] \/ exists (open_session : OpenSession) (hello : Hello) now,
    let envelope := os_envelope open_session in
    hello_worker_pid hello = pid
    /\ open_session_verify open_session hello root now = Ok tt
    /\ (exists encoded, to_vec (os_material open_session) = Ok encoded
        /\ os_mac open_session = blake3_keyed root (OPEN_SESSION_MAC_DOMAIN ++ encoded))
    /\ os_child_pid open_session = pid
    /\ os_worker_nonce open_session = hello_worker_nonce hello
    /\ now < os_expires_at_unix_ms open_session
    /\ NoDup (call_key <$> calls)
    /\ forall pre c post, calls = pre ++ c :: post ->
      envelope_operation envelope (aom_operation_id (call_operation c)) = Some (call_operation c)
      /\ permits (os_authorization open_session) (aom_operation_id (call_operation c))
           (call_direction c) = true
      /\ Forall (fun c' => exists outcome, call_result c' = Ok outcome
           /\ recovery_is_required outcome = false) pre
      /\ match call_direction c with
         | DirForward => forall d, d ∈ aom_dependencies (call_operation c) -> done_in false pre d
         | DirRollback => forall candidate, candidate ∈ iee_operations envelope ->
             aom_operation_id (call_operation c) ∈ aom_dependencies candidate ->
             aom_operation_id candidate ∈ rollback_eligible_ids (os_authorization open_session) ->
             done_in true pre (aom_operation_id candidate)
         end.
Proof.
  intros [->|(hello & os & now & Hpid & Hv & Htr)]%serve_refines_aux; [by left|right].
  exists os, hello, now. cbv zeta.
  destruct (open_session_verify_binds _ _ _ _ Hv) as (Hm & Hc & Hn & Ht).
  split_and!; try done; [by rewrite Hc|by eapply session_trace_nodup|]. intros pre c post Hcalls.
  destruct (session_trace_prefix _ _ _ _ _ Htr Hcalls) as (H1 & H2 & _ & H3 & H4).
  split_and!; [done..| |done]. eapply Forall_impl; [exact H3|]. intros c'. unfold call_settled.
  destruct (call_result c') as [outcome|]; [|done]. intros Hr%negb_true_iff. by exists outcome.
Qed.
End refinement.

(** ** Witnesses: a session of two requests, the second a replay *)

#[local] Existing Instances sample_uuid sample_blake3 sample_auth_serde.

Definition sample_served_key : SessionKey :=
  the (derive_session_key sample_key sample_hello sample_session) (fill 32 x00).

Definition sample_request (sequence : Z) (nonce : byte) : option AuthenticatedOperationRequest :=
  match request_signed sample_session sequence (fill 32 nonce) 5000 8000 sample_operation
    sample_served_key with
  | Ok request => Some request
  | Err _ => None
  end.

(** One byte per frame: the handshake, then the requests. *)
#[local] Instance sample_handshake_from : FromSlice CoordinatorHandshakeFrame := fun l =>
  if decide (l = [x61]) then Ok (ChOpenSession sample_session) else Err [].
#[local] Instance sample_request_from : FromSlice CoordinatorSessionFrame := fun l =>
  match l, sample_request 1 x55, sample_request 2 x56 with
  | [b], Some first, Some second =>
      Ok (CsExecuteOperation (if decide (b = x62) then first else second))
  | _, _, _ => Err []
  end.
#[local] Instance sample_frame_to : ToVec ExecutorFrame := fun _ => Ok [x7b; x7d].

(** The world counts the nonces drawn. *)
#[local] Instance sample_writer : Writer nat :=
  {| write_all _ := fun n => (Ok tt, n); write_flush := fun n => (Ok tt, n) |}.
#[local] Instance sample_server : ServerHost nat := {|
  now_unix_ms := fun n => (Ok 5000, n);
  next_nonce := fun n => (Ok (fill 32 (if decide (n = 0%nat) then x51 else x57)), S n)
|}.
#[local] Instance sample_handler : ExecutorHandler nat :=
  fun _ _ _ n => (Ok (HoSuccess (fill 32 x63) (attempt_audit 1 None)), n).

Definition sample_input : Reader :=
  [Chunk x00 [x00; x00; x01; x61; x00; x00]; Chunk x00 [x01; x62; x00; x00; x00; x01; x63]].

Definition sample_served :=
  serve (W := Observed nat) sample_key 10 (sample_input, (0%nat, [])).

Lemma sample_served_calls :
  (aom_operation_id ∘ call_operation) <$> snd (snd (snd sample_served)) = [uuid_to_string (uid x41)]
  /\ fst sample_served = Ok (Some ExitRefused).
Proof. vm_compute. split; reflexivity. Qed.

Lemma serve_refines_machine_witness :
  exists open_session, session_trace open_session (snd (snd (snd sample_served))).
Proof.
  destruct sample_served as [x [r' [w' calls]]] eqn:H.
  pose proof (f_equal (fun s => length (snd (snd (snd s)))) H) as Hl. vm_compute in Hl.
  destruct (serve_refines_machine sample_key 10 sample_input 0%nat x r' w' calls H)
    as [->|(hello & os & now & _ & _ & Ht)]; [discriminate Hl|].
  exists os. exact Ht.
Defined.

Lemma served_operations_in_order_witness :
  exists open_session : OpenSession, os_child_pid open_session = 10
    /\ snd (snd (snd sample_served)) <> []
    /\ NoDup (call_key <$> snd (snd (snd sample_served))).
Proof.
  destruct sample_served as [x [r' [w' calls]]] eqn:H.
  pose proof (f_equal (fun s => length (snd (snd (snd s)))) H) as Hl. vm_compute in Hl.
  destruct (served_operations_in_order sample_key 10 sample_input 0%nat x r' w' calls H)
    as [->|(os & hello & now & _ & _ & _ & Hp & _ & _ & Hnd & _)]; [discriminate Hl|].
  exists os. split; [exact Hp|]. split; [|exact Hnd]. intros Hnil. cbn in Hnil. subst calls.
  discriminate Hl.
Defined.
