(* ===== verification/ExecWorker.v ===== *)
(** * The worker process

    workers/operation-executor/src/lib.rs: the session of ExecSession.v run
    with the handlers of the program, down to the file operations. *)

From S2P Require Export ExecSession.
From S2P Require Import Samples.
#[local] Open Scope Z_scope.

(** [RefusingExecutorHandler], where there is no native platform. *)
Definition refusing_handle {W} (envelope : ImmutableExecutionEnvelope)
    (operation : ApprovedOperationManifest) (direction : OperationDirection) :
    SE W Z HandlerOutcome :=
  mret (HoProvenNotApplied (lit "executor_handler_not_wired")
    (lit "The authenticated executor handler is not wired in this milestone.")
    (attempt_audit 1 (Some EecUnsupported))).

(** [NativeExecutorHandler] as the handler of a session. *)
Definition native_handler {W} `{B3 : Blake3} `{UU : UuidCrate} `{UC : UnicodeCase} `{TG : Target}
    `{SF : SafeFileOperations W} `{VP : VerifyingPlatform W} `{HH : HandlerHost W} :
    ExecutorHandler W := handle.

(** ** Invariants of a whole run *)

Section preserved.
Context {W : Type} `{B3 : Blake3} `{UU : UuidCrate} `{AS : AuthSerde}.
Context `{WR : Writer W} `{SH : ServerHost W} `{EH : ExecutorHandler W}.
Context `{TF : ToVec ExecutorFrame}.
Context `{FH : FromSlice CoordinatorHandshakeFrame} `{FC : FromSlice CoordinatorSessionFrame}.

Context (J : W -> Prop).

Definition preserves {E A} (m : SE W E A) : Prop := forall w, J w -> J (snd (m w)).
Definition io_preserves {E A} (m : SE (Reader * W) E A) : Prop :=
  forall io, J (snd io) -> J (snd (snd (m io))).

Lemma preserves_bind {E A B} (m : SE W E A) (k : A -> SE W E B) :
  preserves m -> (forall a, preserves (k a)) -> preserves (m ≫= k).
Proof.
  intros Hm Hk w Hw. specialize (Hm w Hw). cbv [mbind se_bind].
  destruct (m w) as [[a|e] w']; [by apply Hk | done].
Qed.
Lemma preserves_lift {E A} (m : res E A) : preserves (se_lift m).
Proof. by intros w Hw. Qed.
Lemma preserves_ret {E A} (a : A) : preserves (E := E) (mret a).
Proof. by intros w Hw. Qed.
Lemma preserves_map_err {E F A} (f : E -> F) (m : SE W E A) :
  preserves m -> preserves (se_map_err f m).
Proof. intros H w Hw. specialize (H w Hw). unfold se_map_err. by destruct (m w). Qed.

Lemma io_bind {E A B} (m : SE (Reader * W) E A) (k : A -> SE (Reader * W) E B) :
  io_preserves m -> (forall a, io_preserves (k a)) -> io_preserves (m ≫= k).
Proof.
  intros Hm Hk io Hio. specialize (Hm io Hio). cbv [mbind se_bind].
  destruct (m io) as [[a|e] io']; [by apply Hk | done].
Qed.
Lemma io_lift {E A} (m : res E A) : io_preserves (se_lift m).
Proof. by intros io Hio. Qed.
Lemma io_ret {E A} (a : A) : io_preserves (E := E) (mret a).
Proof. by intros io Hio. Qed.
Lemma io_on_world {E A} (m : SE W E A) : preserves m -> io_preserves (on_world m).
Proof. intros H [r w] Hw. specialize (H w Hw). unfold on_world. by destruct (m w). Qed.
Lemma io_on_reader {E A} (m : SE Reader E A) : io_preserves (on_reader m).
Proof. intros [r w] Hw. unfold on_reader. by destruct (m r). Qed.

Context (Hwrite : forall l, preserves (write_all l)) (Hflush : preserves write_flush).
Context (Hnow : preserves now_unix_ms) (Hnonce : preserves next_nonce).

Ltac preserves := repeat first
  [ apply Hwrite | apply Hflush | apply Hnow | apply Hnonce
  | apply preserves_lift | apply preserves_ret | apply preserves_map_err
  | apply preserves_bind; [|intros ?] ].

Lemma send_frame_preserves frame : preserves (send_frame frame).
Proof. unfold send_frame, write_frame. preserves. Qed.
Lemma send_response_preserves os key sequence operation outcome :
  preserves (send_response os key sequence operation outcome).
Proof. unfold send_response, send_frame, write_frame, authenticated. preserves. Qed.
Lemma refuse_handshake_preserves hello root category code detail :
  preserves (refuse_handshake hello root category code detail).
Proof. unfold refuse_handshake, send_frame, write_frame, authenticated. preserves. Qed.

Section one_session.
Context (os : OpenSession).
Context (Hhandle : forall operation direction,
  preserves (handler_handle (os_envelope os) operation direction)).

Lemma serve_one_preserves key hello root st : io_preserves (serve_one os key hello root st).
Proof.
  assert (forall operation category code detail,
    io_preserves (on_world (se_map_err ServerFails (send_protocol_refusal os key
       (ss_next_sequence st) operation category code detail));;
     mret (inr ExitRefused : SessionState + ServerExit))) as Hrefuse.
  { intros. apply io_bind; [|intros; apply io_ret].
    apply io_on_world, preserves_map_err, send_response_preserves. }
  unfold serve_one. apply io_bind; [apply io_on_reader|].
  intros [[[request]|]|error]; [|apply io_ret|].
  2: { apply io_bind; [|intros; apply io_ret].
       apply io_on_world, preserves_map_err, refuse_handshake_preserves. }
  apply io_bind; [apply io_on_world, preserves_map_err, Hnow|]. intros now.
  destruct (request_verify _ _ _ _ _); [|apply Hrefuse].
  destruct (request_refusal _ _ _) as [[[category code] detail]|operation]; [apply Hrefuse|].
  apply io_bind; [apply io_on_world, preserves_map_err, Hhandle|]. intros outcome.
  apply io_bind; [apply io_on_world, preserves_map_err, send_response_preserves|]. intros _.
  apply io_bind; [apply io_lift|]. intros next. destruct (recovery_is_required _); apply io_ret.
Qed.

Lemma serve_loop_preserves fuel key hello root st :
  io_preserves (serve_loop fuel os key hello root st).
Proof.
  revert st. induction fuel as [|fuel IH]; intros st; cbn [serve_loop]; [apply io_ret|].
  apply io_bind; [apply serve_one_preserves|]. intros [st'|exit]; [apply IH | apply io_ret].
Qed.
End one_session.

(** What every operation of the world and every call of the handler in an
    authenticated session preserves, a whole run preserves. *)
Lemma serve_preserves root pid :
  (forall os hello now operation direction,
    open_session_verify os hello root now = Ok tt ->
    preserves (handler_handle (os_envelope os) operation direction)) ->
  io_preserves (serve root pid).
Proof.
  intros Hhandle. unfold serve. cbv zeta beta.
  do 2 (apply io_bind; [apply io_on_world; preserves|intros ?]).
  apply io_bind; [apply io_on_world, preserves_map_err, preserves_lift|]. intros hello.
  apply io_bind; [apply io_on_world, preserves_map_err, send_frame_preserves|]. intros _.
  apply io_bind; [apply io_on_reader|]. intros [[[os]|]|error]; [|apply io_ret|].
  2: { apply io_bind; [|intros; apply io_ret].
       apply io_on_world, preserves_map_err, refuse_handshake_preserves. }
  apply io_bind; [apply io_on_world, preserves_map_err, Hnow|]. intros now.
  destruct (open_session_verify os hello root now) as [[]|error] eqn:Hv.
  2: { apply io_bind; [|intros; apply io_ret].
       apply io_on_world, preserves_map_err, refuse_handshake_preserves. }
  apply io_bind; [apply io_on_world, preserves_map_err, preserves_lift|]. intros key.
  do 2 (apply io_bind; [apply io_on_world; preserves|intros ?]).
  apply io_bind; [apply io_on_world, preserves_map_err, preserves_lift|]. intros opened.
  apply io_bind; [apply io_on_world, preserves_map_err, send_frame_preserves|]. intros _.
  intros io Hio. unfold serve_session. apply serve_loop_preserves; [|done]. eauto.
Qed.
End preserved.

(** ** The handler only adds to the log *)

Section framed.
Context {W : Type}.

Definition framed {E A} (m : SE (Traced W) E A) : Prop := forall w log,
  m (w, log) = (fst (m (w, [])), (fst (snd (m (w, []))), log ++ snd (snd (m (w, []))))).

Lemma framed_bind {E A B} (m : SE (Traced W) E A) (k : A -> SE (Traced W) E B) :
  framed m -> (forall a, framed (k a)) -> framed (m ≫= k).
Proof.
  intros Hm Hk w log. cbv [mbind se_bind]. rewrite (Hm w log).
  destruct (m (w, [])) as [[a|e] [w1 l1]]; cbn [fst snd]; [|done].
  rewrite (Hk a w1 (log ++ l1)), (Hk a w1 l1). cbn [fst snd]. by rewrite (assoc_L (++)).
Qed.
Lemma framed_lift {E A} (m : res E A) : framed (se_lift m).
Proof. intros w log. unfold se_lift. cbn. by rewrite app_nil_r. Qed.
Lemma framed_map_err {E F A} (f : E -> F) (m : SE (Traced W) E A) :
  framed m -> framed (se_map_err f m).
Proof. intros H w log. unfold se_map_err. rewrite (H w log). by destruct (m (w, [])) as [? []]. Qed.
Lemma framed_try {E F A} (m : SE (Traced W) E A) : framed m -> framed (se_try (F := F) m).
Proof. intros H w log. unfold se_try. rewrite (H w log). by destruct (m (w, [])) as [? []]. Qed.
Lemma framed_passing {E A} (m : SE W E A) : framed (passing m).
Proof. intros w log. unfold passing. destruct (m w). cbn. by rewrite app_nil_r. Qed.
Lemma framed_logged {E A} (m : SE W E A) note : framed (logged m note).
Proof. intros w log. unfold logged. by destruct (m w). Qed.
Lemma framed_returning (m : SE (Traced W) Early HandlerOutcome) : framed m -> framed (returning m).
Proof.
  intros H w log. unfold returning. rewrite (H w log). by destruct (m (w, [])) as [[|[]] []].
Qed.
Lemma framed_outcome_of (m : SE (Traced W) Early HandlerOutcome) :
  framed m -> framed (outcome_of m).
Proof.
  intros H w log. unfold outcome_of. rewrite (framed_returning m H w log).
  by destruct (returning m (w, [])) as [[] []].
Qed.

Context `{B3 : Blake3} `{UU : UuidCrate} `{UC : UnicodeCase} `{TG : Target}.
Context `{SF : SafeFileOperations W} `{VP : VerifyingPlatform W} `{HH : HandlerHost W}.

Lemma framed_poll : framed (poll_cancelled (W := Traced W)).
Proof.
  intros w log. unfold poll_cancelled. cbn [is_cancelled traced_host].
  destruct (is_cancelled w). cbn. by rewrite app_nil_r.
Qed.

Lemma framed_transient {A} attempt (m : SE (Traced W) PlatformError A) :
  framed m -> framed (transient attempt m).
Proof.
  intros H. unfold transient. apply framed_bind; [by apply framed_try|]. intros [a|e];
    [|destruct (retry_transient_before_mutation e attempt)]; apply (framed_lift).
Qed.

Ltac framed := repeat first
  [ apply framed_poll | apply framed_passing | apply framed_logged | apply framed_transient
  | apply framed_try | apply framed_map_err | apply framed_lift
  | apply framed_bind; [|intros ?]
  | match goal with
    | |- framed (match ?x with _ => _ end) => destruct x
    | |- framed (if ?x then _ else _) => destruct x
    end ].

Lemma framed_rename_attempts source destination expected maximum original attempts last :
  framed (rename_attempts (W := Traced W) source destination expected maximum original attempts last).
Proof.
  revert last. induction attempts as [|attempt attempts IH]; intros last; cbn [rename_attempts].
  - apply framed_lift.
  - apply framed_bind; [unfold rename_attempt; framed|]. intros [[]|class]; [apply framed_lift|apply IH].
Qed.

Lemma framed_rename root source destination original expected maximum :
  framed (rename (W := Traced W) root source destination original expected maximum).
Proof.
  unfold rename. do 3 (apply framed_bind; [apply framed_lift || apply framed_map_err, framed_lift|intros ?]).
  cbv zeta. apply framed_bind; [apply framed_rename_attempts|]. intros [n last]. framed.
Qed.

Lemma framed_handle envelope operation direction :
  framed (handle (W := Traced W) envelope operation direction).
Proof.
  unfold handle. apply framed_returning.
  apply framed_bind; [unfold validate_envelope_root; framed|]. intros root.
  do 2 (apply framed_bind; [apply framed_lift || apply framed_map_err, framed_lift|intros _]).
  apply framed_bind; [framed|]. intros _. unfold dispatch, create_directory, remove_directory.
  destruct (aom_primitive operation), direction; cbv zeta; try apply framed_rename;
    try (unfold rename_forward; apply framed_bind; [apply framed_lift|intros _];
      apply framed_bind; [apply framed_outcome_of, framed_rename|intros ?]); framed.
Qed.
End framed.

(** ** End to end *)

Section worker.
Context {W : Type} `{B3 : Blake3} `{UU : UuidCrate} `{AS : AuthSerde} `{UC : UnicodeCase} `{TG : Target}.
Context `{SF : SafeFileOperations W} `{VP : VerifyingPlatform W} `{HH : HandlerHost W}.
Context `{WR : Writer W} `{SH : ServerHost W} `{TF : ToVec ExecutorFrame}.
Context `{FH : FromSlice CoordinatorHandshakeFrame} `{FC : FromSlice CoordinatorSessionFrame}.

#[local] Instance traced_writer : Writer (Traced W) := {|
  write_all l := passing (write_all l);
  write_flush := passing write_flush
|}.
#[local] Instance traced_server : ServerHost (Traced W) := {|
  now_unix_ms := passing now_unix_ms;
  next_nonce := passing next_nonce
|}.

(** A mutation the root authority stands behind. *)
Definition authorised_mutation (root : bytes32) (eff : Effect) : Prop :=
  exists open_session hello now operation direction op error,
    open_session_verify open_session hello root now = Ok tt
    /\ eff = EffFs op error
    /\ handler_allows (os_envelope open_session) operation direction op.

Lemma passing_preserves {E A} (J : list Effect -> Prop) (m : SE W E A) :
  preserves (fun w : Traced W => J (snd w)) (passing m).
Proof. intros [w log] Hw. unfold passing. by destruct (m w). Qed.

Lemma handle_preserves root os hello now operation direction :
  open_session_verify os hello root now = Ok tt ->
  preserves (fun w : Traced W => Forall (authorised_mutation root) (snd w))
    (handle (os_envelope os) operation direction).
Proof.
  intros Hv [w log] Hlog. rewrite framed_handle. cbn [fst snd] in *. apply Forall_app_2; [done|].
  pose proof (handle_wp (os_envelope os) operation direction w) as (_ & Hall & _).
  eapply Forall_impl; [exact Hall|]. intros eff (op & error & -> & Hop).
  by exists os, hello, now, operation, direction, op, error.
Qed.

End worker.

(** ** Witness: the session of ExecSession.v with the native handler *)

#[local] Existing Instances sample_uuid sample_blake3 ascii_unicode_case sample_auth_serde
  sample_handshake_from sample_request_from sample_frame_to sample_writer sample_server
  sample_verifying sample_host sample_target.

#[local] Instance willing_platform : SafeFileOperations nat := {|
  rename_same_volume_no_replace _ := fun n => (Ok {| ro_observed_identity := sample_identity |}, n);
  create_directory_no_replace _ := fun n => (Ok tt, n);
  remove_directory_if_empty _ := fun n => (Ok tt, n)
|}.

Definition sample_worker :=
  serve (W := Traced nat) (WR := traced_writer) (SH := traced_server) (EH := native_handler)
    sample_key 10 (sample_input, (0%nat, [])).

